(** * microshell: the argument lexer, the chain builder and the chain executor

    A shallow embedding of [microshell.c] (processArgs, buildCommandChains,
    executeCommandChain, executeSingleCommand, executePipedCommands) and the
    properties of the specification that were checked against it.

    Conventions of the embedding.
    - A C [int] is a [Z]; the counters and offsets of the program are
      bounded by [MAX_INPUT_LEN], so none of them wraps around.
    - A C string is a [list ascii]; reading at or after its end yields the
      terminating NUL.  A pointer into the input is an index into that list.
    - A [char] array is a function from offsets to characters and a pointer
      into it is an offset; [memcpy] is a function update.  The arrays of
      [main] have [MAX_INPUT_LEN] cells and [fgets] reads at most
      [MAX_INPUT_LEN - 1] characters, which keeps every write in range. *)

From Stdlib Require Import ZArith Ascii String List Bool Lia.
Import ListNotations.
Open Scope Z_scope.

(** ** Characters and stop reasons *)

Definition NUL : ascii := "000"%char.
Definition BACKSLASH : ascii := "092"%char.
Definition SQUOTE : ascii := "039"%char.
Definition DQUOTE : ascii := "034"%char.

(** [#define ISWHITESPACE(c) (c == ' ' || c == '\t' || c == '\n')] *)
Definition ISWHITESPACE (ch : ascii) : bool :=
  ((ch =? " ") || (ch =? "009") || (ch =? "010"))%char.

(** [#define ISCONTROLCHAR(c) (c == ';' || c == '&' || c == '|' || c == '<' || c == '>')] *)
Definition ISCONTROLCHAR (ch : ascii) : bool :=
  ((ch =? ";") || (ch =? "&") || (ch =? "|") || (ch =? "<") || (ch =? ">"))%char.

Inductive stop_reason : Set :=
| SR_DONE | SR_ERROR | SR_SEQ_CHAIN | SR_SEQ_AND | SR_SEQ_OR | SR_PIPE
| SR_REDIRECT_IN | SR_REDIRECT_IN_HERE | SR_REDIRECT_OUT
| SR_REDIRECT_OUT_APPEND | SR_BACKGROUND.

(** The integer each [SR_*] macro expands to. *)
Definition sr_code (r : stop_reason) : Z :=
  match r with
  | SR_DONE => 0 | SR_ERROR => 1 | SR_SEQ_CHAIN => 2 | SR_SEQ_AND => 3
  | SR_SEQ_OR => 4 | SR_PIPE => 5 | SR_REDIRECT_IN => 6
  | SR_REDIRECT_IN_HERE => 7 | SR_REDIRECT_OUT => 8
  | SR_REDIRECT_OUT_APPEND => 9 | SR_BACKGROUND => 10
  end.

Definition stop_reason_eqb (a b : stop_reason) : bool := sr_code a =? sr_code b.

(** ** Memory: the input line, the argument buffer, the argument list *)

(** [*(input + i)]: the character at index [i], NUL at and after the end. *)
Definition char_at (input : list ascii) (i : Z) : ascii :=
  if i <? 0 then NUL else nth (Z.to_nat i) input NUL.

(** [char argBuffer[]]. *)
Definition buffer := Z -> ascii.

(** [arg_t argList[]]: each cell is NULL ([None]) or points into the
    argument buffer ([Some offset]). *)
Definition arg_t := option Z.
Definition arglist := Z -> arg_t.

(** What [memset(.., 0, ..)] in [main] leaves in the two arrays. *)
Definition zero_buffer : buffer := fun _ => NUL.
Definition null_arglist : arglist := fun _ => None.

(** [memcpy(buf + dst, src, len src)]. *)
Definition memcpy (buf : buffer) (dst : Z) (src : list ascii) : buffer :=
  fun i =>
    if (dst <=? i) && (i <? dst + Z.of_nat (length src))
    then nth (Z.to_nat (i - dst)) src NUL
    else buf i.

(** [list[i] = p]. *)
Definition store_arg (l : arglist) (i : Z) (p : arg_t) : arglist :=
  fun j => if j =? i then p else l j.

(** The C string that starts at [buf + off], read for at most [fuel] cells. *)
Fixpoint cstring_at (fuel : nat) (buf : buffer) (off : Z) : list ascii :=
  match fuel with
  | O => []
  | S f => if (buf off =? NUL)%char then []
           else buf off :: cstring_at f buf (off + 1)
  end.

Definition MAX_INPUT_LEN : nat := 256.

(** The NULL-terminated argument vector that starts at [list + i]. *)
Fixpoint argv_at (fuel : nat) (buf : buffer) (l : arglist) (i : Z)
  : list (list ascii) :=
  match fuel with
  | O => []
  | S f => match l i with
           | None => []
           | Some p => cstring_at MAX_INPUT_LEN buf p :: argv_at f buf l (i + 1)
           end
  end.

(** ** The lexer: [processArgs] *)

(** The local variables of [processArgs] together with the cells it writes.
    [curArg] holds the first [curArgLen] characters of the C array. *)
Record lex_state : Type := mkLex {
  escaped : bool;
  quoted : bool;
  quoteChar : ascii;
  processed : Z;
  c : Z;
  curArg : list ascii;
  argsOffset : Z;
  argCount : Z;
  argBuffer : buffer;
  argList : arglist
}.

Definition curArgLen (st : lex_state) : Z := Z.of_nat (length (curArg st)).

Definition set_escaped (b : bool) (st : lex_state) : lex_state :=
  mkLex b (quoted st) (quoteChar st) (processed st) (c st) (curArg st)
        (argsOffset st) (argCount st) (argBuffer st) (argList st).

Definition set_quote (q : bool) (qc : ascii) (st : lex_state) : lex_state :=
  mkLex (escaped st) q qc (processed st) (c st) (curArg st)
        (argsOffset st) (argCount st) (argBuffer st) (argList st).

(** [c += dc; processed += dp]. *)
Definition advance (dc dp : Z) (st : lex_state) : lex_state :=
  mkLex (escaped st) (quoted st) (quoteChar st) (processed st + dp) (c st + dc)
        (curArg st) (argsOffset st) (argCount st) (argBuffer st) (argList st).

(** [curArg[curArgLen++] = ch; escaped = 0]. *)
Definition push_char (ch : ascii) (st : lex_state) : lex_state :=
  mkLex false (quoted st) (quoteChar st) (processed st) (c st)
        (curArg st ++ [ch]) (argsOffset st) (argCount st) (argBuffer st)
        (argList st).

(** Lines 157-161: the pending argument is copied behind the arguments
    already in the buffer, its address is stored in the next free cell of
    the list, and [curArg] is cleared.  [bufBase] and [listBase] are the
    offsets at which the caller's pointers [argBuffer] and [argList] point
    into the two arrays. *)
Definition flush_arg (bufBase listBase : Z) (st : lex_state) : lex_state :=
  mkLex (escaped st) (quoted st) (quoteChar st) (processed st) (c st)
        []
        (argsOffset st + (curArgLen st + 1))
        (argCount st + 1)
        (memcpy (argBuffer st) (bufBase + argsOffset st) (curArg st))
        (store_arg (argList st) (listBase + argCount st)
                   (Some (bufBase + argsOffset st))).

(** [while(ISWHITESPACE( *c)) { ++c; ++processed; }]: the number of rounds,
    counted on the text that starts at [c]. *)
Fixpoint skip_ws (l : list ascii) : Z :=
  match l with
  | ch :: l' => if ISWHITESPACE ch then 1 + skip_ws l' else 0
  | [] => 0
  end.

Inductive lex_iter_result : Type :=
| Continue (st : lex_state)
| Break (st : lex_state) (r : stop_reason).

(** The two statements [++c; ++processed;] that end a round of the loop. *)
Definition next_round (st : lex_state) : lex_iter_result :=
  Continue (advance 1 1 st).

(** Lines 163-211: after an argument was flushed. *)
Definition after_flush (input : list ascii) (st1 : lex_state) : lex_iter_result :=
  let n := skip_ws (skipn (Z.to_nat (c st1)) input) in
  let st2 := advance n n st1 in
  let ch := char_at input (c st2) in
  let ch1 := char_at input (c st2 + 1) in
  if (ch =? ";")%char then Break st2 SR_SEQ_CHAIN
  else if ((ch =? "|") && (ch1 =? "|"))%char then Break (advance 0 1 st2) SR_SEQ_OR
  else if (ch =? "|")%char then Break st2 SR_PIPE
  else if ((ch =? "&") && (ch1 =? "&"))%char then Break (advance 0 1 st2) SR_SEQ_AND
  else if (ch =? "&")%char then Break st2 SR_BACKGROUND
  else if ((ch =? ">") && (ch1 =? ">"))%char then Break (advance 0 1 st2) SR_REDIRECT_OUT_APPEND
  else if (ch =? ">")%char then Break st2 SR_REDIRECT_OUT
  else if ((ch =? "<") && (ch1 =? "<"))%char then Break (advance 0 1 st2) SR_REDIRECT_IN_HERE
  else if (ch =? "<")%char then Break st2 SR_REDIRECT_IN
  else next_round (advance (-1) (-1) st2).

(** One round of the [while(1)] loop, lines 134-225. *)
Definition lex_iter (input : list ascii) (bufBase listBase : Z) (st : lex_state)
  : lex_iter_result :=
  let ch := char_at input (c st) in
  if (ch =? NUL)%char then Break st SR_DONE
  else if (ch =? BACKSLASH)%char && negb (escaped st) then
    next_round (set_escaped true st)
  else if ((ch =? SQUOTE) || (ch =? DQUOTE))%char && negb (escaped st) then
    if negb (quoted st) then next_round (set_quote true ch st)
    else if (ch =? quoteChar st)%char then next_round (set_quote false NUL st)
    else next_round st
  else if (ISWHITESPACE ch || ISCONTROLCHAR ch) && negb (escaped st || quoted st) then
    if 0 <? curArgLen st then after_flush input (flush_arg bufBase listBase st)
    else if ISCONTROLCHAR ch then Break st SR_ERROR
    else next_round st
  else next_round (push_char ch st).

(** The loop itself; [fuel] bounds the number of rounds. *)
Fixpoint lex_loop (fuel : nat) (input : list ascii) (bufBase listBase : Z)
         (st : lex_state) : option (lex_state * stop_reason) :=
  match fuel with
  | O => None
  | S f =>
      match lex_iter input bufBase listBase st with
      | Break st' r => Some (st', r)
      | Continue st' => lex_loop f input bufBase listBase st'
      end
  end.

(** What a call hands back: the return value and the out-parameters. *)
Record lex_result : Type := mkLexResult {
  r_processed : Z;          (* return value *)
  r_argChars : Z;           (* *argChars *)
  r_argBuffer : buffer;     (* the characters behind argBuffer *)
  r_argCount : Z;           (* *argCount *)
  r_argList : arglist;      (* the cells behind argList *)
  r_stopReason : stop_reason
}.

Definition lex_init (buf : buffer) (l : arglist) : lex_state :=
  mkLex false false NUL 0 0 [] 0 0 buf l.

(** Lines 228-231. *)
Definition lex_finish (sr : lex_state * stop_reason) : lex_result :=
  let (st, r) := sr in
  mkLexResult (processed st + 1) (argsOffset st) (argBuffer st)
              (argCount st) (argList st) r.

(** [processArgs(input, &argChars, buf + bufBase, &argCount, l + listBase,
    &stopReason)].  Every round but the last moves [c] forward, so
    [length input + 1] rounds are enough (see [processArgs_total]). *)
Definition processArgs (input : list ascii) (buf : buffer) (bufBase : Z)
           (l : arglist) (listBase : Z) : option lex_result :=
  option_map lex_finish
    (lex_loop (S (length input)) input bufBase listBase (lex_init buf l)).

(** The arguments a call produced, read back from the two arrays. *)
Definition result_args (listBase : Z) (r : lex_result) : list (list ascii) :=
  argv_at (Z.to_nat (r_argCount r)) (r_argBuffer r) (r_argList r) listBase.

(** The view of one call on fresh (zeroed) arrays. *)
Definition lex (input : string)
  : option (Z * list string * stop_reason) :=
  match processArgs (list_ascii_of_string input) zero_buffer 0 null_arglist 0 with
  | None => None
  | Some r => Some (r_processed r,
                    map string_of_list_ascii (result_args 0 r),
                    r_stopReason r)
  end.


(** [n] consecutive rounds of the loop, none of which leaves it. *)
Fixpoint lex_rounds (n : nat) (input : list ascii) (bufBase listBase : Z)
         (st : lex_state) : option lex_state :=
  match n with
  | O => Some st
  | S m =>
      match lex_iter input bufBase listBase st with
      | Continue st' => lex_rounds m input bufBase listBase st'
      | Break _ _ => None
      end
  end.

(** The characters of [s] stored one after the other in [curArg]. *)
Definition push_chars (s : list ascii) (st : lex_state) : lex_state :=
  fold_left (fun a ch => push_char ch a) s st.

(** A character that is neither a quote, nor a backslash, nor the end of
    the input. *)
Definition plain_char (ch : ascii) : Prop :=
  ch <> SQUOTE /\ ch <> DQUOTE /\ ch <> BACKSLASH /\ ch <> NUL.

(** ** Command nodes *)

(** [command_t].  [cmd_argList] is the offset of the node's argument vector
    in the argument list, [next] the index of the following node in the
    array of commands ([None] is the null pointer). *)
Record command_t : Type := mkCommand {
  cmd_argList : Z;
  fdIn : Z;
  fdOut : Z;
  stopOnFailure : bool;
  stopOnSuccess : bool;
  piped : bool;
  background : bool;
  next : option nat
}.

Definition STDIN_FILENO : Z := 0.
Definition STDOUT_FILENO : Z := 1.

Definition set_fdIn (v : Z) (k : command_t) : command_t :=
  mkCommand (cmd_argList k) v (fdOut k) (stopOnFailure k) (stopOnSuccess k)
            (piped k) (background k) (next k).
Definition set_fdOut (v : Z) (k : command_t) : command_t :=
  mkCommand (cmd_argList k) (fdIn k) v (stopOnFailure k) (stopOnSuccess k)
            (piped k) (background k) (next k).
Definition set_stopOnFailure (v : bool) (k : command_t) : command_t :=
  mkCommand (cmd_argList k) (fdIn k) (fdOut k) v (stopOnSuccess k)
            (piped k) (background k) (next k).
Definition set_stopOnSuccess (v : bool) (k : command_t) : command_t :=
  mkCommand (cmd_argList k) (fdIn k) (fdOut k) (stopOnFailure k) v
            (piped k) (background k) (next k).
Definition set_piped (v : bool) (k : command_t) : command_t :=
  mkCommand (cmd_argList k) (fdIn k) (fdOut k) (stopOnFailure k)
            (stopOnSuccess k) v (background k) (next k).
Definition set_background (v : bool) (k : command_t) : command_t :=
  mkCommand (cmd_argList k) (fdIn k) (fdOut k) (stopOnFailure k)
            (stopOnSuccess k) (piped k) v (next k).
Definition set_next (v : option nat) (k : command_t) : command_t :=
  mkCommand (cmd_argList k) (fdIn k) (fdOut k) (stopOnFailure k)
            (stopOnSuccess k) (piped k) (background k) v.

(** [p->field = ..] on the array of commands. *)
Fixpoint update_at (i : nat) (f : command_t -> command_t) (l : list command_t)
  : list command_t :=
  match l, i with
  | [], _ => []
  | k :: l', O => f k :: l'
  | k :: l', S i' => k :: update_at i' f l'
  end.

(** [int *getFd]: null, or the address of one of the two descriptors of a
    node. *)
Inductive fd_ref : Type :=
| FdIn (i : nat)
| FdOut (i : nat).

(** [*getFd = v]. *)
Definition store_fd (p : fd_ref) (v : Z) (l : list command_t) : list command_t :=
  match p with
  | FdIn i => update_at i (set_fdIn v) l
  | FdOut i => update_at i (set_fdOut v) l
  end.

(** The flags of <fcntl.h> (Linux values). *)
Definition O_RDONLY : Z := 0.
Definition O_WRONLY : Z := 1.
Definition O_CREAT : Z := 64.
Definition O_TRUNC : Z := 512.
Definition O_APPEND : Z := 1024.

(** The lines written to the standard error stream. *)
Inductive diagnostic : Type :=
| Error_reading_filename
| Error_opening_file (filename : list ascii)
| Unrecognized_command_input.

(** ** The chain builder: [buildCommandChains] *)

(** The local variables of [buildCommandChains], the three arrays it writes
    and the diagnostics it has printed.  [chains] holds the cells of the
    array of commands that were initialised so far, [commandCount] of them. *)
Record build_state : Type := mkBuild {
  b_argCount : Z;
  argTotal : Z;
  b_argChars : Z;
  argCharsTotal : Z;
  inputPos : Z;
  stopReason : stop_reason;
  chainCount : Z;
  commandCount : nat;
  continueLast : bool;
  getFd : option fd_ref;
  oflags : Z;
  com : option nat;
  lastCom : option nat;
  b_argBuffer : buffer;
  b_argList : arglist;
  chains : list command_t;
  stderr : list diagnostic
}.

(** The state after the call of [processArgs] at lines 260 and 282. *)
Definition after_lex (r : lex_result) (s : build_state) : build_state :=
  mkBuild (r_argCount r) (argTotal s) (r_argChars r) (argCharsTotal s)
          (inputPos s + r_processed r) (r_stopReason r)
          (chainCount s) (commandCount s) (continueLast s) (getFd s)
          (oflags s) (com s) (lastCom s) (r_argBuffer r) (r_argList r)
          (chains s) (stderr s).

(** [fprintf(stderr, ..)]. *)
Definition report (d : diagnostic) (s : build_state) : build_state :=
  mkBuild (b_argCount s) (argTotal s) (b_argChars s) (argCharsTotal s)
          (inputPos s) (stopReason s) (chainCount s) (commandCount s)
          (continueLast s) (getFd s) (oflags s) (com s) (lastCom s)
          (b_argBuffer s) (b_argList s) (chains s) (stderr s ++ [d]).

(** [argCharsTotal += argChars; argTotal += argCount+1;] *)
Definition keep_args (s : build_state) : build_state :=
  mkBuild (b_argCount s) (argTotal s + (b_argCount s + 1)) (b_argChars s)
          (argCharsTotal s + b_argChars s)
          (inputPos s) (stopReason s) (chainCount s) (commandCount s)
          (continueLast s) (getFd s) (oflags s) (com s) (lastCom s)
          (b_argBuffer s) (b_argList s) (chains s) (stderr s).

Definition set_chains (l : list command_t) (s : build_state) : build_state :=
  mkBuild (b_argCount s) (argTotal s) (b_argChars s) (argCharsTotal s)
          (inputPos s) (stopReason s) (chainCount s) (commandCount s)
          (continueLast s) (getFd s) (oflags s) (com s) (lastCom s)
          (b_argBuffer s) (b_argList s) l (stderr s).

Definition set_continueLast (v : bool) (s : build_state) : build_state :=
  mkBuild (b_argCount s) (argTotal s) (b_argChars s) (argCharsTotal s)
          (inputPos s) (stopReason s) (chainCount s) (commandCount s)
          v (getFd s) (oflags s) (com s) (lastCom s)
          (b_argBuffer s) (b_argList s) (chains s) (stderr s).

(** [getFd = p; oflags = fl;] *)
Definition set_getFd (p : option fd_ref) (fl : Z) (s : build_state) : build_state :=
  mkBuild (b_argCount s) (argTotal s) (b_argChars s) (argCharsTotal s)
          (inputPos s) (stopReason s) (chainCount s) (commandCount s)
          (continueLast s) p fl (com s) (lastCom s)
          (b_argBuffer s) (b_argList s) (chains s) (stderr s).

Definition set_lastCom (p : option nat) (s : build_state) : build_state :=
  mkBuild (b_argCount s) (argTotal s) (b_argChars s) (argCharsTotal s)
          (inputPos s) (stopReason s) (chainCount s) (commandCount s)
          (continueLast s) (getFd s) (oflags s) (com s) p
          (b_argBuffer s) (b_argList s) (chains s) (stderr s).

(** [++chainCount; lastCom = 0;] *)
Definition close_chain (s : build_state) : build_state :=
  mkBuild (b_argCount s) (argTotal s) (b_argChars s) (argCharsTotal s)
          (inputPos s) (stopReason s) (chainCount s + 1) (commandCount s)
          (continueLast s) (getFd s) (oflags s) (com s) None
          (b_argBuffer s) (b_argList s) (chains s) (stderr s).

(** Lines 295-303: [com = chains+commandCount++] and the initialisation of
    the new cell. *)
Definition new_command (s : build_state) : build_state :=
  mkBuild (b_argCount s) (argTotal s) (b_argChars s) (argCharsTotal s)
          (inputPos s) (stopReason s) (chainCount s) (S (commandCount s))
          (continueLast s) (getFd s) (oflags s)
          (Some (commandCount s)) (lastCom s)
          (b_argBuffer s) (b_argList s)
          (chains s ++ [mkCommand (argTotal s) STDIN_FILENO STDOUT_FILENO
                                  false false false false None])
          (stderr s).

(** What one round of the [do .. while] loop does to the state.  [None] is a
    dereference of a pointer that is null or was never set, or a lexer that
    ran out of fuel; neither happens (see [buildCommandChains_inv]). *)
Definition on_com (f : command_t -> command_t) (s : build_state)
  : option build_state :=
  match com s with
  | Some i => Some (set_chains (update_at i f (chains s)) s)
  | None => None
  end.

Definition bind {A B : Type} (x : option A) (f : A -> option B) : option B :=
  match x with
  | Some a => f a
  | None => None
  end.

(** The [switch(stopReason)] of lines 315-356. *)
Definition react (s : build_state) : option build_state :=
  match stopReason s with
  | SR_SEQ_AND =>
      bind (on_com (set_stopOnFailure true) s) (fun s1 =>
      Some (set_lastCom (com s1) s1))
  | SR_SEQ_OR =>
      bind (on_com (set_stopOnSuccess true) s) (fun s1 =>
      Some (set_lastCom (com s1) s1))
  | SR_PIPE =>
      bind (on_com (set_piped true) s) (fun s1 =>
      bind (on_com (set_stopOnFailure true) s1) (fun s2 =>
      Some (set_lastCom (com s2) s2)))
  | SR_REDIRECT_IN =>
      bind (com s) (fun i => Some (set_getFd (Some (FdIn i)) O_RDONLY s))
  | SR_REDIRECT_OUT =>
      bind (com s) (fun i =>
      Some (set_getFd (Some (FdOut i))
                      (Z.lor (Z.lor O_WRONLY O_CREAT) O_TRUNC) s))
  | SR_REDIRECT_OUT_APPEND =>
      bind (com s) (fun i =>
      Some (set_getFd (Some (FdOut i))
                      (Z.lor (Z.lor O_WRONLY O_CREAT) O_APPEND) s))
  | SR_BACKGROUND =>
      on_com (set_background true) (set_continueLast true s)
  | SR_SEQ_CHAIN | SR_DONE | SR_ERROR | SR_REDIRECT_IN_HERE =>
      Some (close_chain s)
  end.

(** Lines 295-307: the new node, made the successor of the node [lastCom]
    points to, if any. *)
Definition with_new_command (s1 : build_state) : build_state :=
  let s' := new_command s1 in
  match lastCom s' with
  | Some j => set_chains (update_at j (set_next (com s')) (chains s')) s'
  | None => s'
  end.

Section Builder.

(** [open(filename, oflags, mode)]: the descriptor, or a negative number
    when the file cannot be opened. *)
Variable sys_open : list ascii -> Z -> Z.

Variable input : list ascii.

(** The call [processArgs(input+inputPos, &argChars, argBuffer+argCharsTotal,
    &argCount, argList+argTotal, &stopReason)] and [inputPos += ..]. *)
Definition call_lexer (s : build_state) : option build_state :=
  bind (processArgs (skipn (Z.to_nat (inputPos s)) input)
                    (b_argBuffer s) (argCharsTotal s)
                    (b_argList s) (argTotal s))
       (fun r => Some (after_lex r s)).

(** Lines 259-279: the text that follows is the name of a file. *)
Definition redirect_round (p : fd_ref) (s : build_state) : option build_state :=
  bind (call_lexer s) (fun s1 =>
  if stop_reason_eqb (stopReason s1) SR_ERROR || negb (b_argCount s1 =? 1)
  then Some (report Error_reading_filename s1)            (* continue *)
  else
    bind (b_argList s1 (argTotal s1)) (fun fp =>
    let filename := cstring_at MAX_INPUT_LEN (b_argBuffer s1) fp in
    let s2 := keep_args s1 in
    let fd := sys_open filename (oflags s2) in
    let s3 := set_chains (store_fd p fd (chains s2)) s2 in
    if fd <? 0
    then Some (report (Error_opening_file filename) s3)   (* continue *)
    else react (set_getFd None (oflags s3) s3))).

(** Lines 281-313: the text that follows is a command. *)
Definition command_round (s : build_state) : option build_state :=
  bind (call_lexer s) (fun s1 =>
  if stop_reason_eqb (stopReason s1) SR_ERROR && negb (continueLast s1)
  then Some (report Unrecognized_command_input s1)        (* continue *)
  else if negb (continueLast s1) && (b_argCount s1 =? 0)
  then Some s1                                            (* continue *)
  else
    let s2 :=
      if negb (continueLast s1) then with_new_command s1 else s1 in
    react (set_continueLast false (keep_args s2))).

(** The body of the [do .. while] loop. *)
Definition build_round (s : build_state) : option build_state :=
  match getFd s with
  | Some p => redirect_round p s
  | None => command_round s
  end.

(** [do { .. } while(stopReason != SR_DONE);] *)
Fixpoint build_loop (fuel : nat) (s : build_state) : option build_state :=
  match fuel with
  | O => None
  | S f =>
      bind (build_round s) (fun s' =>
      if stop_reason_eqb (stopReason s') SR_DONE then Some s'
      else build_loop f s')
  end.

End Builder.

(** The state at line 258.  [stopReason] and [com] are not initialised by
    the program; the first round sets [stopReason] before it is read, and
    [com] is modelled as the null pointer. *)
Definition build_init (buf : buffer) (l : arglist) : build_state :=
  mkBuild 0 0 0 0 0 SR_DONE 0 0 false None 0 None None buf l [] [].

(** [buildCommandChains(input, argBuffer, argList, chains)] on the arrays
    that [main] has cleared.  The result is the final state: the return
    value is [chainCount], the nodes are in [chains]. *)
Definition buildCommandChains (sys_open : list ascii -> Z -> Z)
           (input : list ascii) : option build_state :=
  build_loop sys_open input (S (length input))
             (build_init zero_buffer null_arglist).

(** A line as [fgets] stores it: the text and the newline that ends it. *)
Definition line (text : string) : list ascii :=
  list_ascii_of_string text ++ ["010"%char].

(** What the final state of the builder shows of a line: the number of
    chains, the target of a pending redirection, and for every node its
    descriptors, its flags and its successor. *)
Definition summary (b : build_state)
  : Z * option fd_ref * list (Z * Z * (bool * bool * bool * bool) * option nat) :=
  (chainCount b, getFd b,
   map (fun k => (fdIn k, fdOut k,
                  (stopOnFailure k, stopOnSuccess k, piped k, background k),
                  next k)) (chains b)).

(** ** Processes *)

(** What a piece of code does to the process that runs it: it returns a
    value, or it calls [exit] and the process ends with that code. *)
Inductive outcome (A : Type) : Type :=
| Returned (a : A)
| Exited (code : Z).
Arguments Returned {A} a.
Arguments Exited {A} code.

(** The code with which a process ends when it runs [exit(f())]. *)
Definition code_of (o : outcome Z) : Z :=
  match o with
  | Returned v => v
  | Exited v => v
  end.

(** The status [waitpid] stores for a child that ended with [exit(code)]:
    the low eight bits of the code, in bits 8 to 15. *)
Definition wait_status (code : Z) : Z := Z.shiftl (Z.land code 255) 8.

(** [WEXITSTATUS] of <sys/wait.h>: [((status) & 0xff00) >> 8]. *)
Definition WEXITSTATUS (status : Z) : Z := Z.shiftr (Z.land status 65280) 8.

Definition exit_word : list ascii := list_ascii_of_string "exit".

Section Executor.

(** The arrays the builder filled. *)
Variable argBuf : buffer.
Variable argLst : arglist.
Variable commands : list command_t.

(** The code with which the program started for the node at an index ends
    (1 when [execvp] fails).  [fork] and [pipe] are taken to succeed and
    children to end by [exit]; the wiring of descriptors has no part in
    the statuses and is left out. *)
Variable exit_code : nat -> Z.

(** The value the uninitialised [allStatus] happens to hold. *)
Variable indeterminate : Z.

(** [command->argList[0]]. *)
Definition program_name (k : command_t) : option (list ascii) :=
  option_map (cstring_at MAX_INPUT_LEN argBuf) (argLst (cmd_argList k)).

Definition list_ascii_eqb (a b : list ascii) : bool :=
  String.eqb (string_of_list_ascii a) (string_of_list_ascii b).

(** [executeSingleCommand(commands + i)]: the status it returns and the
    nodes for which a program was started.  [None] is a dereference of a
    null pointer or of a cell that was never filled. *)
Definition executeSingleCommand (i : nat) : option (outcome Z * list nat) :=
  bind (nth_error commands i) (fun k =>
  bind (program_name k) (fun name =>
  if list_ascii_eqb name exit_word then Some (Exited 0, [])
  else Some (Returned (WEXITSTATUS (wait_status (exit_code i))), [i]))).

(** [executePipedCommands(commands + left, right)]; [fuel] bounds the
    depth of the recursion. *)
Fixpoint executePipedCommands (fuel : nat) (left : nat) (right : option nat)
  : option (outcome Z * list nat) :=
  match fuel with
  | O => None
  | S f =>
      bind (nth_error commands left) (fun l =>
      match piped l, right with
      | true, Some r =>
          bind (nth_error commands r) (fun rn =>
          (* the first child: exit(executePipedCommands(right, right->next)) *)
          bind (executePipedCommands f r (next rn)) (fun rres =>
          (* the second child: exit(executeSingleCommand(left)) *)
          bind (executeSingleCommand left) (fun lres =>
          let childExitStatus := WEXITSTATUS (wait_status (code_of (fst rres))) in
          let exitStatus := WEXITSTATUS (wait_status (code_of (fst lres))) in
          Some (Returned (exitStatus + WEXITSTATUS childExitStatus),
                snd rres ++ snd lres))))
      | _, _ => executeSingleCommand left
      end)
  end.

(** The local variables of [executeCommandChain], [*commandCount] and the
    nodes for which a program was started. *)
Record exec_state : Type := mkExec {
  chain : option nat;
  status : Z;
  allStatus : Z;
  stopped : Z;
  e_commandCount : Z;
  launched : list nat
}.

(** [while(chain->piped){ ++( *commandCount); chain = chain->next; }] *)
Fixpoint skip_piped (fuel : nat) (ch : option nat) (count : Z)
  : option (option nat * Z) :=
  match fuel with
  | O => None
  | S f =>
      bind ch (fun i =>
      bind (nth_error commands i) (fun k =>
      if piped k then skip_piped f (next k) (count + 1)
      else Some (ch, count)))
  end.

(** [commandCount] is the address of [chainSkip] in [main]: the test
    [!commandCount] of lines 385 and 396 never holds. *)
Definition commandCount_is_null : bool := false.

(** Lines 401-411: the new values of [allStatus] and [stopped].  The sums
    and products are those of [Z]; an overflow of the C [int] would be
    undefined behaviour and is not modelled. *)
Definition combine (k : command_t) (st all : Z) (stop : Z) : Z * Z :=
  if stopOnFailure k then (all + Z.abs st, st)
  else if stopOnSuccess k then (all * st, if st =? 0 then 1 else 0)
  else (all + st, stop).

(** One round of the [while(chain)] loop for a non-null [chain]; the
    result is the process leaving by [exit] or the next state. *)
Definition chain_round (fuel : nat) (i : nat) (s : exec_state)
  : option (outcome exec_state) :=
  bind (nth_error commands i) (fun k =>
  if stopped s =? 0 then
    bind (if piped k then executePipedCommands fuel i (next k)
          else executeSingleCommand i) (fun res =>
    match fst res with
    | Exited code => Some (Exited code)
    | Returned st =>
        let all0 := if commandCount_is_null then st else allStatus s in
        bind (if piped k then skip_piped fuel (Some i) (e_commandCount s)
              else Some (Some i, e_commandCount s)) (fun pc =>
        bind (fst pc) (fun j =>
        bind (nth_error commands j) (fun kj =>
        let (all1, stop1) := combine kj st all0 (stopped s) in
        Some (Returned (mkExec (next kj) st all1 stop1 (snd pc + 1)
                               (launched s ++ snd res))))))
    end)
  else
    Some (Returned (mkExec (next k) (status s) (allStatus s) (stopped s)
                           (e_commandCount s + 1) (launched s)))).

Fixpoint chain_loop (fuel : nat) (s : exec_state) : option (outcome exec_state) :=
  match fuel with
  | O => None
  | S f =>
      match chain s with
      | None => Some (Returned s)
      | Some i =>
          bind (chain_round (S (length commands)) i s) (fun o =>
          match o with
          | Exited code => Some (Exited code)
          | Returned s' => chain_loop f s'
          end)
      end
  end.

(** [executeCommandChain(commands + i, &chainSkip)]: the final state holds
    the return value in [allStatus] and [*commandCount] in
    [e_commandCount]. *)
Definition executeCommandChain (i : nat) (already : list nat)
  : option (outcome exec_state) :=
  chain_loop (S (length commands))
             (mkExec (Some i) 0 indeterminate 0 0 already).

(** Lines 96-100 of [main]: the chains of one line are run one after the
    other, each starting [chainSkip] cells after the previous one.  The
    result lists the [chainSkip] of every chain and the nodes for which a
    program was started. *)
Fixpoint run_chains (numCommandChains : nat) (commandCount : Z)
         (skips : list Z) (already : list nat)
  : option (outcome (Z * list Z * list nat)) :=
  match numCommandChains with
  | O => Some (Returned (commandCount, skips, already))
  | S n =>
      bind (executeCommandChain (Z.to_nat commandCount) already) (fun o =>
      match o with
      | Exited code => Some (Exited code)
      | Returned s =>
          run_chains n (commandCount + e_commandCount s)
                     (skips ++ [e_commandCount s]) (launched s)
      end)
  end.

End Executor.

(** One line from the prompt to the last chain: lines 95-100 of [main]. *)
Definition run_line (sys_open : list ascii -> Z -> Z) (exit_code : nat -> Z)
           (indeterminate : Z) (input : list ascii)
  : option (outcome (Z * list Z * list nat)) :=
  bind (buildCommandChains sys_open input) (fun b =>
  run_chains (b_argBuffer b) (b_argList b) (chains b) exit_code indeterminate
             (Z.to_nat (chainCount b)) 0 [] []).

(** The exit codes of the programs of the examples: [false] ends with 1,
    every other program with 0. *)
Definition exit_code_of_name (buf : buffer) (l : arglist)
           (commands : list command_t) (i : nat) : Z :=
  match nth_error commands i with
  | Some k =>
      match program_name buf l k with
      | Some name =>
          if list_ascii_eqb name (list_ascii_of_string "false") then 1 else 0
      | None => 0
      end
  | None => 0
  end.

(** One chain of a built line, run with those exit codes. *)
Definition run_chain_of (text : string) (indeterminate : Z) (i : nat)
  : option (outcome (Z * Z * list nat)) :=
  bind (buildCommandChains (fun _ _ => 3) (line text)) (fun b =>
  bind (executeCommandChain (b_argBuffer b) (b_argList b) (chains b)
          (exit_code_of_name (b_argBuffer b) (b_argList b) (chains b))
          indeterminate i [])
       (fun o =>
          match o with
          | Exited code => Some (Exited code)
          | Returned s =>
              Some (Returned (allStatus s, e_commandCount s, launched s))
          end)).

(** The pipeline that starts at the first node of a built line, run with
    those exit codes. *)
Definition run_pipeline_of (text : string) : option (outcome Z * list nat) :=
  bind (buildCommandChains (fun _ _ => 3) (line text)) (fun b =>
  bind (nth_error (chains b) 0) (fun k =>
  executePipedCommands (b_argBuffer b) (b_argList b) (chains b)
    (exit_code_of_name (b_argBuffer b) (b_argList b) (chains b))
    (S (length (chains b))) 0 (next k))).

(** ** The shape of what the builder leaves in the array of commands *)

(** A chain of [n] nodes that starts at index [i]: every node but the last
    points to the cell behind it; the last points nowhere and is not
    piped. *)
Inductive chain_from (cs : list command_t) : nat -> nat -> Prop :=
| chain_last (i : nat) (k : command_t) :
    nth_error cs i = Some k -> next k = None -> piped k = false ->
    chain_from cs i 1
| chain_cons (i : nat) (k : command_t) (n : nat) :
    nth_error cs i = Some k -> next k = Some (S i) ->
    chain_from cs (S i) n ->
    chain_from cs i (S n).

(** Chains that lie one behind the other from index [a] up to index [e],
    with their lengths. *)
Inductive chains_from (cs : list command_t) : nat -> list nat -> nat -> Prop :=
| chains_nil (a : nat) : chains_from cs a [] a
| chains_cons (a n : nat) (ls : list nat) (e : nat) :
    chain_from cs a n -> chains_from cs (a + n) ls e ->
    chains_from cs a (n :: ls) e.

(** The builder has just given the last node an operator that links it to
    the node to come. *)
Definition pending (s : build_state) : Prop :=
  lastCom s = Some (pred (commandCount s)) /\
  getFd s = None /\ continueLast s = false.

(** What holds after every round of the loop of [buildCommandChains].  The
    first [closed] nodes are those of the chains that were counted, with
    lengths [lens]. *)
Record build_inv (s : build_state) (closed : nat) (lens : list nat) : Prop :=
  mkInv {
    inv_length : length (chains s) = commandCount s;
    inv_com : com s = match commandCount s with
                      | O => None
                      | S n => Some n
                      end;
    inv_closed : (closed <= commandCount s)%nat;
    inv_chains : chains_from (chains s) 0 lens closed;
    inv_count : Z.of_nat (length lens) = chainCount s;
    inv_open : forall i k, (closed <= i)%nat -> nth_error (chains s) i = Some k ->
               next k = if (S i <? commandCount s)%nat then Some (S i) else None;
    inv_piped : forall i k, nth_error (chains s) i = Some k -> piped k = true ->
                next k = Some (S i) \/ (S i = commandCount s /\ pending s);
    inv_idle : closed = commandCount s ->
               getFd s = None /\ continueLast s = false /\ lastCom s = None;
    inv_busy : (closed < commandCount s)%nat ->
               getFd s <> None \/ continueLast s = true \/
               lastCom s = Some (pred (commandCount s));
    inv_getFd : forall p, getFd s = Some p ->
                (p = FdIn (pred (commandCount s)) \/
                 p = FdOut (pred (commandCount s))) /\
                continueLast s = false /\ (closed < commandCount s)%nat;
    inv_continue : continueLast s = true -> (closed < commandCount s)%nat;
    inv_argTotal : 0 <= argTotal s;
    inv_args : forall k, In k (chains s) ->
               0 <= cmd_argList k < argTotal s /\
               b_argList s (cmd_argList k) <> None;
    inv_inputPos : 0 <= inputPos s
  }.

(** What holds when the [switch] of line 315 is entered: the last node
    belongs to a chain that is not counted yet and has not been given a
    pipe. *)
Record react_ready (s : build_state) (closed : nat) (lens : list nat) : Prop :=
  mkReady {
    rdy_length : length (chains s) = commandCount s;
    rdy_com : com s = Some (pred (commandCount s));
    rdy_closed : (closed < commandCount s)%nat;
    rdy_chains : chains_from (chains s) 0 lens closed;
    rdy_count : Z.of_nat (length lens) = chainCount s;
    rdy_open : forall i k, (closed <= i)%nat -> nth_error (chains s) i = Some k ->
               next k = if (S i <? commandCount s)%nat then Some (S i) else None;
    rdy_piped : forall i k, nth_error (chains s) i = Some k -> piped k = true ->
                next k = Some (S i);
    rdy_getFd : getFd s = None;
    rdy_continue : continueLast s = false;
    rdy_argTotal : 0 <= argTotal s;
    rdy_args : forall k, In k (chains s) ->
               0 <= cmd_argList k < argTotal s /\
               b_argList s (cmd_argList k) <> None;
    rdy_inputPos : 0 <= inputPos s
  }.

(** What one round of the builder's loop guarantees: the position in the
    input has moved forward and lies inside the input unless the end was
    met, [continueLast] is only set together with [SR_BACKGROUND], and the
    invariant holds again. *)
Definition round_post (input : list ascii) (s s' : build_state) : Prop :=
  inputPos s < inputPos s' /\
  (stopReason s' <> SR_DONE -> inputPos s' <= Z.of_nat (length input)) /\
  (continueLast s' = true -> stopReason s' = SR_BACKGROUND) /\
  exists closed' lens', build_inv s' closed' lens'.

(** [strcmp(command->argList[0], "exit") == 0]. *)
Definition is_exit (buf : buffer) (l : arglist) (k : command_t) : bool :=
  match program_name buf l k with
  | Some name => list_ascii_eqb name exit_word
  | None => false
  end.

(** The sum of the numbers [*commandCount] of the chains of a line. *)
Definition sum_skips (skips : list Z) : Z := fold_right Z.add 0 skips.

(** The arguments a call has handed out so far stay as they are: later
    rounds neither lower the counters nor write to the cells of the list
    and of the buffer that lie in front of them. *)
Definition args_kept (bb lb : Z) (st0 st : lex_state) : Prop :=
  argCount st0 <= argCount st /\
  argsOffset st0 <= argsOffset st /\
  (forall j, j < lb + argCount st0 -> argList st j = argList st0 j) /\
  (forall j, j < bb + argsOffset st0 -> argBuffer st j = argBuffer st0 j).

(** ** Words, gaps and operators *)

(** A character that the lexer stores without looking at its state: no
    quote, no backslash, no NUL, no whitespace and no control character. *)
Definition word_char (ch : ascii) : Prop :=
  plain_char ch /\ ISWHITESPACE ch = false /\ ISCONTROLCHAR ch = false.

(** A word: one character at least, all of them word characters. *)
Definition word (w : list ascii) : Prop := w <> [] /\ Forall word_char w.

(** A gap: one whitespace character at least. *)
Definition gap (g : list ascii) : Prop :=
  g <> [] /\ Forall (fun ch => ISWHITESPACE ch = true) g.

(** Words written one after the other, each followed by its gap. *)
Fixpoint spaced (wgs : list (list ascii * list ascii)) : list ascii :=
  match wgs with
  | [] => []
  | (w, g) :: rest => w ++ g ++ spaced rest
  end.

(** The cells of the two arrays after the words were flushed one after
    the other, from offset [off] of the buffer and cell [k] of the list
    on: what lines 157-159 do for each of them. *)
Fixpoint store_words (bb lb : Z) (ws : list (list ascii)) (off k : Z)
         (buf : buffer) (l : arglist) : buffer * arglist :=
  match ws with
  | [] => (buf, l)
  | w :: ws' =>
      store_words bb lb ws' (off + (Z.of_nat (length w) + 1)) (k + 1)
                  (memcpy buf (bb + off) w)
                  (store_arg l (lb + k) (Some (bb + off)))
  end.

(** The number of cells of the buffer the words take, separators
    included. *)
Fixpoint words_size (ws : list (list ascii)) : Z :=
  match ws with
  | [] => 0
  | w :: ws' => Z.of_nat (length w) + 1 + words_size ws'
  end.

(** The text of the operator behind each stop reason (lines 168-207). *)
Definition operator_text (r : stop_reason) : list ascii :=
  match r with
  | SR_SEQ_CHAIN => [";"%char]
  | SR_SEQ_AND => ["&"%char; "&"%char]
  | SR_SEQ_OR => ["|"%char; "|"%char]
  | SR_PIPE => ["|"%char]
  | SR_REDIRECT_IN => ["<"%char]
  | SR_REDIRECT_IN_HERE => ["<"%char; "<"%char]
  | SR_REDIRECT_OUT => [">"%char]
  | SR_REDIRECT_OUT_APPEND => [">"%char; ">"%char]
  | SR_BACKGROUND => ["&"%char]
  | SR_DONE | SR_ERROR => []
  end.

(** A one-character operator is read as such when the character behind it
    is not the same character again. *)
Definition not_doubled (r : stop_reason) (rest : list ascii) : Prop :=
  match r with
  | SR_PIPE => hd NUL rest <> "|"%char
  | SR_BACKGROUND => hd NUL rest <> "&"%char
  | SR_REDIRECT_IN => hd NUL rest <> "<"%char
  | SR_REDIRECT_OUT => hd NUL rest <> ">"%char
  | _ => True
  end.

(** The state of the lexer between two words, [n] characters into the
    input, with nothing pending. *)
Definition between_words (n : Z) (off k : Z) (buf : buffer) (l : arglist)
  : lex_state :=
  mkLex false false NUL n n [] off k buf l.

(** The number of rounds the loop spends on words and their gaps: one per
    character of a word and one for the whole gap behind it. *)
Fixpoint rounds_of (ws : list (list ascii)) : nat :=
  match ws with
  | [] => O
  | w :: ws' => (length w + 1 + rounds_of ws')%nat
  end.

(** The cells behind those a call has filled so far are as the call found
    them, and every argument took two cells of the buffer at least. *)
Definition beyond_kept (bb lb : Z) (st0 st : lex_state) : Prop :=
  0 <= argCount st /\
  2 * argCount st <= argsOffset st /\
  (forall j, lb + argCount st <= j -> argList st j = argList st0 j) /\
  (forall j, bb + argsOffset st <= j -> argBuffer st j = argBuffer st0 j).

(** ** Built lines *)

(** The arrays [main] hands to the executor after it has built a line, with
    an [open] that always gives the descriptor 3. *)
Definition built (text : string) : buffer * arglist * list command_t :=
  match buildCommandChains (fun _ _ => 3) (line text) with
  | Some b => (b_argBuffer b, b_argList b, chains b)
  | None => (zero_buffer, null_arglist, [])
  end.

(** ** Lines of commands joined by connectors *)

(** The operators that join two commands. *)
Definition connector (op : stop_reason) : bool :=
  match op with
  | SR_SEQ_CHAIN | SR_SEQ_AND | SR_SEQ_OR | SR_PIPE => true
  | _ => false
  end.

(** A command as it is written, with the connector behind it: whitespace,
    words each followed by whitespace, a last word, whitespace, and the
    operator. *)
Record segment : Type := mkSegment {
  seg_lead : list ascii;
  seg_words : list (list ascii * list ascii);
  seg_last : list ascii;
  seg_trail : list ascii;
  seg_op : stop_reason
}.

Definition seg_args (sg : segment) : list (list ascii) :=
  map fst (seg_words sg) ++ [seg_last sg].

Definition seg_text (sg : segment) : list ascii :=
  seg_lead sg ++ spaced (seg_words sg) ++ seg_last sg ++ seg_trail sg
           ++ operator_text (seg_op sg).

Definition segment_ok (sg : segment) : Prop :=
  Forall (fun ch => ISWHITESPACE ch = true) (seg_lead sg) /\
  Forall (fun p => word (fst p) /\ gap (snd p)) (seg_words sg) /\
  word (seg_last sg) /\
  Forall (fun ch => ISWHITESPACE ch = true) (seg_trail sg) /\
  connector (seg_op sg) = true.

(** The last command of a line: whitespace and words each followed by
    whitespace, the last of them by the newline for instance. *)
Definition last_text (h0 : list ascii) (wgs : list (list ascii * list ascii))
  : list ascii := h0 ++ spaced wgs.

Fixpoint segments_text (sgs : list segment) (final : list ascii) : list ascii :=
  match sgs with
  | [] => final
  | sg :: rest => seg_text sg ++ segments_text rest final
  end.

(** The commands of a line: the arguments of each and the operator behind
    it, [SR_DONE] for the last one. *)
Definition commands_of (sgs : list segment)
           (wgs : list (list ascii * list ascii))
  : list (list (list ascii) * stop_reason) :=
  map (fun sg => (seg_args sg, seg_op sg)) sgs ++ [(map fst wgs, SR_DONE)].

(** The node of a command whose arguments start at cell [a] of the list
    and that is followed by the operator [op], at index [idx] of the
    array. *)
Definition node_of (op : stop_reason) (a : Z) (idx : nat) : command_t :=
  mkCommand a STDIN_FILENO STDOUT_FILENO
            (match op with SR_SEQ_AND | SR_PIPE => true | _ => false end)
            (match op with SR_SEQ_OR => true | _ => false end)
            (match op with SR_PIPE => true | _ => false end)
            false
            (match op with
             | SR_SEQ_AND | SR_SEQ_OR | SR_PIPE => Some (S idx)
             | _ => None
             end).

Fixpoint nodes_of (cmds : list (list (list ascii) * stop_reason))
         (idx : nat) (a : Z) : list command_t :=
  match cmds with
  | [] => []
  | (ws, op) :: rest =>
      node_of op a idx :: nodes_of rest (S idx) (a + (Z.of_nat (length ws) + 1))
  end.

(** The number of chains: one per command that no connector other than
    [;] follows. *)
Fixpoint chains_of (cmds : list (list (list ascii) * stop_reason)) : Z :=
  match cmds with
  | [] => 0
  | (_, op) :: rest =>
      (match op with
       | SR_SEQ_AND | SR_SEQ_OR | SR_PIPE => 0
       | _ => 1
       end) + chains_of rest
  end.

(** The cells of the list and of the buffer the commands take. *)
Fixpoint cells_of (cmds : list (list (list ascii) * stop_reason)) : Z :=
  match cmds with
  | [] => 0
  | (ws, _) :: rest => Z.of_nat (length ws) + 1 + cells_of rest
  end.

Fixpoint chars_of (cmds : list (list (list ascii) * stop_reason)) : Z :=
  match cmds with
  | [] => 0
  | (ws, _) :: rest => words_size ws + chars_of rest
  end.

(** The two arrays after the arguments of the commands were stored one
    command after the other, each vector followed by one free cell. *)
Fixpoint store_commands (cmds : list (list (list ascii) * stop_reason))
         (c a : Z) (buf : buffer) (l : arglist) : buffer * arglist :=
  match cmds with
  | [] => (buf, l)
  | (ws, _) :: rest =>
      store_commands rest (c + words_size ws) (a + (Z.of_nat (length ws) + 1))
                     (fst (store_words c a ws 0 0 buf l))
                     (snd (store_words c a ws 0 0 buf l))
  end.

(** The link the builder sets when the next node is made. *)
Definition link_last (j : option nat) (cs : list command_t) : list command_t :=
  match j with
  | Some i => update_at i (set_next (Some (S i))) cs
  | None => cs
  end.

(** The state of the builder between two commands of such a line, when the
    commands [done] were built. *)
Definition built_as (s : build_state)
           (done : list (list (list ascii) * stop_reason)) : Prop :=
  getFd s = None /\ continueLast s = false /\ stderr s = [] /\
  argTotal s = cells_of done /\ argCharsTotal s = chars_of done /\
  chainCount s = chains_of done /\
  commandCount s = length done /\
  link_last (lastCom s) (chains s) = nodes_of done 0 0 /\
  (forall j, lastCom s = Some j -> S j = length done) /\
  (b_argBuffer s, b_argList s) =
  store_commands done 0 0 zero_buffer null_arglist.

(** A word that can be read back from the buffer: it holds no NUL and has
    [M] characters at most. *)
Definition readable (M : nat) (w : list ascii) : Prop :=
  Forall (fun ch => ch <> NUL) w /\ (length w <= M)%nat.

(** The line [a | b c&& d], cut into its commands. *)
Definition example_and : segment :=
  mkSegment [" "%char] [(["b"%char], [" "%char])] ["c"%char] [] SR_SEQ_AND.

Definition example_segments : list segment :=
  [mkSegment [] [] ["a"%char] [" "%char] SR_PIPE; example_and].

Definition example_last : list (list ascii * list ascii) :=
  [(["d"%char], ["010"%char])].

(** What [main] is to do with a line of two commands joined by [op], when
    the first command ends with status [st]: the [chainSkip] of each chain
    and the nodes for which a program is started, in the order of the
    starts. *)
Definition two_commands_run (op : stop_reason) (st : Z) : list Z * list nat :=
  match op with
  | SR_SEQ_AND => ([2], if st =? 0 then [0%nat; 1%nat] else [0%nat])
  | SR_SEQ_OR => ([2], if st =? 0 then [0%nat] else [0%nat; 1%nat])
  | SR_PIPE => ([2], [1%nat; 0%nat])
  | _ => ([1; 1], [0%nat; 1%nat])
  end.

(** ** Redirections *)

(** The operators that are followed by the name of a file. *)
Definition redirection (op : stop_reason) : bool :=
  match op with
  | SR_REDIRECT_IN | SR_REDIRECT_OUT | SR_REDIRECT_OUT_APPEND => true
  | _ => false
  end.

(** The flags [open] is called with for each of them (lines 334-346). *)
Definition redirect_flags (op : stop_reason) : Z :=
  match op with
  | SR_REDIRECT_IN => O_RDONLY
  | SR_REDIRECT_OUT => Z.lor (Z.lor O_WRONLY O_CREAT) O_TRUNC
  | _ => Z.lor (Z.lor O_WRONLY O_CREAT) O_APPEND
  end.

(** The node of a command at the start of the array whose input or output
    was redirected to the descriptor [fd]. *)
Definition redirected_node (op : stop_reason) (fd : Z) : command_t :=
  match op with
  | SR_REDIRECT_IN =>
      mkCommand 0 fd STDOUT_FILENO false false false false None
  | _ => mkCommand 0 STDIN_FILENO fd false false false false None
  end.

(** ** More examples *)

(** The command [b c ] in front of [>]. *)
Definition example_redirected : segment :=
  mkSegment [] [(["b"%char], [" "%char])] ["c"%char] [" "%char]
            SR_REDIRECT_OUT.

(** The command [b c ] in front of [&]. *)
Definition example_background : segment :=
  mkSegment [] [(["b"%char], [" "%char])] ["c"%char] [" "%char]
            SR_BACKGROUND.

(** The text [ bbb c;] behind the redirection operator of
    [example_redirected]: two words where the name of one file is due. *)
Definition example_rejected : segment :=
  mkSegment [" "%char]
            [(["b"; "b"; "b"]%char, [" "%char])] ["c"%char] [] SR_SEQ_CHAIN.

(** ** Arguments as they are written *)

(** What a quoted region is made of: a character that is stored as it is,
    a backslash with the character behind it, or the quote character of
    the other kind. *)
Inductive qpiece : Type :=
| QChar (ch : ascii)
| QEscaped (x : ascii)
| QOther (ch : ascii).

(** What an argument is made of outside quotes: a character that is stored
    as it is, a backslash with the character behind it, or a quoted
    region with its two quotes. *)
Inductive piece : Type :=
| Plain (ch : ascii)
| Escaped (x : ascii)
| Quoted (q : ascii) (body : list qpiece).

Definition qpiece_text (p : qpiece) : list ascii :=
  match p with
  | QChar ch => [ch]
  | QEscaped x => [BACKSLASH; x]
  | QOther ch => [ch]
  end.

(** What the lexer stores for it (lines 139-154, 219-222): nothing for
    the backslash, and nothing for a quote of the other kind. *)
Definition qpiece_value (p : qpiece) : list ascii :=
  match p with
  | QChar ch => [ch]
  | QEscaped x => [x]
  | QOther _ => []
  end.

Definition qpiece_ok (q : ascii) (p : qpiece) : Prop :=
  match p with
  | QChar ch => plain_char ch
  | QEscaped x => x <> NUL
  | QOther ch => (ch = SQUOTE \/ ch = DQUOTE) /\ ch <> q
  end.

Definition qwritten (body : list qpiece) : list ascii :=
  concat (map qpiece_text body).

Definition qvalue (body : list qpiece) : list ascii :=
  concat (map qpiece_value body).

Definition piece_text (p : piece) : list ascii :=
  match p with
  | Plain ch => [ch]
  | Escaped x => [BACKSLASH; x]
  | Quoted q body => q :: qwritten body ++ [q]
  end.

Definition piece_value (p : piece) : list ascii :=
  match p with
  | Plain ch => [ch]
  | Escaped x => [x]
  | Quoted _ body => qvalue body
  end.

Definition piece_ok (p : piece) : Prop :=
  match p with
  | Plain ch => word_char ch
  | Escaped x => x <> NUL
  | Quoted q body => (q = SQUOTE \/ q = DQUOTE) /\ Forall (qpiece_ok q) body
  end.

(** The text of an argument and the argument it stands for. *)
Definition written (ps : list piece) : list ascii :=
  concat (map piece_text ps).

Definition value (ps : list piece) : list ascii :=
  concat (map piece_value ps).

(** An argument that the lexer hands out when a separator follows: it is
    well formed and not empty. *)
Definition argument_ok (ps : list piece) : Prop :=
  Forall piece_ok ps /\ value ps <> [].

(** Arguments written one after the other, each followed by its gap. *)
Fixpoint spaced_args (ags : list (list piece * list ascii)) : list ascii :=
  match ags with
  | [] => []
  | (ps, g) :: rest => written ps ++ g ++ spaced_args rest
  end.

Definition values (ags : list (list piece * list ascii))
  : list (list ascii) := map (fun a => value (fst a)) ags.

(** The state of the lexer inside an argument, [n] characters into the
    input, with the characters [a] pending. *)
Definition in_argument (qd : bool) (qc : ascii) (n : Z) (a : list ascii)
           (off k : Z) (buf : buffer) (l : arglist) : lex_state :=
  mkLex false qd qc n n a off k buf l.

(** The number of rounds the loop spends on arguments and their gaps: one
    per character of an argument and one for the whole gap behind it. *)
Fixpoint rounds_of_args (ags : list (list piece * list ascii)) : nat :=
  match ags with
  | [] => O
  | (ps, _) :: rest => (length (written ps) + 1 + rounds_of_args rest)%nat
  end.
(** ** Basic facts about the lexer *)

Lemma char_at_skipn (input : list ascii) (i : Z) :
  0 <= i -> char_at input i = hd NUL (skipn (Z.to_nat i) input).
Proof.
  intros Hi. unfold char_at.
  destruct (i <? 0) eqn:E; [apply Z.ltb_lt in E; lia|].
  generalize (Z.to_nat i) as n. clear.
  induction input as [|a l IH]; intros [|n]; simpl; auto.
Qed.

Lemma char_at_in_range (input : list ascii) (i : Z) :
  char_at input i <> NUL -> 0 <= i < Z.of_nat (length input).
Proof.
  unfold char_at. destruct (i <? 0) eqn:E; [congruence|].
  apply Z.ltb_ge in E. intros H. split; [lia|].
  destruct (Nat.lt_ge_cases (Z.to_nat i) (length input)) as [L|L]; [lia|].
  rewrite nth_overflow in H by assumption. congruence.
Qed.

Lemma char_at_app (pre rest : list ascii) :
  char_at (pre ++ rest) (Z.of_nat (length pre)) = hd NUL rest.
Proof.
  rewrite char_at_skipn by lia. rewrite Nat2Z.id.
  rewrite skipn_app, skipn_all, Nat.sub_diag. reflexivity.
Qed.

Lemma skip_ws_bounds (l : list ascii) : 0 <= skip_ws l <= Z.of_nat (length l).
Proof.
  induction l as [|a l IH]; cbn [skip_ws length]; [lia|].
  rewrite Nat2Z.inj_succ. destruct (ISWHITESPACE a); lia.
Qed.

Lemma whitespace_not_NUL (ch : ascii) : ISWHITESPACE ch = true -> ch <> NUL.
Proof. intros H E; subst; discriminate. Qed.

Lemma control_not_whitespace (ch : ascii) :
  ISCONTROLCHAR ch = true -> ISWHITESPACE ch = false.
Proof.
  unfold ISCONTROLCHAR. intros H.
  repeat (apply orb_prop in H; destruct H as [H|H]);
    apply Ascii.eqb_eq in H; subst; reflexivity.
Qed.

(** A control character that is looked at right after the whitespace was
    skipped always ends the call: the nine tests of lines 168-207 cover the
    five control characters. *)
Lemma after_flush_control (input : list ascii) (st1 : lex_state) :
  ISCONTROLCHAR (char_at input (c st1 + skip_ws (skipn (Z.to_nat (c st1)) input))) = true ->
  exists st' r, after_flush input st1 = Break st' r.
Proof.
  unfold after_flush. cbn [c advance].
  set (ch := char_at input _). set (ch1 := char_at input _).
  unfold ISCONTROLCHAR. intros H.
  destruct (ch =? ";")%char; [eauto|].
  destruct (ch =? "|")%char; [destruct (ch1 =? "|")%char; simpl; eauto|].
  destruct (ch =? "&")%char; [destruct (ch1 =? "&")%char; simpl; eauto|].
  destruct (ch =? ">")%char; [destruct (ch1 =? ">")%char; simpl; eauto|].
  destruct (ch =? "<")%char; [destruct (ch1 =? "<")%char; simpl; eauto|].
  discriminate.
Qed.

Lemma after_flush_continue (input : list ascii) (st1 st' : lex_state) :
  after_flush input st1 = Continue st' ->
  st' = advance 1 1 (advance (-1) (-1)
          (advance (skip_ws (skipn (Z.to_nat (c st1)) input))
                   (skip_ws (skipn (Z.to_nat (c st1)) input)) st1)).
Proof.
  unfold after_flush, next_round.
  repeat match goal with
         | |- context [if ?b then _ else _] => destruct b
         end; intros H; inversion H; reflexivity.
Qed.

(** Every round that does not leave the loop moves [c] forward and keeps it
    inside the input: this is why the loop terminates. *)
Lemma lex_iter_progress (input : list ascii) (bb lb : Z) (st st' : lex_state) :
  0 <= c st ->
  lex_iter input bb lb st = Continue st' ->
  c st < c st' <= Z.of_nat (length input).
Proof.
  intros Hc. unfold lex_iter.
  destruct (char_at input (c st) =? NUL)%char eqn:EN; [discriminate|].
  apply Ascii.eqb_neq in EN. pose proof (char_at_in_range _ _ EN) as Hr.
  assert (Hstep : forall s, c s = c st -> next_round s = Continue st' ->
                            c st < c st' <= Z.of_nat (length input)).
  { intros s Hs H. inversion H; subst. cbn [c advance]. lia. }
  destruct (_ && negb (escaped st)); [apply Hstep; reflexivity|].
  destruct (_ && negb (escaped st)).
  { destruct (negb (quoted st)); [apply Hstep; reflexivity|].
    destruct (_ =? quoteChar st)%char; apply Hstep; reflexivity. }
  destruct (_ && negb (escaped st || quoted st)) eqn:ES;
    [|apply Hstep; reflexivity].
  destruct (0 <? curArgLen st); cycle 1.
  { destruct (ISCONTROLCHAR _); [discriminate|apply Hstep; reflexivity]. }
  intros H. pose proof H as H'. apply after_flush_continue in H'.
  cbn [c flush_arg advance] in H'.
  set (n := skip_ws (skipn (Z.to_nat (c st)) input)) in *.
  assert (Hn : 0 <= n <= Z.of_nat (length (skipn (Z.to_nat (c st)) input)))
    by apply skip_ws_bounds.
  rewrite length_skipn in Hn.
  assert (1 <= n).
  { apply andb_prop in ES. destruct ES as [ES _].
    destruct (ISWHITESPACE (char_at input (c st))) eqn:EW.
    - rewrite char_at_skipn in EW by lia. subst n.
      destruct (skipn (Z.to_nat (c st)) input) as [|a l];
        cbn [hd skip_ws] in *; [discriminate|].
      rewrite EW. pose proof (skip_ws_bounds l). lia.
    - simpl in ES. exfalso.
      assert (n = 0).
      { subst n. rewrite char_at_skipn in EW by lia.
        destruct (skipn (Z.to_nat (c st)) input) as [|a l];
          cbn [hd skip_ws] in *; auto.
        rewrite EW. reflexivity. }
      destruct (after_flush_control input (flush_arg bb lb st)) as (s & r & Hb).
      { cbn [c flush_arg]. fold n. rewrite H0, Z.add_0_r. exact ES. }
      congruence. }
  subst st'. cbn [c advance flush_arg]. lia.
Qed.

Lemma lex_loop_total (input : list ascii) (bb lb : Z) :
  forall (fuel : nat) (st : lex_state),
    0 <= c st <= Z.of_nat (length input) ->
    Z.of_nat (length input) - c st < Z.of_nat fuel ->
    exists r, lex_loop fuel input bb lb st = Some r.
Proof.
  induction fuel as [|f IH]; intros st Hc Hf; [lia|].
  destruct Hc as [Hc Hc'].
  - simpl. destruct (lex_iter input bb lb st) as [st'|st' r] eqn:E; [|eauto].
    pose proof (lex_iter_progress _ _ _ _ _ Hc E). apply IH; lia.
Qed.

(** [processArgs] returns on every input. *)
Lemma processArgs_total (input : list ascii) (buf : buffer) (bb : Z)
      (l : arglist) (lb : Z) :
  exists r, processArgs input buf bb l lb = Some r.
Proof.
  unfold processArgs.
  destruct (lex_loop_total input bb lb (S (length input)) (lex_init buf l))
    as [r Hr]; [simpl; lia | simpl c; lia |].
  rewrite Hr. simpl. eauto.
Qed.

Lemma char_at_end (input : list ascii) (i : Z) :
  Z.of_nat (length input) <= i -> char_at input i = NUL.
Proof.
  intros H. unfold char_at. destruct (i <? 0); [reflexivity|].
  apply nth_overflow. lia.
Qed.

(** When the first character behind the skipped whitespace is no control
    character, the loop goes on with that character. *)
Lemma after_flush_plain (input : list ascii) (st1 : lex_state) :
  let n := skip_ws (skipn (Z.to_nat (c st1)) input) in
  ISCONTROLCHAR (char_at input (c st1 + n)) = false ->
  after_flush input st1 =
  Continue (advance 1 1 (advance (-1) (-1) (advance n n st1))).
Proof.
  intros n H. unfold after_flush. fold n. cbn [c advance].
  unfold ISCONTROLCHAR in H.
  repeat (apply orb_false_elim in H; destruct H as [H ?]).
  repeat match goal with E : (_ =? _)%char = false |- _ => rewrite E; clear E end.
  reflexivity.
Qed.

(** How the loop is left after an argument was flushed: at a control
    character, which is counted once, or twice when it is doubled. *)
Lemma after_flush_break (input : list ascii) (st1 st' : lex_state)
      (r : stop_reason) :
  after_flush input st1 = Break st' r ->
  let n := skip_ws (skipn (Z.to_nat (c st1)) input) in
  r <> SR_DONE /\ r <> SR_ERROR /\
  char_at input (c st1 + n) <> NUL /\
  (st' = advance n n st1 \/
   st' = advance 0 1 (advance n n st1) /\ char_at input (c st1 + n + 1) <> NUL).
Proof.
  intros H. cbv zeta. unfold after_flush in H. cbn [c advance] in H.
  set (n := skip_ws (skipn (Z.to_nat (c st1)) input)) in *.
  repeat match type of H with
         | (if (?a =? ?b)%char && (?a' =? ?b')%char then _ else _) = _ =>
             destruct (a =? b)%char eqn:?E1; cbn [andb] in H;
             [destruct (a' =? b')%char eqn:?E2|]
         | (if (?a =? ?b)%char then _ else _) = _ =>
             destruct (a =? b)%char eqn:?E1
         end;
    try discriminate H;
    inversion H; subst; clear H;
    repeat match goal with
           | E : (_ =? _)%char = true |- _ => apply Ascii.eqb_eq in E
           end;
    (split; [discriminate|]); (split; [discriminate|]);
    (split; [match goal with
             | E : char_at input (c st1 + n) = _ |- _ =>
                 rewrite E; unfold NUL; discriminate
             end|]);
    try (left; reflexivity);
    right; (split; [reflexivity|]);
    match goal with
    | E : char_at input (c st1 + n + 1) = _ |- _ =>
        rewrite E; unfold NUL; discriminate
    end.
Qed.

(** The cells of the argument list after some rounds of a call that was
    given [l0] and writes from [lb] on: the cells in front of [lb] are
    untouched, the first [argCount] cells from [lb] on are filled. *)
Definition cells_ok (l0 : arglist) (lb : Z) (st : lex_state) : Prop :=
  0 <= argCount st /\
  (forall j, j < lb -> argList st j = l0 j) /\
  (forall j, lb <= j < lb + argCount st -> argList st j <> None).

Lemma cells_ok_flush (l0 : arglist) (bb lb : Z) (st : lex_state) :
  cells_ok l0 lb st -> cells_ok l0 lb (flush_arg bb lb st).
Proof.
  intros (H0 & H1 & H2). unfold cells_ok, flush_arg, store_arg.
  cbn [argCount argList]. split; [lia|]. split.
  - intros j Hj. destruct (j =? lb + argCount st) eqn:E;
      [apply Z.eqb_eq in E; lia | auto].
  - intros j Hj. destruct (j =? lb + argCount st) eqn:E;
      [discriminate | apply Z.eqb_neq in E; apply H2; lia].
Qed.

(** What holds before every round of the loop. *)
Definition lex_inv (input : list ascii) (l0 : arglist) (lb : Z)
           (st : lex_state) : Prop :=
  processed st = c st /\
  0 <= c st <= Z.of_nat (length input) /\
  cells_ok l0 lb st.

Lemma lex_iter_continue_inv (input : list ascii) (l0 : arglist) (bb lb : Z)
      (st st' : lex_state) :
  lex_inv input l0 lb st ->
  lex_iter input bb lb st = Continue st' ->
  lex_inv input l0 lb st'.
Proof.
  intros (Hp & Hc & Hcells) H.
  pose proof (lex_iter_progress _ _ _ _ _ (proj1 Hc) H) as Hprog.
  unfold lex_inv. split; [|split; [lia|]]; revert H; unfold lex_iter;
    repeat match goal with
           | |- context [if ?b then _ else _] =>
               lazymatch b with
               | context [if _ then _ else _] => fail
               | _ => destruct b eqn:?
               end
           end;
    unfold next_round;
    try (intros H; inversion H; subst; clear H;
         cbn [processed c advance set_escaped set_quote push_char];
         first [lia | exact Hcells]);
    intros H; apply after_flush_continue in H; subst;
    cbn [processed c advance flush_arg]; try lia;
    apply (cells_ok_flush l0 bb lb st Hcells).
Qed.

(** What holds when the loop is left. *)
Definition lex_post (input : list ascii) (l0 : arglist) (lb : Z)
           (st : lex_state) (r : stop_reason) : Prop :=
  0 <= processed st /\
  (r <> SR_DONE -> processed st + 1 <= Z.of_nat (length input)) /\
  (r <> SR_DONE -> r <> SR_ERROR -> 1 <= argCount st) /\
  cells_ok l0 lb st.

Lemma lex_iter_break_post (input : list ascii) (l0 : arglist) (bb lb : Z)
      (st st' : lex_state) (r : stop_reason) :
  lex_inv input l0 lb st ->
  lex_iter input bb lb st = Break st' r ->
  lex_post input l0 lb st' r.
Proof.
  intros (Hp & Hc & Hcells) H. unfold lex_iter in H.
  destruct (char_at input (c st) =? NUL)%char eqn:EN.
  { inversion H; subst. repeat split; try lia; try congruence; apply Hcells. }
  apply Ascii.eqb_neq in EN. pose proof (char_at_in_range _ _ EN) as Hr.
  destruct (_ && negb (escaped st)); [discriminate|].
  destruct (_ && negb (escaped st)).
  { destruct (negb (quoted st)); [discriminate|].
    destruct (_ =? quoteChar st)%char; discriminate. }
  destruct (_ && negb (escaped st || quoted st)); [|discriminate].
  destruct (0 <? curArgLen st).
  - pose proof (after_flush_break _ _ _ _ H) as (R1 & R2 & Hch & Hst).
    cbn [c flush_arg] in Hch, Hst.
    set (n := skip_ws (skipn (Z.to_nat (c st)) input)) in *.
    pose proof (skip_ws_bounds (skipn (Z.to_nat (c st)) input)) as Hn.
    fold n in Hn.
    pose proof (char_at_in_range _ _ Hch) as Hr1.
    pose proof (cells_ok_flush l0 bb lb st Hcells) as Hcf.
    destruct Hcells as (Ha & _).
    destruct Hst as [Hst|[Hst Hch2]]; subst st'.
    + repeat split; cbn [processed advance flush_arg argCount]; try lia;
        apply Hcf.
    + pose proof (char_at_in_range _ _ Hch2) as Hr2.
      repeat split; cbn [processed advance flush_arg argCount]; try lia;
        apply Hcf.
  - destruct (ISCONTROLCHAR _); [|discriminate].
    inversion H; subst. repeat split; try lia; try congruence; apply Hcells.
Qed.

Lemma lex_loop_post (input : list ascii) (l0 : arglist) (bb lb : Z) :
  forall (fuel : nat) (st st' : lex_state) (r : stop_reason),
    lex_inv input l0 lb st ->
    lex_loop fuel input bb lb st = Some (st', r) ->
    lex_post input l0 lb st' r.
Proof.
  induction fuel as [|f IH]; intros st st' r Hinv H; [discriminate|].
  cbn [lex_loop] in H.
  destruct (lex_iter input bb lb st) as [s1|s1 r1] eqn:E.
  - eapply IH; [|exact H]. eapply lex_iter_continue_inv; eassumption.
  - inversion H; subst. eapply lex_iter_break_post; eassumption.
Qed.

(** What every call of [processArgs] guarantees to the builder: at least
    the character that ended the call is consumed, and never more than the
    text unless the end of the text was met; a stop reason other than the
    end of the text and the parse error comes with at least one argument;
    the cells of the argument list in front of the caller's pointer are
    untouched and one cell per argument behind it is filled. *)
Lemma processArgs_facts (input : list ascii) (buf : buffer) (bb : Z)
      (l : arglist) (lb : Z) (r : lex_result) :
  processArgs input buf bb l lb = Some r ->
  1 <= r_processed r /\
  (r_stopReason r <> SR_DONE -> r_processed r <= Z.of_nat (length input)) /\
  0 <= r_argCount r /\
  (r_stopReason r <> SR_DONE -> r_stopReason r <> SR_ERROR -> 1 <= r_argCount r) /\
  (forall j, j < lb -> r_argList r j = l j) /\
  (forall j, lb <= j < lb + r_argCount r -> r_argList r j <> None).
Proof.
  unfold processArgs. intros H.
  destruct (lex_loop _ input bb lb (lex_init buf l)) as [[st sr]|] eqn:E;
    [|discriminate].
  cbn [option_map lex_finish] in H. inversion H; subst; clear H.
  cbn [r_processed r_stopReason r_argCount r_argList].
  assert (Hinit : lex_inv input l lb (lex_init buf l)).
  { unfold lex_inv, cells_ok, lex_init.
    cbn [processed c argCount argList]. repeat split; try lia. }
  pose proof (lex_loop_post _ _ _ _ _ _ _ _ Hinit E) as (P1 & P2 & P3 & P4 & P5 & P6).
  repeat split; try assumption; try lia.
Qed.

(** ** Escaping and quoting *)

Lemma lex_rounds_loop (input : list ascii) (bb lb : Z) :
  forall (n fuel : nat) (st st' : lex_state),
    lex_rounds n input bb lb st = Some st' ->
    lex_loop (n + fuel) input bb lb st = lex_loop fuel input bb lb st'.
Proof.
  induction n as [|n IH]; intros fuel st st' H; simpl in *.
  - inversion H; reflexivity.
  - destruct (lex_iter input bb lb st); [auto | discriminate].
Qed.

Lemma lex_rounds_app (input : list ascii) (bb lb : Z) :
  forall (n m : nat) (st st' : lex_state),
    lex_rounds n input bb lb st = Some st' ->
    lex_rounds (n + m) input bb lb st = lex_rounds m input bb lb st'.
Proof.
  induction n as [|n IH]; intros m st st' H; simpl in *.
  - inversion H; reflexivity.
  - destruct (lex_iter input bb lb st); [auto | discriminate].
Qed.

(** A backslash that is not itself escaped and the character behind it take
    two rounds, whatever the quoting state is: the first sets [escaped], the
    second stores the character and clears [escaped]. *)
Lemma backslash_then_char (input : list ascii) (bb lb : Z) (st : lex_state)
      (x : ascii) :
  escaped st = false ->
  char_at input (c st) = BACKSLASH ->
  char_at input (c st + 1) = x ->
  x <> NUL ->
  lex_rounds 2 input bb lb st = Some (advance 2 2 (push_char x st)).
Proof.
  intros He Hb Hx Hn. destruct st as [e q qc p i a ao ac ab al].
  simpl in *. subst e. unfold lex_iter at 1. simpl. rewrite Hb. simpl.
  unfold lex_iter. simpl. rewrite Hx.
  apply Ascii.eqb_neq in Hn. rewrite Hn. simpl.
  rewrite !andb_false_r. simpl. unfold advance, push_char. simpl.
  do 2 f_equal; lia.
Qed.

Lemma push_chars_spec (s : list ascii) :
  forall st : lex_state,
    escaped st = false ->
    push_chars s st =
    mkLex false (quoted st) (quoteChar st) (processed st) (c st)
          (curArg st ++ s) (argsOffset st) (argCount st) (argBuffer st)
          (argList st).
Proof.
  unfold push_chars.
  induction s as [|ch s IH]; intros st He; simpl.
  - rewrite app_nil_r. destruct st; simpl in *; subst; reflexivity.
  - rewrite IH by reflexivity. simpl. rewrite <- app_assoc. reflexivity.
Qed.

(** Inside a quoted region plain characters are stored one per round, be
    they whitespace or control characters. *)
Lemma quoted_body (rest : list ascii) (bb lb : Z) :
  forall (s pre : list ascii) (st : lex_state),
    Forall plain_char s ->
    quoted st = true ->
    escaped st = false ->
    c st = Z.of_nat (length pre) ->
    lex_rounds (length s) (pre ++ s ++ rest) bb lb st =
    Some (advance (Z.of_nat (length s)) (Z.of_nat (length s)) (push_chars s st)).
Proof.
  induction s as [|ch s IH]; intros pre st Hs Hq He Hc.
  - simpl. destruct st; unfold advance; simpl. do 2 f_equal; lia.
  - inversion Hs as [|? ? (H1 & H2 & H3 & H4) Hs']; subst.
    cbn [length lex_rounds]. unfold lex_iter.
    rewrite Hc, char_at_app. cbn [hd app].
    apply Ascii.eqb_neq in H1, H2, H3, H4. rewrite H1, H2, H3, H4.
    rewrite He, Hq. cbn [orb andb negb]. rewrite andb_false_r.
    unfold next_round.
    replace (pre ++ ch :: s ++ rest) with ((pre ++ [ch]) ++ s ++ rest)
      by (rewrite <- app_assoc; reflexivity).
    rewrite IH; try assumption; try reflexivity.
    + change (push_chars (ch :: s) st) with (push_chars s (push_char ch st)).
      rewrite !push_chars_spec by reflexivity.
      unfold advance, push_char. cbn [escaped quoted quoteChar processed c
        curArg argsOffset argCount argBuffer argList length].
      rewrite Nat2Z.inj_succ. do 2 f_equal; lia.
    + cbn [c advance push_char]. rewrite Hc, length_app. simpl. lia.
Qed.

(** From the opening quote to the closing one. *)
Lemma quoted_region (rest : list ascii) (bb lb : Z) (q : ascii)
      (s pre : list ascii) (st : lex_state) :
  q = SQUOTE \/ q = DQUOTE ->
  Forall plain_char s ->
  quoted st = false ->
  escaped st = false ->
  c st = Z.of_nat (length pre) ->
  lex_rounds (S (length s + 1)) (pre ++ q :: s ++ q :: rest) bb lb st =
  Some (advance (Z.of_nat (length s) + 2) (Z.of_nat (length s) + 2)
                (set_quote false NUL (push_chars s st))).
Proof.
  intros Hq Hs Hqt He Hc.
  assert (Hq' : (q =? NUL)%char = false /\ (q =? BACKSLASH)%char = false /\
                ((q =? SQUOTE) || (q =? DQUOTE))%char = true)
    by (destruct Hq; subst; repeat split; reflexivity).
  destruct Hq' as (Q1 & Q2 & Q3).
  cbn [lex_rounds]. unfold lex_iter at 1.
  rewrite Hc, char_at_app. cbn [hd]. rewrite Q1, Q2, Q3, He, Hqt.
  cbn [andb negb]. unfold next_round.
  replace (pre ++ q :: s ++ q :: rest) with ((pre ++ [q]) ++ s ++ q :: rest)
    by (rewrite <- app_assoc; reflexivity).
  erewrite lex_rounds_app; cycle 1.
  { apply quoted_body; try assumption; try reflexivity.
    cbn [c advance set_quote]. rewrite Hc, length_app. simpl. lia. }
  cbn [lex_rounds]. unfold lex_iter.
  rewrite push_chars_spec by assumption.
  cbn [c advance set_quote escaped quoted quoteChar]. rewrite Hc.
  replace (Z.of_nat (length pre) + 1 + Z.of_nat (length s))
    with (Z.of_nat (length ((pre ++ [q]) ++ s)))
    by (rewrite !length_app; simpl; lia).
  rewrite (app_assoc (pre ++ [q]) s), char_at_app. cbn [hd].
  rewrite Q1, Q2, Q3. cbn [andb negb]. rewrite Ascii.eqb_refl.
  unfold next_round. rewrite push_chars_spec by assumption.
  unfold advance, set_quote. cbn [escaped quoted quoteChar processed c
    curArg argsOffset argCount argBuffer argList].
  rewrite ?Hc, ?length_app. cbn [length]. do 2 f_equal; lia.
Qed.

(** Reading back a string that lies in the buffer in front of a NUL. *)
Lemma cstring_at_read (buf : buffer) :
  forall (s : list ascii) (off : Z) (fuel : nat),
    Forall (fun ch => ch <> NUL) s ->
    (forall i, (i < length s)%nat -> buf (off + Z.of_nat i) = nth i s NUL) ->
    buf (off + Z.of_nat (length s)) = NUL ->
    (length s < fuel)%nat ->
    cstring_at fuel buf off = s.
Proof.
  induction s as [|ch s IH]; intros off fuel Hs Hb Hz Hf.
  - destruct fuel; [reflexivity|]. simpl in *.
    rewrite Z.add_0_r in Hz. rewrite Hz. reflexivity.
  - destruct fuel as [|fuel]; [simpl in Hf; lia|].
    inversion Hs as [|? ? Hch Hs']; subst. cbn [cstring_at].
    pose proof (Hb O ltac:(simpl; lia)) as H0. cbn [nth] in H0.
    rewrite Z.add_0_r in H0. rewrite H0.
    apply Ascii.eqb_neq in Hch. rewrite Hch. f_equal.
    apply IH; try assumption.
    + intros i Hi. specialize (Hb (S i) ltac:(simpl; lia)).
      cbn [nth] in Hb. rewrite <- Hb. f_equal. lia.
    + rewrite <- Hz. f_equal. cbn [length]. lia.
    + simpl in Hf. lia.
Qed.

Lemma memcpy_inside (buf : buffer) (dst : Z) (src : list ascii) (i : nat) :
  (i < length src)%nat -> memcpy buf dst src (dst + Z.of_nat i) = nth i src NUL.
Proof.
  intros Hi. unfold memcpy.
  replace (dst <=? dst + Z.of_nat i) with true by (symmetry; apply Z.leb_le; lia).
  replace (dst + Z.of_nat i <? dst + Z.of_nat (length src)) with true
    by (symmetry; apply Z.ltb_lt; lia).
  cbn [andb]. f_equal. lia.
Qed.

Lemma memcpy_outside (buf : buffer) (dst : Z) (src : list ascii) (j : Z) :
  j < dst \/ dst + Z.of_nat (length src) <= j -> memcpy buf dst src j = buf j.
Proof.
  intros Hj. unfold memcpy.
  destruct (dst <=? j) eqn:E1; [|reflexivity].
  destruct (j <? dst + Z.of_nat (length src)) eqn:E2; [|reflexivity].
  apply Z.leb_le in E1. apply Z.ltb_lt in E2. lia.
Qed.

Lemma whitespace_cases (t : ascii) :
  ISWHITESPACE t = true -> t = " "%char \/ t = "009"%char \/ t = "010"%char.
Proof.
  unfold ISWHITESPACE. intros H.
  apply orb_prop in H. destruct H as [H|H];
    [apply orb_prop in H; destruct H as [H|H]|];
    apply Ascii.eqb_eq in H; auto.
Qed.

(** A line that consists of one quoted text and the whitespace that ends
    it gives exactly one argument, the text. *)
Lemma quoted_line_is_one_argument (q t : ascii) (s : list ascii) :
  q = SQUOTE \/ q = DQUOTE ->
  Forall plain_char s ->
  s <> [] ->
  (length s < MAX_INPUT_LEN)%nat ->
  ISWHITESPACE t = true ->
  exists r,
    processArgs (q :: s ++ [q; t]) zero_buffer 0 null_arglist 0 = Some r /\
    result_args 0 r = [s] /\
    r_argCount r = 1 /\
    r_stopReason r = SR_DONE /\
    r_processed r = Z.of_nat (length s) + 4.
Proof.
  intros Hq Hs Hne Hlen Ht.
  set (pre := q :: s ++ [q]).
  assert (Hin : q :: s ++ [q; t] = pre ++ [t])
    by (unfold pre; simpl; rewrite <- app_assoc; reflexivity).
  assert (Hpre : Z.of_nat (length pre) = Z.of_nat (length s) + 2)
    by (unfold pre; cbn [length]; rewrite length_app; simpl; lia).
  unfold processArgs.
  replace (S (length (q :: s ++ [q; t]))) with (S (length s + 1) + 2)%nat
    by (cbn [length]; rewrite length_app; simpl; lia).
  change (q :: s ++ [q; t]) with ([] ++ q :: s ++ q :: [t]) at 1.
  rewrite (lex_rounds_loop _ 0 0 _ 2 _ _
             (quoted_region [t] 0 0 q s [] (lex_init zero_buffer null_arglist)
                            Hq Hs eq_refl eq_refl eq_refl)).
  rewrite push_chars_spec by reflexivity.
  cbn [app]. rewrite Hin.
  unfold advance, set_quote, lex_init.
  cbn [escaped quoted quoteChar processed c curArg argsOffset argCount
       argBuffer argList app].
  rewrite !Z.add_0_l, <- Hpre.
  assert (Hnul : forall ch, ISWHITESPACE ch = true ->
                 (ch =? NUL)%char = false /\ (ch =? BACKSLASH)%char = false /\
                 (ch =? SQUOTE)%char = false /\ (ch =? DQUOTE)%char = false).
  { intros ch H. destruct (whitespace_cases ch H) as [E|[E|E]]; subst;
      repeat split; reflexivity. }
  destruct (Hnul t Ht) as (T1 & T2 & T3 & T4).
  (* the round that reads the whitespace behind the closing quote *)
  cbn [lex_loop]. unfold lex_iter at 1. cbn [c escaped quoted].
  rewrite char_at_app. cbn [hd]. rewrite T1, T2, T3, T4, Ht.
  cbn [andb orb negb].
  assert (Hpos : (0 <? Z.of_nat (length s)) = true).
  { apply Z.ltb_lt. destruct s; [congruence | simpl; lia]. }
  unfold curArgLen at 1. cbn [curArg]. rewrite Hpos.
  assert (Hskip : skipn (Z.to_nat (Z.of_nat (length pre))) (pre ++ [t]) = [t]).
  { rewrite Nat2Z.id, skipn_app, skipn_all, Nat.sub_diag. reflexivity. }
  rewrite after_flush_plain; cbn [c flush_arg]; rewrite Hskip;
    cbn [skip_ws]; rewrite Ht;
    [|rewrite char_at_end by (rewrite length_app; cbn [length]; lia); reflexivity].
  (* the round that reads the end of the input *)
  unfold lex_iter. cbn [c advance flush_arg].
  rewrite char_at_end by (rewrite length_app; cbn [length]; lia).
  cbn [Ascii.eqb Bool.eqb NUL]. unfold lex_finish, curArgLen.
  cbn [option_map processed argsOffset argBuffer argCount argList advance
       flush_arg curArg escaped quoted quoteChar c].
  eexists. split; [reflexivity|].
  unfold result_args.
  cbn [r_argCount r_argBuffer r_argList r_stopReason r_processed].
  repeat split; try lia.
  change (Z.to_nat (0 + 1)) with 1%nat. cbn [argv_at].
  unfold store_arg. cbn [Z.eqb Z.add]. f_equal.
  apply cstring_at_read.
  - eapply Forall_impl; [|exact Hs]. intros a (_ & _ & _ & H); exact H.
  - intros i Hi. apply memcpy_inside. assumption.
  - rewrite memcpy_outside by lia. reflexivity.
  - exact Hlen.
Qed.

(** C7 as it is written fails on a quoted text that holds a backslash: the
    argument is not the text between the quotes. *)
Lemma quoted_text_with_backslash_changes :
  lex "'a\b' " = Some (7, ["ab"%string], SR_DONE) /\
  ~ (exists n r, lex "'a\b' " = Some (n, ["a\b"%string], r)).
Proof.
  split; [vm_compute; reflexivity|].
  intros (n & r & H). vm_compute in H. discriminate H.
Qed.

(** Further inputs on which the text between the quotes is not what comes
    out: the other quote character is dropped, empty quotes give no
    argument, and an argument that is pending at the end of the input is
    not handed out. *)
Example quoted_text_other_inputs :
  lex (string_of_list_ascii
         [SQUOTE; "i"; "t"; DQUOTE; "s"; SQUOTE; " "]%char)
  = Some (8, ["its"%string], SR_DONE) /\
  lex "'' " = Some (4, [], SR_DONE) /\
  lex "'abc" = Some (5, [], SR_DONE).
Proof. repeat split; vm_compute; reflexivity. Qed.

(** ** A control character in front of any argument *)

Lemma advance_0 (st : lex_state) : advance 0 0 st = st.
Proof. destruct st; unfold advance; simpl. f_equal; lia. Qed.

(** Whitespace in front of the first argument is passed one character per
    round. *)
Lemma leading_whitespace (rest : list ascii) (bb lb : Z) :
  forall (ws pre : list ascii) (st : lex_state),
    Forall (fun ch => ISWHITESPACE ch = true) ws ->
    escaped st = false -> quoted st = false -> curArg st = [] ->
    c st = Z.of_nat (length pre) ->
    lex_rounds (length ws) (pre ++ ws ++ rest) bb lb st =
    Some (advance (Z.of_nat (length ws)) (Z.of_nat (length ws)) st).
Proof.
  induction ws as [|ch ws IH]; intros pre st Hws He Hq Ha Hc.
  - simpl. rewrite advance_0. reflexivity.
  - inversion Hws as [|? ? Hch Hws']; subst.
    cbn [length lex_rounds]. unfold lex_iter.
    rewrite Hc, char_at_app. cbn [hd app].
    destruct (whitespace_cases ch Hch) as [E|[E|E]]; subst ch;
      cbn [Ascii.eqb Bool.eqb NUL BACKSLASH SQUOTE DQUOTE andb orb
           ISWHITESPACE ISCONTROLCHAR];
      rewrite He, Hq; unfold curArgLen; rewrite Ha;
      change (0 <? Z.of_nat (length (@nil ascii))) with false;
      cbn [orb negb andb];
      unfold next_round;
      match goal with
      | |- context [pre ++ ?x :: ws ++ rest] =>
          replace (pre ++ x :: ws ++ rest) with ((pre ++ [x]) ++ ws ++ rest)
            by (rewrite <- app_assoc; reflexivity)
      end;
      (rewrite IH; try assumption;
       [ destruct st; unfold advance;
         cbn [escaped quoted quoteChar processed c curArg argsOffset argCount
              argBuffer argList];
         rewrite Nat2Z.inj_succ; do 2 f_equal; lia
       | cbn [c advance]; rewrite Hc, length_app; cbn [length]; lia ]).
Qed.

(** Lines 213-216: a control character that is neither quoted nor escaped
    and meets an empty [curArg] ends the call with [SR_ERROR]. *)
Lemma control_without_argument (input : list ascii) (bb lb : Z) (st : lex_state) :
  escaped st = false -> quoted st = false -> curArg st = [] ->
  ISCONTROLCHAR (char_at input (c st)) = true ->
  lex_iter input bb lb st = Break st SR_ERROR.
Proof.
  intros He Hq Ha Hc. unfold lex_iter.
  set (ch := char_at input (c st)) in *.
  assert (H : (ch =? NUL)%char = false /\ (ch =? BACKSLASH)%char = false /\
              (ch =? SQUOTE)%char = false /\ (ch =? DQUOTE)%char = false).
  { unfold ISCONTROLCHAR in Hc.
    repeat (apply orb_prop in Hc; destruct Hc as [Hc|Hc]);
      apply Ascii.eqb_eq in Hc; rewrite Hc; repeat split; reflexivity. }
  destruct H as (H1 & H2 & H3 & H4). rewrite H1, H2, H3, H4, Hc, He, Hq.
  unfold curArgLen. rewrite Ha. rewrite orb_true_r. reflexivity.
Qed.

(** A call on text that starts, after whitespace, with a control character
    hands out no argument, reports [SR_ERROR], has consumed the text up to
    and including that character and has written to neither array. *)
Lemma processArgs_leading_control (ws rest : list ascii) (ctl : ascii)
      (buf : buffer) (bb : Z) (l : arglist) (lb : Z) :
  Forall (fun ch => ISWHITESPACE ch = true) ws ->
  ISCONTROLCHAR ctl = true ->
  processArgs (ws ++ ctl :: rest) buf bb l lb =
  Some (mkLexResult (Z.of_nat (length ws) + 1) 0 buf 0 l SR_ERROR).
Proof.
  intros Hws Hctl. unfold processArgs.
  replace (S (length (ws ++ ctl :: rest)))
    with (length ws + S (S (length rest)))%nat
    by (rewrite length_app; cbn [length]; lia).
  rewrite (lex_rounds_loop _ bb lb _ _ _ _
             (leading_whitespace (ctl :: rest) bb lb ws [] (lex_init buf l)
                                 Hws eq_refl eq_refl eq_refl eq_refl)).
  cbn [app lex_loop].
  assert (Hc : ISCONTROLCHAR
                 (char_at (ws ++ ctl :: rest)
                    (c (advance (Z.of_nat (length ws)) (Z.of_nat (length ws))
                                (lex_init buf l)))) = true).
  { cbn [c advance lex_init]. rewrite Z.add_0_l, char_at_app. exact Hctl. }
  rewrite (control_without_argument (ws ++ ctl :: rest) bb lb
             (advance (Z.of_nat (length ws)) (Z.of_nat (length ws))
                      (lex_init buf l)) eq_refl eq_refl eq_refl Hc).
  cbn [option_map lex_finish advance lex_init processed argsOffset argBuffer
       argCount argList].
  do 2 f_equal.
Qed.

(** ** Arguments that were handed out are not overwritten *)

Lemma args_kept_refl (bb lb : Z) (st : lex_state) : args_kept bb lb st st.
Proof. unfold args_kept. repeat split; auto; lia. Qed.

Lemma args_kept_trans (bb lb : Z) (st0 st1 st2 : lex_state) :
  args_kept bb lb st0 st1 -> args_kept bb lb st1 st2 -> args_kept bb lb st0 st2.
Proof.
  intros (A1 & A2 & A3 & A4) (B1 & B2 & B3 & B4). unfold args_kept.
  repeat split; try lia.
  - intros j Hj. rewrite B3 by lia. apply A3. exact Hj.
  - intros j Hj. rewrite B4 by lia. apply A4. exact Hj.
Qed.

Lemma args_kept_flush (bb lb : Z) (st : lex_state) :
  args_kept bb lb st (flush_arg bb lb st).
Proof.
  unfold args_kept, flush_arg, curArgLen, store_arg.
  cbn [argCount argsOffset argList argBuffer].
  repeat split; try lia.
  - intros j Hj. destruct (j =? lb + argCount st) eqn:E; [|reflexivity].
    apply Z.eqb_eq in E. lia.
  - intros j Hj. apply memcpy_outside. lia.
Qed.

Lemma args_kept_same (bb lb : Z) (st s : lex_state) :
  argCount s = argCount st -> argsOffset s = argsOffset st ->
  argList s = argList st -> argBuffer s = argBuffer st ->
  args_kept bb lb st s.
Proof.
  intros H1 H2 H3 H4. unfold args_kept. rewrite H1, H2, H3, H4.
  repeat split; auto; lia.
Qed.

(** The rounds only write through [flush_arg]. *)
Lemma lex_iter_args_kept (input : list ascii) (bb lb : Z) (st : lex_state) :
  match lex_iter input bb lb st with
  | Continue st' => args_kept bb lb st st'
  | Break st' _ => args_kept bb lb st st'
  end.
Proof.
  unfold lex_iter, next_round.
  repeat match goal with
         | |- context [if ?b then _ else _] =>
             lazymatch b with
             | context [if _ then _ else _] => fail
             | _ => destruct b
             end
         end;
    try (apply args_kept_same; reflexivity).
  unfold after_flush, next_round.
  repeat match goal with
         | |- context [if ?b then _ else _] =>
             lazymatch b with
             | context [if _ then _ else _] => fail
             | _ => destruct b
             end
         end;
    (eapply args_kept_trans;
     [apply args_kept_flush | apply args_kept_same; reflexivity]).
Qed.

Lemma lex_loop_args_kept (input : list ascii) (bb lb : Z) :
  forall (fuel : nat) (st st' : lex_state) (r : stop_reason),
    lex_loop fuel input bb lb st = Some (st', r) ->
    args_kept bb lb st st'.
Proof.
  induction fuel as [|f IH]; intros st st' r H; [discriminate|].
  cbn [lex_loop] in H.
  pose proof (lex_iter_args_kept input bb lb st) as Hk.
  destruct (lex_iter input bb lb st) as [s1|s1 r1].
  - eapply args_kept_trans; [exact Hk | eapply IH; exact H].
  - inversion H; subst. exact Hk.
Qed.

(** What [after_flush] leaves of the state it is given, whichever way the
    round ends: all but the position. *)
Lemma after_flush_same (input : list ascii) (st1 : lex_state) :
  forall st2,
    (after_flush input st1 = Continue st2 \/
     exists r, after_flush input st1 = Break st2 r) ->
    argCount st2 = argCount st1 /\ argsOffset st2 = argsOffset st1 /\
    argList st2 = argList st1 /\ argBuffer st2 = argBuffer st1.
Proof.
  intros st2. unfold after_flush, next_round.
  repeat match goal with
         | |- context [if ?b then _ else _] =>
             lazymatch b with
             | context [if _ then _ else _] => fail
             | _ => destruct b
             end
         end;
    intros [H|(r & H)]; inversion H; subst; repeat split; reflexivity.
Qed.

(** A separator is neither the end of the input, nor a backslash, nor a
    quote. *)
Lemma separator_tests (t : ascii) :
  ISWHITESPACE t || ISCONTROLCHAR t = true ->
  (t =? NUL)%char = false /\ (t =? BACKSLASH)%char = false /\
  (t =? SQUOTE)%char = false /\ (t =? DQUOTE)%char = false.
Proof.
  intros H. apply orb_prop in H. destruct H as [H|H].
  - destruct (whitespace_cases t H) as [E|[E|E]]; subst;
      repeat split; reflexivity.
  - unfold ISCONTROLCHAR in H.
    repeat (apply orb_prop in H; destruct H as [H|H]);
      apply Ascii.eqb_eq in H; subst; repeat split; reflexivity.
Qed.

(** The state in which the loop meets the separator behind a quoted text
    that is the first word of the input. *)
Lemma quoted_word_rounds (ws s rest : list ascii) (q : ascii)
      (buf : buffer) (bb : Z) (l : arglist) (lb : Z) :
  q = SQUOTE \/ q = DQUOTE ->
  Forall (fun ch => ISWHITESPACE ch = true) ws ->
  Forall plain_char s ->
  let n := Z.of_nat (length ws) + Z.of_nat (length s) + 2 in
  lex_rounds (length ws + S (length s + 1)) (ws ++ q :: s ++ q :: rest) bb lb
             (lex_init buf l) =
  Some (mkLex false false NUL n n s 0 0 buf l).
Proof.
  intros Hq Hws Hs n.
  erewrite lex_rounds_app; cycle 1.
  { apply (leading_whitespace (q :: s ++ q :: rest) bb lb ws []
             (lex_init buf l) Hws); reflexivity. }
  cbn [app].
  rewrite (quoted_region rest bb lb q s ws _ Hq Hs); try reflexivity.
  rewrite push_chars_spec by reflexivity.
  unfold advance, set_quote, lex_init, n.
  cbn [escaped quoted quoteChar processed c curArg argsOffset argCount
       argBuffer argList app].
  do 2 f_equal; lia.
Qed.


(** ** The chain builder and parse errors *)

(** C6 (amended).  While the builder reads a command and is not continuing
    a command that was sent to the background, text that starts, after
    whitespace, with a control character makes the lexer call report
    [SR_ERROR] having consumed the text up to and including that character;
    the builder prints its diagnostic, creates no node, closes no chain,
    keeps its mode and its links, and the loop goes on with the text behind
    the control character. *)
Theorem parse_error_skips_segment (sys_open : list ascii -> Z -> Z)
        (input : list ascii) (s : build_state)
        (ws rest : list ascii) (ctl : ascii) :
  getFd s = None ->
  continueLast s = false ->
  skipn (Z.to_nat (inputPos s)) input = ws ++ ctl :: rest ->
  Forall (fun ch => ISWHITESPACE ch = true) ws ->
  ISCONTROLCHAR ctl = true ->
  exists s',
    build_round sys_open input s = Some s' /\
    (forall fuel, build_loop sys_open input (S fuel) s =
                  build_loop sys_open input fuel s') /\
    stopReason s' = SR_ERROR /\
    inputPos s' = inputPos s + (Z.of_nat (length ws) + 1) /\
    b_argCount s' = 0 /\
    stderr s' = stderr s ++ [Unrecognized_command_input] /\
    chains s' = chains s /\ commandCount s' = commandCount s /\
    chainCount s' = chainCount s /\
    getFd s' = None /\ continueLast s' = false /\
    com s' = com s /\ lastCom s' = lastCom s /\
    argTotal s' = argTotal s /\ argCharsTotal s' = argCharsTotal s /\
    b_argBuffer s' = b_argBuffer s /\ b_argList s' = b_argList s.
Proof.
  intros Hfd Hcl Hin Hws Hctl.
  assert (Hr : build_round sys_open input s =
               Some (report Unrecognized_command_input
                       (after_lex (mkLexResult (Z.of_nat (length ws) + 1) 0
                                     (b_argBuffer s) 0 (b_argList s) SR_ERROR) s))).
  { unfold build_round. rewrite Hfd. unfold command_round, call_lexer.
    rewrite Hin, processArgs_leading_control by assumption.
    cbn [bind after_lex stopReason continueLast r_stopReason].
    rewrite Hcl. reflexivity. }
  eexists. split; [exact Hr|]. split.
  - intros fuel. cbn [build_loop]. rewrite Hr. reflexivity.
  - cbn. rewrite Hfd, Hcl. repeat split; reflexivity.
Qed.

Lemma parse_error_skips_segment_witness :
  let input := list_ascii_of_string " ;; echo x" in
  let s := build_init zero_buffer null_arglist in
  exists s',
    build_round (fun _ _ => 3) input s = Some s' /\
    (forall fuel, build_loop (fun _ _ => 3) input (S fuel) s =
                  build_loop (fun _ _ => 3) input fuel s') /\
    stopReason s' = SR_ERROR /\
    inputPos s' = inputPos s + (Z.of_nat (length [" "%char]) + 1) /\
    b_argCount s' = 0 /\
    stderr s' = stderr s ++ [Unrecognized_command_input] /\
    chains s' = chains s /\ commandCount s' = commandCount s /\
    chainCount s' = chainCount s /\
    getFd s' = None /\ continueLast s' = false /\
    com s' = com s /\ lastCom s' = lastCom s /\
    argTotal s' = argTotal s /\ argCharsTotal s' = argCharsTotal s /\
    b_argBuffer s' = b_argBuffer s /\ b_argList s' = b_argList s.
Proof.
  apply (parse_error_skips_segment (fun _ _ => 3)
           (list_ascii_of_string " ;; echo x")
           (build_init zero_buffer null_arglist)
           [" "%char] (list_ascii_of_string "; echo x") ";"%char).
  - reflexivity.
  - reflexivity.
  - reflexivity.
  - repeat constructor.
  - reflexivity.
Defined.

(** C6 as it is written fails behind a [&]: the lexer call on the text
    [ ; b] reports [SR_ERROR], yet the builder prints nothing (line 285
    asks for [!continueLast]) and closes the chain instead. *)
Lemma parse_error_after_background_not_reported :
  let input := list_ascii_of_string "a & ; b" in
  exists s1 s2,
    build_round (fun _ _ => 3) input (build_init zero_buffer null_arglist)
      = Some s1 /\
    stopReason s1 = SR_BACKGROUND /\ inputPos s1 = 3 /\
    build_round (fun _ _ => 3) input s1 = Some s2 /\
    stopReason s2 = SR_ERROR /\ inputPos s2 = 5 /\
    stderr s2 = [] /\ chainCount s2 = 1.
Proof.
  eexists. eexists.
  split; [vm_compute; reflexivity|].
  split; [reflexivity|]. split; [reflexivity|].
  split; [vm_compute; reflexivity|].
  repeat split; reflexivity.
Qed.

(** ** The stop reason of [<<] *)

(** C5 as it is written fails on [cat << f]: no file is opened for the
    node of [cat], the chain is closed, and [f] becomes a command of its
    own; with [<] the same line gives one node that reads from the file. *)
Lemma heredoc_is_not_redirect_input :
  option_map summary (buildCommandChains (fun _ _ => 3) (line "cat << f"))
  = Some (2, None, [(0, 1, (false, false, false, false), None);
                    (0, 1, (false, false, false, false), None)]) /\
  option_map summary (buildCommandChains (fun _ _ => 3) (line "cat < f"))
  = Some (1, None, [(3, 1, (false, false, false, false), None)]).
Proof. split; vm_compute; reflexivity. Qed.

(** ** Redirections that fail *)

(** C4 at its failing inputs.  After [echo a >] the text [ ;] is no file
    name: the builder prints its diagnostic and, leaving the round by
    [continue], keeps [getFd]; the next segment [echo b] is therefore read
    as a file name too, no node is made for it and no chain is counted.
    When the file cannot be opened the negative result is stored in the
    node's descriptor, and [getFd] is kept as well. *)
Theorem failed_redirection_keeps_target :
  (exists b,
     buildCommandChains (fun _ _ => 3) (line "echo a > ; echo b") = Some b /\
     getFd b = Some (FdOut 0) /\
     stderr b = [Error_reading_filename; Error_reading_filename] /\
     summary b = (0, Some (FdOut 0), [(0, 1, (false, false, false, false), None)]))
  /\
  (exists b,
     buildCommandChains (fun _ _ => -1) (line "echo a > f ; echo b") = Some b /\
     getFd b = Some (FdOut 0) /\
     stderr b = [Error_opening_file (list_ascii_of_string "f");
                 Error_reading_filename] /\
     summary b = (0, Some (FdOut 0), [(0, -1, (false, false, false, false), None)])).
Proof.
  split; eexists; (split; [vm_compute; reflexivity|]);
    repeat split; reflexivity.
Qed.

(** In redirection-target mode a lexer call that reports a parse error, or
    hands out no argument or several, makes the builder print its
    diagnostic and leave the round with [getFd] unchanged: the next round
    reads a file name again. *)
Lemma redirect_error_keeps_target (sys_open : list ascii -> Z -> Z)
      (input : list ascii) (p : fd_ref) (s : build_state) (r : lex_result) :
  getFd s = Some p ->
  processArgs (skipn (Z.to_nat (inputPos s)) input) (b_argBuffer s)
              (argCharsTotal s) (b_argList s) (argTotal s) = Some r ->
  r_stopReason r = SR_ERROR \/ r_argCount r <> 1 ->
  exists s',
    build_round sys_open input s = Some s' /\
    getFd s' = Some p /\
    stderr s' = stderr s ++ [Error_reading_filename] /\
    chains s' = chains s /\ chainCount s' = chainCount s.
Proof.
  intros Hfd Hr Hbad. unfold build_round. rewrite Hfd.
  unfold redirect_round, call_lexer. rewrite Hr. cbn [bind].
  replace (stop_reason_eqb (stopReason (after_lex r s)) SR_ERROR
           || negb (b_argCount (after_lex r s) =? 1)) with true.
  - eexists. split; [reflexivity|]. cbn. repeat split; try reflexivity.
    exact Hfd.
  - symmetry. cbn [after_lex stopReason b_argCount].
    destruct Hbad as [H|H].
    + rewrite H. reflexivity.
    + apply Z.eqb_neq in H. rewrite H. apply orb_true_r.
Qed.

(** In redirection-target mode a file that cannot be opened leaves the
    negative result of [open] in the descriptor of the node, and [getFd]
    unchanged. *)
Lemma open_failure_is_stored (sys_open : list ascii -> Z -> Z)
      (input : list ascii) (p : fd_ref) (s : build_state) (r : lex_result)
      (fp : Z) :
  getFd s = Some p ->
  processArgs (skipn (Z.to_nat (inputPos s)) input) (b_argBuffer s)
              (argCharsTotal s) (b_argList s) (argTotal s) = Some r ->
  r_stopReason r <> SR_ERROR -> r_argCount r = 1 ->
  r_argList r (argTotal s) = Some fp ->
  let filename := cstring_at MAX_INPUT_LEN (r_argBuffer r) fp in
  sys_open filename (oflags s) < 0 ->
  exists s',
    build_round sys_open input s = Some s' /\
    getFd s' = Some p /\
    chains s' = store_fd p (sys_open filename (oflags s)) (chains s) /\
    stderr s' = stderr s ++ [Error_opening_file filename] /\
    chainCount s' = chainCount s.
Proof.
  intros Hfd Hr Hne Hone Hcell filename Hneg. unfold build_round. rewrite Hfd.
  unfold redirect_round, call_lexer. rewrite Hr. cbn [bind].
  replace (stop_reason_eqb (stopReason (after_lex r s)) SR_ERROR
           || negb (b_argCount (after_lex r s) =? 1)) with false.
  - cbn [after_lex b_argList argTotal]. rewrite Hcell. cbn [bind].
    apply Z.ltb_lt in Hneg.
    change (sys_open
              (cstring_at MAX_INPUT_LEN (b_argBuffer (after_lex r s)) fp)
              (oflags (keep_args (after_lex r s))))
      with (sys_open filename (oflags s)).
    rewrite Hneg.
    eexists. split; [reflexivity|]. cbn. repeat split; try reflexivity.
    exact Hfd.
  - symmetry. cbn [after_lex stopReason b_argCount]. rewrite Hone.
    cbn [Z.eqb Pos.eqb negb]. rewrite orb_false_r.
    unfold stop_reason_eqb. apply Z.eqb_neq.
    destruct (r_stopReason r); cbn; try discriminate. congruence.
Qed.

(** ** The array of commands under the builder's writes *)

Lemma update_at_length (f : command_t -> command_t) (l : list command_t) :
  forall i, length (update_at i f l) = length l.
Proof.
  induction l as [|k l IH]; intros [|i]; simpl; auto.
Qed.

Lemma update_at_same (f : command_t -> command_t) (l : list command_t) :
  forall i, nth_error (update_at i f l) i = option_map f (nth_error l i).
Proof.
  induction l as [|k l IH]; intros [|i]; simpl; auto.
Qed.

Lemma update_at_other (f : command_t -> command_t) (l : list command_t) :
  forall i j, i <> j -> nth_error (update_at i f l) j = nth_error l j.
Proof.
  induction l as [|k l IH]; intros [|i] [|j] H; simpl; auto; congruence.
Qed.

Lemma update_at_In (f : command_t -> command_t) (l : list command_t) :
  forall i k, In k (update_at i f l) -> In k l \/ exists k0, In k0 l /\ k = f k0.
Proof.
  induction l as [|a l IH]; intros [|i] k H; simpl in *; auto.
  - destruct H as [H|H]; eauto.
  - destruct H as [H|H]; auto.
    destruct (IH i k H) as [H1|(k0 & H1 & H2)]; eauto.
Qed.

Lemma chain_from_bound (cs : list command_t) (a n : nat) :
  chain_from cs a n -> (1 <= n /\ a + n <= length cs)%nat.
Proof.
  induction 1 as [i k Hk _ _|i k n Hk _ _ IH].
  - assert (i < length cs)%nat by (apply nth_error_Some; congruence). lia.
  - lia.
Qed.

(** A chain only depends on the cells it lies in. *)
Lemma chain_from_ext (cs cs' : list command_t) (a n : nat) :
  chain_from cs a n ->
  (forall i, (i < a + n)%nat -> nth_error cs' i = nth_error cs i) ->
  chain_from cs' a n.
Proof.
  induction 1 as [i k Hk Hn Hp|i k n Hk Hn _ IH]; intros Hext.
  - eapply chain_last; eauto. rewrite Hext by lia. exact Hk.
  - eapply chain_cons; eauto.
    + rewrite Hext by lia. exact Hk.
    + apply IH. intros j Hj. apply Hext. lia.
Qed.

Lemma chains_from_bound (cs : list command_t) (a : nat) (ls : list nat) (e : nat) :
  chains_from cs a ls e -> (a <= e)%nat.
Proof.
  induction 1 as [a|a n ls e Hc _ IH]; [lia|].
  apply chain_from_bound in Hc. lia.
Qed.

Lemma chains_from_ext (cs cs' : list command_t) (a : nat) (ls : list nat) (e : nat) :
  chains_from cs a ls e ->
  (forall i, (i < e)%nat -> nth_error cs' i = nth_error cs i) ->
  chains_from cs' a ls e.
Proof.
  induction 1 as [a|a n ls e Hc Hcs IH]; intros Hext; constructor.
  - eapply chain_from_ext; [exact Hc|].
    intros i Hi. apply Hext. apply chains_from_bound in Hcs. lia.
  - apply IH. exact Hext.
Qed.

Lemma chains_from_snoc (cs : list command_t) (a : nat) (ls : list nat) (e n : nat) :
  chains_from cs a ls e -> chain_from cs e n ->
  chains_from cs a (ls ++ [n]) (e + n).
Proof.
  induction 1 as [a|a m ls e Hc Hcs IH]; intros Hn; simpl.
  - constructor; [exact Hn | constructor].
  - constructor; [exact Hc | apply IH; exact Hn].
Qed.

(** A node inside a chain either ends it, and is not piped, or points to
    the next cell, which belongs to the chain too. *)
Lemma chain_from_node (cs : list command_t) (a n : nat) :
  chain_from cs a n ->
  forall i k, (a <= i < a + n)%nat -> nth_error cs i = Some k ->
    (next k = None /\ piped k = false /\ S i = (a + n)%nat) \/
    (next k = Some (S i) /\ (S i < a + n)%nat).
Proof.
  induction 1 as [a k0 Hk0 Hn Hp|a k0 n Hk0 Hn Hc IH]; intros i k Hi Hk.
  - assert (i = a) by lia. subst. left.
    rewrite Hk0 in Hk. inversion Hk; subst. repeat split; try assumption. lia.
  - destruct (Nat.eq_dec i a) as [->|Hne].
    + right. rewrite Hk0 in Hk. inversion Hk; subst.
      apply chain_from_bound in Hc. split; [assumption | lia].
    + destruct (IH i k ltac:(lia) Hk) as [(H1 & H2 & H3)|(H1 & H2)].
      * left. repeat split; try assumption. lia.
      * right. split; [assumption | lia].
Qed.

Lemma chains_from_node (cs : list command_t) (a : nat) (ls : list nat) (e : nat) :
  chains_from cs a ls e ->
  forall i k, (a <= i < e)%nat -> nth_error cs i = Some k ->
    (next k = None /\ piped k = false) \/
    (next k = Some (S i) /\ (S i < e)%nat).
Proof.
  induction 1 as [a|a n ls e Hc Hcs IH]; intros i k Hi Hk; [lia|].
  pose proof (chains_from_bound _ _ _ _ Hcs) as Hb.
  destruct (Nat.lt_ge_cases i (a + n)) as [Hlt|Hge].
  - destruct (chain_from_node _ _ _ Hc i k ltac:(lia) Hk)
      as [(H1 & H2 & _)|(H1 & H2)]; [left; auto | right; split; [auto | lia]].
  - apply IH; [lia | exact Hk].
Qed.

(** The nodes behind the counted chains, linked one to the next, are a
    chain as soon as the last of them is not piped. *)
Lemma open_nodes_chain (cs : list command_t) :
  forall (m a : nat),
    (a + S m = length cs)%nat ->
    (forall i k, (a <= i)%nat -> nth_error cs i = Some k ->
                 next k = if (S i <? length cs)%nat then Some (S i) else None) ->
    (forall k, nth_error cs (pred (length cs)) = Some k -> piped k = false) ->
    chain_from cs a (S m).
Proof.
  induction m as [|m IH]; intros a Hlen Hopen Hlast.
  - destruct (nth_error cs a) as [k|] eqn:E;
      [|apply nth_error_None in E; lia].
    eapply chain_last; [exact E| |].
    + rewrite (Hopen a k) by (auto; lia).
      replace (S a <? length cs)%nat with false; [reflexivity|].
      symmetry. apply Nat.ltb_ge. lia.
    + apply Hlast. replace (pred (length cs)) with a by lia. exact E.
  - destruct (nth_error cs a) as [k|] eqn:E;
      [|apply nth_error_None in E; lia].
    eapply chain_cons; [exact E| |].
    + rewrite (Hopen a k) by (auto; lia).
      replace (S a <? length cs)%nat with true; [reflexivity|].
      symmetry. apply Nat.ltb_lt. lia.
    + apply IH; [lia| |exact Hlast].
      intros i k' Hi. apply Hopen. lia.
Qed.

(** ** The invariant of the builder *)

(** The state after the [switch] when it has written to the last node at
    most, without touching its link or its arguments, and has left the
    builder in a mode that keeps the chain open. *)
Lemma open_update_inv (s s' : build_state) (closed : nat) (lens : list nat) :
  react_ready s closed lens ->
  commandCount s' = commandCount s -> com s' = com s ->
  chainCount s' = chainCount s -> argTotal s' = argTotal s ->
  b_argList s' = b_argList s -> inputPos s' = inputPos s ->
  length (chains s') = length (chains s) ->
  (forall i, i <> pred (commandCount s) ->
             nth_error (chains s') i = nth_error (chains s) i) ->
  (forall k', nth_error (chains s') (pred (commandCount s)) = Some k' ->
     exists k0, nth_error (chains s) (pred (commandCount s)) = Some k0 /\
                next k' = next k0 /\ cmd_argList k' = cmd_argList k0 /\
                (piped k' = true -> pending s')) ->
  (getFd s' <> None \/ continueLast s' = true \/
   lastCom s' = Some (pred (commandCount s))) ->
  (forall p, getFd s' = Some p ->
     (p = FdIn (pred (commandCount s)) \/ p = FdOut (pred (commandCount s))) /\
     continueLast s' = false) ->
  build_inv s' closed lens.
Proof.
  intros R Hcc Hcom Hch Hat Hal Hip Hlen Hother Hlast Hmode Hfd.
  destruct R as [R1 R2 R3 R4 R5 R6 R7 R8 R9 R10 R11 R12].
  set (n := pred (commandCount s)) in *.
  assert (Hn : S n = commandCount s) by (unfold n; lia).
  constructor; rewrite ?Hcc, ?Hcom, ?Hch, ?Hat, ?Hal, ?Hip; try assumption;
    try lia.
  - rewrite R2. rewrite <- Hn. reflexivity.
  - eapply chains_from_ext; [exact R4|]. intros i Hi. apply Hother. lia.
  - intros i k Hi Hk. destruct (Nat.eq_dec i n) as [->|Hne].
    + destruct (Hlast k Hk) as (k0 & Hk0 & Hnx & _).
      rewrite Hnx. apply R6; assumption.
    + rewrite Hother in Hk by assumption. apply R6; assumption.
  - intros i k Hk Hp. destruct (Nat.eq_dec i n) as [->|Hne].
    + destruct (Hlast k Hk) as (k0 & Hk0 & _ & _ & Hpend).
      right. split; [exact Hn | apply Hpend; exact Hp].
    + rewrite Hother in Hk by assumption. left. eapply R7; eassumption.
  - intros _. fold n. exact Hmode.
  - intros p Hp. fold n. destruct (Hfd p Hp) as (H1 & H2).
    repeat split; assumption.
  - intros k Hk. apply In_nth_error in Hk. destruct Hk as (i & Hk).
    destruct (Nat.eq_dec i n) as [->|Hne].
    + destruct (Hlast k Hk) as (k0 & Hk0 & _ & Harg & _).
      rewrite Harg. apply R11. eapply nth_error_In; exact Hk0.
    + rewrite Hother in Hk by assumption.
      apply R11. eapply nth_error_In; exact Hk.
Qed.

Lemma ready_last_not_piped (s : build_state) (closed : nat) (lens : list nat)
      (k : command_t) :
  react_ready s closed lens ->
  nth_error (chains s) (pred (commandCount s)) = Some k ->
  piped k = false.
Proof.
  intros R Hk. destruct (piped k) eqn:E; [|reflexivity].
  pose proof (rdy_piped _ _ _ R _ _ Hk E) as H1.
  pose proof (rdy_closed _ _ _ R) as Hc.
  assert (Hle : (closed <= pred (commandCount s))%nat) by lia.
  pose proof (rdy_open _ _ _ R _ _ Hle Hk) as H2.
  replace (S (pred (commandCount s)) <? commandCount s)%nat with false in H2
    by (symmetry; apply Nat.ltb_ge; lia).
  congruence.
Qed.

Lemma ready_last_exists (s : build_state) (closed : nat) (lens : list nat) :
  react_ready s closed lens ->
  exists k, nth_error (chains s) (pred (commandCount s)) = Some k.
Proof.
  intros R. destruct (nth_error (chains s) (pred (commandCount s))) eqn:E;
    [eauto|].
  apply nth_error_None in E.
  pose proof (rdy_length _ _ _ R). pose proof (rdy_closed _ _ _ R). lia.
Qed.

(** Closing the chain: lines 352-355. *)
Lemma close_chain_inv (s : build_state) (closed : nat) (lens : list nat) :
  react_ready s closed lens ->
  build_inv (close_chain s) (commandCount s)
            (lens ++ [commandCount s - closed]%nat).
Proof.
  intros R. pose proof R as [R1 R2 R3 R4 R5 R6 R7 R8 R9 R10 R11 R12].
  constructor; cbn [close_chain chains commandCount com chainCount getFd
                    continueLast lastCom stopReason argTotal b_argList inputPos];
    try assumption; try lia.
  - rewrite R2. destruct (commandCount s); [lia | reflexivity].
  - assert (Hc : chain_from (chains s) closed (commandCount s - closed)).
    { replace (commandCount s - closed)%nat
        with (S (commandCount s - closed - 1)) by lia.
      apply open_nodes_chain.
      + lia.
      + rewrite R1. exact R6.
      + rewrite R1. intros k Hk. eapply ready_last_not_piped; eassumption. }
    pose proof (chains_from_snoc _ _ _ _ _ R4 Hc) as H.
    replace (closed + (commandCount s - closed))%nat with (commandCount s)
      in H by lia.
    exact H.
  - rewrite length_app. cbn [length]. lia.
  - intros i k Hi Hk.
    assert (i < length (chains s))%nat by (apply nth_error_Some; congruence).
    lia.
  - intros i k Hk Hp. left. eapply R7; eassumption.
  - intros _. repeat split; assumption.
  - intros p Hp. congruence.
  - intros Hc. congruence.
Qed.

(** A write to a flag or a descriptor of the last node. *)
Lemma update_last_facts (s : build_state) (closed : nat) (lens : list nat)
      (f : command_t -> command_t) (k' : command_t) :
  react_ready s closed lens ->
  (forall k, next (f k) = next k /\ cmd_argList (f k) = cmd_argList k) ->
  nth_error (update_at (pred (commandCount s)) f (chains s))
            (pred (commandCount s)) = Some k' ->
  exists k0, nth_error (chains s) (pred (commandCount s)) = Some k0 /\
             k' = f k0 /\ piped k0 = false /\
             next k' = next k0 /\ cmd_argList k' = cmd_argList k0.
Proof.
  intros R Hf Hk. rewrite update_at_same in Hk.
  destruct (ready_last_exists _ _ _ R) as (k0 & Hk0). rewrite Hk0 in Hk.
  inversion Hk; subst. exists k0.
  pose proof (ready_last_not_piped _ _ _ _ R Hk0).
  destruct (Hf k0). repeat split; assumption.
Qed.

Ltac open_update R :=
  eapply open_update_inv; [exact R | try reflexivity ..].

(** The [switch] keeps the invariant, and changes neither the stop reason
    nor the position in the input nor the number of nodes. *)
Lemma react_inv (s : build_state) (closed : nat) (lens : list nat) :
  react_ready s closed lens ->
  exists s' closed' lens',
    react s = Some s' /\ build_inv s' closed' lens' /\
    stopReason s' = stopReason s /\ inputPos s' = inputPos s /\
    commandCount s' = commandCount s.
Proof.
  intros R. pose proof (rdy_com _ _ _ R) as Hcom.
  pose proof (rdy_getFd _ _ _ R) as Hfd.
  pose proof (rdy_continue _ _ _ R) as Hcl.
  set (n := pred (commandCount s)) in *.
  unfold react.
  destruct (stopReason s) eqn:Hsr;
    try (exists (close_chain s), (commandCount s),
           (lens ++ [commandCount s - closed]%nat);
         split; [reflexivity|]; split; [apply close_chain_inv; exact R|];
         repeat split; try reflexivity; exact Hsr);
    unfold on_com; cbn [com set_chains set_continueLast];
    repeat (progress (rewrite ?Hcom; cbn [bind com set_chains set_lastCom chains]));
    eexists; exists closed, lens;
    (split; [reflexivity|]); (split; [|repeat split; try reflexivity; exact Hsr]).
  - (* && *)
    open_update R; cbn [chains set_lastCom set_chains getFd continueLast lastCom].
    + apply update_at_length.
    + intros i Hi. apply update_at_other. intro E. apply Hi. symmetry. exact E.
    + intros k' Hk.
      destruct (update_last_facts s closed lens (set_stopOnFailure true) k' R
                  (fun k => conj eq_refl eq_refl) Hk) as (k0 & H0 & -> & Hp & _).
      exists k0.
      split; [exact H0|]. split; [reflexivity|]. split; [reflexivity|].
      intros _. repeat split; assumption.
    + right; right; reflexivity.
    + intros p Hp. congruence.
  - (* || *)
    open_update R; cbn [chains set_lastCom set_chains getFd continueLast lastCom].
    + apply update_at_length.
    + intros i Hi. apply update_at_other. intro E. apply Hi. symmetry. exact E.
    + intros k' Hk.
      destruct (update_last_facts s closed lens (set_stopOnSuccess true) k' R
                  (fun k => conj eq_refl eq_refl) Hk) as (k0 & H0 & -> & Hp & _).
      exists k0.
      split; [exact H0|]. split; [reflexivity|]. split; [reflexivity|].
      intros _. repeat split; assumption.
    + right; right; reflexivity.
    + intros p Hp. congruence.
  - (* | *)
    open_update R; cbn [chains set_lastCom set_chains getFd continueLast lastCom].
    + rewrite !update_at_length. reflexivity.
    + intros i Hi.
      rewrite !update_at_other by (intro E; apply Hi; symmetry; exact E).
      reflexivity.
    + intros k' Hk. fold n in Hk. rewrite update_at_same, update_at_same in Hk.
      destruct (ready_last_exists _ _ _ R) as (k0 & Hk0). fold n in Hk0.
      rewrite Hk0 in Hk. inversion Hk; subst k'. exists k0.
      repeat split; try assumption; try reflexivity.
    + right; right; reflexivity.
    + intros p Hp. congruence.
  - (* < *)
    open_update R; cbn [chains set_getFd getFd continueLast lastCom].
    + intros k' Hk. exists k'.
      split; [exact Hk|]. split; [reflexivity|]. split; [reflexivity|].
      intros Hp. pose proof (ready_last_not_piped _ _ _ _ R Hk). congruence.
    + left; discriminate.
    + intros p Hp. inversion Hp; subst. split; [left; reflexivity | exact Hcl].
  - (* > *)
    open_update R; cbn [chains set_getFd getFd continueLast lastCom].
    + intros k' Hk. exists k'.
      split; [exact Hk|]. split; [reflexivity|]. split; [reflexivity|].
      intros Hp. pose proof (ready_last_not_piped _ _ _ _ R Hk). congruence.
    + left; discriminate.
    + intros p Hp. inversion Hp; subst. split; [right; reflexivity | exact Hcl].
  - (* >> *)
    open_update R; cbn [chains set_getFd getFd continueLast lastCom].
    + intros k' Hk. exists k'.
      split; [exact Hk|]. split; [reflexivity|]. split; [reflexivity|].
      intros Hp. pose proof (ready_last_not_piped _ _ _ _ R Hk). congruence.
    + left; discriminate.
    + intros p Hp. inversion Hp; subst. split; [right; reflexivity | exact Hcl].
  - (* & *)
    open_update R;
      cbn [chains set_continueLast set_chains getFd continueLast lastCom stopReason].
    + apply update_at_length.
    + intros i Hi. apply update_at_other. intro E. apply Hi. symmetry. exact E.
    + intros k' Hk.
      destruct (update_last_facts s closed lens (set_background true) k' R
                  (fun k => conj eq_refl eq_refl) Hk) as (k0 & H0 & -> & Hp & _).
      exists k0.
      split; [exact H0|]. split; [reflexivity|]. split; [reflexivity|].
      cbn [piped set_background]. congruence.
    + right; left; reflexivity.
    + intros p Hp. congruence.
Qed.

(** The invariant only reads the nodes, the counters, the mode and the
    cells of the argument list that belong to nodes. *)
Lemma inv_frame (s s' : build_state) (closed : nat) (lens : list nat) :
  build_inv s closed lens ->
  chains s' = chains s -> commandCount s' = commandCount s ->
  com s' = com s -> chainCount s' = chainCount s ->
  getFd s' = getFd s -> continueLast s' = continueLast s ->
  lastCom s' = lastCom s -> argTotal s' = argTotal s ->
  (forall j, j < argTotal s -> b_argList s' j = b_argList s j) ->
  0 <= inputPos s' ->
  build_inv s' closed lens.
Proof.
  intros [I1 I2 I3 I4 I5 I6 I7 I8 I9 I10 I11 I12 I13 I14]
         Hcs Hcc Hcom Hch Hfd Hcl Hlc Hat Hal Hip.
  constructor; unfold pending in *;
    rewrite ?Hcs, ?Hcc, ?Hcom, ?Hch, ?Hfd, ?Hcl, ?Hlc, ?Hat; try assumption.
  intros k Hk. destruct (I13 k Hk) as (H1 & H2).
  split; [exact H1|]. rewrite Hal by lia. exact H2.
Qed.

(** Entering the [switch] on the last node of a chain that is still open
    and not pending. *)
Lemma ready_of_inv (s s' : build_state) (closed : nat) (lens : list nat) :
  build_inv s closed lens ->
  (closed < commandCount s)%nat ->
  ~ pending s ->
  commandCount s' = commandCount s -> com s' = com s ->
  chainCount s' = chainCount s ->
  getFd s' = None -> continueLast s' = false ->
  0 <= inputPos s' ->
  argTotal s <= argTotal s' ->
  (forall j, j < argTotal s -> b_argList s' j = b_argList s j) ->
  length (chains s') = length (chains s) ->
  (forall i, i <> pred (commandCount s) ->
             nth_error (chains s') i = nth_error (chains s) i) ->
  (forall k', nth_error (chains s') (pred (commandCount s)) = Some k' ->
     exists k0, nth_error (chains s) (pred (commandCount s)) = Some k0 /\
                next k' = next k0 /\ piped k' = piped k0 /\
                cmd_argList k' = cmd_argList k0) ->
  react_ready s' closed lens.
Proof.
  intros [I1 I2 I3 I4 I5 I6 I7 I8 I9 I10 I11 I12 I13 I14]
         Hlt Hnp Hcc Hcom Hch Hfd Hcl Hip Hat Hal Hlen Hother Hlast.
  set (n := pred (commandCount s)) in *.
  constructor; rewrite ?Hcc, ?Hcom, ?Hch; try assumption; try lia.
  - rewrite I2. destruct (commandCount s); [lia | reflexivity].
  - eapply chains_from_ext; [exact I4|]. intros i Hi. apply Hother.
    unfold n. lia.
  - intros i k Hi Hk. destruct (Nat.eq_dec i n) as [->|Hne].
    + destruct (Hlast k Hk) as (k0 & Hk0 & Hnx & _).
      rewrite Hnx. apply I6; assumption.
    + rewrite Hother in Hk by assumption. apply I6; assumption.
  - intros i k Hk Hp. destruct (Nat.eq_dec i n) as [->|Hne].
    + destruct (Hlast k Hk) as (k0 & Hk0 & Hnx & Hpp & _).
      rewrite Hnx. rewrite Hpp in Hp.
      destruct (I7 _ _ Hk0 Hp) as [H|[_ H]]; [exact H | contradiction].
    + rewrite Hother in Hk by assumption.
      destruct (I7 _ _ Hk Hp) as [H|[_ H]]; [exact H | contradiction].
  - intros k Hk. apply In_nth_error in Hk. destruct Hk as (i & Hk).
    assert (Hold : exists k0, In k0 (chains s) /\ cmd_argList k = cmd_argList k0).
    { destruct (Nat.eq_dec i n) as [->|Hne].
      - destruct (Hlast k Hk) as (k0 & Hk0 & _ & _ & Harg).
        exists k0. split; [eapply nth_error_In; exact Hk0 | exact Harg].
      - rewrite Hother in Hk by assumption.
        exists k. split; [eapply nth_error_In; exact Hk | reflexivity]. }
    destruct Hold as (k0 & Hin & ->). destruct (I13 k0 Hin) as (H1 & H2).
    split; [lia|]. rewrite Hal by lia. exact H2.
Qed.

Lemma nth_error_snoc (cs : list command_t) (k : command_t) (i : nat) :
  nth_error (cs ++ [k]) i =
  if (i <? length cs)%nat then nth_error cs i
  else if (i =? length cs)%nat then Some k else None.
Proof.
  destruct (i <? length cs)%nat eqn:E.
  - apply Nat.ltb_lt in E. apply nth_error_app1. exact E.
  - apply Nat.ltb_ge in E. rewrite nth_error_app2 by exact E.
    destruct (i =? length cs)%nat eqn:E2.
    + apply Nat.eqb_eq in E2. subst. rewrite Nat.sub_diag. reflexivity.
    + apply Nat.eqb_neq in E2.
      destruct (i - length cs)%nat as [|m] eqn:E3; [lia|].
      simpl. destruct m; reflexivity.
Qed.

(** The nodes after a node was made, cell by cell. *)
Lemma with_new_command_nth (s1 : build_state) (closed : nat) (lens : list nat)
      (i : nat) :
  build_inv s1 closed lens ->
  getFd s1 = None -> continueLast s1 = false ->
  let new := mkCommand (argTotal s1) STDIN_FILENO STDOUT_FILENO
                       false false false false None in
  let len := commandCount s1 in
  nth_error (chains (with_new_command s1)) i =
  if (i =? len)%nat then Some new
  else if ((S i =? len) && (closed <? len))%nat
       then option_map (set_next (Some len)) (nth_error (chains s1) i)
       else nth_error (chains s1) i.
Proof.
  intros I Hfd Hcl new len.
  pose proof (inv_length _ _ _ I) as I1.
  unfold with_new_command.
  cbn [new_command lastCom com chains]. fold new. fold len.
  assert (Hnew : forall j, nth_error (chains s1 ++ [new]) j =
                 if (j =? len)%nat then Some new else nth_error (chains s1) j).
  { intros j. rewrite nth_error_snoc, I1. fold len.
    destruct (j <? len)%nat eqn:E1; destruct (j =? len)%nat eqn:E2; auto.
    - apply Nat.ltb_lt in E1. apply Nat.eqb_eq in E2. lia.
    - symmetry. apply nth_error_None. apply Nat.ltb_ge in E1. lia. }
  destruct (closed <? len)%nat eqn:Ec.
  - apply Nat.ltb_lt in Ec.
    destruct (inv_busy _ _ _ I Ec) as [H|[H|H]]; [congruence | congruence |].
    rewrite H. cbn [chains set_chains]. fold len.
    destruct (Nat.eq_dec i (pred len)) as [->|Hne].
    + rewrite update_at_same, Hnew.
      replace (pred len =? len)%nat with false
        by (symmetry; apply Nat.eqb_neq; lia).
      replace (S (pred len) =? len)%nat with true
        by (symmetry; apply Nat.eqb_eq; lia).
      reflexivity.
    + rewrite update_at_other by congruence. rewrite Hnew.
      replace (S i =? len)%nat with false
        by (symmetry; apply Nat.eqb_neq; lia).
      reflexivity.
  - apply Nat.ltb_ge in Ec.
    assert (closed = len) by (pose proof (inv_closed _ _ _ I); unfold len; lia).
    destruct (inv_idle _ _ _ I H) as (_ & _ & Hl). rewrite Hl.
    cbn [chains new_command]. fold new. rewrite Hnew, andb_false_r.
    reflexivity.
Qed.

Lemma with_new_command_fields (s1 : build_state) :
  let s2 := with_new_command s1 in
  commandCount s2 = S (commandCount s1) /\ com s2 = Some (commandCount s1) /\
  chainCount s2 = chainCount s1 /\ getFd s2 = getFd s1 /\
  continueLast s2 = continueLast s1 /\ argTotal s2 = argTotal s1 /\
  b_argCount s2 = b_argCount s1 /\ b_argList s2 = b_argList s1 /\
  inputPos s2 = inputPos s1 /\ stopReason s2 = stopReason s1 /\
  b_argBuffer s2 = b_argBuffer s1 /\ stderr s2 = stderr s1 /\
  b_argChars s2 = b_argChars s1 /\ argCharsTotal s2 = argCharsTotal s1 /\
  length (chains s2) = S (length (chains s1)).
Proof.
  unfold with_new_command. cbn [new_command lastCom com chains].
  destruct (lastCom s1); cbn; rewrite ?update_at_length, ?length_app;
    cbn [length]; repeat split; try reflexivity; lia.
Qed.

(** Entering the [switch] with a node that was just made. *)
Lemma ready_new_command (s1 : build_state) (closed : nat) (lens : list nat) :
  build_inv s1 closed lens ->
  getFd s1 = None -> continueLast s1 = false ->
  0 <= b_argCount s1 ->
  b_argList s1 (argTotal s1) <> None ->
  react_ready (set_continueLast false (keep_args (with_new_command s1)))
              closed lens.
Proof.
  intros I Hfd Hcl Hac Hcell.
  pose proof (with_new_command_nth s1 closed lens) as Hnth.
  cbv zeta in Hnth.
  pose proof (with_new_command_fields s1) as F. cbv zeta in F.
  destruct F as (F1 & F2 & F3 & F4 & F5 & F6 & F7 & F8 & F9 & F10 & _ & _ & _ & _ & F15).
  pose proof I as [I1 I2 I3 I4 I5 I6 I7 I8 I9 I10 I11 I12 I13 I14].
  set (len := commandCount s1) in *.
  constructor;
    cbn [set_continueLast keep_args chains commandCount com chainCount getFd
         continueLast argTotal b_argList inputPos];
    rewrite ?F1, ?F2, ?F3, ?F4, ?F6, ?F7, ?F8, ?F9; try assumption; try lia.
  - reflexivity.
  - eapply chains_from_ext; [exact I4|]. intros i Hi.
    rewrite Hnth by assumption.
    replace (i =? len)%nat with false by (symmetry; apply Nat.eqb_neq; lia).
    destruct ((S i =? len) && (closed <? len))%nat eqn:E; [|reflexivity].
    apply andb_prop in E. destruct E as [E E']. apply Nat.eqb_eq in E.
    apply Nat.ltb_lt in E'. lia.
  - intros i k Hi Hk. rewrite Hnth in Hk by assumption.
    destruct (i =? len)%nat eqn:E1.
    + apply Nat.eqb_eq in E1. inversion Hk; subst. cbn [next].
      replace (S len <? S len)%nat with false
        by (symmetry; apply Nat.ltb_ge; lia).
      reflexivity.
    + apply Nat.eqb_neq in E1.
      assert (i < len)%nat.
      { destruct ((S i =? len) && (closed <? len))%nat;
          [destruct (nth_error (chains s1) i) eqn:E; [|discriminate]|];
          assert (i < length (chains s1))%nat
            by (apply nth_error_Some; congruence); lia. }
      replace (S i <? S len)%nat with true
        by (symmetry; apply Nat.ltb_lt; lia).
      destruct ((S i =? len) && (closed <? len))%nat eqn:E.
      * apply andb_prop in E. destruct E as [E _]. apply Nat.eqb_eq in E.
        destruct (nth_error (chains s1) i); [|discriminate].
        inversion Hk; subst. cbn [next set_next]. congruence.
      * rewrite (I6 i k Hi Hk).
        destruct (S i <? len)%nat eqn:E2; [reflexivity|].
        apply Nat.ltb_ge in E2. assert (S i = len) by lia.
        apply andb_false_iff in E. destruct E as [E|E].
        -- apply Nat.eqb_neq in E. lia.
        -- apply Nat.ltb_ge in E. lia.
  - intros i k Hk Hp. rewrite Hnth in Hk by assumption.
    destruct (i =? len)%nat eqn:E1; [inversion Hk; subst; discriminate Hp|].
    destruct ((S i =? len) && (closed <? len))%nat eqn:E.
    + apply andb_prop in E. destruct E as [E _]. apply Nat.eqb_eq in E.
      destruct (nth_error (chains s1) i); [|discriminate].
      inversion Hk; subst. cbn [next set_next]. congruence.
    + destruct (I7 i k Hk Hp) as [H|[H1 (H2 & _)]]; [exact H|].
      exfalso. apply andb_false_iff in E. destruct E as [E|E].
      * apply Nat.eqb_neq in E. fold len in H1. lia.
      * apply Nat.ltb_ge in E.
        assert (Hc : closed = commandCount s1) by (fold len; lia).
        destruct (I8 Hc) as (_ & _ & Hl). congruence.
  - intros k Hk. apply In_nth_error in Hk. destruct Hk as (i & Hk).
    rewrite Hnth in Hk by assumption.
    destruct (i =? len)%nat eqn:E1.
    + inversion Hk; subst. cbn [cmd_argList]. split; [lia | exact Hcell].
    + assert (Hold : exists k0, In k0 (chains s1) /\
                                cmd_argList k = cmd_argList k0).
      { destruct ((S i =? len) && (closed <? len))%nat.
        - destruct (nth_error (chains s1) i) as [k0|] eqn:E; [|discriminate].
          inversion Hk; subst. exists k0.
          split; [eapply nth_error_In; exact E | reflexivity].
        - exists k. split; [eapply nth_error_In; exact Hk | reflexivity]. }
      destruct Hold as (k0 & Hin & ->). destruct (I13 k0 Hin) as (H1 & H2).
      split; [lia | exact H2].
Qed.

Lemma stop_reason_eqb_eq (a b : stop_reason) :
  stop_reason_eqb a b = true <-> a = b.
Proof.
  unfold stop_reason_eqb. rewrite Z.eqb_eq.
  split; [|intros ->; reflexivity].
  destruct a; destruct b; simpl; intros H; try reflexivity; discriminate H.
Qed.

Lemma stop_reason_eqb_neq (a b : stop_reason) :
  stop_reason_eqb a b = false <-> a <> b.
Proof.
  rewrite <- stop_reason_eqb_eq. destruct (stop_reason_eqb a b); split;
    intros H; try reflexivity; try discriminate; congruence.
Qed.

(** [continueLast] is only set by the [switch], for [SR_BACKGROUND]. *)
Lemma react_continueLast (s s' : build_state) :
  react s = Some s' ->
  continueLast s = false -> continueLast s' = true ->
  stopReason s' = SR_BACKGROUND.
Proof.
  unfold react, on_com. intros H Hc Hc'.
  destruct (stopReason s) eqn:E; destruct (com s) eqn:Ecom;
    cbn in H; rewrite ?Ecom in H; cbn in H;
    inversion H; subst; cbn in Hc'; congruence || (cbn; exact E).
Qed.

Section BuilderInvariant.

Variable sys_open : list ascii -> Z -> Z.
Variable input : list ascii.

(** The call of the lexer from a state of the builder. *)
Lemma call_lexer_spec (s : build_state) :
  0 <= inputPos s <= Z.of_nat (length input) ->
  exists r,
    call_lexer input s = Some (after_lex r s) /\
    1 <= r_processed r /\
    (r_stopReason r <> SR_DONE ->
     inputPos s + r_processed r <= Z.of_nat (length input)) /\
    0 <= r_argCount r /\
    (r_stopReason r <> SR_DONE -> r_stopReason r <> SR_ERROR ->
     1 <= r_argCount r) /\
    (forall j, j < argTotal s -> r_argList r j = b_argList s j) /\
    (forall j, argTotal s <= j < argTotal s + r_argCount r ->
               r_argList r j <> None).
Proof.
  intros Hip. unfold call_lexer.
  destruct (processArgs_total (skipn (Z.to_nat (inputPos s)) input)
              (b_argBuffer s) (argCharsTotal s) (b_argList s) (argTotal s))
    as (r & Hr).
  rewrite Hr. cbn [bind]. exists r. split; [reflexivity|].
  destruct (processArgs_facts _ _ _ _ _ _ Hr) as (P1 & P2 & P3 & P4 & P5 & P6).
  rewrite length_skipn in P2.
  repeat split; try assumption.
  intros Hd. specialize (P2 Hd). lia.
Qed.


(** A round that reads a command. *)
Lemma command_round_inv (s : build_state) (closed : nat) (lens : list nat) :
  build_inv s closed lens ->
  getFd s = None ->
  inputPos s <= Z.of_nat (length input) ->
  exists s', command_round input s = Some s' /\ round_post input s s'.
Proof.
  intros I Hfd Hip.
  pose proof (inv_inputPos _ _ _ I) as Hip0.
  destruct (call_lexer_spec s (conj Hip0 Hip))
    as (r & Hr & P1 & P2 & P3 & P4 & P5 & P6).
  unfold command_round. rewrite Hr. cbn [bind].
  set (s1 := after_lex r s).
  assert (I1 : build_inv s1 closed lens).
  { eapply inv_frame; [exact I | try reflexivity ..].
    - exact P5.
    - cbn [s1 after_lex inputPos]. lia. }
  assert (Hpos : inputPos s1 = inputPos s + r_processed r) by reflexivity.
  assert (Hsr : stopReason s1 = r_stopReason r) by reflexivity.
  assert (Hcl1 : continueLast s1 = continueLast s) by reflexivity.
  destruct (stop_reason_eqb (stopReason s1) SR_ERROR && negb (continueLast s1))
    eqn:Ea.
  { (* parse error *)
    apply andb_prop in Ea. destruct Ea as [_ Ea].
    apply negb_true_iff in Ea.
    eexists. split; [reflexivity|]. unfold round_post.
    cbn [report inputPos stopReason continueLast].
    repeat split; try lia.
    - intros Hd. apply P2. congruence.
    - congruence.
    - exists closed, lens. eapply inv_frame; [exact I1 | try reflexivity ..].
      apply (inv_inputPos _ _ _ I1). }
  destruct (negb (continueLast s1) && (b_argCount s1 =? 0)) eqn:Eb.
  { (* empty segment *)
    apply andb_prop in Eb. destruct Eb as [Eb _].
    apply negb_true_iff in Eb.
    eexists. split; [reflexivity|]. unfold round_post.
    repeat split; try lia.
    - intros Hd. rewrite Hpos. apply P2. congruence.
    - congruence.
    - exists closed, lens. exact I1. }
  (* the switch is entered *)
  assert (R : react_ready
                (set_continueLast false
                   (keep_args (if negb (continueLast s1)
                               then with_new_command s1 else s1)))
                closed lens).
  { destruct (continueLast s1) eqn:Ec; cbn [negb] in *.
    - (* continuation of a background command *)
      pose proof (inv_continue _ _ _ I1 Ec) as Hlt.
      eapply ready_of_inv; [exact I1 | exact Hlt | | try reflexivity ..].
      + intros (_ & _ & H). congruence.
      + exact Hfd.
      + apply (inv_inputPos _ _ _ I1).
      + cbn [set_continueLast keep_args argTotal]. fold s1.
        change (b_argCount s1) with (r_argCount r). lia.
      + intros k' Hk. exists k'. repeat split; try reflexivity. exact Hk.
    - (* a new node *)
      apply ready_new_command;
        [exact I1 | exact Hfd | exact Ec | exact P3 |].
      apply P6. cbn [andb] in Eb. apply Z.eqb_neq in Eb.
      change (b_argCount s1) with (r_argCount r) in Eb.
      change (argTotal s1) with (argTotal s). lia. }
  destruct (react_inv _ _ _ R) as (s' & closed' & lens' & Hre & I' & Hs' & Hp' & _).
  exists s'. split; [exact Hre|]. unfold round_post.
  assert (Hpos' : inputPos s' = inputPos s + r_processed r).
  { rewrite Hp'. cbn [set_continueLast keep_args inputPos].
    destruct (negb (continueLast s1)); [|reflexivity].
    pose proof (with_new_command_fields s1) as F. cbv zeta in F.
    destruct F as (_ & _ & _ & _ & _ & _ & _ & _ & F9 & _). rewrite F9.
    reflexivity. }
  assert (Hsr' : stopReason s' = r_stopReason r).
  { rewrite Hs'. cbn [set_continueLast keep_args stopReason].
    destruct (negb (continueLast s1)); [|reflexivity].
    pose proof (with_new_command_fields s1) as F. cbv zeta in F.
    destruct F as (_ & _ & _ & _ & _ & _ & _ & _ & _ & F10 & _). rewrite F10.
    reflexivity. }
  repeat split; try lia.
  - intros Hd. rewrite Hpos'. apply P2. congruence.
  - intros Hc. eapply react_continueLast; [exact Hre | reflexivity | exact Hc].
  - exists closed', lens'. exact I'.
Qed.


(** A round that reads the name of a file. *)
Lemma redirect_round_inv (s : build_state) (closed : nat) (lens : list nat)
      (p : fd_ref) :
  build_inv s closed lens ->
  getFd s = Some p ->
  inputPos s <= Z.of_nat (length input) ->
  exists s', redirect_round sys_open input p s = Some s' /\
             round_post input s s'.
Proof.
  intros I Hfd Hip.
  pose proof (inv_inputPos _ _ _ I) as Hip0.
  destruct (inv_getFd _ _ _ I p Hfd) as (Hp & Hcl & Hlt).
  destruct (call_lexer_spec s (conj Hip0 Hip))
    as (r & Hr & P1 & P2 & P3 & P4 & P5 & P6).
  unfold redirect_round. rewrite Hr. cbn [bind].
  set (s1 := after_lex r s).
  assert (I1 : build_inv s1 closed lens).
  { eapply inv_frame; [exact I | try reflexivity ..].
    - exact P5.
    - cbn [s1 after_lex inputPos]. lia. }
  destruct (stop_reason_eqb (stopReason s1) SR_ERROR
            || negb (b_argCount s1 =? 1)) eqn:Ea.
  { eexists. split; [reflexivity|]. unfold round_post.
    cbn [report s1 after_lex inputPos stopReason continueLast].
    repeat split; try lia.
    - intros Hd. apply P2. exact Hd.
    - congruence.
    - exists closed, lens. eapply inv_frame; [exact I1 | try reflexivity ..].
      apply (inv_inputPos _ _ _ I1). }
  apply orb_false_elim in Ea. destruct Ea as [_ Ea].
  apply negb_false_iff, Z.eqb_eq in Ea.
  change (b_argCount s1) with (r_argCount r) in Ea.
  destruct (b_argList s1 (argTotal s1)) as [fp|] eqn:Efp;
    [|exfalso; apply (P6 (argTotal s)); [lia | exact Efp]].
  cbn [bind].
  set (filename := cstring_at MAX_INPUT_LEN (b_argBuffer s1) fp).
  set (fd := sys_open filename (oflags (keep_args s1))).
  set (s3 := set_chains (store_fd p fd (chains (keep_args s1))) (keep_args s1)).
  assert (R : react_ready (set_getFd None (oflags s3) s3) closed lens).
  { eapply ready_of_inv; [exact I1 | exact Hlt | | try reflexivity ..].
    - intros (_ & H & _). change (getFd s1) with (getFd s) in H. congruence.
    - exact Hcl.
    - apply (inv_inputPos _ _ _ I1).
    - cbn [set_getFd s3 set_chains keep_args argTotal].
      change (b_argCount s1) with (r_argCount r). lia.
    - cbn [set_getFd s3 set_chains keep_args chains].
      destruct p; apply update_at_length.
    - intros i Hi. cbn [set_getFd s3 set_chains keep_args chains].
      change (commandCount s1) with (commandCount s) in Hi.
      destruct Hp as [-> | ->]; apply update_at_other; congruence.
    - intros k' Hk. cbn [set_getFd s3 set_chains keep_args chains] in Hk.
      change (commandCount s1) with (commandCount s) in *.
      destruct Hp as [-> | ->]; cbn [store_fd] in Hk;
        rewrite update_at_same in Hk;
        destruct (nth_error (chains s1) (pred (commandCount s))) as [k0|];
        try discriminate; inversion Hk; subst; exists k0;
        repeat split; reflexivity. }
  destruct (fd <? 0) eqn:Efd.
  - (* the file could not be opened *)
    eexists. split; [reflexivity|]. unfold round_post.
    cbn [report s3 set_chains keep_args s1 after_lex inputPos stopReason
         continueLast].
    repeat split; try lia.
    + intros Hd. apply P2. exact Hd.
    + congruence.
    + exists closed, lens.
      eapply open_update_inv; [exact R | try reflexivity ..].
      * intros k' Hk. exists k'.
        split; [exact Hk|]. split; [reflexivity|]. split; [reflexivity|].
        intros Hpk. pose proof (ready_last_not_piped _ _ _ _ R Hk).
        congruence.
      * left. cbn. rewrite Hfd. discriminate.
      * intros q Hq. cbn in Hq. rewrite Hfd in Hq. inversion Hq; subst q.
        split; [exact Hp | exact Hcl].
  - (* the descriptor is stored and the switch is entered *)
    destruct (react_inv _ _ _ R)
      as (s' & closed' & lens' & Hre & I' & Hs' & Hp' & _).
    exists s'. split; [exact Hre|]. unfold round_post.
    rewrite Hp', Hs'.
    cbn [set_getFd s3 set_chains keep_args s1 after_lex inputPos stopReason].
    repeat split; try lia.
    + intros Hd. apply P2. exact Hd.
    + intros Hc. pose proof (react_continueLast _ _ Hre Hcl Hc) as H.
      rewrite Hs' in H. exact H.
    + exists closed', lens'. exact I'.
Qed.

Lemma build_round_inv (s : build_state) (closed : nat) (lens : list nat) :
  build_inv s closed lens ->
  inputPos s <= Z.of_nat (length input) ->
  exists s', build_round sys_open input s = Some s' /\ round_post input s s'.
Proof.
  intros I Hip. unfold build_round. destruct (getFd s) as [p|] eqn:Hfd.
  - eapply redirect_round_inv; eassumption.
  - eapply command_round_inv; eassumption.
Qed.


(** The loop ends, and ends in a state that satisfies the invariant. *)
Lemma build_loop_inv :
  forall (fuel : nat) (s : build_state) (closed : nat) (lens : list nat),
    build_inv s closed lens ->
    inputPos s <= Z.of_nat (length input) ->
    Z.of_nat (length input) - inputPos s < Z.of_nat fuel ->
    exists b closed' lens',
      build_loop sys_open input fuel s = Some b /\
      build_inv b closed' lens' /\
      stopReason b = SR_DONE /\ continueLast b = false.
Proof.
  induction fuel as [|f IH]; intros s closed lens I Hip Hf; [lia|].
  destruct (build_round_inv s closed lens I Hip)
    as (s' & Hr & Hlt & Hle & Hcl & closed' & lens' & I').
  cbn [build_loop]. rewrite Hr. cbn [bind].
  destruct (stop_reason_eqb (stopReason s') SR_DONE) eqn:E.
  - apply stop_reason_eqb_eq in E. exists s', closed', lens'.
    split; [reflexivity|]. split; [exact I'|]. split; [exact E|].
    destruct (continueLast s') eqn:Ec; [|reflexivity].
    specialize (Hcl eq_refl). congruence.
  - apply stop_reason_eqb_neq in E. specialize (Hle E).
    apply (IH s' closed' lens' I' Hle). lia.
Qed.

End BuilderInvariant.

Lemma build_init_inv : build_inv (build_init zero_buffer null_arglist) 0 [].
Proof.
  constructor; cbn; try reflexivity; try lia.
  - constructor.
  - intros i k _ H. destruct i; discriminate H.
  - intros i k H. destruct i; discriminate H.
  - intros _. repeat split; reflexivity.
  - intros p H. discriminate H.
Qed.

(** [buildCommandChains] returns on every line, in a state that satisfies
    the invariant, outside a background continuation. *)
Lemma buildCommandChains_inv (sys_open : list ascii -> Z -> Z)
      (input : list ascii) :
  exists b closed lens,
    buildCommandChains sys_open input = Some b /\
    build_inv b closed lens /\
    stopReason b = SR_DONE /\ continueLast b = false.
Proof.
  unfold buildCommandChains.
  apply (build_loop_inv sys_open input _ _ 0%nat [] build_init_inv);
    cbn [build_init inputPos]; lia.
Qed.

(** ** Piped nodes and their successors *)

(** C9 (amended).  On every line the builder returns, and in what it has
    built every piped node other than the last node has the node made next
    as its successor.  The last node, when it is piped (the line ends
    behind a [|] with no further command), has no successor. *)
Theorem piped_node_has_next_unless_last (sys_open : list ascii -> Z -> Z)
        (input : list ascii) :
  exists b,
    buildCommandChains sys_open input = Some b /\
    forall i k,
      nth_error (chains b) i = Some k -> piped k = true ->
      ((S i < length (chains b))%nat -> next k = Some (S i)) /\
      (S i = length (chains b) -> next k = None).
Proof.
  destruct (buildCommandChains_inv sys_open input)
    as (b & closed & lens & Hb & I & _ & _).
  exists b. split; [exact Hb|]. intros i k Hk Hp.
  pose proof (inv_length _ _ _ I) as Hlen.
  split; intros Hi.
  - destruct (inv_piped _ _ _ I i k Hk Hp) as [H|[H _]]; [exact H | lia].
  - destruct (inv_piped _ _ _ I i k Hk Hp) as [H|[_ Hpend]].
    + assert (S i < length (chains b))%nat; [|lia].
      assert (Hn : (closed <= i)%nat \/ (i < closed)%nat) by lia.
      destruct Hn as [Hn|Hn].
      * rewrite (inv_open _ _ _ I i k Hn Hk) in H.
        destruct (S i <? commandCount b)%nat eqn:E; [|discriminate].
        apply Nat.ltb_lt in E. lia.
      * pose proof (inv_closed _ _ _ I).
        destruct (chains_from_node _ _ _ _ (inv_chains _ _ _ I) i k
                    ltac:(lia) Hk) as [(H1 & _)|(_ & H1)]; [congruence | lia].
    + assert (Hc : (closed < commandCount b)%nat).
      { pose proof (inv_closed _ _ _ I) as Hle.
        destruct (Nat.eq_dec closed (commandCount b)) as [E|E]; [|lia].
        destruct (inv_idle _ _ _ I E) as (_ & _ & Hl).
        destruct Hpend as (Hl' & _). congruence. }
      assert (Hci : (closed <= i)%nat) by lia.
      rewrite (inv_open _ _ _ I i k Hci Hk).
      replace (S i <? commandCount b)%nat with false; [reflexivity|].
      symmetry. apply Nat.ltb_ge. lia.
Qed.

Lemma piped_node_has_next_unless_last_witness :
  exists b,
    buildCommandChains (fun _ _ => 3) (line "a | b") = Some b /\
    forall i k,
      nth_error (chains b) i = Some k -> piped k = true ->
      ((S i < length (chains b))%nat -> next k = Some (S i)) /\
      (S i = length (chains b) -> next k = None).
Proof.
  exact (piped_node_has_next_unless_last (fun _ _ => 3) (line "a | b")).
Defined.

(** C9 as it is written fails on a line that ends behind a pipe: the node
    of [echo a] is piped and has no successor. *)
Lemma trailing_pipe_node_has_no_next :
  exists b k,
    buildCommandChains (fun _ _ => 3) (line "echo a |") = Some b /\
    nth_error (chains b) 0 = Some k /\
    piped k = true /\ next k = None.
Proof.
  eexists. eexists. split; [vm_compute; reflexivity|].
  split; [reflexivity|]. split; reflexivity.
Qed.

(** ** The builder and [<<] *)

(** The [switch] does not change the stop reason. *)
Lemma react_stopReason (s s' : build_state) :
  react s = Some s' -> stopReason s' = stopReason s.
Proof.
  unfold react, on_com. intros H.
  destruct (stopReason s) eqn:E; destruct (com s) eqn:Ecom;
    cbn in H; rewrite ?Ecom in H; cbn in H; inversion H; subst; cbn;
    try exact E; reflexivity.
Qed.

(** C5 (amended).  A round of the builder that reads a command and whose
    lexer call stops at [<<] does not enter redirection-target mode: the
    [switch] has no case for [SR_REDIRECT_IN_HERE] and handles it in its
    [default] branch, exactly as it handles [;].  The round always comes
    back, and every field of the state it leaves is the same for the two
    operators but for the stop reason itself: the chain is closed and
    counted, the link to the last node is dropped, [getFd] stays null, no
    diagnostic is written, and the nodes are those that were there, with
    their descriptors and flags, followed by the node of the command just
    read (with the standard descriptors) unless the round continues a
    command behind [&].  [open] is not consulted: the state is the same
    whatever it would return. *)
Theorem heredoc_closes_chain (input : list ascii) (s : build_state)
        (r : lex_result) (op : stop_reason) :
  getFd s = None ->
  processArgs (skipn (Z.to_nat (inputPos s)) input)
              (b_argBuffer s) (argCharsTotal s)
              (b_argList s) (argTotal s) = Some r ->
  r_stopReason r = op ->
  op = SR_REDIRECT_IN_HERE \/ op = SR_SEQ_CHAIN ->
  forall sys_open : list ascii -> Z -> Z,
    build_round sys_open input s =
    Some (mkBuild
            (r_argCount r) (argTotal s + (r_argCount r + 1))
            (r_argChars r) (argCharsTotal s + r_argChars r)
            (inputPos s + r_processed r) op
            (chainCount s + 1)
            (if continueLast s then commandCount s else S (commandCount s))
            false None (oflags s)
            (if continueLast s then com s else Some (commandCount s))
            None (r_argBuffer r) (r_argList r)
            (if continueLast s then chains s
             else
               let fresh := mkCommand (argTotal s) STDIN_FILENO STDOUT_FILENO
                                      false false false false None in
               match lastCom s with
               | Some j => update_at j (set_next (Some (commandCount s)))
                                     (chains s ++ [fresh])
               | None => chains s ++ [fresh]
               end)
            (stderr s)).
Proof.
  intros Hfd Hlex Hsr Hop sys_open.
  destruct (processArgs_facts _ _ _ _ _ _ Hlex) as (_ & _ & _ & P4 & _ & _).
  assert (Hcount : 1 <= r_argCount r).
  { apply P4; rewrite Hsr; destruct Hop as [-> | ->]; discriminate. }
  unfold build_round. rewrite Hfd. unfold command_round, call_lexer.
  rewrite Hlex.
  cbn [bind after_lex stopReason continueLast b_argCount]. rewrite Hsr.
  replace (stop_reason_eqb op SR_ERROR) with false
    by (destruct Hop as [-> | ->]; reflexivity).
  replace (r_argCount r =? 0) with false
    by (symmetry; apply Z.eqb_neq; lia).
  rewrite andb_false_r. cbn [andb].
  assert (Hreact : forall s2, stopReason s2 = op ->
                              react s2 = Some (close_chain s2)).
  { intros s2 H2. unfold react. rewrite H2.
    destruct Hop as [-> | ->]; reflexivity. }
  destruct (continueLast s) eqn:Ecl; cbn [negb].
  - rewrite Hreact by exact Hsr. f_equal.
    unfold close_chain, set_continueLast, keep_args.
    cbn [after_lex lastCom com chains stopReason
         b_argCount argTotal b_argChars argCharsTotal inputPos chainCount
         commandCount continueLast getFd oflags b_argBuffer b_argList stderr].
    rewrite Hfd, Hsr. reflexivity.
  - unfold with_new_command.
    cbn [new_command after_lex lastCom com chains argTotal commandCount].
    destruct (lastCom s); rewrite Hreact by exact Hsr; f_equal;
      unfold close_chain, set_continueLast, keep_args;
      cbn [set_chains new_command after_lex lastCom com chains stopReason
           b_argCount argTotal b_argChars argCharsTotal inputPos chainCount
           commandCount continueLast getFd oflags b_argBuffer b_argList
           stderr];
      rewrite ?Hfd, ?Hsr; reflexivity.
Qed.

Lemma heredoc_closes_chain_witness :
  let s := build_init zero_buffer null_arglist in
  let input := line "cat << f" in
  exists r,
    processArgs (skipn (Z.to_nat (inputPos s)) input)
                (b_argBuffer s) (argCharsTotal s)
                (b_argList s) (argTotal s) = Some r /\
    r_stopReason r = SR_REDIRECT_IN_HERE /\
    forall sys_open : list ascii -> Z -> Z,
      build_round sys_open input s =
      Some (mkBuild
              (r_argCount r) (argTotal s + (r_argCount r + 1))
              (r_argChars r) (argCharsTotal s + r_argChars r)
              (inputPos s + r_processed r) SR_REDIRECT_IN_HERE
              (chainCount s + 1)
              (if continueLast s then commandCount s else S (commandCount s))
              false None (oflags s)
              (if continueLast s then com s else Some (commandCount s))
              None (r_argBuffer r) (r_argList r)
              (if continueLast s then chains s
               else
                 let fresh := mkCommand (argTotal s) STDIN_FILENO
                                        STDOUT_FILENO
                                        false false false false None in
                 match lastCom s with
                 | Some j => update_at j (set_next (Some (commandCount s)))
                                       (chains s ++ [fresh])
                 | None => chains s ++ [fresh]
                 end)
              (stderr s)).
Proof.
  intros s input.
  destruct (processArgs_total (skipn (Z.to_nat (inputPos s)) input)
              (b_argBuffer s) (argCharsTotal s) (b_argList s) (argTotal s))
    as (r & Hr).
  assert (Hsr : r_stopReason r = SR_REDIRECT_IN_HERE).
  { assert (H : option_map r_stopReason
                  (processArgs (skipn (Z.to_nat (inputPos s)) input)
                     (b_argBuffer s) (argCharsTotal s) (b_argList s)
                     (argTotal s)) = Some SR_REDIRECT_IN_HERE)
      by (vm_compute; reflexivity).
    rewrite Hr in H. cbn [option_map] in H.
    exact (f_equal (fun o => match o with
                             | Some x => x
                             | None => SR_DONE
                             end) H). }
  exists r. split; [exact Hr|]. split; [exact Hsr|].
  exact (heredoc_closes_chain input s r SR_REDIRECT_IN_HERE eq_refl Hr Hsr
           (or_introl eq_refl)).
Defined.

(** ** Exit statuses *)

Lemma WEXITSTATUS_spec (s : Z) : WEXITSTATUS s = (s / 256) mod 256.
Proof.
  unfold WEXITSTATUS. rewrite Z.shiftr_land.
  change (Z.shiftr 65280 8) with (Z.ones 8).
  rewrite Z.land_ones, Z.shiftr_div_pow2 by lia. reflexivity.
Qed.

Lemma wait_status_spec (code : Z) : wait_status code = (code mod 256) * 256.
Proof.
  unfold wait_status. change 255 with (Z.ones 8).
  rewrite Z.land_ones, Z.shiftl_mul_pow2 by lia. reflexivity.
Qed.

(** The status a parent reads of a child that ended with [exit(code)]. *)
Lemma WEXITSTATUS_wait_status (code : Z) :
  WEXITSTATUS (wait_status code) = code mod 256.
Proof.
  rewrite WEXITSTATUS_spec, wait_status_spec.
  rewrite Z.div_mul by lia. apply Z.mod_mod. lia.
Qed.

(** [WEXITSTATUS] applied to a value that is an exit status already, as
    line 529 does, gives 0. *)
Lemma WEXITSTATUS_twice (code : Z) :
  WEXITSTATUS (WEXITSTATUS (wait_status code)) = 0.
Proof.
  rewrite WEXITSTATUS_wait_status, WEXITSTATUS_spec.
  pose proof (Z.mod_pos_bound code 256 ltac:(lia)).
  rewrite Z.div_small by lia. reflexivity.
Qed.

(** What [executePipedCommands] returns for a node that is piped and has a
    successor: the status of the left-hand stage alone.  The status of the
    right-hand side is passed through [WEXITSTATUS] a second time at line
    529 and adds nothing. *)
Lemma piped_status_is_left_status (buf : buffer) (lst : arglist)
      (commands : list command_t) (exit_code : nat -> Z) (fuel : nat)
      (left r : nat) (l rn : command_t) (rres lres : outcome Z * list nat) :
  nth_error commands left = Some l ->
  piped l = true ->
  nth_error commands r = Some rn ->
  executePipedCommands buf lst commands exit_code fuel r (next rn) = Some rres ->
  executeSingleCommand buf lst commands exit_code left = Some lres ->
  executePipedCommands buf lst commands exit_code (S fuel) left (Some r) =
  Some (Returned (code_of (fst lres) mod 256), snd rres ++ snd lres).
Proof.
  intros Hl Hp Hr Hrr Hlr. cbn [executePipedCommands].
  rewrite Hl. cbn [bind]. rewrite Hp, Hr. cbn [bind].
  rewrite Hrr. cbn [bind]. rewrite Hlr. cbn [bind].
  rewrite WEXITSTATUS_twice, WEXITSTATUS_wait_status, Z.add_0_r.
  reflexivity.
Qed.

(** C1 at its failing input.  For [true | false] the stages end with 0 and
    1, whose sum is 1; the pipeline launcher returns 0.  With a third stage
    that fails the sum is 2 and the result is 0 again. *)
Theorem pipeline_status_ignores_right_stages :
  run_pipeline_of "true | false" = Some (Returned 0, [1%nat; 0%nat]) /\
  run_pipeline_of "true | false | false"
  = Some (Returned 0, [2%nat; 1%nat; 0%nat]) /\
  run_pipeline_of "false | true" = Some (Returned 1, [1%nat; 0%nat]).
Proof. repeat split; vm_compute; reflexivity. Qed.

(** C2 at its failing inputs.  In [true | false && echo hi] the node of
    [false] carries [stopOnFailure] and ends with 1, yet the program of the
    third node is started: the status tested at line 401 is that of the
    pipeline, which is 0.  In [false && echo skip] the second node is not
    started, but the status returned is the sum of 1 and of whatever the
    uninitialised [allStatus] held; with -1 there, it is 0. *)
Theorem stop_on_failure_misses :
  run_chain_of "true | false && echo hi" 0 0
  = Some (Returned (0, 3, [1%nat; 0%nat; 2%nat])) /\
  run_chain_of "false && echo skip" (-1) 0
  = Some (Returned (0, 2, [0%nat])).
Proof. split; vm_compute; reflexivity. Qed.

(** ** The chain executor on the chains the builder has counted *)

Section ExecutorOnChains.

Variable argBuf : buffer.
Variable argLst : arglist.
Variable commands : list command_t.
Variable exit_code : nat -> Z.
Variable indeterminate : Z.

(** Every node names a program, and none names the built-in [exit]. *)
Hypothesis Hname : forall k, In k commands ->
                   program_name argBuf argLst k <> None.
Hypothesis Hexit : forall k, In k commands ->
                   is_exit argBuf argLst k = false.

Lemma single_returns (i : nat) (k : command_t) :
  nth_error commands i = Some k ->
  executeSingleCommand argBuf argLst commands exit_code i =
  Some (Returned (WEXITSTATUS (wait_status (exit_code i))), [i]).
Proof.
  intros Hk. unfold executeSingleCommand. rewrite Hk. cbn [bind].
  pose proof (Hname k (nth_error_In _ _ Hk)) as H1.
  pose proof (Hexit k (nth_error_In _ _ Hk)) as H2.
  unfold is_exit in H2.
  destruct (program_name argBuf argLst k) as [name|]; [|congruence].
  cbn [bind]. rewrite H2. reflexivity.
Qed.

(** The pipeline launcher returns on a chain. *)
Lemma piped_returns (i m : nat) :
  chain_from commands i m ->
  forall fuel k, (m <= fuel)%nat -> nth_error commands i = Some k ->
  exists v t,
    executePipedCommands argBuf argLst commands exit_code fuel i (next k) =
    Some (Returned v, t).
Proof.
  induction 1 as [i k0 Hk0 Hn Hp|i k0 n Hk0 Hn Hc IH]; intros fuel k Hf Hk;
    (assert (k0 = k) by congruence); subst k0;
    (destruct fuel as [|f]; [lia|]); cbn [executePipedCommands];
    rewrite Hk; cbn [bind].
  - rewrite Hp. rewrite (single_returns i k Hk). eauto.
  - rewrite Hn. destruct (piped k).
    + assert (Hr : exists rn, nth_error commands (S i) = Some rn).
      { inversion Hc; eauto. }
      destruct Hr as (rn & Hrn). rewrite Hrn. cbn [bind].
      destruct (IH f rn ltac:(lia) Hrn) as (v & t & Hv).
      rewrite Hv. cbn [bind]. rewrite (single_returns i k Hk). cbn [bind].
      eauto.
    + rewrite (single_returns i k Hk). eauto.
Qed.

(** The walk over the piped nodes of a chain ends at a node of the chain
    that is not piped, having counted the nodes it passed. *)
Lemma skip_piped_spec (i m : nat) :
  chain_from commands i m ->
  forall fuel count, (m <= fuel)%nat ->
  exists d kj,
    skip_piped commands fuel (Some i) count = Some (Some (i + d)%nat, count + Z.of_nat d) /\
    nth_error commands (i + d) = Some kj /\ piped kj = false /\
    (d < m)%nat /\ chain_from commands (i + d) (m - d).
Proof.
  induction 1 as [i k0 Hk0 Hn Hp|i k0 n Hk0 Hn Hc IH]; intros fuel count Hf;
    (destruct fuel as [|f]; [lia|]); cbn [skip_piped bind]; rewrite Hk0;
    cbn [bind].
  - rewrite Hp. exists 0%nat, k0. rewrite Nat.add_0_r, Z.add_0_r.
    repeat split; try assumption; try lia.
    eapply chain_last; eassumption.
  - destruct (piped k0) eqn:Ep.
    + rewrite Hn. destruct (IH f (count + 1) ltac:(lia))
        as (d & kj & H1 & H2 & H3 & H4 & H5).
      exists (S d), kj. replace (i + S d)%nat with (S i + d)%nat by lia.
      rewrite H1. repeat split; try assumption; try lia.
      f_equal. f_equal. lia.
    + exists 0%nat, k0. rewrite Nat.add_0_r, Z.add_0_r.
      repeat split; try assumption; try lia.
      eapply chain_cons; eassumption.
Qed.


Lemma chain_from_step (i m : nat) :
  chain_from commands i m ->
  exists k, nth_error commands i = Some k /\
    ((next k = None /\ m = 1%nat) \/
     (next k = Some (S i) /\ chain_from commands (S i) (pred m) /\
      (2 <= m)%nat)).
Proof.
  intros H. inversion H as [i0 k Hk Hn Hp|i0 k n Hk Hn Hc]; subst;
    exists k; split; try assumption.
  - left. split; [assumption | reflexivity].
  - right. pose proof (chain_from_bound _ _ _ Hc).
    repeat split; try assumption; try lia.
Qed.

(** The loop of [executeCommandChain], started anywhere in a chain, ends
    having counted every node from there to the end of the chain, whether
    the nodes were run or not. *)
Lemma chain_loop_counts :
  forall (fuel m i : nat) (st : exec_state),
    chain_from commands i m -> (m < fuel)%nat -> chain st = Some i ->
    exists s',
      chain_loop argBuf argLst commands exit_code fuel st = Some (Returned s') /\
      e_commandCount s' = e_commandCount st + Z.of_nat m /\
      chain s' = None.
Proof.
  induction fuel as [|f IH]; intros m i st Hc Hf Hch; [lia|].
  assert (Haux : forall j m' kj st',
             chain_from commands j m' -> (m' <= m)%nat ->
             nth_error commands j = Some kj -> chain st' = next kj ->
             exists s',
               chain_loop argBuf argLst commands exit_code f st'
               = Some (Returned s') /\
               e_commandCount s' = e_commandCount st' + Z.of_nat (pred m') /\
               chain s' = None).
  { intros j m' kj st' Hcj Hle Hkj Hst'.
    destruct (chain_from_step _ _ Hcj) as (k & Hk & [(Hn & Hm)|(Hn & Hc' & Hm)]);
      assert (k = kj) by congruence; subst k.
    - subst m'. destruct f as [|f']; [pose proof (chain_from_bound _ _ _ Hc); lia|].
      cbn [chain_loop]. rewrite Hst', Hn. exists st'.
      repeat split; try assumption; [cbn; lia | congruence].
    - apply (IH (pred m') (S j) st' Hc'); [lia | congruence]. }
  cbn [chain_loop]. rewrite Hch.
  destruct (chain_from_step _ _ Hc) as (k & Hk & _).
  unfold chain_round. rewrite Hk. cbn [bind].
  pose proof (chain_from_bound _ _ _ Hc) as Hb.
  destruct (stopped st =? 0) eqn:Es.
  - destruct (piped k) eqn:Ep.
    + destruct (piped_returns _ _ Hc (S (length commands)) k ltac:(lia) Hk)
        as (v & t & Hv).
      rewrite Hv. cbn [bind fst snd].
      destruct (skip_piped_spec _ _ Hc (S (length commands))
                  (e_commandCount st) ltac:(lia))
        as (d & kj & H1 & H2 & H3 & H4 & H5).
      rewrite H1. cbn [bind fst snd]. rewrite H2. cbn [bind].
      destruct (combine kj v _ (stopped st)) as [all1 stop1].
      cbn [bind].
      match goal with
      | |- context [chain_loop _ _ _ _ f ?X] =>
          destruct (Haux (i + d)%nat (m - d)%nat kj X H5 ltac:(lia) H2 eq_refl)
            as (s' & Hs' & Hcount & Hnone)
      end.
      * rewrite Hs'. exists s'. split; [reflexivity|].
        split; [|exact Hnone]. rewrite Hcount. cbn [e_commandCount]. lia.
    + rewrite (single_returns i k Hk). cbn [bind fst snd]. rewrite Hk.
      cbn [bind].
      destruct (combine k _ _ (stopped st)) as [all1 stop1].
      cbn [bind].
      match goal with
      | |- context [chain_loop _ _ _ _ f ?X] =>
          destruct (Haux i m k X Hc ltac:(lia) Hk eq_refl)
            as (s' & Hs' & Hcount & Hnone)
      end.
      * rewrite Hs'. exists s'. split; [reflexivity|].
        split; [|exact Hnone]. rewrite Hcount. cbn [e_commandCount]. lia.
  - cbn [bind].
    match goal with
    | |- context [chain_loop _ _ _ _ f ?X] =>
        destruct (Haux i m k X Hc ltac:(lia) Hk eq_refl)
          as (s' & Hs' & Hcount & Hnone)
    end.
    * rewrite Hs'. exists s'. split; [reflexivity|].
      split; [|exact Hnone]. rewrite Hcount. cbn [e_commandCount]. lia.
Qed.


(** The loop of [main] over chains that lie one behind the other: every
    chain reports its length, and the loop ends behind the last chain. *)
Lemma run_chains_counts (a : nat) (lens : list nat) (e : nat) :
  chains_from commands a lens e ->
  forall skips already,
  exists launched',
    run_chains argBuf argLst commands exit_code indeterminate
               (length lens) (Z.of_nat a) skips already =
    Some (Returned (Z.of_nat e, skips ++ map Z.of_nat lens, launched')).
Proof.
  induction 1 as [a|a n ls e Hc Hcs IH]; intros skips already.
  - cbn. rewrite app_nil_r. eauto.
  - cbn [length run_chains map]. unfold executeCommandChain.
    rewrite Nat2Z.id.
    pose proof (chain_from_bound _ _ _ Hc) as Hb.
    destruct (chain_loop_counts (S (length commands)) n a
                (mkExec (Some a) 0 indeterminate 0 0 already) Hc
                ltac:(lia) eq_refl) as (s' & Hs' & Hcount & _).
    rewrite Hs'. cbn [bind]. rewrite Hcount. cbn [e_commandCount].
    rewrite Z.add_0_l, <- Nat2Z.inj_add.
    destruct (IH (skips ++ [Z.of_nat n]) (launched s')) as (l' & Hl').
    rewrite Hl'. rewrite <- app_assoc. cbn [app]. eauto.
Qed.

End ExecutorOnChains.

Lemma chains_from_sum (cs : list command_t) (a : nat) (ls : list nat) (e : nat) :
  chains_from cs a ls e ->
  Z.of_nat e = Z.of_nat a + sum_skips (map Z.of_nat ls).
Proof.
  induction 1 as [a|a n ls e Hc Hcs IH]; cbn [map sum_skips fold_right].
  - lia.
  - fold (sum_skips (map Z.of_nat ls)). lia.
Qed.

(** ** Nodes built and nodes traversed *)

(** C3 (amended).  On every line the builder returns.  When none of the
    nodes it built names the built-in [exit], running the chains it counted
    the way [main] does returns; the numbers of traversed nodes the chain
    executor reports, one per counted chain, add up to the index [main]
    has reached, which is at most the number of nodes built and is equal to
    it exactly when the builder ended neither waiting for the name of a
    file nor with a node that waits for its successor. *)
Theorem traversed_nodes_of_counted_chains
        (sys_open : list ascii -> Z -> Z) (exit_code : nat -> Z)
        (indeterminate : Z) (input : list ascii) :
  exists b,
    buildCommandChains sys_open input = Some b /\
    ((forall k, In k (chains b) ->
                is_exit (b_argBuffer b) (b_argList b) k = false) ->
     exists total skips launched,
       run_line sys_open exit_code indeterminate input =
       Some (Returned (total, skips, launched)) /\
       Z.of_nat (length skips) = chainCount b /\
       sum_skips skips = total /\
       total <= Z.of_nat (commandCount b) /\
       (total = Z.of_nat (commandCount b) <->
        getFd b = None /\ lastCom b = None)).
Proof.
  destruct (buildCommandChains_inv sys_open input)
    as (b & closed & lens & Hb & I & _ & Hcl).
  exists b. split; [exact Hb|]. intros Hexit.
  assert (Hname : forall k, In k (chains b) ->
                  program_name (b_argBuffer b) (b_argList b) k <> None).
  { intros k Hk. destruct (inv_args _ _ _ I k Hk) as (_ & H).
    unfold program_name. destruct (b_argList b (cmd_argList k));
      [discriminate | congruence]. }
  destruct (run_chains_counts (b_argBuffer b) (b_argList b) (chains b)
              exit_code indeterminate Hname Hexit 0 lens closed
              (inv_chains _ _ _ I) [] []) as (launched & Hrun).
  exists (Z.of_nat closed), (map Z.of_nat lens), launched.
  pose proof (inv_count _ _ _ I) as Hcount.
  pose proof (inv_closed _ _ _ I) as Hle.
  split; [|split; [|split; [|split]]].
  - unfold run_line. rewrite Hb. cbn [bind].
    rewrite <- Hcount, Nat2Z.id. exact Hrun.
  - rewrite length_map. exact Hcount.
  - pose proof (chains_from_sum _ _ _ _ (inv_chains _ _ _ I)). lia.
  - lia.
  - split.
    + intros H. apply Nat2Z.inj in H.
      destruct (inv_idle _ _ _ I H) as (H1 & _ & H3). split; assumption.
    + intros (H1 & H3). f_equal.
      destruct (Nat.eq_dec closed (commandCount b)) as [E|E]; [exact E|].
      exfalso. assert (Hlt : (closed < commandCount b)%nat) by lia.
      destruct (inv_busy _ _ _ I Hlt) as [H|[H|H]]; congruence.
Qed.

Lemma traversed_nodes_of_counted_chains_witness :
  exists b,
    buildCommandChains (fun _ _ => 3) (line "a ; b | c && d") = Some b /\
    ((forall k, In k (chains b) ->
                is_exit (b_argBuffer b) (b_argList b) k = false) ->
     exists total skips launched,
       run_line (fun _ _ => 3) (fun _ => 0) 0 (line "a ; b | c && d") =
       Some (Returned (total, skips, launched)) /\
       Z.of_nat (length skips) = chainCount b /\
       sum_skips skips = total /\
       total <= Z.of_nat (commandCount b) /\
       (total = Z.of_nat (commandCount b) <->
        getFd b = None /\ lastCom b = None)).
Proof.
  exact (traversed_nodes_of_counted_chains (fun _ _ => 3) (fun _ => 0) 0
           (line "a ; b | c && d")).
Defined.

(** C3 as it is written fails on a line that ends behind [&&]: one node is
    built, no chain is counted, and [main] runs no chain, so that the sum
    of the traversed nodes is 0. *)
Lemma dangling_operator_node_not_traversed :
  option_map summary (buildCommandChains (fun _ _ => 3) (line "echo a &&"))
  = Some (0, None, [(0, 1, (true, false, false, false), None)]) /\
  run_line (fun _ _ => 3) (fun _ => 0) 0 (line "echo a &&")
  = Some (Returned (0, [], [])).
Proof. split; vm_compute; reflexivity. Qed.

(** ** After a short-circuit *)

(** Once [stopped] is set no program is started any more in the chain: the
    remaining rounds only count. *)
Lemma stopped_launches_nothing (buf : buffer) (lst : arglist)
      (commands : list command_t) (exit_code : nat -> Z) :
  forall (fuel : nat) (st st' : exec_state),
    stopped st <> 0 ->
    chain_loop buf lst commands exit_code fuel st = Some (Returned st') ->
    launched st' = launched st /\ allStatus st' = allStatus st.
Proof.
  induction fuel as [|f IH]; intros st st' Hs H; [discriminate|].
  cbn [chain_loop] in H. destruct (chain st) as [i|].
  - unfold chain_round in H. destruct (nth_error commands i) as [k|];
      [|discriminate]. cbn [bind] in H.
    apply Z.eqb_neq in Hs. rewrite Hs in H. cbn [bind] in H.
    apply IH in H; [exact H|]. cbn [stopped]. apply Z.eqb_neq. exact Hs.
  - inversion H; subst. split; reflexivity.
Qed.

(** * Further properties of the lexer *)

(** ** Words and gaps *)

Lemma word_char_tests (ch : ascii) :
  word_char ch ->
  (ch =? NUL)%char = false /\ (ch =? BACKSLASH)%char = false /\
  (ch =? SQUOTE)%char = false /\ (ch =? DQUOTE)%char = false /\
  ISWHITESPACE ch = false /\ ISCONTROLCHAR ch = false.
Proof.
  intros ((H1 & H2 & H3 & H4) & H5 & H6).
  apply Ascii.eqb_neq in H1, H2, H3, H4. repeat split; assumption.
Qed.

(** Outside quotes the characters of a word are stored one per round. *)
Lemma word_rounds (rest : list ascii) (bb lb : Z) (off k : Z)
      (buf : buffer) (l : arglist) :
  forall (w pre a : list ascii),
    Forall word_char w ->
    lex_rounds (length w) (pre ++ w ++ rest) bb lb
      (mkLex false false NUL (Z.of_nat (length pre)) (Z.of_nat (length pre))
             a off k buf l) =
    Some (mkLex false false NUL (Z.of_nat (length (pre ++ w)))
                (Z.of_nat (length (pre ++ w))) (a ++ w) off k buf l).
Proof.
  induction w as [|ch w IH]; intros pre a Hw.
  - cbn [length lex_rounds]. rewrite !app_nil_r. reflexivity.
  - inversion Hw as [|? ? Hch Hw']; subst.
    destruct (word_char_tests ch Hch) as (T1 & T2 & T3 & T4 & T5 & T6).
    cbn [length lex_rounds]. unfold lex_iter. cbn [c escaped quoted].
    rewrite char_at_app. cbn [hd app]. rewrite T1, T2, T3, T4, T5, T6.
    cbn [orb andb negb]. unfold next_round, advance, push_char.
    cbn [escaped quoted quoteChar processed c curArg argsOffset argCount
         argBuffer argList].
    replace (pre ++ ch :: w ++ rest) with ((pre ++ [ch]) ++ w ++ rest)
      by (rewrite <- app_assoc; reflexivity).
    replace (Z.of_nat (length pre) + 1) with (Z.of_nat (length (pre ++ [ch])))
      by (rewrite length_app; cbn [length]; lia).
    rewrite IH by assumption.
    rewrite <- !app_assoc. reflexivity.
Qed.

Lemma skip_ws_gap (g rest : list ascii) :
  Forall (fun ch => ISWHITESPACE ch = true) g ->
  ISWHITESPACE (hd NUL rest) = false ->
  skip_ws (g ++ rest) = Z.of_nat (length g).
Proof.
  intros Hg Hr. induction Hg as [|ch g Hch Hg IH].
  - cbn [app length]. destruct rest as [|x rest]; [reflexivity|].
    cbn [hd] in Hr. cbn [skip_ws]. rewrite Hr. reflexivity.
  - cbn [app skip_ws length]. rewrite Hch, IH, Nat2Z.inj_succ. lia.
Qed.

(** The round that meets a whitespace or control character while an
    argument is pending flushes the argument. *)
Lemma separator_flushes (input : list ascii) (bb lb : Z) (st : lex_state) :
  escaped st = false -> quoted st = false -> curArg st <> [] ->
  ISWHITESPACE (char_at input (c st)) || ISCONTROLCHAR (char_at input (c st))
  = true ->
  lex_iter input bb lb st = after_flush input (flush_arg bb lb st).
Proof.
  intros He Hq Ha Ht. unfold lex_iter.
  destruct (separator_tests _ Ht) as (T1 & T2 & T3 & T4).
  rewrite T1, T2, T3, T4, Ht, He, Hq. cbn [orb andb negb].
  replace (0 <? curArgLen st) with true; [reflexivity|].
  symmetry. apply Z.ltb_lt. unfold curArgLen.
  destruct (curArg st); [congruence | cbn [length]; lia].
Qed.

(** The round that meets the gap behind a word: the word is flushed, the
    gap is skipped, and the loop goes on at the character behind the gap
    when that is no control character. *)
Lemma gap_round (pre g rest w : list ascii) (bb lb off k : Z)
      (buf : buffer) (l : arglist) :
  w <> [] -> gap g ->
  ISWHITESPACE (hd NUL rest) = false ->
  ISCONTROLCHAR (hd NUL rest) = false ->
  lex_iter (pre ++ g ++ rest) bb lb
    (mkLex false false NUL (Z.of_nat (length pre)) (Z.of_nat (length pre))
           w off k buf l) =
  Continue (between_words (Z.of_nat (length (pre ++ g)))
              (off + (Z.of_nat (length w) + 1)) (k + 1)
              (memcpy buf (bb + off) w)
              (store_arg l (lb + k) (Some (bb + off)))).
Proof.
  intros Hw (Hg0 & Hg) Hr1 Hr2.
  rewrite separator_flushes; try reflexivity; try assumption.
  - rewrite after_flush_plain; cbn [c flush_arg];
      rewrite Nat2Z.id, skipn_app, skipn_all, Nat.sub_diag; cbn [skipn app];
      rewrite (skip_ws_gap g rest Hg Hr1).
    + unfold between_words, advance, flush_arg, curArgLen.
      cbn [escaped quoted quoteChar processed c curArg argsOffset argCount
           argBuffer argList].
      rewrite length_app. do 2 f_equal; lia.
    + replace (Z.of_nat (length pre) + Z.of_nat (length g))
        with (Z.of_nat (length (pre ++ g))) by (rewrite length_app; lia).
      rewrite app_assoc, char_at_app. exact Hr2.
  - cbn [c]. rewrite char_at_app.
    destruct g as [|x g']; [congruence|]. cbn [app hd].
    inversion Hg; subst. rewrite H1. reflexivity.
Qed.

Lemma spaced_head (wgs : list (list ascii * list ascii)) (rest : list ascii) :
  Forall (fun p => word (fst p) /\ gap (snd p)) wgs ->
  ISWHITESPACE (hd NUL rest) = false ->
  ISCONTROLCHAR (hd NUL rest) = false ->
  ISWHITESPACE (hd NUL (spaced wgs ++ rest)) = false /\
  ISCONTROLCHAR (hd NUL (spaced wgs ++ rest)) = false.
Proof.
  intros Hw H1 H2. destruct wgs as [|[w g] wgs]; [split; assumption|].
  inversion Hw as [|? ? ((Hne & Hcs) & _) _]; subst. cbn [fst] in *.
  destruct w as [|ch w]; [congruence|]. cbn [spaced app hd].
  inversion Hcs as [|? ? Hch _]; subst.
  destruct (word_char_tests ch Hch) as (_ & _ & _ & _ & T5 & T6).
  split; assumption.
Qed.

(** The loop over words and gaps: every word is flushed when its gap is
    met, into the cells behind those of the words before it. *)
Lemma spaced_rounds (rest : list ascii) (bb lb : Z) :
  ISWHITESPACE (hd NUL rest) = false ->
  ISCONTROLCHAR (hd NUL rest) = false ->
  forall (wgs : list (list ascii * list ascii)) (pre : list ascii)
         (off k : Z) (buf : buffer) (l : arglist),
    Forall (fun p => word (fst p) /\ gap (snd p)) wgs ->
    lex_rounds (rounds_of (map fst wgs)) (pre ++ spaced wgs ++ rest) bb lb
      (between_words (Z.of_nat (length pre)) off k buf l) =
    Some (between_words (Z.of_nat (length (pre ++ spaced wgs)))
            (off + words_size (map fst wgs))
            (k + Z.of_nat (length wgs))
            (fst (store_words bb lb (map fst wgs) off k buf l))
            (snd (store_words bb lb (map fst wgs) off k buf l))).
Proof.
  intros Hr1 Hr2. induction wgs as [|[w g] wgs IH]; intros pre off k buf l Hw.
  - cbn. rewrite app_nil_r, !Z.add_0_r. reflexivity.
  - inversion Hw as [|? ? ((Hne & Hcs) & Hg) Hw']; subst. cbn [fst snd] in *.
    cbn [map fst rounds_of spaced store_words words_size length].
    rewrite <- Nat.add_assoc.
    erewrite lex_rounds_app; cycle 1.
    { unfold between_words. rewrite <- !app_assoc.
      apply word_rounds. exact Hcs. }
    cbn [app Nat.add lex_rounds].
    destruct (spaced_head wgs rest Hw' Hr1 Hr2) as (S1 & S2).
    replace (pre ++ (w ++ g ++ spaced wgs) ++ rest)
      with ((pre ++ w) ++ g ++ spaced wgs ++ rest)
      by (rewrite <- !app_assoc; reflexivity).
    rewrite (gap_round (pre ++ w) g (spaced wgs ++ rest) w bb lb off k buf l
               Hne Hg S1 S2).
    replace ((pre ++ w) ++ g ++ spaced wgs ++ rest)
      with (((pre ++ w) ++ g) ++ spaced wgs ++ rest)
      by (rewrite <- !app_assoc; reflexivity).
    rewrite IH by exact Hw'.
    replace (((pre ++ w) ++ g) ++ spaced wgs)
      with (pre ++ w ++ g ++ spaced wgs)
      by (rewrite <- !app_assoc; reflexivity).
    rewrite Nat2Z.inj_succ. unfold between_words. do 2 f_equal; lia.
Qed.

(** ** Reading the flushed words back *)

(** Flushing words leaves the cells in front of theirs as they are. *)
Lemma store_words_frame (bb lb : Z) :
  forall (ws : list (list ascii)) (off k : Z) (buf : buffer) (l : arglist),
    0 <= off ->
    (forall j, j < bb + off ->
               fst (store_words bb lb ws off k buf l) j = buf j) /\
    (forall j, j < lb + k ->
               snd (store_words bb lb ws off k buf l) j = l j).
Proof.
  induction ws as [|w ws IH]; intros off k buf l Hoff; [split; reflexivity|].
  cbn [store_words].
  destruct (IH (off + (Z.of_nat (length w) + 1)) (k + 1)
               (memcpy buf (bb + off) w)
               (store_arg l (lb + k) (Some (bb + off))) ltac:(lia))
    as (H1 & H2).
  split; intros j Hj.
  - rewrite H1 by lia. apply memcpy_outside. lia.
  - rewrite H2 by lia. unfold store_arg.
    destruct (j =? lb + k) eqn:E; [apply Z.eqb_eq in E; lia | reflexivity].
Qed.

(** Flushing words leaves the cells behind theirs as they are. *)
Lemma store_words_beyond (bb lb : Z) :
  forall (ws : list (list ascii)) (off k : Z) (buf : buffer) (l : arglist),
    0 <= off ->
    (forall j, bb + off + words_size ws <= j ->
               fst (store_words bb lb ws off k buf l) j = buf j) /\
    (forall j, lb + k + Z.of_nat (length ws) <= j ->
               snd (store_words bb lb ws off k buf l) j = l j).
Proof.
  induction ws as [|w ws IH]; intros off k buf l Hoff; [split; reflexivity|].
  cbn [store_words words_size length].
  assert (Hsz : 0 <= words_size ws).
  { clear. induction ws as [|a ws IH]; cbn [words_size]; lia. }
  destruct (IH (off + (Z.of_nat (length w) + 1)) (k + 1)
               (memcpy buf (bb + off) w)
               (store_arg l (lb + k) (Some (bb + off))) ltac:(lia))
    as (H1 & H2).
  split; intros j Hj.
  - rewrite H1 by lia. apply memcpy_outside. lia.
  - rewrite H2 by lia. unfold store_arg.
    destruct (j =? lb + k) eqn:E; [apply Z.eqb_eq in E; lia | reflexivity].
Qed.

(** In a buffer that holds NUL from the first free cell on, the flushed
    words are read back as they were written. *)
Lemma store_words_read (bb lb : Z) :
  forall (ws : list (list ascii)) (off k : Z) (buf : buffer) (l : arglist),
    0 <= off ->
    (forall j, bb + off <= j -> buf j = NUL) ->
    Forall (fun w => Forall (fun ch => ch <> NUL) w /\
                     (length w < MAX_INPUT_LEN)%nat) ws ->
    argv_at (length ws)
            (fst (store_words bb lb ws off k buf l))
            (snd (store_words bb lb ws off k buf l)) (lb + k) = ws.
Proof.
  induction ws as [|w ws IH]; intros off k buf l Hoff Hz Hws; [reflexivity|].
  inversion Hws as [|? ? (Hn & Hl) Hws']; subst.
  cbn [store_words length argv_at].
  set (buf1 := memcpy buf (bb + off) w).
  set (l1 := store_arg l (lb + k) (Some (bb + off))).
  set (off1 := off + (Z.of_nat (length w) + 1)).
  destruct (store_words_frame bb lb ws off1 (k + 1) buf1 l1 ltac:(unfold off1; lia))
    as (F1 & F2).
  rewrite F2 by lia. unfold l1 at 1. unfold store_arg at 1.
  rewrite Z.eqb_refl. f_equal.
  - apply cstring_at_read; try assumption.
    + intros i Hi. rewrite F1 by (unfold off1; lia).
      apply memcpy_inside. exact Hi.
    + rewrite F1 by (unfold off1; lia). unfold buf1.
      rewrite memcpy_outside by lia. apply Hz. lia.
  - replace (lb + k + 1) with (lb + (k + 1)) by lia.
    apply IH; try assumption; [unfold off1; lia|].
    intros j Hj. unfold buf1. rewrite memcpy_outside by (unfold off1 in Hj; lia).
    apply Hz. unfold off1 in Hj. lia.
Qed.

Lemma word_no_NUL (w : list ascii) :
  Forall word_char w -> Forall (fun ch => ch <> NUL) w.
Proof.
  intros H. eapply Forall_impl; [|exact H].
  intros a ((_ & _ & _ & Hn) & _). exact Hn.
Qed.

Lemma spaced_length (wgs : list (list ascii * list ascii)) :
  Forall (fun p => word (fst p) /\ gap (snd p)) wgs ->
  (rounds_of (map fst wgs) <= length (spaced wgs))%nat.
Proof.
  induction 1 as [|[w g] wgs (_ & (Hg & _)) _ IH]; [cbn; lia|].
  cbn [map fst snd rounds_of spaced] in *. rewrite !length_app.
  destruct g; [congruence|]. cbn [length]. lia.
Qed.

(** ** Whole calls on words *)

Lemma lex_loop_at_end (input : list ascii) (bb lb : Z) (f : nat)
      (st : lex_state) :
  Z.of_nat (length input) <= c st ->
  lex_loop (S f) input bb lb st = Some (st, SR_DONE).
Proof.
  intros H. cbn [lex_loop]. unfold lex_iter.
  rewrite char_at_end by exact H. reflexivity.
Qed.

(** A call on words with their gaps, behind whitespace and in front of a
    last piece of a word that no gap follows: the words are handed out, the
    last piece is not, and the whole text is consumed. *)
Lemma processArgs_words (g0 tail : list ascii)
      (wgs : list (list ascii * list ascii))
      (buf : buffer) (bb : Z) (l : arglist) (lb : Z) :
  Forall (fun ch => ISWHITESPACE ch = true) g0 ->
  Forall (fun p => word (fst p) /\ gap (snd p)) wgs ->
  Forall word_char tail ->
  let ws := map fst wgs in
  let input := g0 ++ spaced wgs ++ tail in
  processArgs input buf bb l lb =
  Some (mkLexResult (Z.of_nat (length input) + 1) (words_size ws)
                    (fst (store_words bb lb ws 0 0 buf l))
                    (Z.of_nat (length wgs))
                    (snd (store_words bb lb ws 0 0 buf l)) SR_DONE).
Proof.
  intros Hg0 Hw Ht ws input.
  assert (Hhd : ISWHITESPACE (hd NUL tail) = false /\
                ISCONTROLCHAR (hd NUL tail) = false).
  { destruct tail as [|ch tail']; [split; reflexivity|].
    inversion Ht as [|? ? Hch _]; subst.
    destruct (word_char_tests ch Hch) as (_ & _ & _ & _ & T5 & T6).
    split; assumption. }
  destruct Hhd as (Hh1 & Hh2).
  set (sw := store_words bb lb ws 0 0 buf l).
  set (st_end := mkLex false false NUL (Z.of_nat (length input))
                       (Z.of_nat (length input)) tail (words_size ws)
                       (Z.of_nat (length wgs)) (fst sw) (snd sw)).
  assert (Hrounds : lex_rounds (length g0 + (rounds_of ws + length tail))
                               input bb lb (lex_init buf l) = Some st_end).
  { erewrite lex_rounds_app; cycle 1.
    { apply (leading_whitespace (spaced wgs ++ tail) bb lb g0 []
               (lex_init buf l) Hg0); reflexivity. }
    cbn [app]. fold input.
    change (advance (Z.of_nat (length g0)) (Z.of_nat (length g0))
                    (lex_init buf l))
      with (between_words (Z.of_nat (length g0)) 0 0 buf l).
    erewrite lex_rounds_app; cycle 1.
    { apply (spaced_rounds tail bb lb Hh1 Hh2 wgs g0 0 0 buf l Hw). }
    cbn [Z.add]. fold ws. fold sw. unfold between_words.
    pose proof (word_rounds [] bb lb (words_size ws) (Z.of_nat (length wgs))
                  (fst sw) (snd sw) tail (g0 ++ spaced wgs) [] Ht) as Hwr.
    rewrite app_nil_r in Hwr. cbn [app] in Hwr.
    unfold input. rewrite app_assoc. rewrite Hwr.
    unfold st_end, input. rewrite !app_assoc. reflexivity. }
  unfold processArgs.
  pose proof (spaced_length wgs Hw) as Hlen. fold ws in Hlen.
  replace (S (length input))
    with ((length g0 + (rounds_of ws + length tail))
          + S (length (spaced wgs) - rounds_of ws))%nat
    by (unfold input; rewrite !length_app; lia).
  rewrite (lex_rounds_loop _ bb lb _ _ _ _ Hrounds).
  rewrite lex_loop_at_end by (cbn [st_end c]; lia).
  reflexivity.
Qed.

(** The rounds up to the end of a piece of a word that follows words and
    gaps, whatever stands behind it. *)
Lemma rounds_to_pending (g0 tail rest : list ascii)
      (wgs : list (list ascii * list ascii))
      (buf : buffer) (bb : Z) (l : arglist) (lb : Z) :
  Forall (fun ch => ISWHITESPACE ch = true) g0 ->
  Forall (fun p => word (fst p) /\ gap (snd p)) wgs ->
  Forall word_char tail ->
  ISWHITESPACE (hd NUL (tail ++ rest)) = false ->
  ISCONTROLCHAR (hd NUL (tail ++ rest)) = false ->
  let ws := map fst wgs in
  let n := Z.of_nat (length (g0 ++ spaced wgs ++ tail)) in
  lex_rounds (length g0 + (rounds_of ws + length tail))
             (g0 ++ spaced wgs ++ tail ++ rest) bb lb (lex_init buf l) =
  Some (mkLex false false NUL n n tail (words_size ws)
              (Z.of_nat (length wgs))
              (fst (store_words bb lb ws 0 0 buf l))
              (snd (store_words bb lb ws 0 0 buf l))).
Proof.
  intros Hg0 Hw Ht Hh1 Hh2 ws n.
  erewrite lex_rounds_app; cycle 1.
  { apply (leading_whitespace (spaced wgs ++ tail ++ rest) bb lb g0 []
             (lex_init buf l) Hg0); reflexivity. }
  cbn [app].
  change (advance (Z.of_nat (length g0)) (Z.of_nat (length g0))
                  (lex_init buf l))
    with (between_words (Z.of_nat (length g0)) 0 0 buf l).
  erewrite lex_rounds_app; cycle 1.
  { apply (spaced_rounds (tail ++ rest) bb lb Hh1 Hh2 wgs g0 0 0 buf l Hw). }
  cbn [Z.add]. fold ws. unfold between_words.
  pose proof (word_rounds rest bb lb (words_size ws) (Z.of_nat (length wgs))
                (fst (store_words bb lb ws 0 0 buf l))
                (snd (store_words bb lb ws 0 0 buf l))
                tail (g0 ++ spaced wgs) [] Ht) as Hwr.
  cbn [app] in Hwr. rewrite <- app_assoc in Hwr. rewrite Hwr.
  unfold n. rewrite <- !app_assoc. reflexivity.
Qed.

Lemma char_at_app_next (pre rest : list ascii) :
  char_at (pre ++ rest) (Z.of_nat (length pre) + 1) = hd NUL (tl rest).
Proof.
  destruct rest as [|x rest].
  - rewrite app_nil_r. apply char_at_end. lia.
  - replace (pre ++ x :: rest) with ((pre ++ [x]) ++ rest)
      by (rewrite <- app_assoc; reflexivity).
    replace (Z.of_nat (length pre) + 1) with (Z.of_nat (length (pre ++ [x])))
      by (rewrite length_app; cbn [length]; lia).
    apply char_at_app.
Qed.

(** Lines 168-207 on the text of an operator: the stop reason is that of
    the operator, and a doubled operator is counted twice. *)
Lemma after_flush_operator (input : list ascii) (st1 : lex_state)
      (op : stop_reason) (rest : list ascii) :
  let n := skip_ws (skipn (Z.to_nat (c st1)) input) in
  char_at input (c st1 + n) = hd NUL (operator_text op ++ rest) ->
  char_at input (c st1 + n + 1) = hd NUL (tl (operator_text op ++ rest)) ->
  op <> SR_DONE -> op <> SR_ERROR -> not_doubled op rest ->
  exists st',
    after_flush input st1 = Break st' op /\
    processed st' =
      processed st1 + n + Z.of_nat (length (operator_text op)) - 1 /\
    argCount st' = argCount st1 /\ argsOffset st' = argsOffset st1 /\
    argBuffer st' = argBuffer st1 /\ argList st' = argList st1.
Proof.
  intros n Hch Hch1 Hd He Hnd. unfold after_flush. fold n. cbn [c advance].
  rewrite Hch, Hch1.
  destruct op; try congruence; cbn [operator_text app hd tl length] in *;
    cbn [Ascii.eqb Bool.eqb andb];
    try (apply Ascii.eqb_neq in Hnd; rewrite Hnd; cbn [andb]);
    eexists; (split; [reflexivity|]);
    cbn [processed argCount argsOffset argBuffer argList advance];
    repeat split; try reflexivity; lia.
Qed.

Lemma operator_head (op : stop_reason) (rest : list ascii) :
  op <> SR_DONE -> op <> SR_ERROR ->
  ISCONTROLCHAR (hd NUL (operator_text op ++ rest)) = true.
Proof. destruct op; intros H1 H2; try congruence; reflexivity. Qed.

Lemma words_size_app (a b : list (list ascii)) :
  words_size (a ++ b) = words_size a + words_size b.
Proof. induction a as [|w a IH]; cbn [app words_size]; lia. Qed.

Lemma store_words_app (bb lb : Z) (b : list (list ascii)) :
  forall (a : list (list ascii)) (off k : Z) (buf : buffer) (l : arglist),
    store_words bb lb (a ++ b) off k buf l =
    store_words bb lb b (off + words_size a) (k + Z.of_nat (length a))
                (fst (store_words bb lb a off k buf l))
                (snd (store_words bb lb a off k buf l)).
Proof.
  induction a as [|w a IH]; intros off k buf l.
  - cbn. rewrite !Z.add_0_r. reflexivity.
  - cbn [app store_words words_size length]. rewrite IH.
    rewrite Nat2Z.inj_succ. f_equal; lia.
Qed.

(** A call on words that end at an operator: the words are handed out,
    the stop reason is that of the operator, and the text is consumed up
    to and including the operator, so that the next call starts right
    behind it. *)
Lemma processArgs_operator (g0 g rest w : list ascii)
      (wgs : list (list ascii * list ascii)) (op : stop_reason)
      (buf : buffer) (bb : Z) (l : arglist) (lb : Z) :
  Forall (fun ch => ISWHITESPACE ch = true) g0 ->
  Forall (fun p => word (fst p) /\ gap (snd p)) wgs ->
  word w ->
  Forall (fun ch => ISWHITESPACE ch = true) g ->
  op <> SR_DONE -> op <> SR_ERROR -> not_doubled op rest ->
  let ws := map fst wgs ++ [w] in
  let consumed := g0 ++ spaced wgs ++ w ++ g ++ operator_text op in
  processArgs (consumed ++ rest) buf bb l lb =
  Some (mkLexResult (Z.of_nat (length consumed)) (words_size ws)
                    (fst (store_words bb lb ws 0 0 buf l))
                    (Z.of_nat (length wgs) + 1)
                    (snd (store_words bb lb ws 0 0 buf l)) op).
Proof.
  intros Hg0 Hw (Hne & Hcs) Hg Hd He Hnd ws consumed.
  set (after := g ++ operator_text op ++ rest).
  set (input := g0 ++ spaced wgs ++ w ++ after).
  assert (Hin : consumed ++ rest = input).
  { unfold consumed, input, after. rewrite <- !app_assoc. reflexivity. }
  rewrite Hin.
  assert (Hhw : ISWHITESPACE (hd NUL (w ++ after)) = false /\
                ISCONTROLCHAR (hd NUL (w ++ after)) = false).
  { destruct w as [|ch w']; [congruence|]. cbn [app hd].
    inversion Hcs as [|? ? Hch _]; subst.
    destruct (word_char_tests ch Hch) as (_ & _ & _ & _ & T5 & T6).
    split; assumption. }
  destruct Hhw as (Hh1 & Hh2).
  pose proof (rounds_to_pending g0 w after wgs buf bb l lb Hg0 Hw Hcs Hh1 Hh2)
    as Hrounds. cbv zeta in Hrounds. fold input in Hrounds.
  set (pre := g0 ++ spaced wgs ++ w) in *.
  set (wsA := map fst wgs) in *.
  set (swA := store_words bb lb wsA 0 0 buf l) in *.
  set (st_w := mkLex false false NUL (Z.of_nat (length pre))
                     (Z.of_nat (length pre)) w (words_size wsA)
                     (Z.of_nat (length wgs)) (fst swA) (snd swA)) in *.
  assert (Hinput : input = pre ++ after).
  { unfold input, pre. rewrite <- !app_assoc. reflexivity. }
  pose proof (operator_head op rest Hd He) as Hop.
  (* the round that meets the gap or the operator *)
  assert (Hsep : ISWHITESPACE (char_at input (c st_w))
                 || ISCONTROLCHAR (char_at input (c st_w)) = true).
  { cbn [st_w c]. rewrite Hinput, char_at_app. unfold after.
    destruct g as [|x g']; cbn [app hd].
    - rewrite Hop. apply orb_true_r.
    - inversion Hg; subst. rewrite H1. reflexivity. }
  assert (Hskip : skip_ws (skipn (Z.to_nat (c (flush_arg bb lb st_w))) input)
                  = Z.of_nat (length g)).
  { cbn [flush_arg st_w c]. rewrite Hinput, Nat2Z.id, skipn_app, skipn_all,
      Nat.sub_diag. cbn [skipn app]. unfold after.
    apply skip_ws_gap; [exact Hg|]. apply control_not_whitespace. exact Hop. }
  destruct (after_flush_operator input (flush_arg bb lb st_w) op rest)
    as (st' & Hbreak & P1 & P2 & P3 & P4 & P5); try assumption.
  { rewrite Hskip. cbn [flush_arg st_w c].
    replace (Z.of_nat (length pre) + Z.of_nat (length g))
      with (Z.of_nat (length (pre ++ g))) by (rewrite length_app; lia).
    rewrite Hinput. unfold after. rewrite app_assoc. apply char_at_app. }
  { rewrite Hskip. cbn [flush_arg st_w c].
    replace (Z.of_nat (length pre) + Z.of_nat (length g))
      with (Z.of_nat (length (pre ++ g))) by (rewrite length_app; lia).
    rewrite Hinput. unfold after. rewrite app_assoc. apply char_at_app_next. }
  rewrite Hskip in P1.
  (* the call *)
  unfold processArgs.
  pose proof (spaced_length wgs Hw) as Hlen. fold wsA in Hlen.
  replace (S (length input))
    with ((length g0 + (rounds_of wsA + length w))
          + S (length input - (length g0 + (rounds_of wsA + length w))))%nat
    by (unfold input; rewrite !length_app; lia).
  rewrite (lex_rounds_loop _ bb lb _ _ _ _ Hrounds).
  cbn [lex_loop]. rewrite separator_flushes; try reflexivity; try assumption.
  rewrite Hbreak. cbn [option_map lex_finish].
  rewrite P1, P2, P3, P4, P5.
  unfold ws. rewrite store_words_app, words_size_app.
  cbn [flush_arg st_w processed argsOffset argCount argBuffer argList curArg
       store_words words_size fst snd].
  unfold curArgLen. cbn [curArg]. fold wsA. fold swA.
  assert (Hl : length wsA = length wgs) by (unfold wsA; apply length_map).
  assert (Hc : Z.of_nat (length consumed) =
               Z.of_nat (length pre) + Z.of_nat (length g)
               + Z.of_nat (length (operator_text op))).
  { unfold consumed, pre. rewrite !length_app. lia. }
  rewrite !Z.add_0_l, Hl, Hc. unfold st_w. cbn [curArg].
  do 2 f_equal; lia.
Qed.

Lemma words_readable (wgs : list (list ascii * list ascii)) :
  Forall (fun p => word (fst p) /\ gap (snd p)) wgs ->
  Forall (fun p => (length (fst p) < MAX_INPUT_LEN)%nat) wgs ->
  Forall (fun w => Forall (fun ch => ch <> NUL) w /\
                   (length w < MAX_INPUT_LEN)%nat) (map fst wgs).
Proof.
  intros H1 H2. induction H1 as [|p wgs ((_ & Hp) & _) _ IH]; [constructor|].
  inversion H2; subst. constructor; [|apply IH; assumption].
  split; [apply word_no_NUL; exact Hp | assumption].
Qed.

Lemma store_words_read0 (bb lb : Z) (ws : list (list ascii))
      (buf : buffer) (l : arglist) :
  (forall j, bb <= j -> buf j = NUL) ->
  Forall (fun w => Forall (fun ch => ch <> NUL) w /\
                   (length w < MAX_INPUT_LEN)%nat) ws ->
  argv_at (length ws)
          (fst (store_words bb lb ws 0 0 buf l))
          (snd (store_words bb lb ws 0 0 buf l)) lb = ws.
Proof.
  intros Hz Hws.
  pose proof (store_words_read bb lb ws 0 0 buf l ltac:(lia)
                ltac:(intros j Hj; apply Hz; lia) Hws) as H.
  rewrite Z.add_0_r in H. exact H.
Qed.

(** X1.  Words separated by whitespace and followed by whitespace come out
    as the arguments, in their order, one argument per word: the call ends
    at the end of the text, has consumed all of it and the NUL, and has
    used one cell of the buffer per character and one per word. *)
Theorem words_are_the_arguments (g0 : list ascii)
        (wgs : list (list ascii * list ascii))
        (buf : buffer) (bb : Z) (l : arglist) (lb : Z) :
  Forall (fun ch => ISWHITESPACE ch = true) g0 ->
  Forall (fun p => word (fst p) /\ gap (snd p)) wgs ->
  Forall (fun p => (length (fst p) < MAX_INPUT_LEN)%nat) wgs ->
  (forall j, bb <= j -> buf j = NUL) ->
  exists r,
    processArgs (g0 ++ spaced wgs) buf bb l lb = Some r /\
    result_args lb r = map fst wgs /\
    r_argCount r = Z.of_nat (length wgs) /\
    r_stopReason r = SR_DONE /\
    r_processed r = Z.of_nat (length (g0 ++ spaced wgs)) + 1 /\
    r_argChars r = words_size (map fst wgs).
Proof.
  intros Hg0 Hw Hshort Hz.
  pose proof (processArgs_words g0 [] wgs buf bb l lb Hg0 Hw (Forall_nil _))
    as H. cbv zeta in H. rewrite !app_nil_r in H.
  eexists. split; [exact H|].
  unfold result_args. cbn [r_argCount r_argBuffer r_argList r_stopReason
                           r_processed r_argChars].
  repeat split; try reflexivity.
  rewrite Nat2Z.id. rewrite <- (length_map fst wgs).
  apply store_words_read0; [exact Hz|].
  apply words_readable; assumption.
Qed.

Lemma words_are_the_arguments_witness :
  let wgs := [(list_ascii_of_string "echo", [" "%char]);
              (list_ascii_of_string "hello", ["010"%char])] in
  exists r,
    processArgs ([] ++ spaced wgs) zero_buffer 0 null_arglist 0 = Some r /\
    result_args 0 r = map fst wgs /\
    r_argCount r = Z.of_nat (length wgs) /\
    r_stopReason r = SR_DONE /\
    r_processed r = Z.of_nat (length ([] ++ spaced wgs)) + 1 /\
    r_argChars r = words_size (map fst wgs).
Proof.
  apply (words_are_the_arguments []
           [(list_ascii_of_string "echo", [" "%char]);
            (list_ascii_of_string "hello", ["010"%char])]
           zero_buffer 0 null_arglist 0).
  - constructor.
  - repeat constructor; try (intro H; discriminate H).
  - repeat constructor; unfold MAX_INPUT_LEN; simpl; lia.
  - reflexivity.
Defined.

(** X2.  A last word that no whitespace or control character follows is
    not handed out: the call consumes it, ends at the end of the text, and
    its arguments are the words in front of it only. *)
Theorem word_without_separator_is_dropped (g0 tail : list ascii)
        (wgs : list (list ascii * list ascii))
        (buf : buffer) (bb : Z) (l : arglist) (lb : Z) :
  Forall (fun ch => ISWHITESPACE ch = true) g0 ->
  Forall (fun p => word (fst p) /\ gap (snd p)) wgs ->
  Forall (fun p => (length (fst p) < MAX_INPUT_LEN)%nat) wgs ->
  word tail ->
  (forall j, bb <= j -> buf j = NUL) ->
  exists r,
    processArgs (g0 ++ spaced wgs ++ tail) buf bb l lb = Some r /\
    result_args lb r = map fst wgs /\
    r_argCount r = Z.of_nat (length wgs) /\
    r_stopReason r = SR_DONE /\
    r_processed r = Z.of_nat (length (g0 ++ spaced wgs ++ tail)) + 1.
Proof.
  intros Hg0 Hw Hshort (_ & Ht) Hz.
  pose proof (processArgs_words g0 tail wgs buf bb l lb Hg0 Hw Ht) as H.
  cbv zeta in H.
  eexists. split; [exact H|].
  unfold result_args. cbn [r_argCount r_argBuffer r_argList r_stopReason
                           r_processed].
  repeat split; try reflexivity.
  rewrite Nat2Z.id. rewrite <- (length_map fst wgs).
  apply store_words_read0; [exact Hz|].
  apply words_readable; assumption.
Qed.

Lemma word_without_separator_is_dropped_witness :
  let wgs := [(list_ascii_of_string "echo", [" "%char])] in
  let tail := list_ascii_of_string "hello" in
  exists r,
    processArgs ([] ++ spaced wgs ++ tail) zero_buffer 0 null_arglist 0
      = Some r /\
    result_args 0 r = map fst wgs /\
    r_argCount r = Z.of_nat (length wgs) /\
    r_stopReason r = SR_DONE /\
    r_processed r = Z.of_nat (length ([] ++ spaced wgs ++ tail)) + 1.
Proof.
  apply (word_without_separator_is_dropped []
           (list_ascii_of_string "hello")
           [(list_ascii_of_string "echo", [" "%char])]
           zero_buffer 0 null_arglist 0).
  - constructor.
  - repeat constructor; try (intro H; discriminate H).
  - repeat constructor; unfold MAX_INPUT_LEN; simpl; lia.
  - split; [intro H; discriminate H|].
    repeat constructor; try (intro H; discriminate H).
  - reflexivity.
Defined.

(** X3.  Words that end at an operator, with or without whitespace in front
    of it: the words are the arguments, the stop reason is that of the
    operator, and the call has consumed the text up to and including the
    operator, both characters of a doubled one, so that the next call
    starts right behind it. *)
Theorem operator_ends_the_call (g0 g rest w : list ascii)
        (wgs : list (list ascii * list ascii)) (op : stop_reason)
        (buf : buffer) (bb : Z) (l : arglist) (lb : Z) :
  Forall (fun ch => ISWHITESPACE ch = true) g0 ->
  Forall (fun p => word (fst p) /\ gap (snd p)) wgs ->
  Forall (fun p => (length (fst p) < MAX_INPUT_LEN)%nat) wgs ->
  word w -> (length w < MAX_INPUT_LEN)%nat ->
  Forall (fun ch => ISWHITESPACE ch = true) g ->
  op <> SR_DONE -> op <> SR_ERROR -> not_doubled op rest ->
  (forall j, bb <= j -> buf j = NUL) ->
  let consumed := g0 ++ spaced wgs ++ w ++ g ++ operator_text op in
  exists r,
    processArgs (consumed ++ rest) buf bb l lb = Some r /\
    result_args lb r = map fst wgs ++ [w] /\
    r_stopReason r = op /\
    r_processed r = Z.of_nat (length consumed).
Proof.
  intros Hg0 Hw Hshort Hword Hwl Hg Hd He Hnd Hz consumed.
  pose proof (processArgs_operator g0 g rest w wgs op buf bb l lb
                Hg0 Hw Hword Hg Hd He Hnd) as H.
  cbv zeta in H. fold consumed in H.
  eexists. split; [exact H|].
  unfold result_args. cbn [r_argCount r_argBuffer r_argList r_stopReason
                           r_processed].
  repeat split; try reflexivity.
  replace (Z.to_nat (Z.of_nat (length wgs) + 1))
    with (length (map fst wgs ++ [w]))
    by (rewrite length_app, length_map; cbn [length]; lia).
  apply store_words_read0; [exact Hz|].
  apply Forall_app. split; [apply words_readable; assumption|].
  constructor; [|constructor].
  split; [apply word_no_NUL; apply Hword | exact Hwl].
Qed.

Lemma operator_ends_the_call_witness :
  let wgs := [(list_ascii_of_string "echo", [" "%char])] in
  let w := list_ascii_of_string "x" in
  let rest := list_ascii_of_string " y" in
  let consumed := [] ++ spaced wgs ++ w ++ [" "%char]
                     ++ operator_text SR_REDIRECT_OUT_APPEND in
  exists r,
    processArgs (consumed ++ rest) zero_buffer 0 null_arglist 0 = Some r /\
    result_args 0 r = map fst wgs ++ [w] /\
    r_stopReason r = SR_REDIRECT_OUT_APPEND /\
    r_processed r = Z.of_nat (length consumed).
Proof.
  apply (operator_ends_the_call [] [" "%char] (list_ascii_of_string " y")
           (list_ascii_of_string "x")
           [(list_ascii_of_string "echo", [" "%char])]
           SR_REDIRECT_OUT_APPEND zero_buffer 0 null_arglist 0).
  - constructor.
  - repeat constructor; try (intro H; discriminate H).
  - repeat constructor; unfold MAX_INPUT_LEN; simpl; lia.
  - split; [intro H; discriminate H|].
    repeat constructor; try (intro H; discriminate H).
  - unfold MAX_INPUT_LEN; simpl; lia.
  - repeat constructor.
  - intro H; discriminate H.
  - intro H; discriminate H.
  - exact I.
  - reflexivity.
Defined.

(** ** What a call writes, and how far it reads *)

Lemma beyond_kept_same (bb lb : Z) (st0 st s : lex_state) :
  beyond_kept bb lb st0 st ->
  argCount s = argCount st -> argsOffset s = argsOffset st ->
  argList s = argList st -> argBuffer s = argBuffer st ->
  beyond_kept bb lb st0 s.
Proof.
  intros H H1 H2 H3 H4. unfold beyond_kept. rewrite H1, H2, H3, H4. exact H.
Qed.

Lemma beyond_kept_flush (bb lb : Z) (st0 st : lex_state) :
  beyond_kept bb lb st0 st -> 0 < curArgLen st ->
  beyond_kept bb lb st0 (flush_arg bb lb st).
Proof.
  intros (H0 & H1 & H2 & H3) Hlen. unfold beyond_kept, flush_arg, store_arg.
  unfold curArgLen in *. cbn [argCount argsOffset argList argBuffer].
  repeat split; try lia.
  - intros j Hj. destruct (j =? lb + argCount st) eqn:E;
      [apply Z.eqb_eq in E; lia | apply H2; lia].
  - intros j Hj. rewrite memcpy_outside by lia. apply H3. lia.
Qed.

Lemma lex_iter_beyond_kept (input : list ascii) (bb lb : Z)
      (st0 st : lex_state) :
  beyond_kept bb lb st0 st ->
  match lex_iter input bb lb st with
  | Continue st' => beyond_kept bb lb st0 st'
  | Break st' _ => beyond_kept bb lb st0 st'
  end.
Proof.
  intros H. unfold lex_iter, next_round.
  destruct (_ =? NUL)%char; [exact H|].
  destruct (_ && negb (escaped st));
    [eapply beyond_kept_same; [exact H | reflexivity ..]|].
  destruct (_ && negb (escaped st)).
  { destruct (negb (quoted st));
      [eapply beyond_kept_same; [exact H | reflexivity ..]|].
    destruct (_ =? quoteChar st)%char;
      (eapply beyond_kept_same; [exact H | reflexivity ..]). }
  destruct (_ && negb (escaped st || quoted st));
    [|eapply beyond_kept_same; [exact H | reflexivity ..]].
  destruct (0 <? curArgLen st) eqn:El.
  - apply Z.ltb_lt in El.
    pose proof (beyond_kept_flush bb lb st0 st H El) as Hf.
    unfold after_flush, next_round.
    repeat match goal with
           | |- context [if ?b then _ else _] =>
               lazymatch b with
               | context [if _ then _ else _] => fail
               | _ => destruct b
               end
           end;
      (eapply beyond_kept_same; [exact Hf | reflexivity ..]).
  - destruct (ISCONTROLCHAR _); [exact H|].
    eapply beyond_kept_same; [exact H | reflexivity ..].
Qed.

Lemma lex_loop_beyond_kept (input : list ascii) (bb lb : Z) (st0 : lex_state) :
  forall (fuel : nat) (st st' : lex_state) (r : stop_reason),
    beyond_kept bb lb st0 st ->
    lex_loop fuel input bb lb st = Some (st', r) ->
    beyond_kept bb lb st0 st'.
Proof.
  induction fuel as [|f IH]; intros st st' r Hk H; [discriminate|].
  cbn [lex_loop] in H.
  pose proof (lex_iter_beyond_kept input bb lb st0 st Hk) as Hi.
  destruct (lex_iter input bb lb st) as [s1|s1 r1].
  - eapply IH; eassumption.
  - inversion H; subst. exact Hi.
Qed.

Lemma lex_iter_break_done (input : list ascii) (bb lb : Z)
      (st st' : lex_state) :
  lex_iter input bb lb st = Break st' SR_DONE ->
  st' = st /\ char_at input (c st) = NUL.
Proof.
  unfold lex_iter. intros H.
  destruct (char_at input (c st) =? NUL)%char eqn:EN.
  { apply Ascii.eqb_eq in EN. inversion H; subst. split; [reflexivity|exact EN]. }
  exfalso.
  destruct (_ && negb (escaped st)); [discriminate|].
  destruct (_ && negb (escaped st)).
  { destruct (negb (quoted st)); [discriminate|].
    destruct (_ =? quoteChar st)%char; discriminate. }
  destruct (_ && negb (escaped st || quoted st)); [|discriminate].
  destruct (0 <? curArgLen st).
  - apply after_flush_break in H. destruct H as (H & _). congruence.
  - destruct (ISCONTROLCHAR _); discriminate.
Qed.

Lemma lex_loop_done (input : list ascii) (l0 : arglist) (bb lb : Z) :
  forall (fuel : nat) (st st' : lex_state),
    lex_inv input l0 lb st ->
    lex_loop fuel input bb lb st = Some (st', SR_DONE) ->
    processed st' <= Z.of_nat (length input) /\
    char_at input (processed st') = NUL.
Proof.
  induction fuel as [|f IH]; intros st st' Hinv H; [discriminate|].
  cbn [lex_loop] in H.
  destruct (lex_iter input bb lb st) as [s1|s1 r1] eqn:E.
  - eapply IH; [|exact H]. eapply lex_iter_continue_inv; eassumption.
  - inversion H; subst. apply lex_iter_break_done in E.
    destruct E as (-> & E). destruct Hinv as (Hp & Hc & _).
    rewrite Hp. split; [lia | exact E].
Qed.

(** X4.  Every call returns, having consumed one character at least and,
    unless it ended at the end of the text, no more than the text: the
    caller's position never passes the NUL.  A call that ended at the end
    of the text has consumed the text up to and including the NUL.  A call
    that ended at an operator hands out one argument at least. *)
Theorem processArgs_stays_within_input (input : list ascii) (buf : buffer)
        (bb : Z) (l : arglist) (lb : Z) :
  exists r,
    processArgs input buf bb l lb = Some r /\
    1 <= r_processed r <= Z.of_nat (length input) + 1 /\
    (r_stopReason r <> SR_DONE -> r_processed r <= Z.of_nat (length input)) /\
    (r_stopReason r = SR_DONE -> char_at input (r_processed r - 1) = NUL) /\
    (r_stopReason r <> SR_DONE -> r_stopReason r <> SR_ERROR ->
     1 <= r_argCount r).
Proof.
  destruct (processArgs_total input buf bb l lb) as (r & Hr).
  exists r. split; [exact Hr|].
  destruct (processArgs_facts _ _ _ _ _ _ Hr) as (P1 & P2 & _ & P4 & _ & _).
  unfold processArgs in Hr.
  destruct (lex_loop _ input bb lb (lex_init buf l)) as [[st sr]|] eqn:E;
    [|discriminate].
  cbn [option_map lex_finish] in Hr. inversion Hr; subst r; clear Hr.
  cbn [r_processed r_stopReason r_argCount] in *.
  assert (Hinit : lex_inv input l lb (lex_init buf l)).
  { unfold lex_inv, cells_ok, lex_init.
    cbn [processed c argCount argList]. repeat split; try lia. }
  assert (Hdone : sr = SR_DONE ->
                  processed st <= Z.of_nat (length input) /\
                  char_at input (processed st) = NUL).
  { intros ->. eapply lex_loop_done; eassumption. }
  repeat split; try assumption.
  - destruct sr; try (assert (processed st + 1 <= Z.of_nat (length input))
                        by (apply P2; discriminate); lia).
    destruct (Hdone eq_refl). lia.
  - intros Hd. destruct (Hdone Hd) as (_ & H).
    replace (processed st + 1 - 1) with (processed st) by lia. exact H.
Qed.

(** X5.  A call writes to its own cells only: the cells of the argument
    list in front of the caller's pointer and behind the arguments handed
    out, and the cells of the buffer in front of the caller's pointer and
    behind the [argChars] cells the call reports, are as the call found
    them.  The cells of the handed-out arguments are filled, and every
    argument takes two cells of the buffer at least. *)
Theorem processArgs_writes_only_its_cells (input : list ascii) (buf : buffer)
        (bb : Z) (l : arglist) (lb : Z) :
  exists r,
    processArgs input buf bb l lb = Some r /\
    0 <= r_argCount r /\ 2 * r_argCount r <= r_argChars r /\
    (forall j, j < lb \/ lb + r_argCount r <= j -> r_argList r j = l j) /\
    (forall j, lb <= j < lb + r_argCount r -> r_argList r j <> None) /\
    (forall j, j < bb \/ bb + r_argChars r <= j -> r_argBuffer r j = buf j).
Proof.
  destruct (processArgs_total input buf bb l lb) as (r & Hr).
  exists r. split; [exact Hr|].
  destruct (processArgs_facts _ _ _ _ _ _ Hr) as (_ & _ & P3 & _ & P5 & P6).
  unfold processArgs in Hr.
  destruct (lex_loop _ input bb lb (lex_init buf l)) as [[st sr]|] eqn:E;
    [|discriminate].
  cbn [option_map lex_finish] in Hr. inversion Hr; subst r; clear Hr.
  cbn [r_argCount r_argChars r_argList r_argBuffer] in *.
  assert (Hb : beyond_kept bb lb (lex_init buf l) st).
  { eapply lex_loop_beyond_kept; [|exact E].
    unfold beyond_kept, lex_init.
    cbn [argCount argsOffset argList argBuffer]. repeat split; auto; lia. }
  pose proof (lex_loop_args_kept _ _ _ _ _ _ _ E) as (_ & _ & _ & K4).
  destruct Hb as (B0 & B1 & B2 & B3).
  cbn [lex_init argCount argsOffset argList argBuffer] in *.
  repeat split; try assumption.
  - intros j [Hj|Hj]; [apply P5; exact Hj | apply B2; exact Hj].
  - intros j [Hj|Hj]; [apply K4; lia | apply B3; exact Hj].
Qed.

(** * Further properties of the chain builder *)

(** ** The links between the nodes *)

Lemma chains_from_count (cs : list command_t) (a : nat) (ls : list nat) (e : nat) :
  chains_from cs a ls e -> (a + length ls <= e)%nat.
Proof.
  induction 1 as [a|a n ls e Hc _ IH]; cbn [length]; [lia|].
  apply chain_from_bound in Hc. lia.
Qed.

(** X6.  On every line the builder returns, and what it has built is well
    formed: the nodes are the first [commandCount] cells of the array, no
    more chains are counted than nodes were built, and the link of a node
    is null or points to the very next cell, which was built.  Links never
    point backwards or to the node itself, so that every walk along [next]
    ends. *)
Theorem built_nodes_are_linked_forward (sys_open : list ascii -> Z -> Z)
        (input : list ascii) :
  exists b,
    buildCommandChains sys_open input = Some b /\
    length (chains b) = commandCount b /\
    0 <= chainCount b <= Z.of_nat (commandCount b) /\
    forall i k, nth_error (chains b) i = Some k ->
      next k = None \/
      (next k = Some (S i) /\ (S i < commandCount b)%nat).
Proof.
  destruct (buildCommandChains_inv sys_open input)
    as (b & closed & lens & Hb & I & _ & _).
  exists b. split; [exact Hb|].
  pose proof (inv_length _ _ _ I) as Hlen.
  pose proof (inv_closed _ _ _ I) as Hcl.
  pose proof (chains_from_count _ _ _ _ (inv_chains _ _ _ I)) as Hcnt.
  pose proof (inv_count _ _ _ I) as Hcc.
  split; [exact Hlen|]. split; [lia|].
  intros i k Hk.
  destruct (Nat.lt_ge_cases i closed) as [Hi|Hi].
  - destruct (chains_from_node _ _ _ _ (inv_chains _ _ _ I) i k
                ltac:(lia) Hk) as [(H & _)|(H1 & H2)];
      [left; exact H | right; split; [exact H1 | lia]].
  - rewrite (inv_open _ _ _ I i k Hi Hk).
    destruct (S i <? commandCount b)%nat eqn:E; [|left; reflexivity].
    apply Nat.ltb_lt in E. right. split; [reflexivity | exact E].
Qed.

(** ** Blank lines and simple commands *)

(** X7.  A line of whitespace only builds nothing and runs nothing: no
    node, no chain, no diagnostic, and [main] starts no program. *)
Theorem blank_line_does_nothing (sys_open : list ascii -> Z -> Z)
        (exit_code : nat -> Z) (indeterminate : Z) (ws : list ascii) :
  Forall (fun ch => ISWHITESPACE ch = true) ws ->
  exists b,
    buildCommandChains sys_open ws = Some b /\
    chains b = [] /\ commandCount b = 0%nat /\ chainCount b = 0 /\
    stderr b = [] /\
    run_line sys_open exit_code indeterminate ws = Some (Returned (0, [], [])).
Proof.
  intros Hws.
  pose proof (processArgs_words ws [] [] zero_buffer 0 null_arglist 0
                Hws (Forall_nil _) (Forall_nil _)) as Hlex.
  cbv zeta in Hlex. cbn [spaced app map] in Hlex. rewrite app_nil_r in Hlex.
  assert (Hb : exists b, buildCommandChains sys_open ws = Some b /\
                         chains b = [] /\ commandCount b = 0%nat /\
                         chainCount b = 0 /\ stderr b = [] /\
                         b_argBuffer b = zero_buffer /\
                         b_argList b = null_arglist).
  { unfold buildCommandChains. cbn [build_loop]. unfold build_round.
    cbn [build_init getFd]. unfold command_round, call_lexer.
    cbn [build_init inputPos b_argBuffer argCharsTotal b_argList argTotal
         Z.to_nat skipn].
    rewrite Hlex. cbn. eexists. split; [reflexivity|].
    repeat split; reflexivity. }
  destruct Hb as (b & Hb & H1 & H2 & H3 & H4 & _ & _).
  exists b. repeat split; try assumption.
  unfold run_line. rewrite Hb. cbn [bind]. rewrite H3. reflexivity.
Qed.

Lemma blank_line_does_nothing_witness :
  exists b,
    buildCommandChains (fun _ _ => 3) (line "  ") = Some b /\
    chains b = [] /\ commandCount b = 0%nat /\ chainCount b = 0 /\
    stderr b = [] /\
    run_line (fun _ _ => 3) (fun _ => 0) 0 (line "  ")
    = Some (Returned (0, [], [])).
Proof.
  apply (blank_line_does_nothing (fun _ _ => 3) (fun _ => 0) 0 (line "  ")).
  repeat constructor.
Defined.

Lemma argv_at_terminated (buf : buffer) (l : arglist) :
  forall (n : nat) (i : Z) (ws : list (list ascii)),
    argv_at n buf l i = ws -> length ws = n ->
    l (i + Z.of_nat n) = None ->
    argv_at (S n) buf l i = ws.
Proof.
  induction n as [|n IH]; intros i ws H Hl Hnone.
  - cbn [argv_at] in *. rewrite Z.add_0_r in Hnone. rewrite Hnone.
    exact H.
  - cbn [argv_at] in H. change (argv_at (S (S n)) buf l i)
      with (match l i with
            | None => []
            | Some p => cstring_at MAX_INPUT_LEN buf p
                        :: argv_at (S n) buf l (i + 1)
            end).
    destruct (l i) as [p|]; [|subst; discriminate Hl].
    destruct ws as [|w ws]; [discriminate H|].
    pose proof (f_equal (hd []) H) as Hw.
    pose proof (f_equal (@tl _) H) as Hws. cbn [hd tl] in Hw, Hws.
    rewrite Hw. f_equal. apply IH.
    + exact Hws.
    + cbn [length] in Hl. lia.
    + rewrite <- Hnone. f_equal. lia.
Qed.

(** The state the builder ends in on a line of words. *)
Lemma build_simple_command (sys_open : list ascii -> Z -> Z)
      (g0 : list ascii) (p : list ascii * list ascii)
      (wgs : list (list ascii * list ascii)) :
  Forall (fun ch => ISWHITESPACE ch = true) g0 ->
  Forall (fun p => word (fst p) /\ gap (snd p)) (p :: wgs) ->
  let ws := map fst (p :: wgs) in
  let input := g0 ++ spaced (p :: wgs) in
  buildCommandChains sys_open input =
  Some (mkBuild (Z.of_nat (length ws)) (Z.of_nat (length ws) + 1)
                (words_size ws) (words_size ws)
                (Z.of_nat (length input) + 1) SR_DONE 1 1 false None 0
                (Some 0%nat) None
                (fst (store_words 0 0 ws 0 0 zero_buffer null_arglist))
                (snd (store_words 0 0 ws 0 0 zero_buffer null_arglist))
                [mkCommand 0 STDIN_FILENO STDOUT_FILENO
                           false false false false None]
                []).
Proof.
  intros Hg0 Hw ws input.
  pose proof (processArgs_words g0 [] (p :: wgs) zero_buffer 0 null_arglist 0
                Hg0 Hw (Forall_nil _)) as Hlex.
  cbv zeta in Hlex. rewrite !app_nil_r in Hlex. fold ws in Hlex.
  fold input in Hlex.
  unfold buildCommandChains. cbn [build_loop]. unfold build_round.
  cbn [build_init getFd]. unfold command_round, call_lexer.
  cbn [build_init inputPos b_argBuffer argCharsTotal b_argList argTotal
       Z.to_nat skipn].
  rewrite Hlex. cbn [bind after_lex stopReason r_stopReason continueLast
                     b_argCount r_argCount].
  change (stop_reason_eqb SR_DONE SR_ERROR) with false.
  cbn [andb negb length]. rewrite Nat2Z.inj_succ.
  replace (Z.succ (Z.of_nat (length wgs)) =? 0) with false
    by (symmetry; apply Z.eqb_neq; lia).
  cbv [react set_continueLast keep_args with_new_command new_command
       after_lex build_init bind negb andb close_chain
       b_argCount argTotal b_argChars argCharsTotal inputPos stopReason
       chainCount commandCount continueLast getFd oflags com lastCom
       b_argBuffer b_argList chains stderr
       r_processed r_argChars r_argBuffer r_argCount r_argList r_stopReason
       app].
  change (stop_reason_eqb SR_DONE SR_DONE) with true. cbv iota.
  assert (Hl : Z.of_nat (length ws) = Z.succ (Z.of_nat (length wgs))).
  { unfold ws. cbn [map length]. rewrite length_map.
    apply Nat2Z.inj_succ. }
  rewrite Hl, !Z.add_0_l. reflexivity.
Qed.

Lemma argv_at_head (buf : buffer) (l : arglist) (n : nat) (i : Z)
      (w : list ascii) (ws : list (list ascii)) :
  argv_at n buf l i = w :: ws ->
  option_map (cstring_at MAX_INPUT_LEN buf) (l i) = Some w.
Proof.
  destruct n as [|n]; cbn [argv_at]; [discriminate|].
  destruct (l i) as [q|]; [|discriminate].
  intros H. pose proof (f_equal (hd []) H) as Hw. cbn [hd] in Hw.
  cbn [option_map]. rewrite Hw. reflexivity.
Qed.

(** X8.  A line of words only is one command: the builder makes one chain
    of one node with the standard descriptors, no flag and no successor,
    whose argument vector is the words followed by the terminating null
    cell, and reports nothing.  [main] then starts exactly that node,
    unless its first word is [exit], which ends the interpreter with code
    0 before any program is started. *)
Theorem simple_command_is_one_node (sys_open : list ascii -> Z -> Z)
        (exit_code : nat -> Z) (indeterminate : Z)
        (g0 : list ascii) (p : list ascii * list ascii)
        (wgs : list (list ascii * list ascii)) :
  Forall (fun ch => ISWHITESPACE ch = true) g0 ->
  Forall (fun p => word (fst p) /\ gap (snd p)) (p :: wgs) ->
  Forall (fun p => (length (fst p) < MAX_INPUT_LEN)%nat) (p :: wgs) ->
  exists b k,
    buildCommandChains sys_open (g0 ++ spaced (p :: wgs)) = Some b /\
    chains b = [k] /\ chainCount b = 1 /\ stderr b = [] /\
    fdIn k = STDIN_FILENO /\ fdOut k = STDOUT_FILENO /\
    piped k = false /\ background k = false /\
    stopOnFailure k = false /\ stopOnSuccess k = false /\ next k = None /\
    argv_at (S (length (p :: wgs))) (b_argBuffer b) (b_argList b)
            (cmd_argList k) = map fst (p :: wgs) /\
    run_line sys_open exit_code indeterminate (g0 ++ spaced (p :: wgs)) =
    Some (if list_ascii_eqb (fst p) exit_word then Exited 0
          else Returned (1, [1], [0%nat])).
Proof.
  intros Hg0 Hw Hshort.
  pose proof (build_simple_command sys_open g0 p wgs Hg0 Hw) as Hb.
  cbv zeta in Hb.
  pose proof (store_words_read0 0 0 (map fst (p :: wgs)) zero_buffer
                null_arglist (fun _ _ => eq_refl)
                (words_readable _ Hw Hshort)) as Hread.
  destruct (store_words_beyond 0 0 (map fst (p :: wgs)) 0 0 zero_buffer
              null_arglist ltac:(lia)) as (_ & Hbeyond).
  do 2 eexists. split; [exact Hb|].
  cbn [chains chainCount stderr fdIn fdOut piped background stopOnFailure
       stopOnSuccess next b_argBuffer b_argList cmd_argList].
  do 10 (split; [reflexivity|]).
  split.
  - rewrite <- (length_map fst (p :: wgs)).
    apply argv_at_terminated; [exact Hread | reflexivity |].
    cbn [cmd_argList]. rewrite Hbeyond by lia. reflexivity.
  - unfold run_line. rewrite Hb.
    cbn [bind chains chainCount b_argBuffer b_argList].
    change (Z.to_nat 1) with 1%nat. cbn [run_chains].
    change (Z.to_nat 0) with 0%nat.
    unfold executeCommandChain. cbn [length chain_loop chain].
    unfold chain_round. cbn [nth_error bind stopped Z.eqb piped].
    unfold executeSingleCommand. cbn [nth_error bind].
    unfold program_name. cbn [cmd_argList].
    pose proof (argv_at_head _ _ _ _ (fst p) (map fst wgs) Hread) as Hname.
    rewrite Hname. cbn [bind].
    destruct (list_ascii_eqb (fst p) exit_word); [reflexivity|].
    cbn. reflexivity.
Qed.

Lemma simple_command_is_one_node_witness :
  let p := (list_ascii_of_string "ls", [" "%char]) in
  let wgs := [(list_ascii_of_string "-l", ["010"%char])] in
  exists b k,
    buildCommandChains (fun _ _ => 3) ([] ++ spaced (p :: wgs)) = Some b /\
    chains b = [k] /\ chainCount b = 1 /\ stderr b = [] /\
    fdIn k = STDIN_FILENO /\ fdOut k = STDOUT_FILENO /\
    piped k = false /\ background k = false /\
    stopOnFailure k = false /\ stopOnSuccess k = false /\ next k = None /\
    argv_at (S (length (p :: wgs))) (b_argBuffer b) (b_argList b)
            (cmd_argList k) = map fst (p :: wgs) /\
    run_line (fun _ _ => 3) (fun _ => 0) 7 ([] ++ spaced (p :: wgs)) =
    Some (if list_ascii_eqb (fst p) exit_word then Exited 0
          else Returned (1, [1], [0%nat])).
Proof.
  apply (simple_command_is_one_node (fun _ _ => 3) (fun _ => 0) 7 []
           (list_ascii_of_string "ls", [" "%char])
           [(list_ascii_of_string "-l", ["010"%char])]).
  - constructor.
  - repeat constructor; cbn; try discriminate;
      unfold plain_char; cbn; repeat split; discriminate.
  - repeat constructor; cbn; lia.
Defined.

(** * Further properties of the executor *)

Section ExecutorOutcomes.

Variable argBuf : buffer.
Variable argLst : arglist.
Variable commands : list command_t.
Variable exit_code : nat -> Z.
Variable indeterminate : Z.

(** What [executeSingleCommand] gives for a node that names a program. *)
Lemma single_outcome (i : nat) (k : command_t) :
  nth_error commands i = Some k ->
  program_name argBuf argLst k <> None ->
  executeSingleCommand argBuf argLst commands exit_code i =
  Some (if is_exit argBuf argLst k then (Exited 0, [])
        else (Returned (exit_code i mod 256), [i])).
Proof.
  intros Hk Hn. unfold executeSingleCommand, is_exit. rewrite Hk. cbn [bind].
  destruct (program_name argBuf argLst k) as [name|]; [|congruence].
  cbn [bind]. destruct (list_ascii_eqb name exit_word); [reflexivity|].
  rewrite WEXITSTATUS_wait_status. reflexivity.
Qed.

(** The pipeline launcher on a chain whose nodes name programs: it comes
    back, whatever the stages are, and starts programs for nodes of the
    chain only. *)
Lemma piped_outcome (i m : nat) :
  chain_from commands i m ->
  (forall k, In k commands -> program_name argBuf argLst k <> None) ->
  forall fuel k, (m <= fuel)%nat -> nth_error commands i = Some k ->
  exists o t,
    executePipedCommands argBuf argLst commands exit_code fuel i (next k) =
    Some (o, t) /\
    (forall j, In j t -> (i <= j < i + m)%nat) /\
    (piped k = true ->
     o = Returned (if is_exit argBuf argLst k then 0
                   else exit_code i mod 256)) /\
    (is_exit argBuf argLst k = false -> In i t).
Proof.
  intros Hc Hname.
  induction Hc as [i k0 Hk0 Hn Hp|i k0 n Hk0 Hn Hc IH]; intros fuel k Hf Hk;
    (assert (k0 = k) by congruence); subst k0;
    (destruct fuel as [|f]; [lia|]); cbn [executePipedCommands];
    rewrite Hk; cbn [bind];
    pose proof (single_outcome i k Hk (Hname k (nth_error_In _ _ Hk))) as Hs.
  - rewrite Hp, Hs. destruct (is_exit argBuf argLst k).
    + do 2 eexists. split; [reflexivity|].
      split; [intros j []|]. split; [discriminate|discriminate].
    + do 2 eexists. split; [reflexivity|].
      split; [intros j [<-|[]]; lia|]. split; [discriminate|].
      intros _. left. reflexivity.
  - rewrite Hn. destruct (piped k) eqn:Hp.
    + assert (Hr : exists rn, nth_error commands (S i) = Some rn).
      { inversion Hc; eauto. }
      destruct Hr as (rn & Hrn). rewrite Hrn. cbn [bind].
      destruct (IH f rn ltac:(lia) Hrn) as (o & t & Hv & Ht & _).
      rewrite Hv. cbn [bind]. rewrite Hs.
      destruct (is_exit argBuf argLst k); cbn [bind fst snd code_of];
        rewrite WEXITSTATUS_twice, WEXITSTATUS_wait_status, Z.add_0_r.
      * do 2 eexists. split; [reflexivity|]. rewrite app_nil_r.
        split; [intros j Hj; apply Ht in Hj; lia|].
        split; [intros _; reflexivity | discriminate].
      * do 2 eexists. split; [reflexivity|].
        split.
        { intros j Hj. apply in_app_or in Hj. destruct Hj as [Hj|[<-|[]]];
            [apply Ht in Hj; lia | lia]. }
        split; [intros _; rewrite Z.mod_mod by lia; reflexivity|].
        intros _. apply in_or_app. right. left. reflexivity.
    + rewrite Hs. destruct (is_exit argBuf argLst k).
      * do 2 eexists. split; [reflexivity|].
        split; [intros j []|]. split; [discriminate|discriminate].
      * do 2 eexists. split; [reflexivity|].
        split; [intros j [<-|[]]; lia|]. split; [discriminate|].
        intros _. left. reflexivity.
Qed.

(** The rounds of the loop of [executeCommandChain] once [stopped] is set:
    they count the nodes that are left and do nothing else. *)
Lemma chain_loop_stopped (j m : nat) :
  chain_from commands j m ->
  forall (fuel : nat) (st : exec_state),
    stopped st <> 0 -> chain st = Some j -> (m < fuel)%nat ->
    chain_loop argBuf argLst commands exit_code fuel st =
    Some (Returned (mkExec None (status st) (allStatus st) (stopped st)
                           (e_commandCount st + Z.of_nat m) (launched st))).
Proof.
  induction 1 as [j k Hk Hn Hp|j k n Hk Hn Hc IH]; intros fuel st Hs Hch Hf;
    (destruct fuel as [|f]; [lia|]); cbn [chain_loop]; rewrite Hch;
    unfold chain_round; rewrite Hk; cbn [bind];
    apply Z.eqb_neq in Hs; rewrite Hs; cbn [bind]; rewrite Hn.
  - destruct f as [|f]; [lia|]. cbn [chain_loop chain]. reflexivity.
  - rewrite (IH f _); cbn [stopped chain status allStatus e_commandCount
                           launched]; try (apply Z.eqb_neq; exact Hs);
      try reflexivity; try lia.
    do 3 f_equal. rewrite Nat2Z.inj_succ. lia.
Qed.

(** The first round of [executeCommandChain] on a node that is not piped
    and does not name [exit]. *)
Lemma first_round (i : nat) (k : command_t) (already : list nat) :
  nth_error commands i = Some k ->
  piped k = false ->
  program_name argBuf argLst k <> None ->
  is_exit argBuf argLst k = false ->
  let st := exit_code i mod 256 in
  executeCommandChain argBuf argLst commands exit_code indeterminate i already =
  chain_loop argBuf argLst commands exit_code (length commands)
    (mkExec (next k) st (fst (combine k st indeterminate 0))
            (snd (combine k st indeterminate 0)) 1 (already ++ [i])).
Proof.
  intros Hk Hp Hn He st. unfold executeCommandChain.
  cbn [chain_loop chain]. unfold chain_round. rewrite Hk.
  cbn [bind stopped Z.eqb]. rewrite Hp.
  rewrite (single_outcome i k Hk Hn), He. cbn [bind fst snd].
  unfold commandCount_is_null. rewrite Hk. cbn [bind allStatus launched
                                                 e_commandCount].
  fold st. destruct (combine k st indeterminate 0) as [a b]. reflexivity.
Qed.

(** The flag [stopped] that lines 401-411 set does not depend on the
    sum at hand. *)
Lemma combine_stopped (k : command_t) (st a b s : Z) :
  snd (combine k st a s) = snd (combine k st b s).
Proof.
  unfold combine. destruct (stopOnFailure k); [reflexivity|].
  destruct (stopOnSuccess k); reflexivity.
Qed.

(** One round of the loop on a node that is not piped and does not name
    [exit], while [stopped] is not set. *)
Lemma chain_round_single (fuel i : nat) (k : command_t) (s : exec_state) :
  nth_error commands i = Some k ->
  piped k = false ->
  program_name argBuf argLst k <> None ->
  is_exit argBuf argLst k = false ->
  stopped s = 0 ->
  let st := exit_code i mod 256 in
  chain_round argBuf argLst commands exit_code fuel i s =
  Some (Returned (mkExec (next k) st (fst (combine k st (allStatus s) 0))
                         (snd (combine k st (allStatus s) 0))
                         (e_commandCount s + 1) (launched s ++ [i]))).
Proof.
  intros Hk Hp Hn He Hs st. unfold chain_round. rewrite Hk.
  cbn [bind]. rewrite Hs. cbn [Z.eqb]. rewrite Hp.
  rewrite (single_outcome i k Hk Hn), He. cbn [bind fst snd].
  unfold commandCount_is_null. rewrite Hk. cbn [bind].
  fold st. destruct (combine k st (allStatus s) 0) as [a b]. reflexivity.
Qed.

(** The loop on a chain none of whose nodes stops it. *)
Lemma chain_loop_runs (i m : nat) :
  chain_from commands i m ->
  (forall j k, (i <= j < i + m)%nat -> nth_error commands j = Some k ->
     piped k = false /\ program_name argBuf argLst k <> None /\
     is_exit argBuf argLst k = false /\
     snd (combine k (exit_code j mod 256) 0 0) = 0) ->
  forall (fuel : nat) (st : exec_state),
    stopped st = 0 -> chain st = Some i -> (m < fuel)%nat ->
    exists s,
      chain_loop argBuf argLst commands exit_code fuel st = Some (Returned s) /\
      launched s = launched st ++ seq i m /\
      e_commandCount s = e_commandCount st + Z.of_nat m /\
      stopped s = 0.
Proof.
  induction 1 as [i k Hk Hn Hp|i k n Hk Hn Hc IH]; intros Hall fuel st Hs Hch Hf;
    (destruct fuel as [|f]; [lia|]); cbn [chain_loop]; rewrite Hch;
    destruct (Hall i k ltac:(lia) Hk) as (Hp' & Hnm & He & Hst);
    rewrite (chain_round_single _ i k st Hk Hp' Hnm He Hs); cbn [bind];
    rewrite (combine_stopped k _ (allStatus st) 0 0), Hst, Hn.
  - destruct f as [|f]; [lia|]. cbn [chain_loop chain].
    eexists. split; [reflexivity|].
    cbn [launched e_commandCount stopped seq Z.of_nat Pos.of_succ_nat].
    repeat split; reflexivity.
  - destruct (IH ltac:(intros j kj Hj; apply Hall; lia) f
                (mkExec (Some (S i)) (exit_code i mod 256)
                   (fst (combine k (exit_code i mod 256) (allStatus st) 0))
                   0 (e_commandCount st + 1) (launched st ++ [i]))
                eq_refl eq_refl ltac:(lia))
      as (s & Hl & Hla & Hcnt & Hstop).
    exists s. split; [exact Hl|].
    cbn [launched e_commandCount] in Hla, Hcnt.
    split; [rewrite Hla, <- app_assoc; reflexivity|].
    split; [rewrite Hcnt, Nat2Z.inj_succ; lia | exact Hstop].
Qed.

End ExecutorOutcomes.

(** ** Pipelines *)

(** X9.  A pipeline whose nodes name programs comes back to the
    interpreter whatever its stages are: [exit] as a stage ends a child
    only.  What it returns is the status of its first stage alone, reduced
    to eight bits, and 0 when the first stage is [exit]; programs are
    started for nodes of the chain only, and for the first stage unless it
    is [exit]. *)
Theorem pipeline_returns_first_stage_status
        (buf : buffer) (lst : arglist) (commands : list command_t)
        (exit_code : nat -> Z) (fuel i m : nat) (k : command_t) :
  (forall k, In k commands -> program_name buf lst k <> None) ->
  chain_from commands i m ->
  nth_error commands i = Some k -> piped k = true ->
  (m <= fuel)%nat ->
  exists t,
    executePipedCommands buf lst commands exit_code fuel i (next k) =
    Some (Returned (if is_exit buf lst k then 0 else exit_code i mod 256), t) /\
    (forall j, In j t -> (i <= j < i + m)%nat) /\
    (is_exit buf lst k = false -> In i t).
Proof.
  intros Hname Hc Hk Hp Hf.
  destruct (piped_outcome buf lst commands exit_code i m Hc Hname fuel k Hf Hk)
    as (o & t & Hv & Ht & Ho & Hi).
  exists t. rewrite Hv, (Ho Hp). repeat split; try assumption; apply Ht; assumption.
Qed.

Lemma pipeline_returns_first_stage_status_witness :
  let buf := fst (fst (built "false | exit | true")) in
  let lst := snd (fst (built "false | exit | true")) in
  let commands := snd (built "false | exit | true") in
  exists k t,
    nth_error commands 0 = Some k /\
    executePipedCommands buf lst commands (fun _ => 257) 3 0 (next k) =
    Some (Returned (if is_exit buf lst k then 0 else 257 mod 256), t) /\
    (forall j, In j t -> (0 <= j < 0 + 3)%nat) /\
    (is_exit buf lst k = false -> In 0%nat t).
Proof.
  intros buf lst commands.
  pose (c0 := mkCommand 0 0 1 true false true false (Some 1%nat)).
  pose (c1 := mkCommand 2 0 1 true false true false (Some 2%nat)).
  pose (c2 := mkCommand 4 0 1 false false false false None).
  assert (Hcmd : commands = [c0; c1; c2]) by (vm_compute; reflexivity).
  assert (Hm0 : program_name buf lst c0 <> None) by (vm_compute; discriminate).
  assert (Hm1 : program_name buf lst c1 <> None) by (vm_compute; discriminate).
  assert (Hm2 : program_name buf lst c2 <> None) by (vm_compute; discriminate).
  assert (Hk : nth_error commands 0 = Some c0) by (rewrite Hcmd; reflexivity).
  assert (Hname : forall k', In k' commands ->
                               program_name buf lst k' <> None).
  { intros k' Hin. rewrite Hcmd in Hin.
    destruct Hin as [<-|[<-|[<-|[]]]]; assumption. }
  assert (Hc : chain_from commands 0 3).
  { rewrite Hcmd.
    apply chain_cons with (k := c0); [reflexivity | reflexivity |].
    apply chain_cons with (k := c1); [reflexivity | reflexivity |].
    apply chain_last with (k := c2); reflexivity. }
  pose proof (pipeline_returns_first_stage_status buf lst commands
                (fun _ => 257) 3 0 3 c0 Hname Hc Hk eq_refl (le_n 3)) as H.
  destruct H as (t & H).
  exists c0, t. split; [exact Hk | exact H].
Defined.

(** ** Short circuits *)

(** X10.  A command in front of [&&] that fails ends its chain: no program
    is started for any node behind it, whatever those nodes are; the
    remaining nodes are only counted, and the value returned is the
    initial [allStatus] plus the status. *)
Theorem failed_command_before_and_ends_chain
        (buf : buffer) (lst : arglist) (commands : list command_t)
        (exit_code : nat -> Z) (indeterminate : Z) (i m : nat)
        (k : command_t) (already : list nat) :
  nth_error commands i = Some k ->
  piped k = false -> stopOnFailure k = true ->
  program_name buf lst k <> None -> is_exit buf lst k = false ->
  next k = Some (S i) -> chain_from commands (S i) m ->
  exit_code i mod 256 <> 0 ->
  exists s,
    executeCommandChain buf lst commands exit_code indeterminate i already =
    Some (Returned s) /\
    launched s = already ++ [i] /\
    e_commandCount s = Z.of_nat (S m) /\
    allStatus s = indeterminate + exit_code i mod 256.
Proof.
  intros Hk Hp Hsf Hn He Hnx Hc Hst.
  rewrite (first_round buf lst commands exit_code indeterminate i k already
             Hk Hp Hn He). cbv zeta.
  unfold combine. rewrite Hsf, Hnx. cbn [fst snd].
  pose proof (chain_from_bound _ _ _ Hc) as Hb.
  rewrite (chain_loop_stopped buf lst commands exit_code (S i) m Hc);
    cbn [stopped chain]; try assumption; try reflexivity; try lia.
  eexists. split; [reflexivity|].
  cbn [launched e_commandCount allStatus status].
  pose proof (Z.mod_pos_bound (exit_code i) 256 ltac:(lia)).
  repeat split; [rewrite Nat2Z.inj_succ; lia | rewrite Z.abs_eq; lia].
Qed.

Lemma failed_command_before_and_ends_chain_witness :
  let buf := fst (fst (built "false && exit && rm")) in
  let lst := snd (fst (built "false && exit && rm")) in
  let commands := snd (built "false && exit && rm") in
  exists s,
    executeCommandChain buf lst commands (fun _ => 1) 5 0 [] =
    Some (Returned s) /\
    launched s = [] ++ [0%nat] /\
    e_commandCount s = Z.of_nat 3 /\
    allStatus s = 5 + 1 mod 256.
Proof.
  intros buf lst commands.
  pose (c0 := mkCommand 0 0 1 true false false false (Some 1%nat)).
  pose (c1 := mkCommand 2 0 1 true false false false (Some 2%nat)).
  pose (c2 := mkCommand 4 0 1 false false false false None).
  assert (Hcmd : commands = [c0; c1; c2]) by (vm_compute; reflexivity).
  assert (Hm0 : program_name buf lst c0 <> None) by (vm_compute; discriminate).
  assert (He : is_exit buf lst c0 = false) by (vm_compute; reflexivity).
  assert (Hk : nth_error commands 0 = Some c0) by (rewrite Hcmd; reflexivity).
  assert (Hc : chain_from commands 1 2).
  { rewrite Hcmd.
    apply chain_cons with (k := c1); [reflexivity | reflexivity |].
    apply chain_last with (k := c2); reflexivity. }
  assert (Hst : (fun _ : nat => 1) 0%nat mod 256 <> 0)
    by (vm_compute; discriminate).
  exact (failed_command_before_and_ends_chain buf lst commands (fun _ => 1) 5
           0 2 c0 [] Hk eq_refl eq_refl Hm0 He eq_refl Hc Hst).
Defined.

(** X11.  A command in front of [||] that succeeds ends its chain: no
    program is started for any node behind it, the remaining nodes are
    only counted, and the value returned is 0 whatever [allStatus] held
    at the start. *)
Theorem succeeded_command_before_or_ends_chain
        (buf : buffer) (lst : arglist) (commands : list command_t)
        (exit_code : nat -> Z) (indeterminate : Z) (i m : nat)
        (k : command_t) (already : list nat) :
  nth_error commands i = Some k ->
  piped k = false -> stopOnFailure k = false -> stopOnSuccess k = true ->
  program_name buf lst k <> None -> is_exit buf lst k = false ->
  next k = Some (S i) -> chain_from commands (S i) m ->
  exit_code i mod 256 = 0 ->
  exists s,
    executeCommandChain buf lst commands exit_code indeterminate i already =
    Some (Returned s) /\
    launched s = already ++ [i] /\
    e_commandCount s = Z.of_nat (S m) /\
    allStatus s = 0.
Proof.
  intros Hk Hp Hsf Hss Hn He Hnx Hc Hst.
  rewrite (first_round buf lst commands exit_code indeterminate i k already
             Hk Hp Hn He). cbv zeta.
  unfold combine. rewrite Hsf, Hss, Hnx, Hst. cbn [fst snd Z.eqb].
  pose proof (chain_from_bound _ _ _ Hc) as Hb.
  rewrite (chain_loop_stopped buf lst commands exit_code (S i) m Hc);
    cbn [stopped chain]; try reflexivity; try lia.
  eexists. split; [reflexivity|].
  cbn [launched e_commandCount allStatus status].
  repeat split; [rewrite Nat2Z.inj_succ; lia | lia].
Qed.

Lemma succeeded_command_before_or_ends_chain_witness :
  let buf := fst (fst (built "true || exit")) in
  let lst := snd (fst (built "true || exit")) in
  let commands := snd (built "true || exit") in
  exists s,
    executeCommandChain buf lst commands (fun _ => 0) 5 0 [] =
    Some (Returned s) /\
    launched s = [] ++ [0%nat] /\
    e_commandCount s = Z.of_nat 2 /\
    allStatus s = 0.
Proof.
  intros buf lst commands.
  pose (c0 := mkCommand 0 0 1 false true false false (Some 1%nat)).
  pose (c1 := mkCommand 2 0 1 false false false false None).
  assert (Hcmd : commands = [c0; c1]) by (vm_compute; reflexivity).
  assert (Hm0 : program_name buf lst c0 <> None) by (vm_compute; discriminate).
  assert (He : is_exit buf lst c0 = false) by (vm_compute; reflexivity).
  assert (Hk : nth_error commands 0 = Some c0) by (rewrite Hcmd; reflexivity).
  assert (Hc : chain_from commands 1 1).
  { rewrite Hcmd. apply chain_last with (k := c1); reflexivity. }
  exact (succeeded_command_before_or_ends_chain buf lst commands (fun _ => 0) 5
           0 1 c0 [] Hk eq_refl eq_refl eq_refl Hm0 He eq_refl Hc eq_refl).
Defined.

(** X12.  A chain of commands that are not piped, none of which is [exit]
    and none of which stops the chain (a failure in front of [&&], a
    success in front of [||]): a program is started for every node, in
    the order of the chain, every node is counted and [stopped] is not
    set at the end. *)
Theorem chain_runs_while_no_node_stops
        (buf : buffer) (lst : arglist) (commands : list command_t)
        (exit_code : nat -> Z) (indeterminate : Z) (i m : nat)
        (already : list nat) :
  chain_from commands i m ->
  (forall j k, (i <= j < i + m)%nat -> nth_error commands j = Some k ->
     piped k = false /\ program_name buf lst k <> None /\
     is_exit buf lst k = false /\
     snd (combine k (exit_code j mod 256) 0 0) = 0) ->
  exists s,
    executeCommandChain buf lst commands exit_code indeterminate i already =
    Some (Returned s) /\
    launched s = already ++ seq i m /\
    e_commandCount s = Z.of_nat m /\
    stopped s = 0.
Proof.
  intros Hc Hall. unfold executeCommandChain.
  pose proof (chain_from_bound _ _ _ Hc) as Hb.
  destruct (chain_loop_runs buf lst commands exit_code i m Hc Hall
              (S (length commands))
              (mkExec (Some i) 0 indeterminate 0 0 already)
              eq_refl eq_refl ltac:(lia)) as (s & Hl & Hla & Hcnt & Hs).
  exists s. repeat split; assumption.
Qed.

Lemma chain_runs_while_no_node_stops_witness :
  let buf := fst (fst (built "true && false || echo hi")) in
  let lst := snd (fst (built "true && false || echo hi")) in
  let commands := snd (built "true && false || echo hi") in
  exists s,
    executeCommandChain buf lst commands
      (fun j => if Nat.eqb j 1 then 1 else 0) 5 0 [] = Some (Returned s) /\
    launched s = [] ++ seq 0 3 /\
    e_commandCount s = Z.of_nat 3 /\
    stopped s = 0.
Proof.
  intros buf lst commands.
  pose (exit_code := fun j : nat => if Nat.eqb j 1 then 1 else 0).
  pose (ok := fun (j : nat) (c : command_t) =>
                piped c = false /\ program_name buf lst c <> None /\
                is_exit buf lst c = false /\
                snd (combine c (exit_code j mod 256) 0 0) = 0).
  pose (c0 := mkCommand 0 0 1 true false false false (Some 1%nat)).
  pose (c1 := mkCommand 2 0 1 false true false false (Some 2%nat)).
  pose (c2 := mkCommand 4 0 1 false false false false None).
  assert (Hcmd : commands = [c0; c1; c2]) by (vm_compute; reflexivity).
  assert (H0 : ok 0%nat c0).
  { split; [reflexivity|]. split; [vm_compute; discriminate|].
    split; [vm_compute; reflexivity | reflexivity]. }
  assert (H1 : ok 1%nat c1).
  { split; [reflexivity|]. split; [vm_compute; discriminate|].
    split; [vm_compute; reflexivity | reflexivity]. }
  assert (H2 : ok 2%nat c2).
  { split; [reflexivity|]. split; [vm_compute; discriminate|].
    split; [vm_compute; reflexivity | reflexivity]. }
  assert (Hc : chain_from commands 0 3).
  { rewrite Hcmd.
    apply chain_cons with (k := c0); [reflexivity | reflexivity |].
    apply chain_cons with (k := c1); [reflexivity | reflexivity |].
    apply chain_last with (k := c2); reflexivity. }
  assert (Hall : forall j k, (0 <= j < 0 + 3)%nat ->
                             nth_error commands j = Some k -> ok j k).
  { intros j k Hj Hk. rewrite Hcmd in Hk.
    destruct j as [|[|[|j]]]; cbn [nth_error] in Hk; try lia;
      injection Hk as <-; assumption. }
  exact (chain_runs_while_no_node_stops buf lst commands exit_code 5 0 3 []
           Hc Hall).
Defined.

(** * Lines of commands joined by connectors *)

(** ** Lists of nodes *)

Lemma update_at_app_last (f : command_t -> command_t) (k : command_t) :
  forall cs, update_at (length cs) f (cs ++ [k]) = cs ++ [f k].
Proof.
  induction cs as [|c cs IH]; cbn [length app update_at]; [reflexivity|].
  rewrite IH. reflexivity.
Qed.

Lemma update_at_app_front (f : command_t -> command_t) (t : list command_t) :
  forall cs i, (i < length cs)%nat ->
    update_at i f (cs ++ t) = update_at i f cs ++ t.
Proof.
  induction cs as [|c cs IH]; intros [|i] H; cbn [length] in H; try lia;
    cbn [app update_at]; [reflexivity|].
  rewrite IH by lia. reflexivity.
Qed.

Lemma nodes_of_length (cmds : list (list (list ascii) * stop_reason)) :
  forall idx a, length (nodes_of cmds idx a) = length cmds.
Proof.
  induction cmds as [|[ws op] cmds IH]; intros idx a; cbn [nodes_of length];
    [reflexivity|]. rewrite IH. reflexivity.
Qed.

Lemma cells_of_nonneg (cmds : list (list (list ascii) * stop_reason)) :
  0 <= cells_of cmds.
Proof. induction cmds as [|[ws op] cmds IH]; cbn [cells_of]; lia. Qed.

Lemma words_size_nonneg (ws : list (list ascii)) : 0 <= words_size ws.
Proof. induction ws as [|w ws IH]; cbn [words_size]; lia. Qed.

Lemma chars_of_nonneg (cmds : list (list (list ascii) * stop_reason)) :
  0 <= chars_of cmds.
Proof.
  induction cmds as [|[ws op] cmds IH]; cbn [chars_of]; [lia|].
  pose proof (words_size_nonneg ws). lia.
Qed.

Lemma nodes_of_snoc (ws : list (list ascii)) (op : stop_reason) :
  forall cmds idx a,
    nodes_of (cmds ++ [(ws, op)]) idx a =
    nodes_of cmds idx a ++ [node_of op (a + cells_of cmds) (idx + length cmds)].
Proof.
  induction cmds as [|[ws0 op0] cmds IH]; intros idx a;
    cbn [app nodes_of cells_of length].
  - rewrite Z.add_0_r, Nat.add_0_r. reflexivity.
  - rewrite IH.
    replace (a + (Z.of_nat (length ws0) + 1) + cells_of cmds)
      with (a + (Z.of_nat (length ws0) + 1 + cells_of cmds)) by lia.
    replace (S idx + length cmds)%nat with (idx + S (length cmds))%nat by lia.
    reflexivity.
Qed.

Lemma cells_of_snoc (ws : list (list ascii)) (op : stop_reason) :
  forall cmds,
    cells_of (cmds ++ [(ws, op)]) = cells_of cmds + (Z.of_nat (length ws) + 1).
Proof.
  induction cmds as [|[ws0 op0] cmds IH]; cbn [app cells_of]; lia.
Qed.

Lemma chars_of_snoc (ws : list (list ascii)) (op : stop_reason) :
  forall cmds, chars_of (cmds ++ [(ws, op)]) = chars_of cmds + words_size ws.
Proof.
  induction cmds as [|[ws0 op0] cmds IH]; cbn [app chars_of]; lia.
Qed.

Lemma chains_of_snoc (ws : list (list ascii)) (op : stop_reason) :
  forall cmds,
    chains_of (cmds ++ [(ws, op)]) =
    chains_of cmds + match op with
                     | SR_SEQ_AND | SR_SEQ_OR | SR_PIPE => 0
                     | _ => 1
                     end.
Proof.
  induction cmds as [|[ws0 op0] cmds IH]; cbn [app chains_of]; [lia|].
  rewrite IH. lia.
Qed.

Lemma store_commands_snoc (ws : list (list ascii)) (op : stop_reason) :
  forall cmds c a buf l,
    store_commands (cmds ++ [(ws, op)]) c a buf l =
    store_words (c + chars_of cmds) (a + cells_of cmds) ws 0 0
                (fst (store_commands cmds c a buf l))
                (snd (store_commands cmds c a buf l)).
Proof.
  induction cmds as [|[ws0 op0] cmds IH]; intros c a buf l;
    cbn [app store_commands chars_of cells_of fst snd].
  - rewrite !Z.add_0_r.
    destruct (store_words c a ws 0 0 buf l); reflexivity.
  - rewrite IH. f_equal; lia.
Qed.

Lemma skipn_consumed (a b : list ascii) :
  skipn (Z.to_nat (Z.of_nat (length a))) (a ++ b) = b.
Proof.
  rewrite Nat2Z.id. induction a as [|x a IH]; [reflexivity | exact IH].
Qed.

(** ** One round of the builder on a command of such a line *)

Lemma with_new_command_chains (s : build_state) :
  (forall j, lastCom s = Some j ->
             S j = commandCount s /\ (j < length (chains s))%nat) ->
  chains (with_new_command s) =
  link_last (lastCom s) (chains s) ++
  [mkCommand (argTotal s) STDIN_FILENO STDOUT_FILENO
             false false false false None] /\
  lastCom (with_new_command s) = lastCom s.
Proof.
  intros H. unfold with_new_command. cbn [new_command lastCom com chains].
  destruct (lastCom s) as [j|] eqn:E;
    cbn [chains set_chains link_last lastCom new_command];
    [|split; [reflexivity | exact E]].
  destruct (H j eq_refl) as (H1 & H2). rewrite <- H1.
  rewrite update_at_app_front by exact H2. split; [reflexivity | exact E].
Qed.

Lemma built_as_length (s : build_state)
      (done : list (list (list ascii) * stop_reason)) :
  built_as s done -> length (chains s) = length done.
Proof.
  intros (_ & _ & _ & _ & _ & _ & _ & Hl & _).
  rewrite <- (nodes_of_length done 0 0), <- Hl.
  unfold link_last. destruct (lastCom s); [rewrite update_at_length|];
    reflexivity.
Qed.

Lemma round_builds_command (sys_open : list ascii -> Z -> Z)
      (input : list ascii) (s : build_state)
      (done : list (list (list ascii) * stop_reason))
      (r : lex_result) (ws : list (list ascii)) :
  built_as s done ->
  processArgs (skipn (Z.to_nat (inputPos s)) input)
              (b_argBuffer s) (argCharsTotal s)
              (b_argList s) (argTotal s) = Some r ->
  ws <> [] ->
  r_argCount r = Z.of_nat (length ws) ->
  r_argChars r = words_size ws ->
  (r_argBuffer r, r_argList r) =
  store_words (argCharsTotal s) (argTotal s) ws 0 0
              (b_argBuffer s) (b_argList s) ->
  connector (r_stopReason r) = true \/ r_stopReason r = SR_DONE ->
  exists s',
    build_round sys_open input s = Some s' /\
    stopReason s' = r_stopReason r /\
    inputPos s' = inputPos s + r_processed r /\
    built_as s' (done ++ [(ws, r_stopReason r)]) /\
    (r_stopReason r = SR_DONE -> lastCom s' = None).
Proof.
  intros B Hlex Hne Hcount Hchars Hstore Hop.
  pose proof (built_as_length s done B) as Hlen.
  destruct B as (Hfd & Hcl & Herr & Hat & Hct & Hcc & Hn & Hlink & Hlast & Harr).
  unfold build_round. rewrite Hfd. unfold command_round, call_lexer.
  rewrite Hlex. cbn [bind].
  set (s1 := after_lex r s).
  assert (Hs1 : stopReason s1 = r_stopReason r) by reflexivity.
  assert (Hc1 : continueLast s1 = false) by exact Hcl.
  assert (Ha1 : b_argCount s1 = Z.of_nat (length ws)) by exact Hcount.
  rewrite Hs1, Hc1, Ha1.
  replace (stop_reason_eqb (r_stopReason r) SR_ERROR) with false
    by (destruct Hop as [Hop|Hop];
        [destruct (r_stopReason r); try discriminate Hop; reflexivity
        | rewrite Hop; reflexivity]).
  replace (Z.of_nat (length ws) =? 0) with false
    by (symmetry; apply Z.eqb_neq; destruct ws; [congruence|];
        cbn [length]; lia).
  cbn [andb negb].
  destruct (with_new_command_chains s1) as (Hch2 & Hlc2).
  { intros j Hj. change (lastCom s1) with (lastCom s) in Hj.
    change (commandCount s1) with (commandCount s).
    change (chains s1) with (chains s).
    pose proof (Hlast j Hj). split; lia. }
  change (lastCom s1) with (lastCom s) in Hch2, Hlc2.
  change (chains s1) with (chains s) in Hch2.
  change (argTotal s1) with (argTotal s) in Hch2.
  rewrite Hlink, Hat in Hch2.
  destruct (with_new_command_fields s1)
    as (F1 & F2 & F3 & F4 & F5 & F6 & F7 & F8 & F9 & F10 & F11 & F12 & F13 &
        F14 & F15).
  set (s2 := with_new_command s1) in *.
  set (new := mkCommand (cells_of done) STDIN_FILENO STDOUT_FILENO
                        false false false false None) in *.
  set (s3 := set_continueLast false (keep_args s2)).
  assert (P1 : getFd s3 = None).
  { change (getFd s3) with (getFd s2). rewrite F4. exact Hfd. }
  assert (P2 : continueLast s3 = false) by reflexivity.
  assert (P3 : stderr s3 = []).
  { change (stderr s3) with (stderr s2). rewrite F12. exact Herr. }
  assert (P4 : argTotal s3 = cells_of (done ++ [(ws, r_stopReason r)])).
  { change (argTotal s3) with (argTotal s2 + (b_argCount s2 + 1)).
    rewrite F6, F7, Ha1, cells_of_snoc. change (argTotal s1) with (argTotal s).
    rewrite Hat. reflexivity. }
  assert (P5 : argCharsTotal s3 = chars_of (done ++ [(ws, r_stopReason r)])).
  { change (argCharsTotal s3) with (argCharsTotal s2 + b_argChars s2).
    rewrite F13, F14, chars_of_snoc.
    change (argCharsTotal s1) with (argCharsTotal s).
    change (b_argChars s1) with (r_argChars r).
    rewrite Hct, Hchars. reflexivity. }
  assert (P6 : commandCount s3 = length (done ++ [(ws, r_stopReason r)])).
  { change (commandCount s3) with (commandCount s2). rewrite F1, length_app.
    change (commandCount s1) with (commandCount s). rewrite Hn.
    cbn [length]. lia. }
  assert (P7 : inputPos s3 = inputPos s + r_processed r).
  { change (inputPos s3) with (inputPos s2). rewrite F9. reflexivity. }
  assert (P8 : (b_argBuffer s3, b_argList s3) =
               store_commands (done ++ [(ws, r_stopReason r)]) 0 0
                              zero_buffer null_arglist).
  { change (b_argBuffer s3) with (b_argBuffer s2).
    change (b_argList s3) with (b_argList s2). rewrite F8, F11.
    change (b_argBuffer s1) with (r_argBuffer r).
    change (b_argList s1) with (r_argList r).
    rewrite store_commands_snoc, <- Harr. cbn [fst snd].
    rewrite !Z.add_0_l, <- Hat, <- Hct. exact Hstore. }
  assert (P9 : chainCount s3 = chains_of done).
  { change (chainCount s3) with (chainCount s2). rewrite F3. exact Hcc. }
  assert (P10 : chains s3 = nodes_of done 0 0 ++ [new]) by exact Hch2.
  assert (P11 : com s3 = Some (length done)).
  { change (com s3) with (com s2). rewrite F2.
    change (commandCount s1) with (commandCount s). rewrite Hn. reflexivity. }
  assert (P12 : stopReason s3 = r_stopReason r).
  { change (stopReason s3) with (stopReason s2). rewrite F10. exact Hs1. }
  clearbody s3. clear F1 F2 F3 F4 F5 F6 F7 F8 F9 F10 F11 F12 F13 F14 F15.
  clear Hch2 Hlc2. clearbody s2. clear Hs1 Hc1 Ha1. clearbody s1.
  assert (Hupd : forall f k,
             update_at (length done) f (nodes_of done 0 0 ++ [k])
             = nodes_of done 0 0 ++ [f k]).
  { intros f k. rewrite <- (nodes_of_length done 0 0) at 1.
    apply update_at_app_last. }
  assert (Hnode : forall op,
             nodes_of (done ++ [(ws, op)]) 0 0 =
             nodes_of done 0 0 ++ [node_of op (cells_of done) (length done)]).
  { intros op. rewrite nodes_of_snoc. reflexivity. }
  assert (Hrest :
    forall s', stopReason s' = r_stopReason r ->
      getFd s' = getFd s3 -> continueLast s' = continueLast s3 ->
      stderr s' = stderr s3 -> argTotal s' = argTotal s3 ->
      argCharsTotal s' = argCharsTotal s3 ->
      commandCount s' = commandCount s3 ->
      inputPos s' = inputPos s3 ->
      b_argBuffer s' = b_argBuffer s3 -> b_argList s' = b_argList s3 ->
      chainCount s' = chains_of (done ++ [(ws, r_stopReason r)]) ->
      link_last (lastCom s') (chains s') =
      nodes_of (done ++ [(ws, r_stopReason r)]) 0 0 ->
      (forall j, lastCom s' = Some j -> j = length done) ->
      (r_stopReason r = SR_DONE -> lastCom s' = None) ->
      stopReason s' = r_stopReason r /\
      inputPos s' = inputPos s + r_processed r /\
      built_as s' (done ++ [(ws, r_stopReason r)]) /\
      (r_stopReason r = SR_DONE -> lastCom s' = None)).
  { intros s' E0 E1 E2 E3 E4 E5 E6 E7 E8 E9 E10 E11 E12 E13.
    split; [exact E0|]. split; [rewrite E7; exact P7|].
    split; [|exact E13].
    unfold built_as. rewrite E1, E2, E3, E4, E5, E6, E8, E9, E10, E11.
    repeat split; try assumption; try reflexivity.
    intros j Hj. rewrite (E12 j Hj), length_app. cbn [length]. lia. }
  unfold react. rewrite P12.
  destruct Hop as [Hop|Hop].
  - destruct (r_stopReason r) eqn:Eop; try discriminate Hop.
    + (* ; *)
      eexists. split; [reflexivity|].
      apply Hrest; try reflexivity; try exact P12.
      * cbn [close_chain chainCount]. rewrite P9, chains_of_snoc. reflexivity.
      * cbn [close_chain lastCom chains link_last]. rewrite P10, Hnode.
        reflexivity.
      * cbn [close_chain lastCom]. discriminate.
    + (* && *)
      unfold on_com. rewrite P11. cbn [bind]. eexists. split; [reflexivity|].
      apply Hrest; try reflexivity; try exact P12.
      * cbn [set_lastCom set_chains chainCount]. rewrite P9, chains_of_snoc.
        lia.
      * cbn [set_lastCom set_chains lastCom chains com]. rewrite P10, P11.
        cbn [link_last]. rewrite !Hupd, Hnode. reflexivity.
      * cbn [set_lastCom set_chains lastCom com]. rewrite P11. congruence.
      * discriminate.
    + (* || *)
      unfold on_com. rewrite P11. cbn [bind]. eexists. split; [reflexivity|].
      apply Hrest; try reflexivity; try exact P12.
      * cbn [set_lastCom set_chains chainCount]. rewrite P9, chains_of_snoc.
        lia.
      * cbn [set_lastCom set_chains lastCom chains com]. rewrite P10, P11.
        cbn [link_last]. rewrite !Hupd, Hnode. reflexivity.
      * cbn [set_lastCom set_chains lastCom com]. rewrite P11. congruence.
      * discriminate.
    + (* | *)
      unfold on_com. rewrite P11. cbn [bind set_chains com]. rewrite P11.
      cbn [bind]. eexists. split; [reflexivity|].
      apply Hrest; try reflexivity; try exact P12.
      * cbn [set_lastCom set_chains chainCount]. rewrite P9, chains_of_snoc.
        lia.
      * cbn [set_lastCom set_chains lastCom chains com]. rewrite P10, P11.
        cbn [link_last]. rewrite !Hupd, Hnode. reflexivity.
      * cbn [set_lastCom set_chains lastCom com]. rewrite P11. congruence.
      * discriminate.
  - rewrite Hop in *. eexists. split; [reflexivity|].
    apply Hrest; try reflexivity; try exact P12.
    * cbn [close_chain chainCount]. rewrite P9, chains_of_snoc. reflexivity.
    * cbn [close_chain lastCom chains link_last]. rewrite P10, Hnode.
      reflexivity.
    * cbn [close_chain lastCom]. discriminate.
Qed.

(** ** The character behind a connector *)

Lemma not_doubled_of (op : stop_reason) (rest : list ascii) :
  ISCONTROLCHAR (hd NUL rest) = false -> not_doubled op rest.
Proof.
  intros H. destruct op; cbn [not_doubled]; try exact I;
    intros E; rewrite E in H; discriminate H.
Qed.

Lemma hd_lead (g x : list ascii) :
  Forall (fun ch => ISWHITESPACE ch = true) g ->
  ISCONTROLCHAR (hd NUL x) = false ->
  ISCONTROLCHAR (hd NUL (g ++ x)) = false.
Proof.
  intros Hg Hx. destruct g as [|ch g]; [exact Hx|].
  inversion Hg as [|? ? Hch _]; subst. cbn [app hd].
  destruct (ISCONTROLCHAR ch) eqn:E; [|reflexivity].
  rewrite (control_not_whitespace ch E) in Hch. discriminate.
Qed.

Lemma hd_word (w y : list ascii) :
  word w -> ISCONTROLCHAR (hd NUL (w ++ y)) = false.
Proof.
  intros (Hne & Hw). destruct w as [|ch w]; [congruence|].
  inversion Hw as [|? ? Hch _]; subst. cbn [app hd].
  apply (word_char_tests ch Hch).
Qed.

Lemma hd_spaced (wgs : list (list ascii * list ascii)) (y : list ascii) :
  Forall (fun p => word (fst p) /\ gap (snd p)) wgs ->
  ISCONTROLCHAR (hd NUL y) = false ->
  ISCONTROLCHAR (hd NUL (spaced wgs ++ y)) = false.
Proof.
  intros Hw Hy. destruct wgs as [|[w g] wgs]; [exact Hy|].
  inversion Hw as [|? ? (Hp & _) _]; subst. cbn [spaced fst] in *.
  rewrite <- app_assoc. apply hd_word. exact Hp.
Qed.

Lemma hd_segment (sg : segment) (y : list ascii) :
  segment_ok sg -> ISCONTROLCHAR (hd NUL (seg_text sg ++ y)) = false.
Proof.
  intros (H1 & H2 & H3 & _). unfold seg_text.
  rewrite <- app_assoc. apply hd_lead; [exact H1|].
  rewrite <- app_assoc. apply hd_spaced; [exact H2|].
  rewrite <- app_assoc. apply hd_word. exact H3.
Qed.

Lemma hd_last (h0 : list ascii) (wgs : list (list ascii * list ascii)) :
  Forall (fun ch => ISWHITESPACE ch = true) h0 ->
  Forall (fun p => word (fst p) /\ gap (snd p)) wgs ->
  wgs <> [] ->
  ISCONTROLCHAR (hd NUL (last_text h0 wgs)) = false.
Proof.
  intros H1 H2 Hne. unfold last_text. apply hd_lead; [exact H1|].
  destruct wgs as [|[w g] wgs]; [congruence|].
  inversion H2 as [|? ? (Hp & _) _]; subst. cbn [spaced fst] in *.
  apply hd_word. exact Hp.
Qed.

Lemma hd_segments (sgs : list segment) (h0 : list ascii)
      (wgs : list (list ascii * list ascii)) :
  Forall segment_ok sgs ->
  Forall (fun ch => ISWHITESPACE ch = true) h0 ->
  Forall (fun p => word (fst p) /\ gap (snd p)) wgs ->
  wgs <> [] ->
  ISCONTROLCHAR (hd NUL (segments_text sgs (last_text h0 wgs))) = false.
Proof.
  intros Hs H1 H2 Hne. destruct sgs as [|sg sgs]; cbn [segments_text].
  - apply hd_last; assumption.
  - inversion Hs; subst. apply hd_segment. assumption.
Qed.

(** ** The rounds of the builder on such a line *)

Lemma segment_round (sys_open : list ascii -> Z -> Z) (s : build_state)
      (done : list (list (list ascii) * stop_reason))
      (pre rest : list ascii) (sg : segment) :
  built_as s done ->
  inputPos s = Z.of_nat (length pre) ->
  segment_ok sg ->
  ISCONTROLCHAR (hd NUL rest) = false ->
  exists s',
    build_round sys_open (pre ++ seg_text sg ++ rest) s = Some s' /\
    stopReason s' = seg_op sg /\
    inputPos s' = Z.of_nat (length (pre ++ seg_text sg)) /\
    built_as s' (done ++ [(seg_args sg, seg_op sg)]).
Proof.
  intros B Hpos (H1 & H2 & H3 & H4 & H5) Hrest.
  assert (Hop : seg_op sg <> SR_DONE /\ seg_op sg <> SR_ERROR).
  { destruct (seg_op sg); try discriminate H5; split; discriminate. }
  pose proof (processArgs_operator (seg_lead sg) (seg_trail sg) rest
                (seg_last sg) (seg_words sg) (seg_op sg)
                (b_argBuffer s) (argCharsTotal s) (b_argList s) (argTotal s)
                H1 H2 H3 H4 (proj1 Hop) (proj2 Hop)
                (not_doubled_of _ _ Hrest)) as Hlex.
  cbv zeta in Hlex. fold (seg_text sg) in Hlex. fold (seg_args sg) in Hlex.
  match type of Hlex with
  | _ = Some ?r =>
      destruct (round_builds_command sys_open (pre ++ seg_text sg ++ rest)
                  s done r (seg_args sg) B) as (s' & Hr & Hs & Hp & B' & _)
  end.
  - rewrite Hpos, skipn_consumed. exact Hlex.
  - unfold seg_args. destruct (map fst (seg_words sg)); discriminate.
  - cbn [r_argCount]. unfold seg_args. rewrite length_app, length_map.
    cbn [length]. lia.
  - reflexivity.
  - cbn [r_argBuffer r_argList].
    destruct (store_words (argCharsTotal s) (argTotal s) (seg_args sg) 0 0
                          (b_argBuffer s) (b_argList s)); reflexivity.
  - left. exact H5.
  - exists s'. cbn [r_stopReason r_processed] in *.
    split; [exact Hr|]. split; [exact Hs|]. split; [|exact B'].
    rewrite Hp, Hpos, length_app. lia.
Qed.

Lemma last_round (sys_open : list ascii -> Z -> Z) (s : build_state)
      (done : list (list (list ascii) * stop_reason))
      (pre h0 : list ascii) (wgs : list (list ascii * list ascii)) :
  built_as s done ->
  inputPos s = Z.of_nat (length pre) ->
  Forall (fun ch => ISWHITESPACE ch = true) h0 ->
  Forall (fun p => word (fst p) /\ gap (snd p)) wgs ->
  wgs <> [] ->
  exists s',
    build_round sys_open (pre ++ last_text h0 wgs) s = Some s' /\
    stopReason s' = SR_DONE /\
    built_as s' (done ++ [(map fst wgs, SR_DONE)]) /\
    lastCom s' = None.
Proof.
  intros B Hpos H1 H2 Hne.
  pose proof (processArgs_words h0 [] wgs
                (b_argBuffer s) (argCharsTotal s) (b_argList s) (argTotal s)
                H1 H2 (Forall_nil _)) as Hlex.
  cbv zeta in Hlex. rewrite !app_nil_r in Hlex. fold (last_text h0 wgs) in Hlex.
  match type of Hlex with
  | _ = Some ?r =>
      destruct (round_builds_command sys_open (pre ++ last_text h0 wgs)
                  s done r (map fst wgs) B) as (s' & Hr & Hs & Hp & B' & Hlc)
  end.
  - rewrite Hpos, skipn_consumed. exact Hlex.
  - destruct wgs; [congruence | discriminate].
  - cbn [r_argCount]. rewrite length_map. reflexivity.
  - reflexivity.
  - cbn [r_argBuffer r_argList].
    destruct (store_words (argCharsTotal s) (argTotal s) (map fst wgs) 0 0
                          (b_argBuffer s) (b_argList s)); reflexivity.
  - right. reflexivity.
  - exists s'. cbn [r_stopReason] in *.
    split; [exact Hr|]. split; [exact Hs|]. split; [exact B'|].
    apply Hlc. reflexivity.
Qed.

Lemma build_loop_segments (sys_open : list ascii -> Z -> Z)
      (h0 : list ascii) (wgs : list (list ascii * list ascii)) :
  Forall (fun ch => ISWHITESPACE ch = true) h0 ->
  Forall (fun p => word (fst p) /\ gap (snd p)) wgs ->
  wgs <> [] ->
  forall (sgs : list segment) (s : build_state)
         (done : list (list (list ascii) * stop_reason))
         (pre : list ascii) (fuel : nat),
    Forall segment_ok sgs ->
    built_as s done ->
    inputPos s = Z.of_nat (length pre) ->
    (length sgs < fuel)%nat ->
    exists b,
      build_loop sys_open (pre ++ segments_text sgs (last_text h0 wgs)) fuel s
      = Some b /\
      stopReason b = SR_DONE /\
      built_as b (done ++ commands_of sgs wgs) /\
      lastCom b = None.
Proof.
  intros H1 H2 Hne.
  induction sgs as [|sg sgs IH]; intros s done pre fuel Hs B Hpos Hf;
    (destruct fuel as [|f]; [cbn [length] in Hf; lia|]);
    cbn [build_loop segments_text].
  - destruct (last_round sys_open s done pre h0 wgs B Hpos H1 H2 Hne)
      as (s' & Hr & Hst & B' & Hlc).
    rewrite Hr. cbn [bind]. rewrite Hst.
    change (stop_reason_eqb SR_DONE SR_DONE) with true.
    exists s'. split; [reflexivity|]. split; [exact Hst|].
    split; [|exact Hlc]. unfold commands_of. exact B'.
  - inversion Hs as [|? ? Hsg Hs']; subst.
    destruct (segment_round sys_open s done pre
                (segments_text sgs (last_text h0 wgs)) sg B Hpos Hsg
                (hd_segments sgs h0 wgs Hs' H1 H2 Hne))
      as (s' & Hr & Hst & Hp & B').
    rewrite Hr. cbn [bind]. rewrite Hst.
    replace (stop_reason_eqb (seg_op sg) SR_DONE) with false
      by (destruct Hsg as (_ & _ & _ & _ & H5);
          destruct (seg_op sg); try discriminate H5; reflexivity).
    rewrite app_assoc.
    destruct (IH s' (done ++ [(seg_args sg, seg_op sg)]) (pre ++ seg_text sg) f
                Hs' B' Hp ltac:(cbn [length] in Hf; lia))
      as (b & Hb & Hbs & Bb & Hlc).
    exists b. split; [exact Hb|]. split; [exact Hbs|].
    split; [|exact Hlc].
    unfold commands_of in *. cbn [map app]. rewrite <- app_assoc in Bb.
    exact Bb.
Qed.

Lemma build_init_built_as : built_as (build_init zero_buffer null_arglist) [].
Proof.
  unfold built_as, build_init.
  cbn [getFd continueLast stderr argTotal argCharsTotal chainCount
       commandCount lastCom chains b_argBuffer b_argList link_last nodes_of
       cells_of chars_of chains_of length store_commands].
  repeat split; try reflexivity. discriminate.
Qed.

Lemma segments_text_length (sgs : list segment) (final : list ascii) :
  Forall segment_ok sgs ->
  (length sgs <= length (segments_text sgs final))%nat.
Proof.
  induction 1 as [|sg sgs (_ & _ & (Hne & _) & _) _ IH];
    cbn [segments_text length]; [lia|].
  unfold seg_text. rewrite !length_app.
  destruct (seg_last sg); [congruence|]. cbn [length]. lia.
Qed.

(** What the builder leaves on a line of commands joined by connectors. *)
Lemma build_connected (sys_open : list ascii -> Z -> Z)
      (sgs : list segment) (h0 : list ascii)
      (wgs : list (list ascii * list ascii)) :
  Forall segment_ok sgs ->
  Forall (fun ch => ISWHITESPACE ch = true) h0 ->
  Forall (fun p => word (fst p) /\ gap (snd p)) wgs ->
  wgs <> [] ->
  exists b,
    buildCommandChains sys_open (segments_text sgs (last_text h0 wgs)) = Some b /\
    built_as b (commands_of sgs wgs) /\ lastCom b = None.
Proof.
  intros Hs H1 H2 Hne. unfold buildCommandChains.
  destruct (build_loop_segments sys_open h0 wgs H1 H2 Hne sgs
              (build_init zero_buffer null_arglist) [] []
              (S (length (segments_text sgs (last_text h0 wgs))))
              Hs build_init_built_as eq_refl)
    as (b & Hb & _ & B & Hlc).
  { pose proof (segments_text_length sgs (last_text h0 wgs) Hs). lia. }
  exists b. split; [exact Hb|]. split; [exact B | exact Hlc].
Qed.

(** ** Reading the arguments back *)

(** The words that were flushed are read back from any pair of arrays that
    agrees with the flushed ones on the cells the words take. *)
Lemma store_words_read_framed (bb lb : Z) (B : buffer) (L : arglist) :
  forall (ws : list (list ascii)) (off k : Z) (buf : buffer) (l : arglist),
    0 <= off ->
    (forall j, bb + off <= j -> buf j = NUL) ->
    Forall (fun w => Forall (fun ch => ch <> NUL) w /\
                     (length w < MAX_INPUT_LEN)%nat) ws ->
    (forall j, j < bb + off + words_size ws ->
               B j = fst (store_words bb lb ws off k buf l) j) ->
    (forall j, j < lb + k + Z.of_nat (length ws) ->
               L j = snd (store_words bb lb ws off k buf l) j) ->
    argv_at (length ws) B L (lb + k) = ws.
Proof.
  induction ws as [|w ws IH]; intros off k buf l Hoff Hz Hws HB HL;
    [reflexivity|].
  inversion Hws as [|? ? (Hn & Hl) Hws']; subst.
  cbn [store_words words_size] in HB. cbn [store_words] in HL.
  cbn [length argv_at].
  set (buf1 := memcpy buf (bb + off) w) in *.
  set (l1 := store_arg l (lb + k) (Some (bb + off))) in *.
  set (off1 := off + (Z.of_nat (length w) + 1)) in *.
  pose proof (words_size_nonneg ws) as Hsz.
  destruct (store_words_frame bb lb ws off1 (k + 1) buf1 l1
              ltac:(unfold off1; lia)) as (F1 & F2).
  rewrite HL by (cbn [length]; lia). rewrite F2 by lia.
  unfold l1 at 1. unfold store_arg at 1. rewrite Z.eqb_refl. f_equal.
  - apply cstring_at_read; try assumption.
    + intros i Hi. rewrite HB by lia. rewrite F1 by (unfold off1; lia).
      apply memcpy_inside. exact Hi.
    + rewrite HB by lia. rewrite F1 by (unfold off1; lia). unfold buf1.
      rewrite memcpy_outside by lia. apply Hz. lia.
  - replace (lb + k + 1) with (lb + (k + 1)) by lia.
    apply (IH off1 (k + 1) buf1 l1); try assumption.
    + unfold off1; lia.
    + intros j Hj. unfold buf1.
      rewrite memcpy_outside by (unfold off1 in Hj; lia).
      apply Hz. unfold off1 in Hj. lia.
    + intros j Hj. apply HB. unfold off1 in Hj. lia.
    + intros j Hj. apply HL. cbn [length]. lia.
Qed.

(** The commands that were stored leave the cells in front of them and
    behind them as they were. *)
Lemma store_commands_frame :
  forall (cmds : list (list (list ascii) * stop_reason)) (c a : Z)
         (buf : buffer) (l : arglist),
    (forall j, j < c -> fst (store_commands cmds c a buf l) j = buf j) /\
    (forall j, j < a -> snd (store_commands cmds c a buf l) j = l j) /\
    (forall j, c + chars_of cmds <= j ->
               fst (store_commands cmds c a buf l) j = buf j) /\
    (forall j, a + cells_of cmds <= j ->
               snd (store_commands cmds c a buf l) j = l j).
Proof.
  induction cmds as [|[ws op] cmds IH]; intros c a buf l;
    cbn [store_commands chars_of cells_of];
    [repeat split; reflexivity|].
  pose proof (words_size_nonneg ws) as Hsz.
  pose proof (chars_of_nonneg cmds) as Hch.
  pose proof (cells_of_nonneg cmds) as Hce.
  destruct (IH (c + words_size ws) (a + (Z.of_nat (length ws) + 1))
               (fst (store_words c a ws 0 0 buf l))
               (snd (store_words c a ws 0 0 buf l)))
    as (I1 & I2 & I3 & I4).
  destruct (store_words_frame c a ws 0 0 buf l ltac:(lia)) as (F1 & F2).
  destruct (store_words_beyond c a ws 0 0 buf l ltac:(lia)) as (G1 & G2).
  repeat split; intros j Hj.
  - rewrite I1 by lia. apply F1. lia.
  - rewrite I2 by lia. apply F2. lia.
  - rewrite I3 by lia. apply G1. lia.
  - rewrite I4 by lia. apply G2. lia.
Qed.

Lemma store_commands_read :
  forall (cmds : list (list (list ascii) * stop_reason)) (c a : Z)
         (buf : buffer) (l : arglist) (i : nat)
         (ws : list (list ascii)) (op : stop_reason),
    (forall j, c <= j -> buf j = NUL) ->
    (forall j, a <= j -> l j = None) ->
    Forall (fun cmd => Forall (fun w => Forall (fun ch => ch <> NUL) w /\
                                        (length w < MAX_INPUT_LEN)%nat)
                              (fst cmd)) cmds ->
    nth_error cmds i = Some (ws, op) ->
    argv_at (S (length ws))
            (fst (store_commands cmds c a buf l))
            (snd (store_commands cmds c a buf l))
            (a + cells_of (firstn i cmds)) = ws.
Proof.
  induction cmds as [|[ws0 op0] cmds IH]; intros c a buf l i ws op Hb Hl Hok Hi;
    [destruct i; discriminate Hi|].
  inversion Hok as [|? ? Hw0 Hok']; subst. cbn [fst] in Hw0.
  pose proof (words_size_nonneg ws0) as Hsz.
  destruct (store_words_frame c a ws0 0 0 buf l ltac:(lia)) as (F1 & F2).
  destruct (store_words_beyond c a ws0 0 0 buf l ltac:(lia)) as (G1 & G2).
  cbn [store_commands].
  destruct (store_commands_frame cmds (c + words_size ws0)
              (a + (Z.of_nat (length ws0) + 1))
              (fst (store_words c a ws0 0 0 buf l))
              (snd (store_words c a ws0 0 0 buf l)))
    as (I1 & I2 & _ & _).
  destruct i as [|i]; cbn [nth_error firstn cells_of] in *.
  - injection Hi as -> ->. rewrite Z.add_0_r.
    apply argv_at_terminated.
    + match goal with
      | |- argv_at _ ?B ?L _ = _ =>
          assert (H : argv_at (length ws) B L (a + 0) = ws)
      end.
      { apply (store_words_read_framed c a _ _ ws 0 0 buf l); try assumption.
        - lia.
        - intros j Hj. apply Hb. lia.
        - intros j Hj. apply I1. lia.
        - intros j Hj. apply I2. lia. }
      rewrite Z.add_0_r in H. exact H.
    + reflexivity.
    + rewrite I2 by lia. rewrite G2 by lia. apply Hl. lia.
  - replace (a + (Z.of_nat (length ws0) + 1 + cells_of (firstn i cmds)))
      with (a + (Z.of_nat (length ws0) + 1) + cells_of (firstn i cmds)) by lia.
    apply (IH _ _ _ _ i ws op); try assumption.
    + intros j Hj. rewrite G1 by lia. apply Hb. lia.
    + intros j Hj. rewrite G2 by lia. apply Hl. lia.
Qed.

Lemma nodes_of_nth :
  forall (cmds : list (list (list ascii) * stop_reason)) (idx : nat) (a : Z)
         (i : nat) (ws : list (list ascii)) (op : stop_reason),
    nth_error cmds i = Some (ws, op) ->
    nth_error (nodes_of cmds idx a) i =
    Some (node_of op (a + cells_of (firstn i cmds)) (idx + i)).
Proof.
  induction cmds as [|[ws0 op0] cmds IH]; intros idx a i ws op Hi;
    [destruct i; discriminate Hi|].
  destruct i as [|i]; cbn [nth_error nodes_of firstn cells_of] in *.
  - injection Hi as -> ->. rewrite Z.add_0_r, Nat.add_0_r. reflexivity.
  - rewrite (IH (S idx) _ i ws op Hi). do 2 f_equal; lia.
Qed.

(** ** The words of a line are shorter than the line *)

Lemma spaced_readable (wgs : list (list ascii * list ascii)) (M : nat) :
  Forall (fun p => word (fst p) /\ gap (snd p)) wgs ->
  (length (spaced wgs) <= M)%nat ->
  Forall (readable M) (map fst wgs).
Proof.
  induction 1 as [|[w g] wgs ((_ & Hw) & _) _ IH]; intros HM;
    cbn [map spaced fst] in *; constructor.
  - split; [apply word_no_NUL; exact Hw|].
    rewrite !length_app in HM. lia.
  - apply IH. rewrite !length_app in HM. lia.
Qed.

Lemma segment_readable (sg : segment) (M : nat) :
  segment_ok sg -> (length (seg_text sg) <= M)%nat ->
  Forall (readable M) (seg_args sg).
Proof.
  intros (_ & H2 & (_ & H3) & _) HM. unfold seg_text in HM.
  rewrite !length_app in HM. unfold seg_args. apply Forall_app. split.
  - apply spaced_readable; [exact H2 | lia].
  - constructor; [|constructor].
    split; [apply word_no_NUL; exact H3 | lia].
Qed.

Lemma commands_readable (sgs : list segment) (h0 : list ascii)
      (wgs : list (list ascii * list ascii)) (M : nat) :
  Forall segment_ok sgs ->
  Forall (fun p => word (fst p) /\ gap (snd p)) wgs ->
  (length (segments_text sgs (last_text h0 wgs)) <= M)%nat ->
  Forall (fun cmd => Forall (readable M) (fst cmd)) (commands_of sgs wgs).
Proof.
  intros Hs Hw. unfold commands_of.
  induction Hs as [|sg sgs Hsg _ IH]; intros HM;
    cbn [segments_text map app] in *.
  - constructor; [|constructor]. cbn [fst].
    apply spaced_readable; [exact Hw|].
    unfold last_text in HM. rewrite length_app in HM. lia.
  - rewrite length_app in HM. constructor.
    + cbn [fst]. apply segment_readable; [exact Hsg | lia].
    + apply IH. lia.
Qed.


(** The nodes, the count and the argument vectors on such a line. *)
Lemma connected_commands_built_aux (sys_open : list ascii -> Z -> Z)
      (sgs : list segment) (h0 : list ascii)
      (wgs : list (list ascii * list ascii)) :
  Forall segment_ok sgs ->
  Forall (fun ch => ISWHITESPACE ch = true) h0 ->
  Forall (fun p => word (fst p) /\ gap (snd p)) wgs ->
  wgs <> [] ->
  (length (segments_text sgs (last_text h0 wgs)) < MAX_INPUT_LEN)%nat ->
  exists b,
    buildCommandChains sys_open (segments_text sgs (last_text h0 wgs)) = Some b /\
    chains b = nodes_of (commands_of sgs wgs) 0 0 /\
    chainCount b = chains_of (commands_of sgs wgs) /\
    forall i ws op,
      nth_error (commands_of sgs wgs) i = Some (ws, op) ->
      exists k,
        nth_error (chains b) i = Some k /\
        argv_at (S (length ws)) (b_argBuffer b) (b_argList b) (cmd_argList k)
        = ws.
Proof.
  intros Hs H1 H2 Hne Hlen.
  destruct (build_connected sys_open sgs h0 wgs Hs H1 H2 Hne)
    as (b & Hb & B & Hlc).
  destruct B as (_ & _ & _ & _ & _ & Hcc & _ & Hlink & _ & Harr).
  exists b. split; [exact Hb|]. rewrite Hlc in Hlink. cbn [link_last] in Hlink.
  split; [exact Hlink|]. split; [exact Hcc|].
  intros i ws op Hi. rewrite Hlink.
  rewrite (nodes_of_nth _ 0 0 i ws op Hi). eexists. split; [reflexivity|].
  cbn [node_of cmd_argList].
  assert (Hb' : b_argBuffer b =
                fst (store_commands (commands_of sgs wgs) 0 0
                                    zero_buffer null_arglist))
    by (rewrite <- Harr; reflexivity).
  assert (Hl' : b_argList b =
                snd (store_commands (commands_of sgs wgs) 0 0
                                    zero_buffer null_arglist))
    by (rewrite <- Harr; reflexivity).
  rewrite Hb', Hl'.
  apply (store_commands_read _ 0 0 zero_buffer null_arglist i ws op);
    try reflexivity; try exact Hi.
  pose proof (commands_readable sgs h0 wgs _ Hs H2 (le_n _)) as Hr.
  eapply Forall_impl; [|exact Hr]. intros cmd Hcmd.
  eapply Forall_impl; [|exact Hcmd]. intros w (Hw1 & Hw2).
  split; [exact Hw1 | lia].
Qed.

(** ** Lines of commands joined by connectors, as built *)

(** X13.  A line of commands joined by [;], [&&], [||] and [|], each
    command a sequence of words, the last one ended by whitespace (the
    newline): the builder makes one node per command, in the order of the
    line, with the standard descriptors; a node in front of [&&] carries
    [stopOnFailure], in front of [||] [stopOnSuccess], in front of [|]
    [piped] and [stopOnFailure]; every node in front of [&&], [||] or [|]
    points to the next cell and every other node nowhere; the chains
    counted are the commands in front of [;] and the last one; nothing is
    reported and no redirection is left pending. *)
Theorem connected_commands_are_built_as_written
        (sys_open : list ascii -> Z -> Z)
        (sgs : list segment) (h0 : list ascii)
        (wgs : list (list ascii * list ascii)) :
  Forall segment_ok sgs ->
  Forall (fun ch => ISWHITESPACE ch = true) h0 ->
  Forall (fun p => word (fst p) /\ gap (snd p)) wgs ->
  wgs <> [] ->
  exists b,
    buildCommandChains sys_open (segments_text sgs (last_text h0 wgs)) = Some b /\
    chains b = nodes_of (commands_of sgs wgs) 0 0 /\
    commandCount b = S (length sgs) /\
    chainCount b = chains_of (commands_of sgs wgs) /\
    stderr b = [] /\ getFd b = None /\ continueLast b = false.
Proof.
  intros Hs H1 H2 Hne.
  destruct (build_connected sys_open sgs h0 wgs Hs H1 H2 Hne)
    as (b & Hb & B & Hlc).
  destruct B as (Hfd & Hcl & Herr & _ & _ & Hcc & Hn & Hlink & _ & _).
  exists b. split; [exact Hb|]. rewrite Hlc in Hlink. cbn [link_last] in Hlink.
  repeat split; try assumption.
  rewrite Hn. unfold commands_of. rewrite length_app, length_map.
  cbn [length]. lia.
Qed.

Lemma example_line_ok :
  Forall segment_ok example_segments /\
  Forall (fun ch => ISWHITESPACE ch = true) [" "%char] /\
  Forall (fun p => word (fst p) /\ gap (snd p)) example_last /\
  example_last <> [].
Proof.
  assert (Hword : forall ch, In ch ["a"; "b"; "c"; "d"]%char -> word [ch]).
  { intros ch Hin. split; [discriminate|]. constructor; [|constructor].
    destruct Hin as [<-|[<-|[<-|[<-|[]]]]];
      (split; [repeat split; discriminate | split; reflexivity]). }
  assert (Hgap : forall ch, In ch [" "; "010"]%char -> gap [ch]).
  { intros ch Hin. split; [discriminate|]. constructor; [|constructor].
    destruct Hin as [<-|[<-|[]]]; reflexivity. }
  split; [|split; [|split]].
  - constructor; [|constructor; [|constructor]].
    + split; [constructor|]. split; [constructor|].
      split; [apply Hword; cbn; tauto|].
      split; [repeat constructor | reflexivity].
    + split; [repeat constructor|].
      split; [constructor; [|constructor]; cbn [fst snd]; split;
              [apply Hword; cbn; tauto | apply Hgap; cbn; tauto]|].
      split; [apply Hword; cbn; tauto|].
      split; [constructor | reflexivity].
  - repeat constructor.
  - constructor; [|constructor]. cbn [fst snd].
    split; [apply Hword; cbn; tauto | apply Hgap; cbn; tauto].
  - discriminate.
Qed.

Lemma connected_commands_are_built_as_written_witness :
  exists b,
    buildCommandChains (fun _ _ => 3)
      (segments_text example_segments (last_text [" "%char] example_last))
    = Some b /\
    chains b = nodes_of (commands_of example_segments example_last) 0 0 /\
    commandCount b = S (length example_segments) /\
    chainCount b = chains_of (commands_of example_segments example_last) /\
    stderr b = [] /\ getFd b = None /\ continueLast b = false.
Proof.
  destruct example_line_ok as (H1 & H2 & H3 & H4).
  exact (connected_commands_are_built_as_written (fun _ _ => 3)
           example_segments [" "%char] example_last H1 H2 H3 H4).
Defined.

(** X14.  On such a line that fits the input array, every node keeps its
    own words: the argument vector read at the node's [argList] in the
    arrays the builder returns is the words of its command, in order,
    followed by the terminating null cell, whatever was stored for the
    commands behind it. *)
Theorem connected_commands_keep_their_arguments
        (sys_open : list ascii -> Z -> Z)
        (sgs : list segment) (h0 : list ascii)
        (wgs : list (list ascii * list ascii)) :
  Forall segment_ok sgs ->
  Forall (fun ch => ISWHITESPACE ch = true) h0 ->
  Forall (fun p => word (fst p) /\ gap (snd p)) wgs ->
  wgs <> [] ->
  (length (segments_text sgs (last_text h0 wgs)) < MAX_INPUT_LEN)%nat ->
  exists b,
    buildCommandChains sys_open (segments_text sgs (last_text h0 wgs)) = Some b /\
    forall i ws op,
      nth_error (commands_of sgs wgs) i = Some (ws, op) ->
      exists k,
        nth_error (chains b) i = Some k /\
        argv_at (S (length ws)) (b_argBuffer b) (b_argList b) (cmd_argList k)
        = ws.
Proof.
  intros Hs H1 H2 Hne Hlen.
  destruct (connected_commands_built_aux sys_open sgs h0 wgs Hs H1 H2 Hne Hlen)
    as (b & Hb & _ & _ & Hargs).
  exists b. split; [exact Hb | exact Hargs].
Qed.

Lemma connected_commands_keep_their_arguments_witness :
  exists b,
    buildCommandChains (fun _ _ => 3)
      (segments_text example_segments (last_text [" "%char] example_last))
    = Some b /\
    forall i ws op,
      nth_error (commands_of example_segments example_last) i = Some (ws, op) ->
      exists k,
        nth_error (chains b) i = Some k /\
        argv_at (S (length ws)) (b_argBuffer b) (b_argList b) (cmd_argList k)
        = ws.
Proof.
  destruct example_line_ok as (H1 & H2 & H3 & H4).
  apply (connected_commands_keep_their_arguments (fun _ _ => 3)
           example_segments [" "%char] example_last H1 H2 H3 H4).
  apply Nat.ltb_lt. reflexivity.
Defined.

(** ** Two commands and their connector, from the line to the programs *)

Lemma program_name_of_argv (buf : buffer) (l : arglist) (k : command_t)
      (n : nat) (ws : list (list ascii)) :
  ws <> [] ->
  argv_at n buf l (cmd_argList k) = ws ->
  program_name buf l k = Some (hd [] ws).
Proof.
  intros Hne H. destruct ws as [|w ws]; [congruence|].
  unfold program_name. cbn [hd]. exact (argv_at_head _ _ _ _ _ _ H).
Qed.

Lemma two_commands_built (sys_open : list ascii -> Z -> Z)
      (sg : segment) (h0 : list ascii)
      (wgs : list (list ascii * list ascii)) :
  segment_ok sg ->
  Forall (fun ch => ISWHITESPACE ch = true) h0 ->
  Forall (fun p => word (fst p) /\ gap (snd p)) wgs ->
  wgs <> [] ->
  (length (seg_text sg ++ last_text h0 wgs) < MAX_INPUT_LEN)%nat ->
  exists b k0 k1,
    buildCommandChains sys_open (seg_text sg ++ last_text h0 wgs) = Some b /\
    chains b = [k0; k1] /\
    k0 = node_of (seg_op sg) 0 0 /\
    k1 = node_of SR_DONE (Z.of_nat (length (seg_args sg)) + 1) 1 /\
    chainCount b = match seg_op sg with SR_SEQ_CHAIN => 2 | _ => 1 end /\
    program_name (b_argBuffer b) (b_argList b) k0 = Some (hd [] (seg_args sg)) /\
    program_name (b_argBuffer b) (b_argList b) k1 = Some (hd [] (map fst wgs)).
Proof.
  intros Hsg H1 H2 Hne Hlen.
  assert (Hs : Forall segment_ok [sg]) by (constructor; [exact Hsg|constructor]).
  destruct (connected_commands_built_aux sys_open [sg] h0 wgs Hs H1 H2 Hne Hlen)
    as (b & Hb & Hch & Hcc & Hargs).
  cbn [segments_text] in Hb.
  unfold commands_of in Hch, Hcc, Hargs. cbn [map app nodes_of chains_of] in *.
  exists b. do 2 eexists. split; [exact Hb|]. split; [exact Hch|].
  split; [reflexivity|]. split; [rewrite Z.add_0_l; reflexivity|].
  split.
  { rewrite Hcc. destruct Hsg as (_ & _ & _ & _ & H5).
    destruct (seg_op sg); try discriminate H5; reflexivity. }
  destruct (Hargs 0%nat (seg_args sg) (seg_op sg) eq_refl)
    as (k0 & Hk0 & Ha0).
  destruct (Hargs 1%nat (map fst wgs) SR_DONE eq_refl) as (k1 & Hk1 & Ha1).
  rewrite Hch in Hk0, Hk1. cbn [nth_error] in Hk0, Hk1.
  injection Hk0 as <-. injection Hk1 as <-.
  split.
  - eapply program_name_of_argv; [|exact Ha0].
    unfold seg_args. destruct (map fst (seg_words sg)); discriminate.
  - eapply program_name_of_argv; [|exact Ha1].
    destruct wgs; [congruence | discriminate].
Qed.

(** The rounds of the executor on two nodes whose programs and flags are
    known. *)
Ltac run_two_nodes E0 E1 P0 SF0 SS0 N0 P1 SF1 SS1 N1 :=
  repeat first
    [ rewrite E0 | rewrite E1
    | rewrite P0 | rewrite SF0 | rewrite SS0 | rewrite N0
    | rewrite P1 | rewrite SF1 | rewrite SS1 | rewrite N1
    | progress change (Z.to_nat 0) with 0%nat
    | progress change (Z.to_nat (0 + (0 + 1))) with 1%nat
    | progress unfold executeCommandChain, chain_round,
                      commandCount_is_null, combine
    | progress cbn [run_chains chain_loop chain bind nth_error stopped
                    Z.eqb fst snd length allStatus launched e_commandCount
                    status executePipedCommands skip_piped code_of app] ].

(** X15.  Two commands and the connector between them, from the line to
    the programs started.  With [;] both commands are run, each as a chain
    of its own; with [&&] the second is run only when the first ended
    with status 0, with [||] only when it did not; with [|] both are run,
    the right-hand one being started first.  In every case both nodes
    are counted. *)
Theorem two_commands_run_as_joined
        (sys_open : list ascii -> Z -> Z) (exit_code : nat -> Z)
        (indeterminate : Z) (sg : segment) (h0 : list ascii)
        (wgs : list (list ascii * list ascii)) :
  segment_ok sg ->
  Forall (fun ch => ISWHITESPACE ch = true) h0 ->
  Forall (fun p => word (fst p) /\ gap (snd p)) wgs ->
  wgs <> [] ->
  (length (seg_text sg ++ last_text h0 wgs) < MAX_INPUT_LEN)%nat ->
  list_ascii_eqb (hd [] (seg_args sg)) exit_word = false ->
  list_ascii_eqb (hd [] (map fst wgs)) exit_word = false ->
  run_line sys_open exit_code indeterminate
           (seg_text sg ++ last_text h0 wgs) =
  Some (Returned
          (2, fst (two_commands_run (seg_op sg) (exit_code 0%nat mod 256)),
           snd (two_commands_run (seg_op sg) (exit_code 0%nat mod 256)))).
Proof.
  intros Hsg H1 H2 Hne Hlen Hx0 Hx1.
  destruct (two_commands_built sys_open sg h0 wgs Hsg H1 H2 Hne Hlen)
    as (b & k0 & k1 & Hb & Hch & Hk0 & Hk1 & Hcc & Hn0 & Hn1).
  unfold run_line. rewrite Hb. cbn [bind]. rewrite Hch, Hcc.
  set (buf := b_argBuffer b) in *. set (lst := b_argList b) in *.
  clearbody buf lst. clear Hb Hch Hcc b.
  set (st0 := exit_code 0%nat mod 256).
  set (st1 := exit_code 1%nat mod 256).
  assert (E0 : executeSingleCommand buf lst [k0; k1] exit_code 0 =
               Some (Returned st0, [0%nat])).
  { rewrite (single_outcome buf lst [k0; k1] exit_code 0 k0 eq_refl)
      by (rewrite Hn0; discriminate).
    unfold is_exit. rewrite Hn0, Hx0. reflexivity. }
  assert (E1 : executeSingleCommand buf lst [k0; k1] exit_code 1 =
               Some (Returned st1, [1%nat])).
  { rewrite (single_outcome buf lst [k0; k1] exit_code 1 k1 eq_refl)
      by (rewrite Hn1; discriminate).
    unfold is_exit. rewrite Hn1, Hx1. reflexivity. }
  clear Hn0 Hn1 Hx0 Hx1.
  assert (F1 : piped k1 = false /\ stopOnFailure k1 = false /\
               stopOnSuccess k1 = false /\ next k1 = None)
    by (rewrite Hk1; repeat split; reflexivity).
  destruct F1 as (P1 & SF1 & SS1 & N1). clear Hk1.
  destruct Hsg as (_ & _ & _ & _ & H5).
  clearbody st0 st1.
  assert (F0 : piped k0 = piped (node_of (seg_op sg) 0 0) /\
               stopOnFailure k0 = stopOnFailure (node_of (seg_op sg) 0 0) /\
               stopOnSuccess k0 = stopOnSuccess (node_of (seg_op sg) 0 0) /\
               next k0 = next (node_of (seg_op sg) 0 0))
    by (rewrite Hk0; repeat split; reflexivity).
  destruct F0 as (P0 & SF0 & SS0 & N0). clear Hk0.
  destruct (seg_op sg) eqn:Eop; try discriminate H5;
    cbn [node_of piped stopOnFailure stopOnSuccess next] in P0, SF0, SS0, N0;
    cbn [two_commands_run fst snd];
    change (Z.to_nat 2) with 2%nat; change (Z.to_nat 1) with 1%nat;
    run_two_nodes E0 E1 P0 SF0 SS0 N0 P1 SF1 SS1 N1; try reflexivity;
    destruct (st0 =? 0);
    run_two_nodes E0 E1 P0 SF0 SS0 N0 P1 SF1 SS1 N1; reflexivity.
Qed.

Lemma two_commands_run_as_joined_witness :
  run_line (fun _ _ => 3) (fun _ => 1) 7
           (seg_text example_and ++ last_text [" "%char] example_last) =
  Some (Returned
          (2, fst (two_commands_run (seg_op example_and)
                                    ((fun _ : nat => 1) 0%nat mod 256)),
           snd (two_commands_run (seg_op example_and)
                                 ((fun _ : nat => 1) 0%nat mod 256)))).
Proof.
  destruct example_line_ok as (H1 & H2 & H3 & H4).
  assert (Hlen : (length (seg_text example_and
                          ++ last_text [" "%char] example_last)
                  < MAX_INPUT_LEN)%nat) by (apply Nat.ltb_lt; reflexivity).
  exact (two_commands_run_as_joined (fun _ _ => 3) (fun _ => 1) 7
           example_and [" "%char] example_last
           (Forall_inv (Forall_inv_tail H1)) H2 H3 H4 Hlen eq_refl eq_refl).
Defined.

(** * Redirections, [&] and rejected text *)

(** ** The three kinds of round *)

(** A round that makes a new node. *)
Lemma command_round_new (sys_open : list ascii -> Z -> Z) (input : list ascii)
      (s : build_state) (r : lex_result) :
  getFd s = None -> continueLast s = false ->
  processArgs (skipn (Z.to_nat (inputPos s)) input)
              (b_argBuffer s) (argCharsTotal s)
              (b_argList s) (argTotal s) = Some r ->
  r_stopReason r <> SR_ERROR -> r_argCount r <> 0 ->
  build_round sys_open input s =
  react (set_continueLast false (keep_args (with_new_command (after_lex r s)))).
Proof.
  intros Hfd Hcl Hlex Hop Hcount.
  unfold build_round. rewrite Hfd. unfold command_round, call_lexer.
  rewrite Hlex. cbn [bind after_lex stopReason continueLast b_argCount].
  rewrite Hcl.
  replace (stop_reason_eqb (r_stopReason r) SR_ERROR) with false
    by (destruct (r_stopReason r); try reflexivity; congruence).
  replace (r_argCount r =? 0) with false
    by (symmetry; apply Z.eqb_neq; exact Hcount).
  reflexivity.
Qed.

(** A round that goes on with the node of the round before, behind [&]. *)
Lemma command_round_continued (sys_open : list ascii -> Z -> Z)
      (input : list ascii) (s : build_state) (r : lex_result) :
  getFd s = None -> continueLast s = true ->
  processArgs (skipn (Z.to_nat (inputPos s)) input)
              (b_argBuffer s) (argCharsTotal s)
              (b_argList s) (argTotal s) = Some r ->
  build_round sys_open input s =
  react (set_continueLast false (keep_args (after_lex r s))).
Proof.
  intros Hfd Hcl Hlex.
  unfold build_round. rewrite Hfd. unfold command_round, call_lexer.
  rewrite Hlex. cbn [bind after_lex stopReason continueLast b_argCount].
  rewrite Hcl. cbn [negb andb]. rewrite andb_false_r. reflexivity.
Qed.

(** A round that reads the name of a file and opens it. *)
Lemma redirect_round_opens (sys_open : list ascii -> Z -> Z)
      (input : list ascii) (s : build_state) (r : lex_result)
      (p : fd_ref) (fp : Z) :
  getFd s = Some p ->
  processArgs (skipn (Z.to_nat (inputPos s)) input)
              (b_argBuffer s) (argCharsTotal s)
              (b_argList s) (argTotal s) = Some r ->
  r_stopReason r <> SR_ERROR -> r_argCount r = 1 ->
  r_argList r (argTotal s) = Some fp ->
  let filename := cstring_at MAX_INPUT_LEN (r_argBuffer r) fp in
  let fd := sys_open filename (oflags s) in
  0 <= fd ->
  build_round sys_open input s =
  react (set_getFd None (oflags s)
           (set_chains (store_fd p fd (chains s)) (keep_args (after_lex r s)))).
Proof.
  intros Hfd Hlex Hop Hcount Hfp filename fd Hpos.
  unfold build_round. rewrite Hfd. unfold redirect_round, call_lexer.
  rewrite Hlex.
  cbn [bind after_lex stopReason b_argCount b_argList argTotal keep_args
       oflags b_argBuffer chains].
  replace (stop_reason_eqb (r_stopReason r) SR_ERROR) with false
    by (destruct (r_stopReason r); try reflexivity; congruence).
  rewrite Hcount. cbn [Z.eqb Pos.eqb negb orb]. rewrite Hfp. cbn [bind].
  fold filename. fold fd.
  replace (fd <? 0) with false by (symmetry; apply Z.ltb_ge; exact Hpos).
  reflexivity.
Qed.

(** A round that reads something else than one name behind a redirection
    operator. *)
Lemma redirect_round_rejects (sys_open : list ascii -> Z -> Z)
      (input : list ascii) (s : build_state) (r : lex_result) (p : fd_ref) :
  getFd s = Some p ->
  processArgs (skipn (Z.to_nat (inputPos s)) input)
              (b_argBuffer s) (argCharsTotal s)
              (b_argList s) (argTotal s) = Some r ->
  r_argCount r <> 1 ->
  build_round sys_open input s =
  Some (report Error_reading_filename (after_lex r s)).
Proof.
  intros Hfd Hlex Hcount.
  unfold build_round. rewrite Hfd. unfold redirect_round, call_lexer.
  rewrite Hlex. cbn [bind after_lex stopReason b_argCount].
  replace (r_argCount r =? 1) with false
    by (symmetry; apply Z.eqb_neq; exact Hcount).
  cbn [negb]. rewrite orb_true_r. reflexivity.
Qed.

(** ** A command and the file its input or output goes to *)

Lemma argv_one (buf : buffer) (l : arglist) (i : Z) (w : list ascii) :
  argv_at 1 buf l i = [w] ->
  exists p, l i = Some p /\ cstring_at MAX_INPUT_LEN buf p = w.
Proof.
  cbn [argv_at]. destruct (l i) as [p|]; [|discriminate].
  intros H. exists p. split; [reflexivity|].
  exact (f_equal (hd []) H).
Qed.

Lemma seg_args_readable (sg : segment) (M : nat) :
  Forall (fun p => word (fst p) /\ gap (snd p)) (seg_words sg) ->
  word (seg_last sg) ->
  (length (seg_text sg) <= M)%nat ->
  Forall (readable M) (seg_args sg).
Proof.
  intros H2 (_ & H3) HM. unfold seg_text in HM.
  rewrite !length_app in HM. unfold seg_args. apply Forall_app. split.
  - apply spaced_readable; [exact H2 | lia].
  - constructor; [|constructor].
    split; [apply word_no_NUL; exact H3 | lia].
Qed.

Lemma readable_short (M : nat) (ws : list (list ascii)) :
  (M < MAX_INPUT_LEN)%nat ->
  Forall (readable M) ws ->
  Forall (fun w => Forall (fun ch => ch <> NUL) w /\
                   (length w < MAX_INPUT_LEN)%nat) ws.
Proof.
  intros HM H. eapply Forall_impl; [|exact H].
  intros w (Hw1 & Hw2). split; [exact Hw1 | lia].
Qed.

(** X16.  A command followed by [<], [>] or [>>] and the name of a file,
    on a line that fits the input array: [open] is called with that name
    and with the flags of the operator ([O_RDONLY]; [O_WRONLY | O_CREAT |
    O_TRUNC]; [O_WRONLY | O_CREAT | O_APPEND]); when it succeeds, the
    descriptor is stored in [fdIn] for [<] and in [fdOut] for [>] and
    [>>], the other descriptor stays the standard one, the chain is closed
    and counted, nothing is reported, no redirection is left pending, and
    the name of the file is not among the arguments of the command. *)
Theorem redirection_opens_the_file
        (sys_open : list ascii -> Z -> Z) (sg : segment)
        (h0 f gf : list ascii) :
  Forall (fun ch => ISWHITESPACE ch = true) (seg_lead sg) ->
  Forall (fun p => word (fst p) /\ gap (snd p)) (seg_words sg) ->
  word (seg_last sg) ->
  Forall (fun ch => ISWHITESPACE ch = true) (seg_trail sg) ->
  redirection (seg_op sg) = true ->
  Forall (fun ch => ISWHITESPACE ch = true) h0 ->
  word f -> gap gf ->
  (length (seg_text sg ++ last_text h0 [(f, gf)]) < MAX_INPUT_LEN)%nat ->
  0 <= sys_open f (redirect_flags (seg_op sg)) ->
  exists b,
    buildCommandChains sys_open (seg_text sg ++ last_text h0 [(f, gf)])
    = Some b /\
    chains b = [redirected_node (seg_op sg)
                                (sys_open f (redirect_flags (seg_op sg)))] /\
    chainCount b = 1 /\ stderr b = [] /\ getFd b = None /\
    argv_at (S (length (seg_args sg))) (b_argBuffer b) (b_argList b) 0
    = seg_args sg.
Proof.
  intros H1 H2 H3 H4 H5 H6 Hf Hgf Hlen Hfd.
  set (rest := last_text h0 [(f, gf)]) in *.
  set (input := seg_text sg ++ rest) in *.
  assert (Hwf : Forall (fun p => word (fst p) /\ gap (snd p)) [(f, gf)])
    by (constructor; [split; assumption | constructor]).
  assert (Hop : seg_op sg <> SR_DONE /\ seg_op sg <> SR_ERROR).
  { destruct (seg_op sg); try discriminate H5; split; discriminate. }
  pose proof (processArgs_operator (seg_lead sg) (seg_trail sg) rest
                (seg_last sg) (seg_words sg) (seg_op sg)
                zero_buffer 0 null_arglist 0
                H1 H2 H3 H4 (proj1 Hop) (proj2 Hop)
                (not_doubled_of _ _
                   (hd_last h0 [(f, gf)] H6 Hwf ltac:(discriminate))))
    as Hlex1.
  cbv zeta in Hlex1. fold (seg_text sg) in Hlex1. fold (seg_args sg) in Hlex1.
  fold input in Hlex1.
  set (ws1 := seg_args sg) in *.
  set (buf1 := fst (store_words 0 0 ws1 0 0 zero_buffer null_arglist)) in *.
  set (lst1 := snd (store_words 0 0 ws1 0 0 zero_buffer null_arglist)) in *.
  set (n1 := Z.of_nat (length (seg_words sg)) + 1) in *.
  set (sz1 := words_size ws1) in *.
  pose proof (processArgs_words h0 [] [(f, gf)] buf1 sz1 lst1 (n1 + 1)
                H6 Hwf (Forall_nil _)) as Hlex2.
  cbv zeta in Hlex2. rewrite !app_nil_r in Hlex2.
  change (h0 ++ spaced [(f, gf)]) with rest in Hlex2.
  cbn [map fst length] in Hlex2. change (Z.of_nat 1) with 1 in Hlex2.
  set (buf2 := fst (store_words sz1 (n1 + 1) [f] 0 0 buf1 lst1)) in *.
  set (lst2 := snd (store_words sz1 (n1 + 1) [f] 0 0 buf1 lst1)) in *.
  assert (Hn1 : n1 = Z.of_nat (length ws1)).
  { unfold n1, ws1, seg_args. rewrite length_app, length_map.
    cbn [length]. lia. }
  assert (Hsz1 : 0 <= sz1) by apply words_size_nonneg.
  assert (Hlens : (length (seg_text sg) <= length input)%nat /\
                  (length f <= length input)%nat).
  { unfold input, rest, last_text. cbn [spaced]. rewrite !length_app. lia. }
  assert (Hr1 : Forall (fun w => Forall (fun ch => ch <> NUL) w /\
                                 (length w < MAX_INPUT_LEN)%nat) ws1).
  { apply (readable_short (length input)); [exact Hlen|].
    apply seg_args_readable; [exact H2 | exact H3 | apply Hlens]. }
  assert (Hrf : Forall (fun w => Forall (fun ch => ch <> NUL) w /\
                                 (length w < MAX_INPUT_LEN)%nat) [f]).
  { constructor; [|constructor].
    split; [apply word_no_NUL; apply Hf | lia]. }
  (* the name of the file, as the second round reads it *)
  destruct (store_words_beyond 0 0 ws1 0 0 zero_buffer null_arglist
              ltac:(lia)) as (G1 & G2).
  assert (Hname : exists fp, lst2 (n1 + 1) = Some fp /\
                             cstring_at MAX_INPUT_LEN buf2 fp = f).
  { apply argv_one.
    apply (store_words_read0 sz1 (n1 + 1) [f] buf1 lst1); [|exact Hrf].
    intros j Hj. unfold buf1. rewrite G1 by (fold sz1; lia). reflexivity. }
  destruct Hname as (fp & Hfp & Hfn).
  (* the arguments of the command, as the executor reads them *)
  assert (Hargs : argv_at (S (length ws1)) buf2 lst2 0 = ws1).
  { pose proof (store_commands_read [(ws1, seg_op sg); ([f], SR_DONE)]
                  0 0 zero_buffer null_arglist 0 ws1 (seg_op sg)
                  (fun _ _ => eq_refl) (fun _ _ => eq_refl)) as H.
    cbn [store_commands firstn cells_of fst snd] in H.
    rewrite !Z.add_0_l in H. fold sz1 buf1 lst1 in H. rewrite <- Hn1 in H.
    apply H; [|reflexivity].
    constructor; [exact Hr1|]. constructor; [exact Hrf | constructor]. }
  (* the two rounds *)
  assert (Hfuel : exists m, length input = S m).
  { destruct (length input) as [|m] eqn:E; [|exists m; reflexivity].
    destruct H3 as (Hne & _). unfold input, seg_text in E.
    rewrite !length_app in E. destruct (seg_last sg); [congruence|].
    cbn [length] in E. lia. }
  destruct Hfuel as (m & Hm).
  unfold buildCommandChains. rewrite Hm. cbn [build_loop].
  rewrite (command_round_new sys_open input (build_init zero_buffer null_arglist)
             _ eq_refl eq_refl Hlex1);
    cbn [r_stopReason r_argCount]; [|apply Hop|lia].
  set (node0 := mkCommand 0 STDIN_FILENO STDOUT_FILENO
                          false false false false None).
  set (s1pre := mkBuild n1 (n1 + 1) sz1 sz1
                        (Z.of_nat (length (seg_text sg))) (seg_op sg)
                        0 1 false None 0 (Some 0%nat) None buf1 lst1
                        [node0] []).
  match goal with
  | |- context [react ?s] => change s with s1pre
  end.
  set (p := match seg_op sg with
            | SR_REDIRECT_IN => FdIn 0
            | _ => FdOut 0
            end).
  set (s1 := set_getFd (Some p) (redirect_flags (seg_op sg)) s1pre).
  assert (Hreact : react s1pre = Some s1).
  { unfold s1, p, s1pre, react. cbn [stopReason].
    destruct (seg_op sg); try discriminate H5; reflexivity. }
  rewrite Hreact. cbn [bind].
  assert (Hstop1 : stop_reason_eqb (stopReason s1) SR_DONE = false).
  { unfold s1, s1pre. cbn [stopReason set_getFd].
    destruct (seg_op sg); try discriminate H5; reflexivity. }
  rewrite Hstop1.
  assert (Hlex2' :
            processArgs (skipn (Z.to_nat (inputPos s1)) input)
                        (b_argBuffer s1) (argCharsTotal s1)
                        (b_argList s1) (argTotal s1) =
            Some (mkLexResult (Z.of_nat (length rest) + 1) (words_size [f])
                              buf2 1 lst2 SR_DONE)).
  { unfold s1, s1pre.
    cbn [inputPos b_argBuffer argCharsTotal b_argList argTotal set_getFd].
    unfold input. rewrite skipn_consumed. exact Hlex2. }
  assert (Hfd' : 0 <= sys_open (cstring_at MAX_INPUT_LEN buf2 fp) (oflags s1)).
  { rewrite Hfn. exact Hfd. }
  rewrite (redirect_round_opens sys_open input s1 _ p fp eq_refl Hlex2'
             ltac:(discriminate) eq_refl Hfp Hfd').
  cbn [r_argBuffer]. rewrite Hfn.
  unfold react. cbn [stopReason set_getFd set_chains keep_args after_lex
                     r_stopReason bind].
  change (stop_reason_eqb SR_DONE SR_DONE) with true. cbv iota.
  eexists. split; [reflexivity|].
  cbn [chains chainCount stderr getFd b_argBuffer b_argList close_chain
       set_getFd set_chains keep_args after_lex r_argBuffer r_argList
       s1 s1pre oflags].
  split.
  { unfold p, redirected_node, node0.
    destruct (seg_op sg); try discriminate H5; reflexivity. }
  split; [reflexivity|]. split; [reflexivity|]. split; [reflexivity|].
  exact Hargs.
Qed.

Lemma letter_is_word (ch : ascii) :
  In ch ["a"; "b"; "c"; "d"]%char -> word [ch].
Proof.
  intros Hin. split; [discriminate|]. constructor; [|constructor].
  destruct Hin as [<-|[<-|[<-|[<-|[]]]]];
    (split; [repeat split; discriminate | split; reflexivity]).
Qed.

Lemma blank_is_gap (ch : ascii) : In ch [" "; "010"]%char -> gap [ch].
Proof.
  intros Hin. split; [discriminate|]. constructor; [|constructor].
  destruct Hin as [<-|[<-|[]]]; reflexivity.
Qed.

Lemma redirection_opens_the_file_witness :
  exists b,
    buildCommandChains (fun _ _ => 3)
      (seg_text example_redirected
       ++ last_text [" "%char] [(["d"%char], ["010"%char])])
    = Some b /\
    chains b = [redirected_node (seg_op example_redirected)
                  ((fun _ _ => 3) ["d"%char]
                     (redirect_flags (seg_op example_redirected)))] /\
    chainCount b = 1 /\ stderr b = [] /\ getFd b = None /\
    argv_at (S (length (seg_args example_redirected)))
            (b_argBuffer b) (b_argList b) 0
    = seg_args example_redirected.
Proof.
  apply (redirection_opens_the_file (fun _ _ => 3) example_redirected
           [" "%char] ["d"%char] ["010"%char]).
  - constructor.
  - constructor; [|constructor]. cbn [fst snd].
    split; [apply letter_is_word | apply blank_is_gap]; cbn; tauto.
  - apply letter_is_word; cbn; tauto.
  - repeat constructor.
  - reflexivity.
  - repeat constructor.
  - apply letter_is_word; cbn; tauto.
  - apply blank_is_gap; cbn; tauto.
  - apply Nat.ltb_lt. reflexivity.
  - cbv beta. lia.
Defined.

(** ** What stands behind [&] *)

Lemma hd_words_or_end (h0 : list ascii)
      (wgs : list (list ascii * list ascii)) :
  Forall (fun ch => ISWHITESPACE ch = true) h0 ->
  Forall (fun p => word (fst p) /\ gap (snd p)) wgs ->
  ISCONTROLCHAR (hd NUL (last_text h0 wgs)) = false.
Proof.
  intros H1 H2. unfold last_text. apply hd_lead; [exact H1|].
  rewrite <- (app_nil_r (spaced wgs)). apply hd_spaced; [exact H2|].
  reflexivity.
Qed.

(** X17.  A command followed by [&]: its node is marked [background], and
    whatever words stand behind the [&] up to the end of the line are
    read and take their cells in the two arrays, but no node is made of
    them: the line is one chain of one node whose arguments are those in
    front of the [&], and nothing is reported.  [main] then runs that
    node as it runs any other one, and starts no program for the words
    behind the [&]. *)
Theorem words_behind_ampersand_are_dropped
        (sys_open : list ascii -> Z -> Z) (exit_code : nat -> Z)
        (indeterminate : Z) (sg : segment) (h0 : list ascii)
        (wgs : list (list ascii * list ascii)) :
  Forall (fun ch => ISWHITESPACE ch = true) (seg_lead sg) ->
  Forall (fun p => word (fst p) /\ gap (snd p)) (seg_words sg) ->
  word (seg_last sg) ->
  Forall (fun ch => ISWHITESPACE ch = true) (seg_trail sg) ->
  seg_op sg = SR_BACKGROUND ->
  Forall (fun ch => ISWHITESPACE ch = true) h0 ->
  Forall (fun p => word (fst p) /\ gap (snd p)) wgs ->
  (length (seg_text sg ++ last_text h0 wgs) < MAX_INPUT_LEN)%nat ->
  exists b,
    buildCommandChains sys_open (seg_text sg ++ last_text h0 wgs) = Some b /\
    chains b = [mkCommand 0 STDIN_FILENO STDOUT_FILENO
                          false false false true None] /\
    chainCount b = 1 /\ stderr b = [] /\
    getFd b = None /\ continueLast b = false /\
    argTotal b = Z.of_nat (length (seg_args sg)) + 1
                 + (Z.of_nat (length wgs) + 1) /\
    argv_at (S (length (seg_args sg))) (b_argBuffer b) (b_argList b) 0
    = seg_args sg /\
    run_line sys_open exit_code indeterminate
             (seg_text sg ++ last_text h0 wgs) =
    Some (if list_ascii_eqb (hd [] (seg_args sg)) exit_word then Exited 0
          else Returned (1, [1], [0%nat])).
Proof.
  intros H1 H2 H3 H4 H5 H6 H7 Hlen.
  set (rest := last_text h0 wgs) in *.
  set (input := seg_text sg ++ rest) in *.
  pose proof (processArgs_operator (seg_lead sg) (seg_trail sg) rest
                (seg_last sg) (seg_words sg) (seg_op sg)
                zero_buffer 0 null_arglist 0
                H1 H2 H3 H4 ltac:(rewrite H5; discriminate)
                ltac:(rewrite H5; discriminate)
                (not_doubled_of _ _ (hd_words_or_end h0 wgs H6 H7)))
    as Hlex1.
  cbv zeta in Hlex1. fold (seg_text sg) in Hlex1. fold (seg_args sg) in Hlex1.
  fold input in Hlex1. rewrite H5 in Hlex1.
  set (ws1 := seg_args sg) in *.
  set (buf1 := fst (store_words 0 0 ws1 0 0 zero_buffer null_arglist)) in *.
  set (lst1 := snd (store_words 0 0 ws1 0 0 zero_buffer null_arglist)) in *.
  set (n1 := Z.of_nat (length (seg_words sg)) + 1) in *.
  set (sz1 := words_size ws1) in *.
  pose proof (processArgs_words h0 [] wgs buf1 sz1 lst1 (n1 + 1)
                H6 H7 (Forall_nil _)) as Hlex2.
  cbv zeta in Hlex2. rewrite !app_nil_r in Hlex2.
  change (h0 ++ spaced wgs) with rest in Hlex2.
  set (ws2 := map fst wgs) in *.
  set (buf2 := fst (store_words sz1 (n1 + 1) ws2 0 0 buf1 lst1)) in *.
  set (lst2 := snd (store_words sz1 (n1 + 1) ws2 0 0 buf1 lst1)) in *.
  assert (Hn1 : n1 = Z.of_nat (length ws1)).
  { unfold n1, ws1, seg_args. rewrite length_app, length_map.
    cbn [length]. lia. }
  assert (Hlens : (length (seg_text sg) <= length input)%nat /\
                  (length (spaced wgs) <= length input)%nat).
  { unfold input, rest, last_text. rewrite !length_app. lia. }
  assert (Hr1 : Forall (fun w => Forall (fun ch => ch <> NUL) w /\
                                 (length w < MAX_INPUT_LEN)%nat) ws1).
  { apply (readable_short (length input)); [exact Hlen|].
    apply seg_args_readable; [exact H2 | exact H3 | apply Hlens]. }
  assert (Hr2 : Forall (fun w => Forall (fun ch => ch <> NUL) w /\
                                 (length w < MAX_INPUT_LEN)%nat) ws2).
  { apply (readable_short (length input)); [exact Hlen|].
    apply spaced_readable; [exact H7 | apply Hlens]. }
  assert (Hargs : argv_at (S (length ws1)) buf2 lst2 0 = ws1).
  { pose proof (store_commands_read [(ws1, SR_BACKGROUND); (ws2, SR_DONE)]
                  0 0 zero_buffer null_arglist 0 ws1 SR_BACKGROUND
                  (fun _ _ => eq_refl) (fun _ _ => eq_refl)) as H.
    cbn [store_commands firstn cells_of fst snd] in H.
    rewrite !Z.add_0_l in H. fold sz1 buf1 lst1 in H. rewrite <- Hn1 in H.
    apply H; [|reflexivity].
    constructor; [exact Hr1|]. constructor; [exact Hr2 | constructor]. }
  assert (Hfuel : exists m, length input = S m).
  { destruct (length input) as [|m] eqn:E; [|exists m; reflexivity].
    destruct H3 as (Hne & _). unfold input, seg_text in E.
    rewrite !length_app in E. destruct (seg_last sg); [congruence|].
    cbn [length] in E. lia. }
  destruct Hfuel as (m & Hm).
  set (node := mkCommand 0 STDIN_FILENO STDOUT_FILENO
                         false false false true None).
  assert (Hbuild : buildCommandChains sys_open input =
                   Some (mkBuild (Z.of_nat (length wgs))
                                 (n1 + 1 + (Z.of_nat (length wgs) + 1))
                                 (words_size ws2) (sz1 + words_size ws2)
                                 (Z.of_nat (length (seg_text sg))
                                  + (Z.of_nat (length rest) + 1))
                                 SR_DONE 1 1 false None 0 (Some 0%nat) None
                                 buf2 lst2 [node] [])).
  { unfold buildCommandChains. rewrite Hm. cbn [build_loop].
    rewrite (command_round_new sys_open input
               (build_init zero_buffer null_arglist) _ eq_refl eq_refl Hlex1);
      cbn [r_stopReason r_argCount]; [|discriminate|lia].
    set (s1 := mkBuild n1 (n1 + 1) sz1 sz1
                       (Z.of_nat (length (seg_text sg))) SR_BACKGROUND
                       0 1 true None 0 (Some 0%nat) None buf1 lst1
                       [node] []).
    match goal with
    | |- context [react ?s] => change (react s) with (Some s1)
    end.
    cbn [bind]. change (stop_reason_eqb (stopReason s1) SR_DONE) with false.
    cbv iota.
    assert (Hlex2' :
              processArgs (skipn (Z.to_nat (inputPos s1)) input)
                          (b_argBuffer s1) (argCharsTotal s1)
                          (b_argList s1) (argTotal s1) =
              Some (mkLexResult (Z.of_nat (length rest) + 1) (words_size ws2)
                                buf2 (Z.of_nat (length wgs)) lst2 SR_DONE)).
    { unfold s1.
      cbn [inputPos b_argBuffer argCharsTotal b_argList argTotal].
      unfold input. rewrite skipn_consumed. exact Hlex2. }
    rewrite (command_round_continued sys_open input s1 _ eq_refl eq_refl
               Hlex2').
    reflexivity. }
  exists (mkBuild (Z.of_nat (length wgs))
                  (n1 + 1 + (Z.of_nat (length wgs) + 1))
                  (words_size ws2) (sz1 + words_size ws2)
                  (Z.of_nat (length (seg_text sg))
                   + (Z.of_nat (length rest) + 1))
                  SR_DONE 1 1 false None 0 (Some 0%nat) None
                  buf2 lst2 [node] []).
  split; [exact Hbuild|].
  cbn [chains chainCount stderr getFd continueLast argTotal b_argBuffer
       b_argList].
  do 5 (split; [reflexivity|]).
  split; [rewrite Hn1; reflexivity|]. split; [exact Hargs|].
  unfold run_line. rewrite Hbuild.
  cbn [bind chains chainCount b_argBuffer b_argList].
  change (Z.to_nat 1) with 1%nat. cbn [run_chains].
  change (Z.to_nat 0) with 0%nat.
  unfold executeCommandChain. cbn [length chain_loop chain].
  unfold chain_round. cbn [nth_error bind stopped Z.eqb piped node].
  unfold executeSingleCommand. cbn [nth_error bind].
  assert (Hname : program_name buf2 lst2 node = Some (hd [] ws1)).
  { apply (program_name_of_argv buf2 lst2 node (S (length ws1))); [|exact Hargs].
    unfold ws1, seg_args. destruct (map fst (seg_words sg)); discriminate. }
  rewrite Hname. cbn [bind].
  destruct (list_ascii_eqb (hd [] ws1) exit_word); [reflexivity|].
  cbn. reflexivity.
Qed.

Lemma words_behind_ampersand_are_dropped_witness :
  exists b,
    buildCommandChains (fun _ _ => 3)
      (seg_text example_background ++ last_text [" "%char] example_last)
    = Some b /\
    chains b = [mkCommand 0 STDIN_FILENO STDOUT_FILENO
                          false false false true None] /\
    chainCount b = 1 /\ stderr b = [] /\
    getFd b = None /\ continueLast b = false /\
    argTotal b = Z.of_nat (length (seg_args example_background)) + 1
                 + (Z.of_nat (length example_last) + 1) /\
    argv_at (S (length (seg_args example_background)))
            (b_argBuffer b) (b_argList b) 0
    = seg_args example_background /\
    run_line (fun _ _ => 3) (fun _ => 0) 7
             (seg_text example_background
              ++ last_text [" "%char] example_last) =
    Some (if list_ascii_eqb (hd [] (seg_args example_background)) exit_word
          then Exited 0
          else Returned (1, [1], [0%nat])).
Proof.
  apply (words_behind_ampersand_are_dropped (fun _ _ => 3) (fun _ => 0) 7
           example_background [" "%char] example_last).
  - constructor.
  - constructor; [|constructor]. cbn [fst snd].
    split; [apply letter_is_word | apply blank_is_gap]; cbn; tauto.
  - apply letter_is_word; cbn; tauto.
  - repeat constructor.
  - reflexivity.
  - repeat constructor.
  - constructor; [|constructor]. cbn [fst snd].
    split; [apply letter_is_word | apply blank_is_gap]; cbn; tauto.
  - apply Nat.ltb_lt. reflexivity.
Defined.

(** ** What a rejected name leaves behind *)

Lemma Forall_skipn_list (P : ascii -> Prop) (n : nat) :
  forall l, Forall P l -> Forall P (skipn n l).
Proof.
  induction n as [|n IH]; intros l H; [exact H|].
  destruct l as [|a l]; [constructor|].
  inversion H; subst. cbn [skipn]. apply IH. assumption.
Qed.

Lemma nth_overlay (a b : list ascii) (i : nat) :
  (length a <= length b)%nat ->
  nth i (a ++ skipn (length a) b) NUL =
  if (i <? length a)%nat then nth i a NUL else nth i b NUL.
Proof.
  revert b i. induction a as [|x a IH]; intros b i Hl.
  - cbn [length skipn app]. destruct i; reflexivity.
  - destruct b as [|y b]; [cbn [length] in Hl; lia|].
    cbn [length skipn app]. destruct i as [|i]; [reflexivity|].
    cbn [nth]. rewrite IH by (cbn [length] in Hl; lia). reflexivity.
Qed.

Lemma length_overlay (a b : list ascii) :
  (length a <= length b)%nat ->
  length (a ++ skipn (length a) b) = length b.
Proof. intros H. rewrite length_app, length_skipn. lia. Qed.

(** The cells of the first of the words that were flushed. *)
Lemma store_words_first (bb lb : Z) (w : list ascii) (ws : list (list ascii))
      (k : Z) (buf : buffer) (l : arglist) :
  (forall j, bb <= j -> buf j = NUL) ->
  (forall i, (i < length w)%nat ->
     fst (store_words bb lb (w :: ws) 0 k buf l) (bb + Z.of_nat i)
     = nth i w NUL) /\
  fst (store_words bb lb (w :: ws) 0 k buf l) (bb + Z.of_nat (length w)) = NUL.
Proof.
  intros Hz. cbn [store_words].
  destruct (store_words_frame bb lb ws (0 + (Z.of_nat (length w) + 1)) (k + 1)
              (memcpy buf (bb + 0) w)
              (store_arg l (lb + k) (Some (bb + 0))) ltac:(lia)) as (F1 & _).
  split.
  - intros i Hi. rewrite F1 by lia. rewrite Z.add_0_r.
    apply memcpy_inside. exact Hi.
  - rewrite F1 by lia. rewrite memcpy_outside by lia. apply Hz. lia.
Qed.

(** X18.  Behind a redirection operator two words or more, then a
    connector, then one word: the first text is rejected with "Error
    reading filename for redirect", and the word behind the connector is
    taken for the name of the file.  The rejected words are still in the
    buffer and only the characters of the new word are copied over them:
    when the new word is not longer than the first rejected word, the file
    that is opened is named by the new word followed by the characters of
    the first rejected word that it did not cover. *)
Theorem rejected_name_leaves_its_characters
        (sys_open : list ascii -> Z -> Z) (sg : segment)
        (lead2 fa ga last2 trail2 : list ascii)
        (more : list (list ascii * list ascii)) (op2 : stop_reason)
        (h0 f3 g3 : list ascii) :
  Forall (fun ch => ISWHITESPACE ch = true) (seg_lead sg) ->
  Forall (fun p => word (fst p) /\ gap (snd p)) (seg_words sg) ->
  word (seg_last sg) ->
  Forall (fun ch => ISWHITESPACE ch = true) (seg_trail sg) ->
  redirection (seg_op sg) = true ->
  segment_ok (mkSegment lead2 ((fa, ga) :: more) last2 trail2 op2) ->
  Forall (fun ch => ISWHITESPACE ch = true) h0 ->
  word f3 -> gap g3 ->
  (length f3 <= length fa)%nat ->
  let input := seg_text sg
               ++ seg_text (mkSegment lead2 ((fa, ga) :: more) last2 trail2 op2)
               ++ last_text h0 [(f3, g3)] in
  let name := f3 ++ skipn (length f3) fa in
  (length input < MAX_INPUT_LEN)%nat ->
  0 <= sys_open name (redirect_flags (seg_op sg)) ->
  exists b,
    buildCommandChains sys_open input = Some b /\
    chains b = [redirected_node (seg_op sg)
                                (sys_open name (redirect_flags (seg_op sg)))] /\
    stderr b = [Error_reading_filename] /\
    chainCount b = 1 /\ getFd b = None.
Proof.
  intros H1 H2 H3 H4 H5 Hsg2 H6 Hf3 Hg3 Hshort input name Hlen Hfd.
  set (sg2 := mkSegment lead2 ((fa, ga) :: more) last2 trail2 op2) in *.
  set (rest3 := last_text h0 [(f3, g3)]) in *.
  set (rest2 := seg_text sg2 ++ rest3) in *.
  assert (Hwf : Forall (fun p => word (fst p) /\ gap (snd p)) [(f3, g3)])
    by (constructor; [split; assumption | constructor]).
  assert (Hop : seg_op sg <> SR_DONE /\ seg_op sg <> SR_ERROR).
  { destruct (seg_op sg); try discriminate H5; split; discriminate. }
  (* the three calls of the lexer *)
  pose proof (processArgs_operator (seg_lead sg) (seg_trail sg) rest2
                (seg_last sg) (seg_words sg) (seg_op sg)
                zero_buffer 0 null_arglist 0
                H1 H2 H3 H4 (proj1 Hop) (proj2 Hop)
                (not_doubled_of _ _ (hd_segment sg2 rest3 Hsg2)))
    as Hlex1.
  cbv zeta in Hlex1. fold (seg_text sg) in Hlex1. fold (seg_args sg) in Hlex1.
  change (seg_text sg ++ rest2) with input in Hlex1.
  set (ws1 := seg_args sg) in *.
  set (buf1 := fst (store_words 0 0 ws1 0 0 zero_buffer null_arglist)) in *.
  set (lst1 := snd (store_words 0 0 ws1 0 0 zero_buffer null_arglist)) in *.
  set (n1 := Z.of_nat (length (seg_words sg)) + 1) in *.
  set (sz1 := words_size ws1) in *.
  destruct Hsg2 as (K1 & K2 & K3 & K4 & K5).
  cbn [seg_lead seg_words seg_last seg_trail seg_op sg2] in K1, K2, K3, K4, K5.
  assert (Hop2 : op2 <> SR_DONE /\ op2 <> SR_ERROR).
  { destruct op2; try discriminate K5; split; discriminate. }
  pose proof (processArgs_operator lead2 trail2 rest3 last2
                ((fa, ga) :: more) op2 buf1 sz1 lst1 (n1 + 1)
                K1 K2 K3 K4 (proj1 Hop2) (proj2 Hop2)
                (not_doubled_of _ _
                   (hd_last h0 [(f3, g3)] H6 Hwf ltac:(discriminate))))
    as Hlex2.
  cbv zeta in Hlex2.
  change (lead2 ++ spaced ((fa, ga) :: more) ++ last2 ++ trail2
                ++ operator_text op2) with (seg_text sg2) in Hlex2.
  change (seg_text sg2 ++ rest3) with rest2 in Hlex2.
  cbn [map fst app length] in Hlex2.
  set (ws2 := fa :: map fst more ++ [last2]) in *.
  set (buf2 := fst (store_words sz1 (n1 + 1) ws2 0 0 buf1 lst1)) in *.
  set (lst2 := snd (store_words sz1 (n1 + 1) ws2 0 0 buf1 lst1)) in *.
  pose proof (processArgs_words h0 [] [(f3, g3)] buf2 sz1 lst2 (n1 + 1)
                H6 Hwf (Forall_nil _)) as Hlex3.
  cbv zeta in Hlex3. rewrite !app_nil_r in Hlex3.
  change (h0 ++ spaced [(f3, g3)]) with rest3 in Hlex3.
  cbn [map fst length] in Hlex3. change (Z.of_nat 1) with 1 in Hlex3.
  set (buf3 := fst (store_words sz1 (n1 + 1) [f3] 0 0 buf2 lst2)) in *.
  set (lst3 := snd (store_words sz1 (n1 + 1) [f3] 0 0 buf2 lst2)) in *.
  (* the name of the file, as the third round reads it *)
  assert (Hsz1 : 0 <= sz1) by apply words_size_nonneg.
  destruct (store_words_beyond 0 0 ws1 0 0 zero_buffer null_arglist
              ltac:(lia)) as (G1 & _).
  assert (Hb1 : forall j, sz1 <= j -> buf1 j = NUL).
  { intros j Hj. unfold buf1. rewrite G1 by (fold sz1; lia). reflexivity. }
  destruct (store_words_first sz1 (n1 + 1) fa (map fst more ++ [last2]) 0
              buf1 lst1 Hb1) as (C1 & C2).
  fold ws2 buf2 in C1, C2.
  assert (Hfa : (length fa <= length input)%nat /\
                (length f3 <= length input)%nat).
  { unfold input, rest2, rest3, last_text, seg_text, sg2.
    cbn [seg_lead seg_words seg_last seg_trail seg_op spaced].
    rewrite !length_app. lia. }
  assert (Hfp : lst3 (n1 + 1) = Some sz1).
  { unfold lst3. cbn [store_words snd]. unfold store_arg.
    rewrite Z.add_0_r, Z.eqb_refl. f_equal. lia. }
  assert (Hfn : cstring_at MAX_INPUT_LEN buf3 sz1 = name).
  { assert (Kfa : Forall word_char fa)
      by (inversion K2 as [|? ? ((_ & Kfa) & _) _]; exact Kfa).
    apply cstring_at_read.
    - unfold name. apply Forall_app. split.
      + apply word_no_NUL. apply Hf3.
      + apply Forall_skipn_list. apply word_no_NUL. exact Kfa.
    - intros i Hi. unfold name in *. rewrite length_overlay in Hi by exact Hshort.
      rewrite nth_overlay by exact Hshort.
      unfold buf3. cbn [store_words fst]. rewrite Z.add_0_r.
      destruct (i <? length f3)%nat eqn:E.
      + apply Nat.ltb_lt in E. apply memcpy_inside. exact E.
      + apply Nat.ltb_ge in E. rewrite memcpy_outside by lia.
        apply C1. exact Hi.
    - unfold name. rewrite length_overlay by exact Hshort.
      unfold buf3. cbn [store_words fst]. rewrite Z.add_0_r.
      rewrite memcpy_outside by lia. exact C2.
    - unfold name. rewrite length_overlay by exact Hshort. lia. }
  (* the three rounds *)
  assert (Hfuel : exists m, length input = S (S m)).
  { destruct H3 as (Hne & _). destruct Hf3 as (Hne3 & _).
    assert (2 <= length input)%nat.
    { unfold input, rest2, rest3, last_text, seg_text.
      cbn [spaced]. rewrite !length_app.
      destruct (seg_last sg); [congruence|]. destruct f3; [congruence|].
      cbn [length]. lia. }
    destruct (length input) as [|[|m]]; try lia. exists m. reflexivity. }
  destruct Hfuel as (m & Hm).
  unfold buildCommandChains. rewrite Hm. cbn [build_loop].
  rewrite (command_round_new sys_open input (build_init zero_buffer null_arglist)
             _ eq_refl eq_refl Hlex1);
    cbn [r_stopReason r_argCount]; [|apply Hop|lia].
  set (node0 := mkCommand 0 STDIN_FILENO STDOUT_FILENO
                          false false false false None).
  set (s1pre := mkBuild n1 (n1 + 1) sz1 sz1
                        (Z.of_nat (length (seg_text sg))) (seg_op sg)
                        0 1 false None 0 (Some 0%nat) None buf1 lst1
                        [node0] []).
  match goal with
  | |- context [react ?s] => change s with s1pre
  end.
  set (p := match seg_op sg with
            | SR_REDIRECT_IN => FdIn 0
            | _ => FdOut 0
            end).
  set (s1 := set_getFd (Some p) (redirect_flags (seg_op sg)) s1pre).
  assert (Hreact : react s1pre = Some s1).
  { unfold s1, p, s1pre, react. cbn [stopReason].
    destruct (seg_op sg); try discriminate H5; reflexivity. }
  rewrite Hreact. cbn [bind].
  assert (Hstop1 : stop_reason_eqb (stopReason s1) SR_DONE = false).
  { unfold s1, s1pre. cbn [stopReason set_getFd].
    destruct (seg_op sg); try discriminate H5; reflexivity. }
  rewrite Hstop1.
  match type of Hlex2 with
  | _ = Some ?r => set (r2 := r) in *
  end.
  assert (Hlex2' :
            processArgs (skipn (Z.to_nat (inputPos s1)) input)
                        (b_argBuffer s1) (argCharsTotal s1)
                        (b_argList s1) (argTotal s1) = Some r2).
  { unfold s1, s1pre.
    cbn [inputPos b_argBuffer argCharsTotal b_argList argTotal set_getFd].
    unfold input. rewrite skipn_consumed. exact Hlex2. }
  rewrite (redirect_round_rejects sys_open input s1 r2 p eq_refl Hlex2')
    by (unfold r2; cbn [r_argCount]; lia).
  cbn [bind].
  set (s2 := report Error_reading_filename (after_lex r2 s1)).
  assert (Hstop2 : stop_reason_eqb (stopReason s2) SR_DONE = false).
  { unfold s2, r2. cbn [stopReason report after_lex r_stopReason].
    destruct op2; try discriminate K5; reflexivity. }
  rewrite Hstop2.
  assert (Hlex3' :
            processArgs (skipn (Z.to_nat (inputPos s2)) input)
                        (b_argBuffer s2) (argCharsTotal s2)
                        (b_argList s2) (argTotal s2) =
            Some (mkLexResult (Z.of_nat (length rest3) + 1) (words_size [f3])
                              buf3 1 lst3 SR_DONE)).
  { unfold s2, r2, s1, s1pre.
    cbn [inputPos b_argBuffer argCharsTotal b_argList argTotal set_getFd
         report after_lex r_processed r_argBuffer r_argList].
    rewrite <- Nat2Z.inj_add, <- length_app.
    unfold input, rest2. rewrite app_assoc, skipn_consumed. exact Hlex3. }
  assert (Hfp' : r_argList (mkLexResult (Z.of_nat (length rest3) + 1)
                              (words_size [f3]) buf3 1 lst3 SR_DONE)
                           (argTotal s2) = Some sz1) by exact Hfp.
  assert (Hfd' : 0 <= sys_open (cstring_at MAX_INPUT_LEN buf3 sz1) (oflags s2)).
  { rewrite Hfn. exact Hfd. }
  rewrite (redirect_round_opens sys_open input s2 _ p sz1 eq_refl Hlex3'
             ltac:(discriminate) eq_refl Hfp' Hfd').
  cbn [r_argBuffer]. rewrite Hfn.
  unfold react. cbn [stopReason set_getFd set_chains keep_args after_lex
                     r_stopReason bind].
  change (stop_reason_eqb SR_DONE SR_DONE) with true. cbv iota.
  eexists. split; [reflexivity|].
  cbn [chains chainCount stderr getFd close_chain
       set_getFd set_chains keep_args after_lex report
       s2 s1 s1pre oflags app].
  split.
  { unfold p, redirected_node, node0.
    destruct (seg_op sg); try discriminate H5; reflexivity. }
  repeat split; reflexivity.
Qed.

Lemma rejected_name_leaves_its_characters_witness :
  let input := seg_text example_redirected
               ++ seg_text example_rejected
               ++ last_text [" "%char] [(["d"%char], ["010"%char])] in
  let name := ["d"%char] ++ skipn (length ["d"%char]) ["b"; "b"; "b"]%char in
  exists b,
    buildCommandChains (fun _ _ => 3) input = Some b /\
    chains b = [redirected_node (seg_op example_redirected)
                  ((fun _ _ => 3) name
                     (redirect_flags (seg_op example_redirected)))] /\
    stderr b = [Error_reading_filename] /\
    chainCount b = 1 /\ getFd b = None.
Proof.
  assert (Hbbb : word ["b"; "b"; "b"]%char).
  { split; [discriminate|].
    repeat constructor; try discriminate; reflexivity. }
  apply (rejected_name_leaves_its_characters (fun _ _ => 3)
           example_redirected [" "%char] ["b"; "b"; "b"]%char [" "%char]
           ["c"%char] [] [] SR_SEQ_CHAIN [" "%char] ["d"%char] ["010"%char]).
  - constructor.
  - constructor; [|constructor]. cbn [fst snd].
    split; [apply letter_is_word | apply blank_is_gap]; cbn; tauto.
  - apply letter_is_word; cbn; tauto.
  - repeat constructor.
  - reflexivity.
  - split; [repeat constructor|].
    split; [constructor; [|constructor]; cbn [fst snd]; split;
            [exact Hbbb | apply blank_is_gap; cbn; tauto]|].
    split; [apply letter_is_word; cbn; tauto|].
    split; [constructor | reflexivity].
  - repeat constructor.
  - apply letter_is_word; cbn; tauto.
  - apply blank_is_gap; cbn; tauto.
  - cbn [length]. lia.
  - apply Nat.ltb_lt. reflexivity.
  - cbv beta. lia.
Defined.

(** * The lexer on arguments made of plain, escaped and quoted pieces *)

(** ** One piece *)

Lemma pos_snoc (pre : list ascii) (x : list ascii) :
  Z.of_nat (length (pre ++ x)) = Z.of_nat (length pre) + Z.of_nat (length x).
Proof. rewrite length_app. lia. Qed.

(** A round that stores the character it meets. *)
Lemma push_round (pre rest : list ascii) (ch : ascii) (bb lb : Z)
      (qd : bool) (qc : ascii) (a : list ascii) (off k : Z)
      (buf : buffer) (l : arglist) :
  plain_char ch ->
  (qd = false -> ISWHITESPACE ch = false /\ ISCONTROLCHAR ch = false) ->
  lex_iter (pre ++ ch :: rest) bb lb
    (in_argument qd qc (Z.of_nat (length pre)) a off k buf l) =
  Continue (in_argument qd qc (Z.of_nat (length (pre ++ [ch]))) (a ++ [ch])
                        off k buf l).
Proof.
  intros (P1 & P2 & P3 & P4) Hq.
  apply Ascii.eqb_neq in P1, P2, P3, P4.
  unfold lex_iter, in_argument. cbn [c escaped quoted].
  rewrite char_at_app. cbn [hd]. rewrite P1, P2, P3, P4.
  cbn [orb andb negb].
  replace ((ISWHITESPACE ch || ISCONTROLCHAR ch) && negb qd) with false.
  - unfold next_round, advance, push_char.
    cbn [escaped quoted quoteChar processed c curArg argsOffset argCount
         argBuffer argList].
    rewrite pos_snoc. reflexivity.
  - destruct qd; [rewrite andb_false_r; reflexivity|].
    destruct (Hq eq_refl) as (W1 & W2). rewrite W1, W2. reflexivity.
Qed.

(** The two rounds of a backslash and the character behind it. *)
Lemma escape_rounds (pre rest : list ascii) (x : ascii) (bb lb : Z)
      (qd : bool) (qc : ascii) (a : list ascii) (off k : Z)
      (buf : buffer) (l : arglist) :
  x <> NUL ->
  lex_rounds 2 (pre ++ BACKSLASH :: x :: rest) bb lb
    (in_argument qd qc (Z.of_nat (length pre)) a off k buf l) =
  Some (in_argument qd qc (Z.of_nat (length (pre ++ [BACKSLASH; x])))
                    (a ++ [x]) off k buf l).
Proof.
  intros Hx.
  rewrite (backslash_then_char _ bb lb _ x); try reflexivity; try assumption.
  - unfold in_argument, advance, push_char.
    cbn [escaped quoted quoteChar processed c curArg argsOffset argCount
         argBuffer argList].
    rewrite pos_snoc. reflexivity.
  - unfold in_argument. cbn [c]. rewrite char_at_app. reflexivity.
  - unfold in_argument. cbn [c]. rewrite char_at_app_next. reflexivity.
Qed.

(** The round of a quote that opens a region. *)
Lemma open_round (pre rest : list ascii) (q : ascii) (bb lb : Z)
      (a : list ascii) (off k : Z) (buf : buffer) (l : arglist) :
  q = SQUOTE \/ q = DQUOTE ->
  lex_iter (pre ++ q :: rest) bb lb
    (in_argument false NUL (Z.of_nat (length pre)) a off k buf l) =
  Continue (in_argument true q (Z.of_nat (length (pre ++ [q]))) a off k buf l).
Proof.
  intros Hq. unfold lex_iter, in_argument. cbn [c escaped quoted].
  rewrite char_at_app. cbn [hd].
  destruct Hq as [-> | ->]; cbn; rewrite pos_snoc; reflexivity.
Qed.

(** The round of the quote that closes it. *)
Lemma close_round (pre rest : list ascii) (q : ascii) (bb lb : Z)
      (a : list ascii) (off k : Z) (buf : buffer) (l : arglist) :
  q = SQUOTE \/ q = DQUOTE ->
  lex_iter (pre ++ q :: rest) bb lb
    (in_argument true q (Z.of_nat (length pre)) a off k buf l) =
  Continue (in_argument false NUL (Z.of_nat (length (pre ++ [q]))) a off k
                        buf l).
Proof.
  intros Hq. unfold lex_iter, in_argument. cbn [c escaped quoted quoteChar].
  rewrite char_at_app. cbn [hd].
  destruct Hq as [-> | ->]; cbn; rewrite pos_snoc; reflexivity.
Qed.

(** The round of a quote of the other kind inside a region: nothing is
    stored. *)
Lemma other_quote_round (pre rest : list ascii) (q ch : ascii) (bb lb : Z)
      (a : list ascii) (off k : Z) (buf : buffer) (l : arglist) :
  (ch = SQUOTE \/ ch = DQUOTE) -> ch <> q ->
  lex_iter (pre ++ ch :: rest) bb lb
    (in_argument true q (Z.of_nat (length pre)) a off k buf l) =
  Continue (in_argument true q (Z.of_nat (length (pre ++ [ch]))) a off k
                        buf l).
Proof.
  intros Hch Hne. unfold lex_iter, in_argument.
  cbn [c escaped quoted quoteChar].
  rewrite char_at_app. cbn [hd]. apply Ascii.eqb_neq in Hne.
  destruct Hch as [-> | ->]; cbn [Ascii.eqb Bool.eqb andb orb negb];
    change (SQUOTE =? NUL)%char with false;
    change (DQUOTE =? NUL)%char with false;
    change (SQUOTE =? BACKSLASH)%char with false;
    change (DQUOTE =? BACKSLASH)%char with false;
    change (SQUOTE =? SQUOTE)%char with true;
    change (DQUOTE =? DQUOTE)%char with true;
    change (DQUOTE =? SQUOTE)%char with false;
    cbn [orb andb negb]; rewrite Hne;
    unfold next_round, advance;
    cbn [escaped quoted quoteChar processed c curArg argsOffset argCount
         argBuffer argList];
    rewrite pos_snoc; reflexivity.
Qed.

(** Both sides are the same text, written with other brackets. *)
Ltac same_text :=
  repeat first [progress cbn [app] | rewrite <- app_assoc]; reflexivity.

Lemma one_round (input : list ascii) (bb lb : Z) (st st' : lex_state) :
  lex_iter input bb lb st = Continue st' ->
  lex_rounds 1 input bb lb st = Some st'.
Proof. intros H. cbn [lex_rounds]. rewrite H. reflexivity. Qed.

(** ** The pieces of a quoted region, and of an argument *)

Lemma qpiece_rounds (rest : list ascii) (bb lb : Z) (q : ascii)
      (off k : Z) (buf : buffer) (l : arglist)
      (p : qpiece) (pre a : list ascii) :
  qpiece_ok q p ->
  lex_rounds (length (qpiece_text p)) (pre ++ qpiece_text p ++ rest) bb lb
    (in_argument true q (Z.of_nat (length pre)) a off k buf l) =
  Some (in_argument true q (Z.of_nat (length (pre ++ qpiece_text p)))
                    (a ++ qpiece_value p) off k buf l).
Proof.
  intros Hp. destruct p as [ch|x|ch]; cbn [qpiece_ok] in Hp;
    cbn [qpiece_text qpiece_value length app].
  - apply one_round. apply push_round; [exact Hp | discriminate].
  - apply escape_rounds. exact Hp.
  - rewrite app_nil_r. apply one_round.
    apply other_quote_round; apply Hp.
Qed.

Lemma qbody_rounds (rest : list ascii) (bb lb : Z) (q : ascii)
      (off k : Z) (buf : buffer) (l : arglist) :
  forall (body : list qpiece) (pre a : list ascii),
    Forall (qpiece_ok q) body ->
    lex_rounds (length (qwritten body)) (pre ++ qwritten body ++ rest) bb lb
      (in_argument true q (Z.of_nat (length pre)) a off k buf l) =
    Some (in_argument true q (Z.of_nat (length (pre ++ qwritten body)))
                      (a ++ qvalue body) off k buf l).
Proof.
  induction body as [|p body IH]; intros pre a Hb.
  - cbn [qwritten qvalue map concat length lex_rounds app].
    rewrite !app_nil_r. reflexivity.
  - inversion Hb as [|? ? Hp Hb']; subst.
    change (qwritten (p :: body)) with (qpiece_text p ++ qwritten body).
    change (qvalue (p :: body)) with (qpiece_value p ++ qvalue body).
    rewrite length_app.
    erewrite lex_rounds_app; cycle 1.
    { rewrite <- app_assoc. apply qpiece_rounds. exact Hp. }
    replace (pre ++ (qpiece_text p ++ qwritten body) ++ rest)
      with ((pre ++ qpiece_text p) ++ qwritten body ++ rest)
      by same_text.
    rewrite IH by exact Hb'.
    rewrite <- !app_assoc. reflexivity.
Qed.

Lemma piece_rounds (rest : list ascii) (bb lb : Z)
      (off k : Z) (buf : buffer) (l : arglist)
      (p : piece) (pre a : list ascii) :
  piece_ok p ->
  lex_rounds (length (piece_text p)) (pre ++ piece_text p ++ rest) bb lb
    (in_argument false NUL (Z.of_nat (length pre)) a off k buf l) =
  Some (in_argument false NUL (Z.of_nat (length (pre ++ piece_text p)))
                    (a ++ piece_value p) off k buf l).
Proof.
  intros Hp. destruct p as [ch|x|q body]; cbn [piece_ok] in Hp;
    cbn [piece_text piece_value].
  - cbn [length app]. apply one_round.
    destruct Hp as (P & W1 & W2).
    apply push_round; [exact P | intros _; split; assumption].
  - cbn [length app]. apply escape_rounds. exact Hp.
  - destruct Hp as (Hq & Hb).
    change (length (q :: qwritten body ++ [q]))
      with (1 + length (qwritten body ++ [q]))%nat.
    rewrite length_app. cbn [length].
    erewrite lex_rounds_app; cycle 1.
    { apply one_round. cbn [app]. apply open_round. exact Hq. }
    erewrite lex_rounds_app; cycle 1.
    { replace (pre ++ (q :: qwritten body ++ [q]) ++ rest)
        with ((pre ++ [q]) ++ qwritten body ++ q :: rest)
        by same_text.
      apply qbody_rounds. exact Hb. }
    apply one_round.
    replace (pre ++ (q :: qwritten body ++ [q]) ++ rest)
      with (((pre ++ [q]) ++ qwritten body) ++ q :: rest)
      by same_text.
    rewrite close_round by exact Hq.
    do 2 f_equal. f_equal; same_text.
Qed.

Lemma pieces_rounds (rest : list ascii) (bb lb : Z)
      (off k : Z) (buf : buffer) (l : arglist) :
  forall (ps : list piece) (pre a : list ascii),
    Forall piece_ok ps ->
    lex_rounds (length (written ps)) (pre ++ written ps ++ rest) bb lb
      (in_argument false NUL (Z.of_nat (length pre)) a off k buf l) =
    Some (in_argument false NUL (Z.of_nat (length (pre ++ written ps)))
                      (a ++ value ps) off k buf l).
Proof.
  induction ps as [|p ps IH]; intros pre a Hps.
  - cbn [written value map concat length lex_rounds app].
    rewrite !app_nil_r. reflexivity.
  - inversion Hps as [|? ? Hp Hps']; subst.
    change (written (p :: ps)) with (piece_text p ++ written ps).
    change (value (p :: ps)) with (piece_value p ++ value ps).
    rewrite length_app.
    erewrite lex_rounds_app; cycle 1.
    { rewrite <- app_assoc. apply piece_rounds. exact Hp. }
    replace (pre ++ (piece_text p ++ written ps) ++ rest)
      with ((pre ++ piece_text p) ++ written ps ++ rest)
      by same_text.
    rewrite IH by exact Hps'.
    rewrite <- !app_assoc. reflexivity.
Qed.

(** ** Arguments and the gaps between them *)

Lemma value_nonempty (ps : list piece) : value ps <> [] -> ps <> [].
Proof. intros H E. subst. apply H. reflexivity. Qed.

Lemma written_head (ps : list piece) (rest : list ascii) :
  Forall piece_ok ps -> ps <> [] ->
  ISWHITESPACE (hd NUL (written ps ++ rest)) = false /\
  ISCONTROLCHAR (hd NUL (written ps ++ rest)) = false.
Proof.
  intros Hps Hne. destruct ps as [|p ps]; [congruence|].
  inversion Hps as [|? ? Hp _]; subst.
  change (written (p :: ps)) with (piece_text p ++ written ps).
  destruct p as [ch|x|q body]; cbn [piece_ok piece_text app hd] in *.
  - destruct (word_char_tests ch Hp) as (_ & _ & _ & _ & T5 & T6).
    split; assumption.
  - split; reflexivity.
  - destruct Hp as ([-> | ->] & _); split; reflexivity.
Qed.

Lemma args_head (ags : list (list piece * list ascii)) (rest : list ascii) :
  Forall (fun a => argument_ok (fst a) /\ gap (snd a)) ags ->
  ISWHITESPACE (hd NUL rest) = false ->
  ISCONTROLCHAR (hd NUL rest) = false ->
  ISWHITESPACE (hd NUL (spaced_args ags ++ rest)) = false /\
  ISCONTROLCHAR (hd NUL (spaced_args ags ++ rest)) = false.
Proof.
  intros Ha H1 H2. destruct ags as [|[ps g] ags]; [split; assumption|].
  inversion Ha as [|? ? ((Hok & Hv) & _) _]; subst. cbn [fst] in *.
  cbn [spaced_args]. rewrite <- app_assoc.
  apply written_head; [exact Hok | apply value_nonempty; exact Hv].
Qed.

(** The loop over arguments and gaps: every argument is flushed when its
    gap is met, into the cells behind those of the arguments before it. *)
Lemma args_rounds (rest : list ascii) (bb lb : Z) :
  ISWHITESPACE (hd NUL rest) = false ->
  ISCONTROLCHAR (hd NUL rest) = false ->
  forall (ags : list (list piece * list ascii)) (pre : list ascii)
         (off k : Z) (buf : buffer) (l : arglist),
    Forall (fun a => argument_ok (fst a) /\ gap (snd a)) ags ->
    lex_rounds (rounds_of_args ags) (pre ++ spaced_args ags ++ rest) bb lb
      (between_words (Z.of_nat (length pre)) off k buf l) =
    Some (between_words (Z.of_nat (length (pre ++ spaced_args ags)))
            (off + words_size (values ags))
            (k + Z.of_nat (length ags))
            (fst (store_words bb lb (values ags) off k buf l))
            (snd (store_words bb lb (values ags) off k buf l))).
Proof.
  intros Hr1 Hr2.
  induction ags as [|[ps g] ags IH]; intros pre off k buf l Ha.
  - cbn. rewrite app_nil_r, !Z.add_0_r. reflexivity.
  - inversion Ha as [|? ? ((Hok & Hv) & Hg) Ha']; subst. cbn [fst snd] in *.
    cbn [values map fst rounds_of_args spaced_args store_words words_size
         length].
    fold (values ags).
    rewrite <- Nat.add_assoc.
    erewrite lex_rounds_app; cycle 1.
    { unfold between_words. rewrite <- !app_assoc.
      apply (pieces_rounds (g ++ spaced_args ags ++ rest) bb lb off k buf l
               ps pre [] Hok). }
    cbn [app Nat.add lex_rounds].
    destruct (args_head ags rest Ha' Hr1 Hr2) as (S1 & S2).
    replace (pre ++ (written ps ++ g ++ spaced_args ags) ++ rest)
      with ((pre ++ written ps) ++ g ++ spaced_args ags ++ rest)
      by same_text.
    unfold in_argument.
    rewrite (gap_round (pre ++ written ps) g (spaced_args ags ++ rest)
               (value ps) bb lb off k buf l Hv Hg S1 S2).
    replace ((pre ++ written ps) ++ g ++ spaced_args ags ++ rest)
      with (((pre ++ written ps) ++ g) ++ spaced_args ags ++ rest)
      by same_text.
    rewrite IH by exact Ha'.
    replace (((pre ++ written ps) ++ g) ++ spaced_args ags)
      with (pre ++ written ps ++ g ++ spaced_args ags)
      by same_text.
    rewrite Nat2Z.inj_succ. unfold between_words. do 2 f_equal; lia.
Qed.

(** ** What is stored can be read back *)

Lemma qvalue_no_NUL (q : ascii) (body : list qpiece) :
  Forall (qpiece_ok q) body -> Forall (fun ch => ch <> NUL) (qvalue body).
Proof.
  induction 1 as [|p body Hp _ IH]; [constructor|].
  change (qvalue (p :: body)) with (qpiece_value p ++ qvalue body).
  apply Forall_app. split; [|exact IH].
  destruct p as [ch|x|ch]; cbn [qpiece_ok qpiece_value] in *.
  - constructor; [apply Hp | constructor].
  - constructor; [exact Hp | constructor].
  - constructor.
Qed.

Lemma value_no_NUL (ps : list piece) :
  Forall piece_ok ps -> Forall (fun ch => ch <> NUL) (value ps).
Proof.
  induction 1 as [|p ps Hp _ IH]; [constructor|].
  change (value (p :: ps)) with (piece_value p ++ value ps).
  apply Forall_app. split; [|exact IH].
  destruct p as [ch|x|q body]; cbn [piece_ok piece_value] in *.
  - constructor; [apply Hp | constructor].
  - constructor; [exact Hp | constructor].
  - apply (qvalue_no_NUL q). apply Hp.
Qed.

Lemma qvalue_length (body : list qpiece) :
  (length (qvalue body) <= length (qwritten body))%nat.
Proof.
  induction body as [|p body IH]; [cbn; lia|].
  change (qvalue (p :: body)) with (qpiece_value p ++ qvalue body).
  change (qwritten (p :: body)) with (qpiece_text p ++ qwritten body).
  rewrite !length_app. destruct p; cbn [qpiece_value qpiece_text length]; lia.
Qed.

Lemma value_length (ps : list piece) :
  (length (value ps) <= length (written ps))%nat.
Proof.
  induction ps as [|p ps IH]; [cbn; lia|].
  change (value (p :: ps)) with (piece_value p ++ value ps).
  change (written (p :: ps)) with (piece_text p ++ written ps).
  rewrite !length_app.
  destruct p as [ch|x|q body]; cbn [piece_value piece_text length];
    try lia.
  pose proof (qvalue_length body). rewrite length_app. cbn [length]. lia.
Qed.

Lemma values_readable (ags : list (list piece * list ascii)) (M : nat) :
  Forall (fun a => argument_ok (fst a) /\ gap (snd a)) ags ->
  (length (spaced_args ags) <= M)%nat ->
  Forall (readable M) (values ags).
Proof.
  induction 1 as [|[ps g] ags ((Hok & _) & _) _ IH]; intros HM;
    cbn [values map spaced_args fst] in *; constructor.
  - split; [apply value_no_NUL; exact Hok|].
    pose proof (value_length ps). rewrite !length_app in HM. lia.
  - apply IH. rewrite !length_app in HM. lia.
Qed.

Lemma rounds_of_args_length (ags : list (list piece * list ascii)) :
  Forall (fun a => argument_ok (fst a) /\ gap (snd a)) ags ->
  (rounds_of_args ags <= length (spaced_args ags))%nat.
Proof.
  induction 1 as [|[ps g] ags (_ & (Hg & _)) _ IH]; [cbn; lia|].
  cbn [rounds_of_args spaced_args snd] in *. rewrite !length_app.
  destruct g; [congruence|]. cbn [length]. lia.
Qed.

(** A vector that was read in full is the front of every longer read. *)
Lemma argv_at_prefix (buf : buffer) (l : arglist) :
  forall (n m : nat) (i : Z) (ws : list (list ascii)),
    argv_at n buf l i = ws -> length ws = n -> (n <= m)%nat ->
    exists others, argv_at m buf l i = ws ++ others.
Proof.
  induction n as [|n IH]; intros m i ws H Hl Hm.
  - destruct ws; [|discriminate Hl]. eexists. reflexivity.
  - destruct m as [|m]; [lia|]. cbn [argv_at] in *.
    destruct (l i) as [p|]; [|subst; discriminate Hl].
    destruct ws as [|w ws]; [discriminate Hl|].
    pose proof (f_equal (hd []) H) as Hw.
    pose proof (f_equal (@tl _) H) as Hws. cbn [hd tl] in Hw, Hws.
    destruct (IH m (i + 1) ws Hws ltac:(cbn [length] in Hl; lia) ltac:(lia))
      as (others & Ho).
    exists others. rewrite Ho, Hw. reflexivity.
Qed.

(** ** Whole calls on arguments *)

(** A call on arguments made of plain characters, escaped characters and
    quoted texts, each but the last followed by a gap and the last by a
    whitespace or control character: the values of the arguments are handed
    out in their order, in front of whatever the rest of the text gives. *)
Lemma processArgs_arguments (g0 rest : list ascii)
      (ags : list (list piece * list ascii)) (last : list piece) (t : ascii)
      (buf : buffer) (bb : Z) (l : arglist) (lb : Z) :
  Forall (fun ch => ISWHITESPACE ch = true) g0 ->
  Forall (fun a => argument_ok (fst a) /\ gap (snd a)) ags ->
  argument_ok last ->
  ISWHITESPACE t || ISCONTROLCHAR t = true ->
  (forall j, bb <= j -> buf j = NUL) ->
  (length (g0 ++ spaced_args ags ++ written last ++ t :: rest)
   < MAX_INPUT_LEN)%nat ->
  exists r others,
    processArgs (g0 ++ spaced_args ags ++ written last ++ t :: rest)
                buf bb l lb = Some r /\
    result_args lb r = values ags ++ value last :: others /\
    Z.of_nat (length ags) < r_argCount r.
Proof.
  intros Hg0 Ha (Hok & Hv) Ht Hz Hlen.
  set (input := g0 ++ spaced_args ags ++ written last ++ t :: rest) in *.
  set (vals := values ags).
  set (sw := store_words bb lb vals 0 0 buf l).
  set (n := Z.of_nat (length (g0 ++ spaced_args ags ++ written last))).
  set (st1 := in_argument false NUL n (value last) (words_size vals)
                          (Z.of_nat (length ags)) (fst sw) (snd sw)).
  set (F := flush_arg bb lb st1).
  set (N := (length g0 + (rounds_of_args ags + length (written last)))%nat).
  assert (Hin : input = (g0 ++ spaced_args ags ++ written last) ++ t :: rest).
  { unfold input. rewrite <- !app_assoc. reflexivity. }
  assert (Hlenin : Z.of_nat (length input) = n + 1 + Z.of_nat (length rest)).
  { rewrite Hin, length_app. cbn [length]. unfold n. lia. }
  assert (Hn : 0 <= n) by (unfold n; lia).
  assert (HN : (N <= length (g0 ++ spaced_args ags ++ written last))%nat).
  { unfold N. pose proof (rounds_of_args_length ags Ha).
    rewrite !length_app. lia. }
  (* the rounds up to the separator *)
  assert (Hrounds : lex_rounds N input bb lb (lex_init buf l) = Some st1).
  { unfold N.
    erewrite lex_rounds_app; cycle 1.
    { apply (leading_whitespace (spaced_args ags ++ written last ++ t :: rest)
               bb lb g0 [] (lex_init buf l) Hg0); reflexivity. }
    cbn [app]. fold input.
    change (advance (Z.of_nat (length g0)) (Z.of_nat (length g0))
                    (lex_init buf l))
      with (between_words (Z.of_nat (length g0)) 0 0 buf l).
    destruct (written_head last (t :: rest) Hok (value_nonempty last Hv))
      as (Hh1 & Hh2).
    erewrite lex_rounds_app; cycle 1.
    { apply (args_rounds (written last ++ t :: rest) bb lb Hh1 Hh2
               ags g0 0 0 buf l Ha). }
    cbn [Z.add]. fold vals. fold sw.
    pose proof (pieces_rounds (t :: rest) bb lb (words_size vals)
                  (Z.of_nat (length ags)) (fst sw) (snd sw)
                  last (g0 ++ spaced_args ags) [] Hok) as Hp.
    cbn [app] in Hp. rewrite <- !app_assoc in Hp.
    unfold between_words. unfold in_argument in Hp.
    unfold input. rewrite Hp. reflexivity. }
  (* the round that meets the separator *)
  assert (Hch : char_at input (c st1) = t).
  { rewrite Hin. cbn [st1 in_argument c]. unfold n. apply char_at_app. }
  assert (Hiter : lex_iter input bb lb st1 = after_flush input F).
  { apply separator_flushes; try reflexivity.
    - exact Hv.
    - rewrite Hch. exact Ht. }
  (* the loop returns, in a state that kept the flushed arguments *)
  set (m := (length input - N)%nat).
  assert (Hm : (S (length input) = N + S m)%nat).
  { unfold m. rewrite Hin, length_app. cbn [length]. lia. }
  assert (Hmn : Z.of_nat (length input) - n <= Z.of_nat m).
  { unfold m, n. lia. }
  assert (Hend : exists st' r',
             lex_loop (S m) input bb lb st1 = Some (st', r') /\
             args_kept bb lb F st').
  { cbn [lex_loop]. rewrite Hiter.
    destruct (after_flush input F) as [st2|st2 r2] eqn:Eaf.
    - assert (Hprog : c st1 < c st2 <= Z.of_nat (length input)).
      { apply (lex_iter_progress input bb lb st1 st2);
          [exact Hn | exact Hiter]. }
      change (c st1) with n in Hprog.
      destruct (lex_loop_total input bb lb m st2) as ([st' r'] & Hl);
        [lia | lia |].
      exists st', r'. split; [exact Hl|].
      eapply args_kept_trans; [|eapply lex_loop_args_kept; exact Hl].
      destruct (after_flush_same input F st2 (or_introl Eaf))
        as (A1 & A2 & A3 & A4).
      apply args_kept_same; assumption.
    - exists st2, r2. split; [reflexivity|].
      destruct (after_flush_same input F st2
                  (or_intror (ex_intro _ r2 Eaf))) as (A1 & A2 & A3 & A4).
      apply args_kept_same; assumption. }
  destruct Hend as (st' & r' & Hloop & K1 & K2 & K3 & K4).
  (* the arrays of the flushed state are those of the stored values *)
  set (ws := vals ++ [value last]).
  assert (Hlv : length vals = length ags) by apply length_map.
  assert (HF : store_words bb lb ws 0 0 buf l = (argBuffer F, argList F)).
  { unfold ws. rewrite store_words_app. fold sw. rewrite Hlv.
    cbn [Z.add store_words]. reflexivity. }
  assert (HcF : argCount F = Z.of_nat (length ws)).
  { unfold ws, F, st1. rewrite length_app, Hlv.
    cbn [length flush_arg in_argument argCount]. lia. }
  assert (HoF : argsOffset F = words_size ws).
  { unfold ws, F, st1. rewrite words_size_app.
    cbn [words_size flush_arg in_argument argsOffset curArg].
    unfold curArgLen. cbn [in_argument curArg]. lia. }
  assert (Hread : argv_at (length ws) (argBuffer st') (argList st') (lb + 0)
                  = ws).
  { apply (store_words_read_framed bb lb (argBuffer st') (argList st')
             ws 0 0 buf l).
    - lia.
    - intros j Hj. apply Hz. lia.
    - unfold ws. apply Forall_app. split.
      + assert (Hr : Forall (readable (length input)) vals).
        { apply values_readable; [exact Ha|].
          unfold input. rewrite !length_app. lia. }
        eapply Forall_impl; [|exact Hr].
        intros w (H1 & H2). split; [exact H1 | lia].
      + constructor; [|constructor]. split.
        * apply value_no_NUL. exact Hok.
        * pose proof (value_length last). unfold input in Hlen.
          rewrite !length_app in Hlen. lia.
    - intros j Hj. rewrite HF. cbn [fst]. apply K4. lia.
    - intros j Hj. rewrite HF. cbn [snd]. apply K3. lia. }
  rewrite Z.add_0_r in Hread.
  destruct (argv_at_prefix (argBuffer st') (argList st') (length ws)
              (Z.to_nat (argCount st')) lb ws Hread eq_refl ltac:(lia))
    as (others & Ho).
  exists (lex_finish (st', r')), others.
  split; [|split].
  - unfold processArgs. fold input. rewrite Hm.
    rewrite (lex_rounds_loop _ bb lb _ _ _ _ Hrounds).
    rewrite Hloop. reflexivity.
  - unfold result_args, lex_finish.
    cbn [r_argCount r_argBuffer r_argList]. rewrite Ho.
    unfold ws. rewrite <- app_assoc. reflexivity.
  - cbn [lex_finish r_argCount]. unfold ws in HcF.
    rewrite length_app, Hlv in HcF. cbn [length] in HcF. lia.
Qed.

(** ** Texts and values of joined pieces *)

Lemma written_app (a b : list piece) : written (a ++ b) = written a ++ written b.
Proof. unfold written. rewrite map_app, concat_app. reflexivity. Qed.

Lemma value_app (a b : list piece) : value (a ++ b) = value a ++ value b.
Proof. unfold value. rewrite map_app, concat_app. reflexivity. Qed.

Lemma qwritten_app (c d : list qpiece) :
  qwritten (c ++ d) = qwritten c ++ qwritten d.
Proof. unfold qwritten. rewrite map_app, concat_app. reflexivity. Qed.

Lemma qvalue_app (c d : list qpiece) : qvalue (c ++ d) = qvalue c ++ qvalue d.
Proof. unfold qvalue. rewrite map_app, concat_app. reflexivity. Qed.

Lemma written_cons (p : piece) (b : list piece) :
  written (p :: b) = piece_text p ++ written b.
Proof. reflexivity. Qed.

Lemma value_cons (p : piece) (b : list piece) :
  value (p :: b) = piece_value p ++ value b.
Proof. reflexivity. Qed.

Lemma qwritten_chars (s : list ascii) : qwritten (map QChar s) = s.
Proof.
  induction s as [|ch s IH]; [reflexivity|].
  cbn [map]. change (qwritten (QChar ch :: map QChar s))
    with (ch :: qwritten (map QChar s)). rewrite IH. reflexivity.
Qed.

Lemma qvalue_chars (s : list ascii) : qvalue (map QChar s) = s.
Proof.
  induction s as [|ch s IH]; [reflexivity|].
  cbn [map]. change (qvalue (QChar ch :: map QChar s))
    with (ch :: qvalue (map QChar s)). rewrite IH. reflexivity.
Qed.

Lemma chars_ok (q : ascii) (s : list ascii) :
  Forall plain_char s -> Forall (qpiece_ok q) (map QChar s).
Proof.
  induction 1 as [|ch s Hch _ IH]; cbn [map]; constructor; assumption.
Qed.

(** ** Quoting and escaping in the arguments of a call *)

(** C7 (amended).  A text without quote, backslash and NUL, wrapped in
    matching single or double quotes, comes out of [processArgs] as its
    content with the quote markers stripped, whitespace and control
    characters in it copied literally.  The quoted text may stand anywhere
    on the line: behind whitespace and any number of arguments with their
    gaps, and with unquoted, escaped or quoted pieces [a] and [b] of the
    same argument right in front of and right behind it; with none of them
    the argument is the content itself.  The argument ends at a whitespace
    or control character, and the argument buffer is zeroed from the
    position the call writes to, as [main] leaves it. *)
Theorem quoted_text_is_one_argument (g0 rest s : list ascii)
        (ags : list (list piece * list ascii)) (a b : list piece)
        (q t : ascii) (buf : buffer) (bb : Z) (l : arglist) (lb : Z) :
  q = SQUOTE \/ q = DQUOTE ->
  Forall plain_char s ->
  Forall (fun ch => ISWHITESPACE ch = true) g0 ->
  Forall (fun ag => argument_ok (fst ag) /\ gap (snd ag)) ags ->
  Forall piece_ok a ->
  Forall piece_ok b ->
  value a ++ s ++ value b <> [] ->
  ISWHITESPACE t || ISCONTROLCHAR t = true ->
  (forall j, bb <= j -> buf j = NUL) ->
  (length (g0 ++ spaced_args ags ++
           written a ++ q :: s ++ q :: written b ++ t :: rest)
   < MAX_INPUT_LEN)%nat ->
  exists r others,
    processArgs (g0 ++ spaced_args ags ++
                 written a ++ q :: s ++ q :: written b ++ t :: rest)
                buf bb l lb = Some r /\
    result_args lb r = values ags ++ (value a ++ s ++ value b) :: others /\
    Z.of_nat (length ags) < r_argCount r.
Proof.
  intros Hq Hs Hg0 Hags Ha Hb Hne Ht Hz Hlen.
  set (last := a ++ Quoted q (map QChar s) :: b).
  assert (Hw : written last ++ t :: rest =
               written a ++ q :: s ++ q :: written b ++ t :: rest).
  { unfold last. rewrite written_app, written_cons.
    cbn [piece_text]. rewrite qwritten_chars. same_text. }
  assert (Hval : value last = value a ++ s ++ value b).
  { unfold last. rewrite value_app, value_cons.
    cbn [piece_value]. rewrite qvalue_chars. reflexivity. }
  assert (Hok : argument_ok last).
  { split; [|rewrite Hval; exact Hne].
    unfold last. apply Forall_app. split; [exact Ha|].
    constructor; [|exact Hb]. cbn [piece_ok].
    split; [exact Hq | apply chars_ok; exact Hs]. }
  rewrite <- Hw in Hlen |- *. rewrite <- Hval.
  apply processArgs_arguments; assumption.
Qed.

Lemma quoted_text_is_one_argument_witness :
  let echo := [Plain "e"%char; Plain "c"%char; Plain "h"%char;
               Plain "o"%char] in
  let s := list_ascii_of_string "a b;c" in
  exists r others,
    processArgs ([] ++ spaced_args [(echo, [" "%char])] ++
                 written [] ++ SQUOTE :: s ++ SQUOTE :: written [] ++
                 ";"%char :: list_ascii_of_string "ls")
                zero_buffer 0 null_arglist 0 = Some r /\
    result_args 0 r =
      values [(echo, [" "%char])] ++ (value [] ++ s ++ value []) :: others /\
    Z.of_nat (length [(echo, [" "%char])]) < r_argCount r.
Proof.
  apply (quoted_text_is_one_argument [] (list_ascii_of_string "ls")
           (list_ascii_of_string "a b;c")
           [([Plain "e"%char; Plain "c"%char; Plain "h"%char;
              Plain "o"%char], [" "%char])]
           [] [] SQUOTE ";"%char zero_buffer 0 null_arglist 0).
  - left; reflexivity.
  - repeat constructor; intro H; discriminate H.
  - constructor.
  - repeat constructor; try (intro H; discriminate H).
  - constructor.
  - constructor.
  - intro H; discriminate H.
  - reflexivity.
  - reflexivity.
  - unfold MAX_INPUT_LEN; simpl; lia.
Defined.

(** C8.  A character [x] right behind a backslash that stands outside
    quotes is copied into the argument as it is, and the backslash is not:
    on a line on which the pieces [a] and [b] stand right in front of the
    backslash and right behind [x], [processArgs] hands out the argument
    made of the value of [a], the character [x] and the value of [b].  [x]
    is any character (whitespace, a control operator, a quote, a
    backslash): it neither ends the argument nor opens a quoted region, and
    only [x] is escaped, [b] being read as usual.  The argument may stand
    anywhere on the line, it ends at a whitespace or control character, and
    the argument buffer is zeroed from the position the call writes to, as
    [main] leaves it. *)
Theorem escaped_char_is_literal (g0 rest : list ascii)
        (ags : list (list piece * list ascii)) (a b : list piece)
        (x t : ascii) (buf : buffer) (bb : Z) (l : arglist) (lb : Z) :
  x <> NUL ->
  Forall (fun ch => ISWHITESPACE ch = true) g0 ->
  Forall (fun ag => argument_ok (fst ag) /\ gap (snd ag)) ags ->
  Forall piece_ok a ->
  Forall piece_ok b ->
  ISWHITESPACE t || ISCONTROLCHAR t = true ->
  (forall j, bb <= j -> buf j = NUL) ->
  (length (g0 ++ spaced_args ags ++
           written a ++ BACKSLASH :: x :: written b ++ t :: rest)
   < MAX_INPUT_LEN)%nat ->
  exists r others,
    processArgs (g0 ++ spaced_args ags ++
                 written a ++ BACKSLASH :: x :: written b ++ t :: rest)
                buf bb l lb = Some r /\
    result_args lb r = values ags ++ (value a ++ x :: value b) :: others /\
    Z.of_nat (length ags) < r_argCount r.
Proof.
  intros Hx Hg0 Hags Ha Hb Ht Hz Hlen.
  set (last := a ++ Escaped x :: b).
  assert (Hw : written last ++ t :: rest =
               written a ++ BACKSLASH :: x :: written b ++ t :: rest).
  { unfold last. rewrite written_app, written_cons.
    cbn [piece_text]. same_text. }
  assert (Hval : value last = value a ++ x :: value b).
  { unfold last. rewrite value_app, value_cons. reflexivity. }
  assert (Hok : argument_ok last).
  { split.
    - unfold last. apply Forall_app. split; [exact Ha|].
      constructor; [exact Hx | exact Hb].
    - rewrite Hval. intro E. destruct (value a); discriminate E. }
  rewrite <- Hw in Hlen |- *. rewrite <- Hval.
  apply processArgs_arguments; assumption.
Qed.

Lemma escaped_char_is_literal_witness :
  let echo := [Plain "e"%char; Plain "c"%char; Plain "h"%char;
               Plain "o"%char] in
  exists r others,
    processArgs ([" "%char] ++ spaced_args [(echo, [" "%char])] ++
                 written [Plain "a"%char] ++ BACKSLASH :: ";"%char ::
                 written [Plain "b"%char] ++
                 " "%char :: list_ascii_of_string "c")
                zero_buffer 0 null_arglist 0 = Some r /\
    result_args 0 r =
      values [(echo, [" "%char])] ++
      (value [Plain "a"%char] ++ ";"%char :: value [Plain "b"%char])
      :: others /\
    Z.of_nat (length [(echo, [" "%char])]) < r_argCount r.
Proof.
  apply (escaped_char_is_literal [" "%char] (list_ascii_of_string "c")
           [([Plain "e"%char; Plain "c"%char; Plain "h"%char;
              Plain "o"%char], [" "%char])]
           [Plain "a"%char] [Plain "b"%char] ";"%char " "%char
           zero_buffer 0 null_arglist 0).
  - intro H; discriminate H.
  - repeat constructor.
  - repeat constructor; try (intro H; discriminate H).
  - repeat constructor; intro H; discriminate H.
  - repeat constructor; intro H; discriminate H.
  - reflexivity.
  - reflexivity.
  - unfold MAX_INPUT_LEN; simpl; lia.
Defined.

(** C10.  Inside a quoted region a backslash is still the escape character:
    it is not copied, and the character [x] behind it is, whatever it is
    (the quote that opened the region included, which then does not close
    it).  On a line on which a region opened by [q] holds the quoted pieces
    [c], the backslash, [x] and the quoted pieces [d], with the pieces [a]
    and [b] of the same argument around the region, [processArgs] hands out
    the argument made of the values of [a] and [c], the character [x] and
    the values of [d] and [b].  The argument may stand anywhere on the
    line, it ends at a whitespace or control character, and the argument
    buffer is zeroed from the position the call writes to, as [main] leaves
    it. *)
Theorem backslash_escapes_inside_quotes (g0 rest : list ascii)
        (ags : list (list piece * list ascii)) (a b : list piece)
        (c d : list qpiece) (q x t : ascii)
        (buf : buffer) (bb : Z) (l : arglist) (lb : Z) :
  q = SQUOTE \/ q = DQUOTE ->
  x <> NUL ->
  Forall (qpiece_ok q) c ->
  Forall (qpiece_ok q) d ->
  Forall (fun ch => ISWHITESPACE ch = true) g0 ->
  Forall (fun ag => argument_ok (fst ag) /\ gap (snd ag)) ags ->
  Forall piece_ok a ->
  Forall piece_ok b ->
  ISWHITESPACE t || ISCONTROLCHAR t = true ->
  (forall j, bb <= j -> buf j = NUL) ->
  (length (g0 ++ spaced_args ags ++
           written a ++ q :: qwritten c ++ BACKSLASH :: x :: qwritten d ++
           q :: written b ++ t :: rest)
   < MAX_INPUT_LEN)%nat ->
  exists r others,
    processArgs (g0 ++ spaced_args ags ++
                 written a ++ q :: qwritten c ++ BACKSLASH :: x ::
                 qwritten d ++ q :: written b ++ t :: rest)
                buf bb l lb = Some r /\
    result_args lb r =
      values ags ++
      (value a ++ qvalue c ++ x :: qvalue d ++ value b) :: others /\
    Z.of_nat (length ags) < r_argCount r.
Proof.
  intros Hq Hx Hc Hd Hg0 Hags Ha Hb Ht Hz Hlen.
  set (last := a ++ Quoted q (c ++ QEscaped x :: d) :: b).
  assert (Hw : written last ++ t :: rest =
               written a ++ q :: qwritten c ++ BACKSLASH :: x ::
               qwritten d ++ q :: written b ++ t :: rest).
  { unfold last. rewrite written_app, written_cons.
    cbn [piece_text]. rewrite qwritten_app.
    change (qwritten (QEscaped x :: d))
      with (BACKSLASH :: x :: qwritten d). same_text. }
  assert (Hval : value last =
                 value a ++ qvalue c ++ x :: qvalue d ++ value b).
  { unfold last. rewrite value_app, value_cons.
    cbn [piece_value]. rewrite qvalue_app.
    change (qvalue (QEscaped x :: d)) with (x :: qvalue d). same_text. }
  assert (Hok : argument_ok last).
  { split.
    - unfold last. apply Forall_app. split; [exact Ha|].
      constructor; [|exact Hb]. cbn [piece_ok]. split; [exact Hq|].
      apply Forall_app. split; [exact Hc|].
      constructor; [exact Hx | exact Hd].
    - rewrite Hval. intro E.
      destruct (value a); [|discriminate E].
      destruct (qvalue c); discriminate E. }
  rewrite <- Hw in Hlen |- *. rewrite <- Hval.
  apply processArgs_arguments; assumption.
Qed.

Lemma backslash_escapes_inside_quotes_witness :
  let echo := [Plain "e"%char; Plain "c"%char; Plain "h"%char;
               Plain "o"%char] in
  exists r others,
    processArgs ([] ++ spaced_args [(echo, [" "%char])] ++
                 written [] ++ DQUOTE :: qwritten [QChar "a"%char] ++
                 BACKSLASH :: DQUOTE :: qwritten [QChar " "%char;
                                                  QChar "b"%char] ++
                 DQUOTE :: written [Plain "c"%char] ++
                 ";"%char :: list_ascii_of_string "ls")
                zero_buffer 0 null_arglist 0 = Some r /\
    result_args 0 r =
      values [(echo, [" "%char])] ++
      (value [] ++ qvalue [QChar "a"%char] ++
       DQUOTE :: qvalue [QChar " "%char; QChar "b"%char] ++
       value [Plain "c"%char]) :: others /\
    Z.of_nat (length [(echo, [" "%char])]) < r_argCount r.
Proof.
  apply (backslash_escapes_inside_quotes [] (list_ascii_of_string "ls")
           [([Plain "e"%char; Plain "c"%char; Plain "h"%char;
              Plain "o"%char], [" "%char])]
           [] [Plain "c"%char]
           [QChar "a"%char] [QChar " "%char; QChar "b"%char]
           DQUOTE DQUOTE ";"%char zero_buffer 0 null_arglist 0).
  - right; reflexivity.
  - intro H; discriminate H.
  - repeat constructor; intro H; discriminate H.
  - repeat constructor; intro H; discriminate H.
  - constructor.
  - repeat constructor; try (intro H; discriminate H).
  - constructor.
  - repeat constructor; intro H; discriminate H.
  - reflexivity.
  - reflexivity.
  - unfold MAX_INPUT_LEN; simpl; lia.
Defined.
